(* ===== verification/_CoqProject ===== *)
-Q . S2P
Prelude.v
PyStr.v
Paths.v
Utf8.v
Errors.v
ApiLimits.v
Json.v
JsonText.v
Effects.v
Constants.v
Types.v
Telemetry.v
ResourceLimits.v
Seccomp.v
Config.v
ImageRegistry.v
Capture.v
Executor.v
Run.v
Store.v
Queue.v
Worker.v
Records.v
Defects.v
Cleanup.v
Daemon.v
Fleet.v
Main.v
ApiRequest.v
ApiServer.v
Cancellation.v
ApiStream.v
ApiAuth.v
