(* ===== verification/Prelude.v ===== *)
(** * Verification of the code-interpreter sandbox

    The core of the program is the Python worker under [src/worker]: a daemon that takes jobs
    (untrusted source code) from a Redis stream, runs each one in a hardened, single-use Docker
    container, streams its output, stores a result and acknowledges the entry.  In front of it is the
    API server under [src/api/src], in TypeScript, which authenticates, limits and validates requests,
    enqueues jobs, reads and cancels them and forwards their output to the client.  The two meet only
    in Redis: the stream of jobs, the record and the result of a job, its cancellation key, its output
    channel and the set of slots of a user.

    ** The parts of the program and the files that model them

    - [Constants.v]: [sandbox/constants.py].  Streams, time-to-live values, statuses, Redis keys.
    - [Errors.v]: [sandbox/errors.py].  One inductive type [exc] for the sandbox errors and for the
      Python and Redis exceptions the handlers tell apart; [isinstance] tests are boolean functions;
      [res] is the result of fallible code.
    - [Types.v]: [sandbox/types.py].  [ExecutionRequest.from_dict] with every exception it can raise,
      [ExecutionResult.to_dict].
    - [ResourceLimits.v]: [sandbox/resource_limits.py].  The table of limits, the clamp, Docker flags.
    - [Seccomp.v]: [sandbox/seccomp.py].  The syscall sets, both profile builders, the profile file and
      its cache, and the semantics of a profile as an interface ([SeccompLaws]).
    - [Config.v]: [config.py].  Settings from the environment; the host path of a job directory.
    - [ImageRegistry.v]: [sandbox/image_registry.py].  The runtimes and their look-up.
    - [Capture.v]: [_OutputCapture] and the decoding loop of [_pump] in [sandbox/executor.py].
    - [Executor.v]: the image check, the work directory and the [docker run] command line
      ([_verify_image], [_prepare_workdir], [_write_file], [_safe_basename], [_build_command]); how
      Docker reads that line and builds the container's environment is an interface ([DockerCli]).
    - [Run.v]: a run ([execute], [_run], [_await_completion], [_terminate], [_pump], [_feed_stdin],
      [_sample] and the cgroup readers, [_cleanup]).
    - [Store.v]: [storage/result_store.py] and [queue/publisher.py].
    - [Queue.v]: [queue/consumer.py].
    - [Worker.v]: one job in [worker.py] ([_process], [_run_job], [_watch_cancel], the finalisers), on
      top of the interface [SandboxExec] of the executor; [Run.v]'s [execute] is proved to keep its
      promises ([execute_laws]).
    - [Daemon.v]: the life of the daemon in [worker.py] ([run], [_consume_loop], [_dispatch],
      [_drain], [_backoff]) as a step relation.
    - [Cleanup.v]: [sandbox/cleanup.py], the reaper of leaked containers and directories.
    - [Telemetry.v]: [telemetry/logging.py], the log line of a record and the root logger.
    - [Main.v]: the process in [worker.py] ([WorkerDaemon.__init__], [_build_minio], [_amain]).
    - [Defects.v]: concrete runs that show deviations.

    And of the API server:

    - [ApiLimits.v]: the Lua scripts of [middleware/rateLimiter.ts] and [services/quota.ts] on sorted
      sets, and the circuit breaker of [services/redis.ts].
    - [ApiRequest.v]: [middleware/validator.ts], and the stream entry and the record of a job.
    - [ApiServer.v]: [services/jobQueue.ts], [services/resultStore.ts], the callers of the scripts, and
      the handlers of [routes/execute.ts] and [routes/jobs.ts].
    - [ApiStream.v]: [services/websocket.ts], a streaming connection as a step system.
    - [ApiAuth.v]: [services/jwt.ts], [middleware/auth.ts] and the key table of [config.ts].

    Some files compose parts.  [Cancellation.v] runs the cancellation of the API and then [_process] of
    a worker over one Redis ([CancelStore]); [ApiRequest.v] decodes the entry of the API with the
    worker's reader, and [ApiStream.v] reads the messages of the worker's publisher.
    [Records.v] runs [_process] over a Redis that keeps a job's two keys ([JobStore]) and shows what
    the API reads there in the end.  [Fleet.v] lets any number of [_process] threads of any number of
    workers interleave over one stream ([StreamLaws]) and crash anywhere.

    Under them, what the source uses of Python: [PyStr.v] and [Paths.v] (text and [os.path]),
    [Utf8.v] (encoding, the incremental decoder with [errors="replace"] and ["ignore"]), [Json.v] and
    [JsonText.v] (values, [json.dumps] in three styles and [JSON.stringify], [json.loads]), [Effects.v]
    (commands, the mutable objects of worker and server, exceptions and the program logic).  The
    Unicode database, the text of floats, the semantics libseccomp gives a profile, the command-line
    rules of [docker run] and the promises of Redis and of the operating system are parameters
    (classes) with documented laws and a concrete instance each; so are, of the API's runtime, [JSON.parse] ([JsRuntime]), the digests and the base64url decoder ([NodeRuntime])
    and a clock that does not go back ([ApiClock]).

    ** How effects are modelled

    Everything the worker asks of Redis, MinIO, Docker, the file system and the clock is a command
    ([cmd]) with an answer or an exception.  A [Handler] is an arbitrary function from commands to
    answers over an arbitrary environment, so the theorems hold for every behaviour of the outside
    world, including the effects of other workers.  A computation threads the environment, the
    process's own objects ([Mem]: caches, metrics, the server's breaker) and the trace of commands; most safety theorems
    speak about that trace.  Times are in microseconds.  [wp] and [returns] give the outcome of a
    computation, [emits] the commands it may add, [evolves] the state it keeps.

    Concurrency.  Inside a run, the pumps, the feeder of standard input and the sampler advance while
    the main task waits, by a list of steps the environment chooses; a pipe that never closes makes
    the wait for the pumps end with an exception only.  In the daemon, the loop
    interleaves at its awaits with finishing jobs and stop requests; the commands of a job are recorded
    as one block when it finishes, so the daemon's theorems say nothing about the order of commands of
    different jobs.  In a streaming connection every callback and every continuation after an [await]
    is an event of its own, in any order; the outcomes of what it waits for are inputs of the events.

    ** What the theorems show

    - Isolation: for an image name that is no option, the command line cannot be injected into and
      always carries the hardening options and the read-only mount; a request cannot override
      reserved variables; writes stay in the directory made for the job; no profile permits a
      dangerous call; every profile decides calls as the policy says, and the file Docker is given
      has the profile of the job's language.
    - Running: a started container is always removed with its directory; the status of a result says
      how the run ended, and its flags and exit code always agree with it; captured output is capped
      and is otherwise exactly the decoding of all the bytes both pipes delivered until they closed.
    - Delivery: an entry is acknowledged only after the text of a terminal result of its job was
      written, for one job, for the whole history of a daemon and for a fleet of workers that crash;
      while nobody else writes them, the record and the result of a job end up telling the same; an unreachable Docker keeps the entry; poison messages do not start; a
      run ends before its entry can be taken over.
    - The pool: never more jobs than slots, never more fetched than can be started; after a requested
      stop the daemon stops within finitely many steps, and not before every job in flight has been
      run to its end.
    - Housekeeping: the reaper removes exactly what its rules say and no young container or directory.
    - Admission: within any window at most the limit of requests is admitted (for times that do not go
      back), and of a user's slots at most the limit is granted and alive, for a time to live that is
      shortened by twice the largest difference between a server's clock and Redis's; a refused request is told exactly how long to wait; the
      breaker is open exactly when its specification says.
    - The routes: only a caller with a valid key, a signed and unexpired token or the permission to be
      anonymous gets in, and a job is seen and cancelled only by its owner; 202 means that Redis
      confirmed entry and record; the long poll ends; a cancelled job never runs while its key lives.
    - Across the queue: what the validator lets through the worker reads as the same request and
      accepts; what the worker publishes reaches the client as the frame with the same content.
    - Streams: a connection is counted once, gives back its slot and its Redis connection, and always
      ends; the exception, a socket that closes before its job has a slot, is proved too
      ([early_close_leaks]).
    - Data: requests, results, profiles and log records survive their text; limits and timeouts stay
      within their bounds; configuration and look-ups fail exactly where they should, and a bad
      configuration stops the process before it does anything.

    ** Fuel and bounds

    [digits] has the binary logarithm of the number as fuel ([digits_fuel]); the UTF-8 decoder
    consumes at least one byte per turn ([decode_loop_fuel]); the JSON reader gets twice the length of
    the text, which [need_length] and [loads_render] show to be enough for printed values.
    [run_forever] and [_watch_cancel] take the number of turns as an argument: their theorems hold for
    every number.  [waitForTerminal] takes a number of polls, and two more than the window has
    intervals are shown to be enough ([waitForTerminal_ends]).  [json.loads] on text nested deeper than the interpreter's recursion limit raises
    [RecursionError] in Python; the reader here does not.

    ** Not modelled

    [main] (it only calls [asyncio.run]), the subprocess primitives [_default_spawn] and
    [_default_simple] (they are the commands [DSpawn] and [DSimple]; constructing the Redis and MinIO
    clients, serving metrics and installing a signal handler are commands too), the texts of
    exceptions that only reach the log, and log calls themselves.  In [Daemon.v] the commands of one
    job are recorded as a block when the job ends; [Fleet.v] has the finer interleaving.  [Records.v]
    assumes that nobody else writes a job's keys while it is processed; what happens when the API
    cancels a job meanwhile is shown on examples only ([Defects.v], [Cancellation.v]).

    Of the API server: the type checks and messages of zod (the validator starts from a body of the
    declared types, with the entries of the variables that zod's parser has kept, the first frame of a stream from a decoder that is a parameter), the wiring of
    Express with its headers, metrics, tracing and probes, [drainInFlight], [getResult] and the MinIO
    helpers, the other settings of [config.ts], and the parsing of URLs.  [ApiStream.v] takes the
    answers of the limiter, the slot script and the queue as inputs, whose own behaviour is in
    [ApiServer.v].  Integers of messages are taken below 2^53, where JavaScript is exact.  The web
    client, the runtime images and the deployment files have no logic of this kind.

    What could still be added: the interleaving of the API's cancellation with [patch_record], the
    number of attempts of an entry under the delivery counts of Redis, and the shutdown of the API. *)
From Stdlib Require Export ZArith Lia.
From stdpp Require Export base tactics gmap strings sorting numbers.
From stdpp Require Export list.
From stdpp Require Import options.

#[global] Set Default Proof Using "Type".
Global Open Scope Z_scope.

(** ** Text and bytes

    A Python [str] is a sequence of Unicode code points and a Python [bytes] a sequence of
    integers in [0, 256); both are lists of [Z].  [u "..."] writes an ASCII literal. *)
Abbreviation pystr := (list Z).
Abbreviation bytes := (list Z).

Fixpoint u (s : string) : pystr :=
  match s with
  | EmptyString => []
  | String a s' => Z.of_N (Ascii.N_of_ascii a) :: u s'
  end.
Arguments u s%_string_scope : simpl never.

Declare Scope py_scope.
Delimit Scope py_scope with py.

(** Python's [==] and [in] on values with decidable equality, as booleans. *)
Notation "x =s y" := (bool_decide (x = y)) (at level 70, no associativity) : py_scope.
Global Open Scope py_scope.

(** ** Automation

    [sandbox] collects the lemmas that close the routine side conditions; [py_case] splits on the
    first undecided test of a goal or hypothesis, and [py_simpl] normalises boolean decisions. *)
Create HintDb sandbox.

Ltac py_simpl :=
  repeat match goal with
  | H : Some _ = Some _ |- _ => injection H as H
  | H : bool_decide _ = true |- _ => apply bool_decide_eq_true_1 in H
  | H : bool_decide _ = false |- _ => apply bool_decide_eq_false_1 in H
  | H : _ && _ = true |- _ => apply andb_true_iff in H as [??]
  | H : _ || _ = false |- _ => apply orb_false_iff in H as [??]
  | H : negb _ = true |- _ => apply negb_true_iff in H
  | H : negb _ = false |- _ => apply negb_false_iff in H
  | H : (_ <? _) = true |- _ => apply Z.ltb_lt in H
  | H : (_ <? _) = false |- _ => apply Z.ltb_ge in H
  | H : (_ <=? _) = true |- _ => apply Z.leb_le in H
  | H : (_ <=? _) = false |- _ => apply Z.leb_gt in H
  | H : (_ =? _) = true |- _ => apply Z.eqb_eq in H
  | H : (_ =? _) = false |- _ => apply Z.eqb_neq in H
  end.

Ltac py_case :=
  match goal with
  | |- context [if ?b then _ else _] => destruct b eqn:?
  | H : context [if ?b then _ else _] |- _ => destruct b eqn:?
  | |- context [match ?x with _ => _ end] => destruct x eqn:?
  | H : context [match ?x with _ => _ end] |- _ => destruct x eqn:?
  end; py_simpl; simplify_eq/=.

(** Decides a closed goal by evaluating its [Decision] instance. *)
Ltac by_compute := refine (bool_decide_unpack _ _); vm_compute; exact I.

(** ** Sets of strings

    Python's [x in s], [s <= t] and [s.isdisjoint(t)] as boolean functions.  Deciding them through
    a definition keeps instance search from evaluating large literal sets. *)
Definition in_set (x : pystr) (s : gset pystr) : bool := bool_decide (x ∈ s).
Definition subset (s t : gset pystr) : bool := bool_decide (s ⊆ t).
Definition disjoint_sets (s t : gset pystr) : bool := bool_decide (s ## t).

Lemma in_set_true x s : in_set x s = true ↔ x ∈ s.
Proof. apply bool_decide_eq_true. Qed.
Lemma in_set_false x s : in_set x s = false ↔ x ∉ s.
Proof. apply bool_decide_eq_false. Qed.
Lemma subset_true s t : subset s t = true ↔ s ⊆ t.
Proof. apply bool_decide_eq_true. Qed.
Lemma disjoint_sets_true s t : disjoint_sets s t = true ↔ s ## t.
Proof. apply bool_decide_eq_true. Qed.

(** ** Literal names

    Facts about sets of literal names are decided on the literals themselves: comparing two strings
    is cheap where building the trie of a large set is not. *)
#[export] Instance u_inj : Inj (=) (=) u.
Proof.
  intros s. induction s as [|a s IH]; intros [|b s'] H; try done. cbn in H.
  injection H as Ha Hs%IH. apply N2Z.inj, (f_equal Ascii.ascii_of_N) in Ha.
  rewrite !Ascii.ascii_N_embedding in Ha. by subst.
Qed.

Definition has_name (l : list string) (s : string) : bool := existsb (String.eqb s) l.

Lemma has_name_true l s : has_name l s = true ↔ s ∈ l.
Proof.
  unfold has_name. rewrite existsb_exists, list_elem_of_In. split.
  - by intros (x & Hx & ->%String.eqb_eq).
  - intros H. exists s. by rewrite String.eqb_refl.
Qed.

Lemma elem_of_names s l : u s ∈ (list_to_set (map u l) : gset pystr) ↔ has_name l s = true.
Proof.
  rewrite elem_of_list_to_set, has_name_true, list_elem_of_fmap. split.
  - by intros (x & ->%(inj u) & Hx).
  - intros H. by exists s.
Qed.

Lemma elem_of_names_inv x l : x ∈ (list_to_set (map u l) : gset pystr) → ∃ s, x = u s ∧ s ∈ l.
Proof. rewrite elem_of_list_to_set, list_elem_of_fmap. naive_solver. Qed.

Lemma names_disjoint l l' :
  forallb (λ s, negb (has_name l' s)) l = true →
  (list_to_set (map u l) : gset pystr) ## list_to_set (map u l').
Proof.
  intros H x (s & -> & Hs)%elem_of_names_inv Hx%elem_of_names.
  rewrite forallb_forall in H. apply list_elem_of_In, H in Hs. by rewrite Hx in Hs.
Qed.

(** ** Lists *)

(** [dropWhile]: the suffix from the first element that fails the test. *)
Fixpoint drop_while {A} (f : A → bool) (l : list A) : list A :=
  match l with
  | [] => []
  | x :: l' => if f x then drop_while f l' else l
  end.

(** The index-free [all(...)] of Python. *)
Definition all_of {A} (f : A → bool) (l : list A) : bool := forallb f l.

Section ListLemmas.
Context {A : Type}.
Implicit Types (l k : list A) (f : A → bool).

Lemma all_of_true f l : all_of f l = true ↔ ∀ x, x ∈ l → f x = true.
Proof.
  unfold all_of. rewrite forallb_forall. split; intros H x Hx; apply H.
  - by apply list_elem_of_In.
  - by apply list_elem_of_In.
Qed.

Lemma drop_while_all f l : (∀ x, x ∈ l → f x = true) → drop_while f l = [].
Proof.
  induction l as [|x l IH]; intros H; [done|]. simpl.
  rewrite H by set_solver. apply IH. set_solver.
Qed.

Lemma drop_while_head f x l : f x = false → drop_while f (x :: l) = x :: l.
Proof. intros H. simpl. by rewrite H. Qed.

Lemma prefix_app_inv_length l1 l2 k1 k2 :
  l1 ++ k1 = l2 ++ k2 → (length l1 ≤ length l2)%nat → l1 `prefix_of` l2.
Proof.
  revert l2. induction l1 as [|x l1 IH]; intros l2 H Hlen; [apply prefix_nil|].
  destruct l2 as [|y l2]; simpl in *; [lia|]. simplify_eq.
  apply prefix_cons. apply IH; [done|lia].
Qed.

Lemma concat_snoc (ls : list (list A)) l : concat (ls ++ [l]) = concat ls ++ l.
Proof. rewrite concat_app. simpl. by rewrite app_nil_r. Qed.

End ListLemmas.

(** ** Decimal notation of integers: [str(n)] *)

Fixpoint digits_aux (fuel : nat) (n : Z) (acc : pystr) : pystr :=
  match fuel with
  | O => acc
  | S fuel' =>
      if n <? 10 then (48 + n) :: acc
      else digits_aux fuel' (n / 10) ((48 + n mod 10) :: acc)
  end.

(** Digits of a non-negative integer; [log2 n + 1] steps are enough since [n < 2^(log2 n + 1)]. *)
Definition digits (n : Z) : pystr := digits_aux (S (Z.to_nat (Z.log2 n))) n [].

Definition str_of_int (z : Z) : pystr := if z <? 0 then 45 :: digits (- z) else digits z.

(** [lo <= c <= hi] *)
Definition in_range (lo hi c : Z) : bool := (lo <=? c) && (c <=? hi).

Lemma in_range_true lo hi c : in_range lo hi c = true ↔ lo ≤ c ≤ hi.
Proof. unfold in_range. rewrite andb_true_iff, !Z.leb_le. done. Qed.

Lemma in_range_false lo hi c : in_range lo hi c = false ↔ c < lo ∨ hi < c.
Proof. unfold in_range. rewrite andb_false_iff, !Z.leb_gt. done. Qed.

Definition is_digit (c : Z) : bool := (48 <=? c) && (c <=? 57).

(** The value of a digit string, most significant digit first. *)
Definition digits_value (acc : Z) (s : pystr) : Z := fold_left (λ a c, a * 10 + (c - 48)) s acc.

Lemma digits_aux_value fuel n acc :
  0 ≤ n < 10 ^ Z.of_nat fuel →
  digits_value 0 (digits_aux fuel n acc) = digits_value n acc.
Proof.
  revert n acc. induction fuel as [|fuel IH]; intros n acc Hn.
  { simpl in *. replace n with 0 by lia. done. }
  rewrite Nat2Z.inj_succ, Z.pow_succ_r in Hn by lia. simpl.
  destruct (n <? 10) eqn:E; py_simpl.
  - unfold digits_value. simpl. f_equal. lia.
  - rewrite IH by (split; [apply Z.div_pos; lia | apply Z.div_lt_upper_bound; lia]).
    unfold digits_value. simpl. f_equal.
    rewrite (Z.div_mod n 10) at 3 by lia. lia.
Qed.

Lemma digits_fuel n : 0 ≤ n → n < 10 ^ Z.of_nat (S (Z.to_nat (Z.log2 n))).
Proof.
  intros Hn. rewrite Nat2Z.inj_succ, Z2Nat.id by apply Z.log2_nonneg.
  destruct (decide (n = 0)) as [->|]; [done|].
  pose proof (Z.log2_spec n ltac:(lia)) as [_ Hlt].
  eapply Z.lt_le_trans; [exact Hlt|].
  apply Z.pow_le_mono_l. lia.
Qed.

Lemma digits_value_digits n : 0 ≤ n → digits_value 0 (digits n) = n.
Proof.
  intros Hn. unfold digits. rewrite digits_aux_value; [done|].
  split; [done|]. by apply digits_fuel.
Qed.

(** The number of digits. *)
Lemma digits_aux_length fuel n acc k :
  0 ≤ n < 10 ^ Z.of_nat (S k) → (length (digits_aux fuel n acc) ≤ S k + length acc)%nat.
Proof.
  revert n acc k. induction fuel as [|fuel IH]; intros n acc k Hn; simpl; [lia|].
  destruct (n <? 10) eqn:E; py_simpl; [simpl; lia|].
  destruct k as [|k]; [change (10 ^ Z.of_nat 1) with 10 in Hn; lia|].
  specialize (IH (n / 10) ((48 + n mod 10) :: acc) k). simpl in IH.
  rewrite Nat2Z.inj_succ, Z.pow_succ_r in Hn by lia.
  enough (0 ≤ n / 10 < 10 ^ Z.of_nat (S k)) by lia.
  split; [apply Z.div_pos; lia|apply Z.div_lt_upper_bound; lia].
Qed.

Lemma digits_length n k : 0 ≤ n < 10 ^ Z.of_nat (S k) → (length (digits n) ≤ S k)%nat.
Proof. intros H. pose proof (digits_aux_length (S (Z.to_nat (Z.log2 n))) n [] k H) as Hl. simpl in Hl. unfold digits. simpl. lia. Qed.

Lemma digits_value_bound s acc :
  0 ≤ acc → Forall (λ c, is_digit c = true) s →
  digits_value acc s < (acc + 1) * 10 ^ Z.of_nat (length s).
Proof.
  intros Ha H. revert acc Ha. induction H as [|c s Hc _ IH]; intros acc Ha; [simpl; lia|].
  unfold is_digit in Hc. rewrite andb_true_iff, !Z.leb_le in Hc.
  change (digits_value acc (c :: s)) with (digits_value (acc * 10 + (c - 48)) s).
  specialize (IH (acc * 10 + (c - 48)) ltac:(lia)). cbn [length]. rewrite Nat2Z.inj_succ, Z.pow_succ_r by lia.
  pose proof (Z.pow_pos_nonneg 10 (Z.of_nat (length s))). nia.
Qed.

Lemma digits_aux_digit fuel n acc :
  0 ≤ n → Forall (λ c, is_digit c = true) acc →
  Forall (λ c, is_digit c = true) (digits_aux fuel n acc).
Proof.
  revert n acc. induction fuel as [|fuel IH]; intros n acc Hn Hacc; simpl; [done|].
  destruct (n <? 10) eqn:E; py_simpl.
  - constructor; [|done]. unfold is_digit. rewrite andb_true_iff, !Z.leb_le. lia.
  - apply IH; [apply Z.div_pos; lia|]. constructor; [|done].
    pose proof (Z.mod_pos_bound n 10). unfold is_digit. rewrite andb_true_iff, !Z.leb_le. lia.
Qed.

Lemma digits_digit n : 0 ≤ n → Forall (λ c, is_digit c = true) (digits n).
Proof. intros. by apply digits_aux_digit. Qed.

Lemma digits_aux_nonempty fuel n acc : fuel ≠ O → digits_aux fuel n acc ≠ [].
Proof.
  assert (∀ fuel n acc, acc ≠ [] → digits_aux fuel n acc ≠ []) as Hacc.
  { clear. intros fuel. induction fuel as [|fuel IH]; intros n acc H; simpl; [done|].
    destruct (n <? 10); [done|]. by apply IH. }
  destruct fuel as [|fuel]; [done|]. intros _. simpl.
  destruct (n <? 10); [done|]. by apply Hacc.
Qed.

Lemma digits_nonempty n : digits n ≠ [].
Proof. by apply digits_aux_nonempty. Qed.

Lemma str_of_int_nonempty z : str_of_int z ≠ [].
Proof. unfold str_of_int. destruct (z <? 0); [done|]. apply digits_nonempty. Qed.

Lemma digits_inj n m : 0 ≤ n → 0 ≤ m → digits n = digits m → n = m.
Proof.
  intros Hn Hm E. rewrite <- (digits_value_digits n), <- (digits_value_digits m) by done.
  by rewrite E.
Qed.

#[export] Instance str_of_int_inj : Inj (=) (=) str_of_int.
Proof.
  assert (∀ n k, 0 ≤ n → digits n ≠ 45 :: k) as Hminus.
  { intros n k Hn E. pose proof (digits_digit n Hn) as Hd. rewrite E in Hd.
    by inversion Hd. }
  intros x y. unfold str_of_int.
  destruct (x <? 0) eqn:Ex, (y <? 0) eqn:Ey; py_simpl; intros E.
  - injection E as E. apply digits_inj in E; lia.
  - symmetry in E. by apply Hminus in E.
  - by apply Hminus in E.
  - apply digits_inj in E; lia.
Qed.

Example str_of_int_example : str_of_int 1048576 = u "1048576" ∧ str_of_int (-7) = u "-7".
Proof. done. Qed.

#[export] Hint Resolve digits_nonempty str_of_int_nonempty digits_digit : sandbox.
