(* ===== verification/PyStr.v ===== *)
(** * The parts of Python's [str] the worker uses

    Text predicates and transformations ([startswith], [in], [strip], [split], [splitlines],
    [removesuffix], [replace], [int(...)]) and the POSIX path functions of [os.path].  The Unicode
    character database is a parameter ([PyRuntime]) with the laws that fix it on ASCII. *)
From S2P Require Import Prelude.
From stdpp Require Import options.

(** ** ASCII *)

Definition is_ascii (s : pystr) : Prop := Forall (λ c, 0 ≤ c < 128) s.

Definition ascii_upper (c : Z) : Z := if (97 <=? c) && (c <=? 122) then c - 32 else c.
Definition ascii_lower (c : Z) : Z := if (65 <=? c) && (c <=? 90) then c + 32 else c.
Definition ascii_isalnum (c : Z) : bool :=
  is_digit c || ((65 <=? c) && (c <=? 90)) || ((97 <=? c) && (c <=? 122)).

(** ** The Unicode database

    [str.isalnum] and the decimal value of one code point, and the case mappings of a string (case
    mapping is not character by character: it can lengthen a string and depends on context). *)
Class PyRuntime := {
  isalnum : Z → bool;
  decimal_value : Z → option Z;
  str_upper : pystr → pystr;
  str_lower : pystr → pystr;
}.

(** What the Python documentation fixes of it: the ASCII range, and that a decimal value is one. *)
Class PyRuntimeLaws `{!PyRuntime} : Prop := {
  isalnum_ascii c : 0 ≤ c < 128 → isalnum c = ascii_isalnum c;
  decimal_value_ascii c : 0 ≤ c < 128 → decimal_value c = if is_digit c then Some (c - 48) else None;
  decimal_value_range c d : decimal_value c = Some d → 0 ≤ d ≤ 9;
  str_upper_ascii s : is_ascii s → str_upper s = map ascii_upper s;
  str_lower_ascii s : is_ascii s → str_lower s = map ascii_lower s;
}.

(** The runtime that knows ASCII only. *)
Module AsciiRuntime.
#[export] Instance ascii_runtime : PyRuntime := {
  isalnum := ascii_isalnum;
  decimal_value c := if is_digit c then Some (c - 48) else None;
  str_upper := map ascii_upper;
  str_lower := map ascii_lower;
}.

#[export] Instance ascii_runtime_laws : PyRuntimeLaws.
Proof.
  split; try done.
  intros c d H. simpl in H. unfold is_digit in H. repeat py_case. lia.
Qed.
End AsciiRuntime.

(** ** Searching *)

(** [s.startswith(p)] *)
Definition startswith (s p : pystr) : bool := bool_decide (p `prefix_of` s).

(** [s.endswith(p)] *)
Definition endswith (s p : pystr) : bool := bool_decide (p `suffix_of` s).

(** [sub in s] *)
Fixpoint str_contains (sub s : pystr) : bool :=
  startswith s sub || match s with [] => false | _ :: s' => str_contains sub s' end.

(** [s.removesuffix(p)] *)
Definition removesuffix (s p : pystr) : pystr :=
  if endswith s p then take (length s - length p) s else s.

(** [s.replace(a, b)] for one-character [a] and [b] *)
Definition replace_char (a b : Z) (s : pystr) : pystr := map (λ c, if c =? a then b else c) s.

(** [sep.join(parts)] *)
Fixpoint join (sep : pystr) (parts : list pystr) : pystr :=
  match parts with
  | [] => []
  | [p] => p
  | p :: ps => p ++ sep ++ join sep ps
  end.

(** ** White space

    [isspace] is the set of [str.isspace]: the ASCII separators and controls, NEL, NBSP and the
    Unicode space separators. *)
Definition isspace (c : Z) : bool :=
  ((9 <=? c) && (c <=? 13)) || ((28 <=? c) && (c <=? 32)) || (c =? 133) || (c =? 160)
  || (c =? 5760) || ((8192 <=? c) && (c <=? 8202)) || (c =? 8232) || (c =? 8233)
  || (c =? 8239) || (c =? 8287) || (c =? 12288).

Definition lstrip (s : pystr) : pystr := drop_while isspace s.
Definition rstrip (s : pystr) : pystr := rev (drop_while isspace (rev s)).

(** [s.strip()] *)
Definition strip (s : pystr) : pystr := rstrip (lstrip s).

(** [s.split()]: maximal runs of non-space characters; [cur] is the run being read, reversed. *)
Fixpoint split_ws_aux (cur s : pystr) : list pystr :=
  match s with
  | [] => match cur with [] => [] | _ => [rev cur] end
  | c :: s' =>
      if isspace c then
        match cur with [] => split_ws_aux [] s' | _ => rev cur :: split_ws_aux [] s' end
      else split_ws_aux (c :: cur) s'
  end.
Definition split_ws (s : pystr) : list pystr := split_ws_aux [] s.

(** [s.split(sep)] for a one-character [sep] *)
Fixpoint split_char_aux (sep : Z) (cur s : pystr) : list pystr :=
  match s with
  | [] => [rev cur]
  | c :: s' =>
      if c =? sep then rev cur :: split_char_aux sep [] s' else split_char_aux sep (c :: cur) s'
  end.
Definition split_char (sep : Z) (s : pystr) : list pystr := split_char_aux sep [] s.

(** The line boundaries of [str.splitlines]. *)
Definition is_linebreak (c : Z) : bool :=
  ((10 <=? c) && (c <=? 13)) || ((28 <=? c) && (c <=? 30)) || (c =? 133) || (c =? 8232) || (c =? 8233).

(** [s.splitlines()]: CR LF is one boundary; a final boundary adds no empty line. *)
Fixpoint splitlines_aux (cur s : pystr) : list pystr :=
  match s with
  | [] => match cur with [] => [] | _ => [rev cur] end
  | c :: s' =>
      if c =? 13 then
        rev cur :: match s' with
                   | d :: s'' => if d =? 10 then splitlines_aux [] s'' else splitlines_aux [] s'
                   | [] => []
                   end
      else if is_linebreak c then rev cur :: splitlines_aux [] s'
      else splitlines_aux (c :: cur) s'
  end.
Definition splitlines (s : pystr) : list pystr := splitlines_aux [] s.

(** ** [int(text)]

    Leading and trailing space, one optional sign, then decimal digits with single underscores
    between them.  More than 4300 digits raise [ValueError] too.  [None] is the [ValueError]. *)
Definition INT_MAX_STR_DIGITS : nat := 4300.

(** Below 127 only the C [isspace] characters count; above, the Unicode ones. *)
Definition int_space (c : Z) : bool :=
  ((9 <=? c) && (c <=? 13)) || (c =? 32) || ((127 <=? c) && isspace c).

Section PyInt.
Context `{!PyRuntime}.

(** Digits with underscores; [prev] tells whether the previous character was a digit. *)
Fixpoint parse_digits (prev : bool) (count : nat) (acc : Z) (s : pystr) : option Z :=
  match s with
  | [] => if prev && (count <=? INT_MAX_STR_DIGITS)%nat then Some acc else None
  | c :: s' =>
      if c =? 95 then (if prev then parse_digits false count acc s' else None)
      else match decimal_value c with
           | Some d => parse_digits true (S count) (acc * 10 + d) s'
           | None => None
           end
  end.

Definition py_int (s : pystr) : option Z :=
  let s := rev (drop_while int_space (rev (drop_while int_space s))) in
  match s with
  | c :: s' =>
      if c =? 45 then Z.opp <$> parse_digits false 0 0 s'
      else if c =? 43 then parse_digits false 0 0 s'
      else parse_digits false 0 0 s
  | [] => None
  end.

End PyInt.

(** ** Words *)

Definition no_space (s : pystr) : Prop := Forall (λ c, isspace c = false) s.

Lemma lstrip_id c s : isspace c = false → lstrip (c :: s) = c :: s.
Proof. intros H. unfold lstrip. simpl. by rewrite H. Qed.

(** Text whose first and last characters are not space is not changed by [strip]. *)
Lemma strip_id c d s t :
  c :: s = t ++ [d] → isspace c = false → isspace d = false → strip (c :: s) = c :: s.
Proof.
  intros E Hc Hd. unfold strip, rstrip. rewrite lstrip_id by done. rewrite E, rev_app_distr. simpl.
  rewrite Hd. simpl. by rewrite rev_involutive.
Qed.

Lemma join_Forall (P : Z → Prop) sep ps : Forall P sep → Forall (Forall P) ps → Forall P (join sep ps).
Proof.
  intros Hs. induction 1 as [|p ps Hp Hps IH]; [constructor|]. destruct ps as [|q ps]; [done|].
  change (join sep (p :: q :: ps)) with (p ++ sep ++ join sep (q :: ps)). rewrite !Forall_app. auto.
Qed.

Lemma split_ws_aux_word cur w s :
  no_space w → split_ws_aux cur (w ++ s) = split_ws_aux (rev w ++ cur) s.
Proof.
  intros H. revert cur. induction H as [|c w Hc _ IH]; intros cur; [done|]. simpl.
  rewrite Hc, IH. by rewrite <- app_assoc.
Qed.

Lemma split_ws_last w : no_space w → w ≠ [] → split_ws w = [w].
Proof.
  intros H Hne. unfold split_ws. rewrite <- (app_nil_r w) at 1. rewrite split_ws_aux_word by done.
  rewrite app_nil_r. simpl. destruct (rev w) eqn:E; [|by rewrite <- E, rev_involutive].
  apply (f_equal (@rev Z)) in E. by rewrite rev_involutive in E.
Qed.

Lemma split_ws_word w s : no_space w → w ≠ [] → split_ws (w ++ 32 :: s) = w :: split_ws s.
Proof.
  intros H Hne. unfold split_ws. rewrite split_ws_aux_word by done. rewrite app_nil_r. cbn.
  destruct (rev w) eqn:E; [|by rewrite <- E, rev_involutive].
  apply (f_equal (@rev Z)) in E. by rewrite rev_involutive in E.
Qed.

Lemma removesuffix_app s p : removesuffix (s ++ p) p = s.
Proof.
  unfold removesuffix, endswith. rewrite bool_decide_eq_true_2 by (by exists s).
  rewrite length_app, Nat.add_sub. apply take_app_length.
Qed.

Lemma removesuffix_last s c p d : c ≠ d → removesuffix (s ++ [c]) (p ++ [d]) = s ++ [c].
Proof.
  intros Hne. unfold removesuffix, endswith. rewrite bool_decide_eq_false_2; [done|].
  intros [k Hk]. rewrite app_assoc in Hk. by apply app_inj_tail in Hk as [_ ?].
Qed.

Lemma startswith_head c s d p : c ≠ d → startswith (c :: s) (d :: p) = false.
Proof. intros H. apply bool_decide_eq_false_2. by intros [k [=]]. Qed.

Lemma startswith_heads s p c : head p = Some c → head s ≠ Some c → startswith s p = false.
Proof.
  intros Hp Hs. apply bool_decide_eq_false_2. intros [k ->]. by destruct p; simplify_eq/=.
Qed.

Lemma digit_no_space c : is_digit c = true → isspace c = false.
Proof.
  unfold is_digit, isspace. rewrite andb_true_iff, !Z.leb_le. intros H.
  rewrite !orb_false_iff, !andb_false_iff, !Z.leb_gt, !Z.eqb_neq. lia.
Qed.

Lemma digits_no_space n : 0 ≤ n → no_space (digits n).
Proof. intros H. eapply Forall_impl; [by apply digits_digit|]. apply digit_no_space. Qed.

Section IntOfText.
Context `{PL : PyRuntimeLaws}.

Lemma parse_digits_value ds count acc :
  Forall (λ c, is_digit c = true) ds → (count + length ds ≤ INT_MAX_STR_DIGITS)%nat → ds ≠ [] ∨ count ≠ O →
  parse_digits (bool_decide (count ≠ O)) count acc ds = Some (digits_value acc ds).
Proof using PL.
  intros Hd. revert count acc. induction Hd as [|c ds Hc _ IH]; intros count acc Hlen Hne; simpl in *.
  - destruct Hne as [?|?]; [done|]. rewrite bool_decide_eq_true_2 by done.
    rewrite Nat.add_0_r in Hlen. by rewrite (proj2 (Nat.leb_le _ _) Hlen).
  - unfold is_digit in Hc. rewrite andb_true_iff, !Z.leb_le in Hc. replace (c =? 95) with false by lia.
    rewrite decimal_value_ascii by lia.
    replace (is_digit c) with true by (symmetry; apply andb_true_iff; rewrite !Z.leb_le; lia).
    specialize (IH (S count) (acc * 10 + (c - 48))). rewrite bool_decide_eq_true_2 in IH by done.
    rewrite IH by (lia || auto). unfold digits_value. simpl. do 2 f_equal.
Qed.

(** [int(str(n))] is [n], within the interpreter's digit limit. *)
Lemma py_int_digits n :
  0 ≤ n → (length (digits n) ≤ INT_MAX_STR_DIGITS)%nat → py_int (digits n) = Some n.
Proof using PL.
  intros Hn Hlen. pose proof (digits_digit n Hn) as Hd. pose proof (digits_nonempty n) as Hne.
  assert (∀ l, Forall (λ c, is_digit c = true) l → drop_while int_space l = l) as Hdrop.
  { intros l [|c l' Hc _]; [done|]. simpl. replace (int_space c) with false; [done|].
    symmetry. unfold int_space, is_digit in *. rewrite andb_true_iff, !Z.leb_le in Hc.
    rewrite !orb_false_iff, !andb_false_iff, !Z.leb_gt, !Z.eqb_neq. lia. }
  unfold py_int. rewrite (Hdrop _ Hd), Hdrop by (by apply Forall_rev). rewrite rev_involutive.
  pose proof (parse_digits_value (digits n) 0 0 Hd ltac:(simpl; lia) (or_introl Hne)) as Hp.
  rewrite digits_value_digits in Hp by done. rewrite bool_decide_eq_false_2 in Hp by auto.
  destruct (digits n) as [|c ds]; [done|]. inversion Hd as [|? ? Hc _]; subst.
  unfold is_digit in Hc. rewrite andb_true_iff, !Z.leb_le in Hc.
  replace (c =? 45) with false by lia. by replace (c =? 43) with false by lia.
Qed.

(** What [int] accepts has at most the limit's number of digits. *)
Lemma parse_digits_bound prev count acc s z :
  parse_digits prev count acc s = Some z → 0 ≤ acc < 10 ^ Z.of_nat count →
  0 ≤ z < 10 ^ Z.of_nat INT_MAX_STR_DIGITS.
Proof using PL.
  revert prev count acc. induction s as [|c s IH]; intros prev count acc Hs Hacc; cbn [parse_digits] in Hs.
  - destruct (prev && (count <=? INT_MAX_STR_DIGITS)%nat) eqn:E; [|done]. injection Hs as <-.
    apply andb_true_iff in E as [_ E%Nat.leb_le]. split; [lia|]. eapply Z.lt_le_trans; [apply Hacc|].
    apply Z.pow_le_mono_r; lia.
  - destruct (c =? 95); [destruct prev; [|done]; by eapply IH|].
    destruct (decimal_value c) as [d|] eqn:Ed; [|done]. apply decimal_value_range in Ed.
    eapply IH; [exact Hs|]. rewrite Nat2Z.inj_succ, Z.pow_succ_r by lia. lia.
Qed.

Lemma py_int_bound s z : py_int s = Some z → Z.abs z < 10 ^ Z.of_nat INT_MAX_STR_DIGITS.
Proof using PL.
  unfold py_int. cbv zeta. destruct (rev (drop_while int_space _)) as [|c s']; [done|].
  assert (∀ t z, parse_digits false 0 0 t = Some z → 0 ≤ z < 10 ^ Z.of_nat INT_MAX_STR_DIGITS) as Hb.
  { intros t z' Hs. eapply parse_digits_bound; [exact Hs|]. change (10 ^ Z.of_nat 0) with 1. lia. }
  intros Hs. destruct (c =? 45); [|destruct (c =? 43)].
  - destruct (parse_digits false 0 0 s') as [y|] eqn:E; [|done]. injection Hs as <-. apply Hb in E. lia.
  - apply Hb in Hs. lia.
  - apply Hb in Hs. lia.
Qed.
End IntOfText.

(** ** POSIX paths ([os.path]) *)

Definition slash : Z := 47.

(** [os.path.basename]: what follows the last slash. *)
Definition basename (p : pystr) : pystr :=
  let r := rev p in rev (take (length r - length (drop_while (λ c, negb (c =? slash)) r)) r).

(** [os.path.join(a, b)] *)
Definition path_join (a b : pystr) : pystr :=
  if startswith b [slash] then b
  else if (a =s []) || endswith a [slash] then a ++ b
  else a ++ slash :: b.

(** [os.path.normpath]: how many slashes the path keeps in front, and its components with [.]
    dropped and [..] resolved; [acc] is the component stack, innermost first. *)
Definition initial_slashes (p : pystr) : nat :=
  if negb (startswith p [slash]) then 0%nat
  else if startswith p [slash; slash] && negb (startswith p [slash; slash; slash]) then 2%nat
  else 1%nat.

Definition dot : pystr := u ".".
Definition dotdot : pystr := u "..".

Definition norm_step (abs : bool) (acc : list pystr) (comp : pystr) : list pystr :=
  if (comp =s []) || (comp =s dot) then acc
  else if negb (comp =s dotdot) || (negb abs && (acc =s [])) ||
          match acc with last :: _ => last =s dotdot | [] => false end
  then comp :: acc
  else match acc with _ :: acc' => acc' | [] => [] end.

Definition normpath (p : pystr) : pystr :=
  let n := initial_slashes p in
  let comps := fold_left (norm_step (negb (Nat.eqb n 0))) (split_char slash p) [] in
  let q := replicate n slash ++ join [slash] (rev comps) in
  if (p =s []) || (q =s []) then dot else q.

(** [os.path.abspath], given the current directory. *)
Definition abspath (cwd p : pystr) : pystr :=
  normpath (if startswith p [slash] then p else path_join cwd p).

Fixpoint strip_common (a b : list pystr) : list pystr * list pystr :=
  match a, b with
  | x :: a', y :: b' => if x =s y then strip_common a' b' else (a, b)
  | _, _ => (a, b)
  end.

(** [os.path.relpath(path, start)] *)
Definition relpath (cwd p start : pystr) : pystr :=
  let comps q := filter (λ x, x ≠ []) (split_char slash (abspath cwd q)) in
  let '(up, down) := strip_common (comps start) (comps p) in
  let rel := replicate (length up) dotdot ++ down in
  if rel =s [] then dot else fold_left path_join rel [].
