(* ===== verification/Paths.v ===== *)
(** * Facts about POSIX paths

    What [os.path.basename], [join], [normpath] and [relpath] do on the paths the worker builds:
    components of a normalised path, the path of a child relative to its directory. *)
From S2P Require Import Prelude PyStr.
From stdpp Require Import options.

(** One ordinary path component: not empty, without a slash, neither [.] nor [..]. *)
Definition component (c : pystr) : bool :=
  negb (c =s []) && negb (c =s dot) && negb (c =s dotdot) && negb (bool_decide (slash ∈ c)).

Lemma component_spec c :
  component c = true ↔ c ≠ [] ∧ c ≠ dot ∧ c ≠ dotdot ∧ slash ∉ c.
Proof.
  unfold component. rewrite !andb_true_iff, !negb_true_iff, !bool_decide_eq_false. tauto.
Qed.

Lemma elem_of_rev {A} (x : A) l : x ∈ rev l ↔ x ∈ l.
Proof. rewrite !list_elem_of_In. symmetry. apply in_rev. Qed.

(** ** Splitting at slashes *)

Lemma split_char_aux_app sep cur a b :
  split_char_aux sep cur (a ++ sep :: b) = split_char_aux sep cur a ++ split_char sep b.
Proof.
  revert cur. induction a as [|c a IH]; intros cur; simpl.
  - by rewrite Z.eqb_refl.
  - destruct (c =? sep); [|apply IH]. by rewrite IH.
Qed.

Lemma split_char_app sep a b : split_char sep (a ++ sep :: b) = split_char sep a ++ split_char sep b.
Proof. apply split_char_aux_app. Qed.

Lemma split_char_aux_free sep cur a : sep ∉ a → split_char_aux sep cur a = [rev cur ++ a].
Proof.
  revert cur. induction a as [|c a IH]; intros cur Ha; simpl; [by rewrite app_nil_r|].
  rewrite not_elem_of_cons in Ha. destruct Ha as [Hc Ha].
  destruct (Z.eqb_spec c sep); [congruence|]. rewrite IH by done. simpl. by rewrite <- app_assoc.
Qed.

Lemma split_char_free sep a : sep ∉ a → split_char sep a = [a].
Proof. intros H. unfold split_char. by rewrite split_char_aux_free. Qed.

Lemma split_char_aux_elem sep cur a x : sep ∉ cur → x ∈ split_char_aux sep cur a → sep ∉ x.
Proof.
  revert cur. induction a as [|c a IH]; intros cur Hc; simpl.
  - intros ->%list_elem_of_singleton. by rewrite elem_of_rev.
  - destruct (Z.eqb_spec c sep) as [->|Hne].
    + intros [->|H]%elem_of_cons; [by rewrite elem_of_rev|].
      eapply (IH []); [apply not_elem_of_nil|done].
    + apply IH. apply not_elem_of_cons. auto.
Qed.

Lemma split_char_elem sep a x : x ∈ split_char sep a → sep ∉ x.
Proof. apply split_char_aux_elem, not_elem_of_nil. Qed.

(** ** Normalised components *)

(** The stack [normpath] computes for an absolute path. *)
Definition norm_comps (p : pystr) : list pystr := fold_left (norm_step true) (split_char slash p) [].

Definition plain (c : pystr) : Prop := c ≠ [] ∧ slash ∉ c.

Lemma norm_step_plain abs acc c : slash ∉ c → Forall plain acc → Forall plain (norm_step abs acc c).
Proof.
  intros Hc Ha. unfold norm_step. destruct ((c =s []) || (c =s dot)) eqn:E; [done|].
  apply orb_false_iff in E as [?%bool_decide_eq_false _].
  destruct (_ || _); [by constructor|]. destruct acc; [constructor|]. by inversion Ha.
Qed.

Lemma norm_comps_plain p : Forall plain (norm_comps p).
Proof.
  unfold norm_comps. pose proof (split_char_elem slash p) as Hs.
  assert (Forall plain []) as H0 by constructor. revert H0. generalize (@nil pystr).
  induction (split_char slash p) as [|c l IH]; intros acc Hacc; simpl; [done|].
  apply IH; [|apply norm_step_plain; [|done]]; intros; apply Hs; set_solver.
Qed.

Lemma norm_step_component abs acc c : component c = true → norm_step abs acc c = c :: acc.
Proof.
  intros (Hn & Hd & Hdd & _)%component_spec. unfold norm_step.
  by rewrite (bool_decide_eq_false_2 (c = [])), (bool_decide_eq_false_2 (c = dot)),
    (bool_decide_eq_false_2 (c = dotdot)) by done.
Qed.

(** Joining a component to an absolute path pushes it on the stack. *)
Lemma norm_comps_join p c :
  startswith p [slash] = true → component c = true → norm_comps (path_join p c) = c :: norm_comps p.
Proof.
  intros Hp Hc. pose proof Hc as (Hn & _ & _ & Hs)%component_spec.
  unfold path_join. destruct (startswith c [slash]) eqn:Ec.
  { apply bool_decide_eq_true in Ec as [k ->]. set_solver. }
  destruct (p =s []) eqn:Ep; [apply bool_decide_eq_true in Ep as ->; done|]. simpl.
  destruct (endswith p [slash]) eqn:El; unfold norm_comps.
  - apply bool_decide_eq_true in El as [k ->].
    rewrite <- app_assoc. simpl. rewrite !split_char_app, !fold_left_app, (split_char_free _ c) by done.
    simpl. by apply norm_step_component.
  - rewrite split_char_app, fold_left_app, (split_char_free _ c) by done. simpl.
    by apply norm_step_component.
Qed.

(** ** [relpath] *)

Definition path_comps (q : pystr) : list pystr := filter (λ x, x ≠ []) (split_char slash q).

Lemma path_comps_slash q : path_comps (slash :: q) = path_comps q.
Proof. reflexivity. Qed.

Lemma path_comps_join cs : Forall plain cs → path_comps (join [slash] cs) = cs.
Proof.
  unfold path_comps. induction cs as [|c cs IH]; intros H; [done|].
  apply Forall_cons in H as [[Hn Hs] H]. destruct cs as [|c' cs].
  - simpl. rewrite split_char_free by done. by rewrite filter_cons_True.
  - change (join [slash] (c :: c' :: cs)) with (c ++ slash :: join [slash] (c' :: cs)).
    rewrite split_char_app, split_char_free by done. simpl. rewrite filter_cons_True by done.
    f_equal. by apply IH.
Qed.

(** Reading the components back from an absolute normalised path. *)
Lemma path_comps_normpath p :
  startswith p [slash] = true → path_comps (normpath p) = rev (norm_comps p).
Proof.
  intros Hp. unfold normpath, initial_slashes. rewrite Hp. simpl negb. cbv iota.
  set (n := if _ && _ then 2%nat else 1%nat).
  assert (∃ k, n = S k) as [k Hk] by (subst n; destruct (_ && _); eauto).
  assert ((p =s []) = false) as -> by (destruct p; done).
  rewrite Hk. simpl (negb _). fold (norm_comps p).
  rewrite bool_decide_eq_false_2 by (simpl; done). simpl orb. cbv iota.
  assert (∀ m q, path_comps (replicate m slash ++ q) = path_comps q) as Hrep.
  { induction m as [|m IH]; intros q; [done|]. simpl. rewrite path_comps_slash. apply IH. }
  rewrite Hrep. apply path_comps_join.
  apply Forall_rev, norm_comps_plain.
Qed.

Lemma path_join_absolute cwd p :
  startswith cwd [slash] = true → startswith (path_join cwd p) [slash] = true.
Proof.
  intros Hc. unfold path_join. destruct (startswith p [slash]) eqn:E; [done|].
  apply bool_decide_eq_true in Hc as [k ->]. simpl.
  destruct (endswith _ _); apply bool_decide_eq_true_2; by eexists.
Qed.

Lemma path_join_nonempty a b : b ≠ [] → path_join a b ≠ [].
Proof.
  intros Hb. unfold path_join. destruct (startswith b [slash]); [done|].
  destruct (_ || _); by intros [_ ?]%app_eq_nil.
Qed.

Lemma abspath_join cwd p : abspath cwd p = normpath (path_join cwd p).
Proof. unfold abspath, path_join. by destruct (startswith p [slash]). Qed.

Lemma path_join_assoc a b c :
  b ≠ [] → startswith c [slash] = false → path_join a (path_join b c) = path_join (path_join a b) c.
Proof.
  intros Hb Hc. unfold path_join. rewrite Hc.
  assert ((b =s []) = false) as -> by by apply bool_decide_eq_false_2. simpl.
  assert (∀ x, startswith (b ++ x) [slash] = startswith b [slash]) as Hs.
  { intros x. destruct b as [|y b]; [done|]. unfold startswith. apply bool_decide_ext.
    split; intros [k [= -> _]]; by eexists. }
  assert (∀ x, endswith (x ++ b) [slash] = endswith b [slash]) as He.
  { intros x. unfold endswith. apply bool_decide_ext.
    destruct b as [|y b _] using rev_ind; [done|]. rewrite app_assoc.
    split; intros [k [_ ->]%app_inj_tail]; [exists b|exists (x ++ b)]; done. }
  assert (∀ x, ((x ++ b) =s []) = false) as Hn.
  { intros x. apply bool_decide_eq_false_2. by intros [_ ?]%app_eq_nil. }
  set (x := if endswith b [slash] then c else slash :: c).
  assert ((if endswith b [slash] then b ++ c else b ++ slash :: c) = b ++ x) as ->
    by (subst x; by destruct (endswith b [slash])).
  rewrite Hs. destruct (startswith b [slash]) eqn:Esb.
  { rewrite bool_decide_eq_false_2 by done. subst x. simpl. by destruct (endswith b [slash]). }
  set (pre := if (a =s []) || endswith a [slash] then a else a ++ [slash]).
  assert (∀ q, (if (a =s []) || endswith a [slash] then a ++ q else a ++ slash :: q) = pre ++ q) as Hpre.
  { intros q. subst pre. destruct (_ || _); [done|]. by rewrite <- app_assoc. }
  rewrite !Hpre, Hn, He. simpl. subst x. by destruct (endswith b [slash]); rewrite <- app_assoc.
Qed.

(** The path of a child, relative to its directory, is its name. *)
Lemma relpath_child cwd dir name :
  startswith cwd [slash] = true → dir ≠ [] → component name = true →
  relpath cwd (path_join dir name) dir = name.
Proof.
  intros Hcwd Hd Hc. pose proof Hc as (Hn & _ & _ & Hs)%component_spec.
  assert (startswith name [slash] = false) as Hns.
  { apply bool_decide_eq_false_2. intros [k ->]. set_solver. }
  unfold relpath. cbv zeta. fold (path_comps (abspath cwd dir)).
  fold (path_comps (abspath cwd (path_join dir name))).
  rewrite !abspath_join, path_join_assoc by done.
  rewrite 2!path_comps_normpath by auto using path_join_absolute.
  rewrite (norm_comps_join _ name) by auto using path_join_absolute. simpl.
  assert (∀ l k, strip_common l (l ++ k) = ([], k)) as Hsc.
  { induction l as [|x l IH]; intros k; simpl; [by destruct k|]. by rewrite bool_decide_eq_true_2. }
  rewrite Hsc. simpl. unfold path_join. by rewrite Hns.
Qed.

(** ** [basename] *)

Lemma drop_while_suffix {A} (f : A → bool) l : drop_while f l `suffix_of` l.
Proof.
  induction l as [|x l IH]; simpl; [done|]. destruct (f x); [|done]. by apply suffix_cons_r.
Qed.

Lemma drop_while_split {A} (f : A → bool) l :
  ∃ a, l = a ++ drop_while f l ∧ Forall (λ x, f x = true) a.
Proof.
  induction l as [|x l (a & Ha & Hf)]; simpl; [by exists []|]. destruct (f x) eqn:E.
  - exists (x :: a). split; [simpl; by f_equal|by constructor].
  - by exists [].
Qed.

Lemma basename_no_slash p : slash ∉ basename p.
Proof.
  unfold basename. cbv zeta.
  destruct (drop_while_split (λ c, negb (c =? slash)) (rev p)) as (a & Ha & Hf).
  set (d := drop_while _ (rev p)) in *.
  assert (length (rev p) - length d = length a)%nat as -> by (rewrite Ha, length_app; lia).
  rewrite Ha, take_app_length. rewrite elem_of_rev. intros Hin.
  rewrite Forall_forall in Hf. specialize (Hf _ Hin). by vm_compute in Hf.
Qed.

Lemma basename_id p : slash ∉ p → basename p = p.
Proof.
  intros Hp. unfold basename. cbv zeta. rewrite drop_while_all.
  - simpl. rewrite Nat.sub_0_r, take_ge by done. apply rev_involutive.
  - intros x Hx. apply negb_true_iff, Z.eqb_neq. intros ->. apply Hp.
    by apply elem_of_rev.
Qed.
