(* ===== verification/Utf8.v ===== *)
(** * UTF-8: [str.encode], [bytes.decode] and the incremental decoder

    The codec the executor relies on to capture program output: strict encoding, decoding with the
    [replace] and [ignore] error handlers, and the incremental decoder that [_pump] feeds chunk by
    chunk.  The decoding step follows CPython's [utf8_decode]: a malformed sequence is reported as
    its maximal valid prefix, and an unfinished one is held back until more bytes (or the end of
    the input) arrive. *)
From S2P Require Import Prelude.
From stdpp Require Import options.

(** Unicode scalar values: every code point but the surrogates. *)
Definition is_scalar (c : Z) : Prop := 0 ≤ c < 0xD800 ∨ 0xE000 ≤ c < 0x110000.
#[export] Instance is_scalar_dec c : Decision (is_scalar c).
Proof. unfold is_scalar. apply _. Defined.

Definition scalar_str (s : pystr) : Prop := Forall is_scalar s.

Lemma u_scalar s : scalar_str (u s).
Proof.
  induction s as [|a s IH]; constructor; [|done].
  pose proof (Ascii.N_ascii_bounded a). left. lia.
Qed.

(** ** Encoding *)

(** The 1 to 4 bytes of a scalar value ([c >> 6] is [c / 64], [c & 63] is [c mod 64]). *)
Definition encode_char (c : Z) : bytes :=
  if c <? 0x80 then [c]
  else if c <? 0x800 then [0xC0 + c / 64; 0x80 + c mod 64]
  else if c <? 0x10000 then [0xE0 + c / 4096; 0x80 + (c / 64) mod 64; 0x80 + c mod 64]
  else [0xF0 + c / 262144; 0x80 + (c / 4096) mod 64; 0x80 + (c / 64) mod 64; 0x80 + c mod 64].

(** The bytes of a string of scalar values. *)
Definition encode (s : pystr) : bytes := concat (map encode_char s).

(** [s.encode("utf-8")]: [None] is the [UnicodeEncodeError] a surrogate raises. *)
Definition utf8_encode (s : pystr) : option bytes :=
  if bool_decide (scalar_str s) then Some (encode s) else None.

(** ** Decoding *)

(** One decoding step on the bytes that are left: a character and the bytes it takes, a malformed
    sequence and the bytes to skip, or a sequence that more bytes could complete. *)
Inductive dstep :=
| DChar (c : Z) (n : nat)
| DBad (n : nat)
| DMore.

Definition cont (b : Z) : bool := (0x80 <=? b) && (b <? 0xC0).

Definition decode1 (b : bytes) : dstep :=
  match b with
  | [] => DMore
  | c0 :: t =>
    if c0 <? 0x80 then DChar c0 1
    else if c0 <? 0xC2 then DBad 1
    else if c0 <? 0xE0 then
      match t with
      | [] => DMore
      | c1 :: _ => if cont c1 then DChar ((c0 - 0xC0) * 64 + (c1 - 0x80)) 2 else DBad 1
      end
    else if c0 <? 0xF0 then
      match t with
      | [] => DMore
      | c1 :: t2 =>
        if negb (cont c1) || (if c1 <? 0xA0 then c0 =? 0xE0 else c0 =? 0xED) then DBad 1
        else match t2 with
             | [] => DMore
             | c2 :: _ =>
               if cont c2 then DChar ((c0 - 0xE0) * 4096 + (c1 - 0x80) * 64 + (c2 - 0x80)) 3
               else DBad 2
             end
      end
    else if c0 <? 0xF5 then
      match t with
      | [] => DMore
      | c1 :: t2 =>
        if negb (cont c1) || (if c1 <? 0x90 then c0 =? 0xF0 else c0 =? 0xF4) then DBad 1
        else match t2 with
             | [] => DMore
             | c2 :: t3 =>
               if negb (cont c2) then DBad 2
               else match t3 with
                    | [] => DMore
                    | c3 :: _ =>
                      if cont c3 then
                        DChar ((c0 - 0xF0) * 262144 + (c1 - 0x80) * 4096 + (c2 - 0x80) * 64
                               + (c3 - 0x80)) 4
                      else DBad 3
                    end
             end
      end
    else DBad 1
  end.

(** An incremental (non-final) call also holds back the first two bytes of an encoded surrogate. *)
Definition held_surrogate (b : bytes) : bool :=
  match b with [c0; c1] => (c0 =? 0xED) && (0xA0 <=? c1) && (c1 <=? 0xBF) | _ => false end.

(** The loop: decoded text and the bytes that were not consumed.  Every step that continues takes
    at least one byte, so [length b] steps are enough. *)
Fixpoint decode_loop (on_error : pystr) (final : bool) (fuel : nat) (b : bytes) : pystr * bytes :=
  match fuel, b with
  | O, _ => ([], b)
  | S _, [] => ([], [])
  | S fuel', _ =>
    match decode1 b with
    | DChar c n =>
        let '(out, rest) := decode_loop on_error final fuel' (drop n b) in (c :: out, rest)
    | DBad n =>
        if negb final && held_surrogate b then ([], b)
        else let '(out, rest) := decode_loop on_error final fuel' (drop n b) in
             (on_error ++ out, rest)
    | DMore => if final then (on_error, []) else ([], b)
    end
  end.

Definition decode_buf (on_error : pystr) (final : bool) (b : bytes) : pystr * bytes :=
  decode_loop on_error final (length b) b.

(** U+FFFD, what [errors="replace"] puts in place of a malformed sequence. *)
Definition REPLACEMENT : pystr := [0xFFFD].

(** [b.decode("utf-8", "replace")] and [b.decode("utf-8", "ignore")] *)
Definition decode_replace (b : bytes) : pystr := (decode_buf REPLACEMENT true b).1.
Definition decode_ignore (b : bytes) : pystr := (decode_buf [] true b).1.

(** [codecs.getincrementaldecoder("utf-8")(errors="replace")]: its state is the bytes held back. *)
Definition inc_decode (buffer input : bytes) (final : bool) : pystr * bytes :=
  decode_buf REPLACEMENT final (buffer ++ input).

(** ** Facts about one step *)

Lemma decode1_char_len b c n : decode1 b = DChar c n → (1 ≤ n ≤ length b)%nat.
Proof. unfold decode1. intros H. repeat py_case; simpl; lia. Qed.

Lemma decode1_bad_len b n : decode1 b = DBad n → (1 ≤ n ≤ length b)%nat.
Proof. unfold decode1. intros H. repeat py_case; simpl; lia. Qed.

Definition is_bytes (b : bytes) : Prop := Forall (λ x, 0 ≤ x < 256) b.

(** A step that is decided is not affected by the bytes that follow. *)
Lemma decode1_app b k : decode1 b ≠ DMore → decode1 (b ++ k) = decode1 b.
Proof.
  destruct b as [|c0 [|c1 [|c2 [|c3 t]]]]; unfold decode1; simpl; intros H;
    repeat (case_match; try done).
Qed.

Lemma decode1_scalar b c n : is_bytes b → decode1 b = DChar c n → is_scalar c.
Proof.
  intros Hb H. unfold decode1 in H. unfold is_scalar.
  repeat (match goal with Hf : is_bytes (_ :: _) |- _ => inversion Hf as [|?? []]; clear Hf; subst end
          || (unfold cont in *; py_case)); try done; try lia.
Qed.

(** ** The loop *)

Section Loop.
Context (on_error : pystr).

Lemma decode_loop_fuel final f1 f2 b :
  (length b ≤ f1)%nat → (length b ≤ f2)%nat →
  decode_loop on_error final f1 b = decode_loop on_error final f2 b.
Proof.
  revert f2 b. induction f1 as [|f1 IH]; intros f2 b H1 H2.
  { destruct b; simpl in *; [by destruct f2|lia]. }
  destruct b as [|x b]; [by destruct f2|].
  destruct f2 as [|f2]; [simpl in *; lia|].
  cbn [decode_loop]. destruct (decode1 (x :: b)) as [c n|n|] eqn:E; [| |done].
  - apply decode1_char_len in E. by rewrite (IH f2) by (rewrite length_drop; simpl in *; lia).
  - apply decode1_bad_len in E. by rewrite (IH f2) by (rewrite length_drop; simpl in *; lia).
Qed.

Lemma decode_buf_nil final : decode_buf on_error final [] = ([], []).
Proof. done. Qed.

(** The defining equation of [decode_buf], without fuel. *)
Lemma decode_buf_step final b : b ≠ [] →
  decode_buf on_error final b =
  match decode1 b with
  | DChar c n => let '(out, rest) := decode_buf on_error final (drop n b) in (c :: out, rest)
  | DBad n =>
      if negb final && held_surrogate b then ([], b)
      else let '(out, rest) := decode_buf on_error final (drop n b) in (on_error ++ out, rest)
  | DMore => if final then (on_error, []) else ([], b)
  end.
Proof.
  intros Hb. destruct b as [|x b]; [done|]. unfold decode_buf at 1.
  change (length (x :: b)) with (S (length b)). cbn [decode_loop].
  destruct (decode1 (x :: b)) as [c n|n|] eqn:E; [| |done].
  - apply decode1_char_len in E.
    unfold decode_buf. by rewrite (decode_loop_fuel _ (length b) (length (drop n (x :: b))))
      by (rewrite ?length_drop; simpl in *; lia).
  - apply decode1_bad_len in E.
    unfold decode_buf. by rewrite (decode_loop_fuel _ (length b) (length (drop n (x :: b))))
      by (rewrite ?length_drop; simpl in *; lia).
Qed.

(** Induction on the bytes left to decode. *)
Lemma bytes_ind (P : bytes → Prop) :
  P [] → (∀ b, b ≠ [] → (∀ n, (1 ≤ n ≤ length b)%nat → P (drop n b)) → P b) → ∀ b, P b.
Proof.
  intros H0 Hs b. induction b as [b IH] using (well_founded_induction (well_founded_ltof _ length)).
  destruct b as [|x b]; [done|]. apply Hs; [done|]. intros n Hn. apply IH.
  unfold ltof. rewrite length_drop. simpl in *. lia.
Qed.

(** Decoding a whole input after a non-final call on its first part: what the call returned,
    followed by the decoding of what it held back and the rest. *)
Lemma decode_buf_app b k out rest :
  decode_buf on_error false b = (out, rest) →
  (decode_buf on_error true (b ++ k)).1 = out ++ (decode_buf on_error true (rest ++ k)).1.
Proof.
  revert out rest. induction b as [|b Hb IH] using bytes_ind; intros out rest H.
  { rewrite decode_buf_nil in H. by simplify_eq. }
  assert (b ++ k ≠ []) as Hbk by (by destruct b).
  rewrite (decode_buf_step false) in H by done. simpl in H.
  destruct (decode1 b) as [c n|n|] eqn:E.
  - pose proof (decode1_char_len _ _ _ E) as Hn.
    destruct (decode_buf on_error false (drop n b)) as [out' rest'] eqn:Ed. simplify_eq.
    rewrite (decode_buf_step true), decode1_app, E by (congruence || done).
    rewrite drop_app_le by lia. specialize (IH n Hn _ _ Ed).
    destruct (decode_buf on_error true (drop n b ++ k)). simpl in *. by rewrite IH.
  - pose proof (decode1_bad_len _ _ E) as Hn.
    destruct (held_surrogate b); [by simplify_eq|].
    destruct (decode_buf on_error false (drop n b)) as [out' rest'] eqn:Ed. simplify_eq.
    rewrite (decode_buf_step true), decode1_app, E by (congruence || done). simpl.
    rewrite drop_app_le by lia. specialize (IH n Hn _ _ Ed).
    destruct (decode_buf on_error true (drop n b ++ k)). simpl in *. by rewrite IH, app_assoc.
  - by simplify_eq.
Qed.

(** A final call consumes everything. *)
Lemma decode_buf_final_rest b : (decode_buf on_error true b).2 = [].
Proof.
  induction b as [|b Hb IH] using bytes_ind; [done|].
  rewrite decode_buf_step by done. simpl. destruct (decode1 b) as [c n|n|] eqn:E; [| |done].
  - specialize (IH n (decode1_char_len _ _ _ E)). by destruct (decode_buf _ _ (drop n b)).
  - specialize (IH n (decode1_bad_len _ _ E)). by destruct (decode_buf _ _ (drop n b)).
Qed.

(** What is not consumed is an end of the input. *)
Lemma decode_buf_rest final b : (decode_buf on_error final b).2 `suffix_of` b.
Proof.
  induction b as [|b Hb IH] using bytes_ind; [done|].
  assert (∀ n, drop n b `suffix_of` b) as Hd.
  { intros n. exists (take n b). by rewrite take_drop. }
  rewrite decode_buf_step by done. destruct (decode1 b) as [c n|n|] eqn:E.
  - specialize (IH n (decode1_char_len _ _ _ E)). destruct (decode_buf _ _ (drop n b)).
    simpl in *. by etransitivity.
  - specialize (IH n (decode1_bad_len _ _ E)). case_match; [done|].
    destruct (decode_buf _ _ (drop n b)). simpl in *. by etransitivity.
  - case_match; [apply suffix_nil|done].
Qed.

(** Decoded text consists of scalar values, so it can be encoded again. *)
Lemma decode_buf_scalar final b :
  scalar_str on_error → is_bytes b → scalar_str (decode_buf on_error final b).1.
Proof.
  intros He. induction b as [|b Hb IH] using bytes_ind; intros Hbytes; [by constructor|].
  rewrite decode_buf_step by done. destruct (decode1 b) as [c n|n|] eqn:E.
  - specialize (IH n (decode1_char_len _ _ _ E) (Forall_drop _ _ _ Hbytes)).
    destruct (decode_buf _ _ (drop n b)). constructor; [|done]. by eapply decode1_scalar.
  - specialize (IH n (decode1_bad_len _ _ E) (Forall_drop _ _ _ Hbytes)).
    case_match; [by constructor|]. destruct (decode_buf _ _ (drop n b)). by apply Forall_app.
  - case_match; [done|by constructor].
Qed.
End Loop.

(** ** Round trips *)

#[local] Ltac Zify.zify_post_hook ::= Z.div_mod_to_equations.

Lemma encode_char_nonempty c : encode_char c ≠ [].
Proof. unfold encode_char. by repeat case_match. Qed.

Lemma encode_char_bytes c : is_scalar c → is_bytes (encode_char c).
Proof.
  unfold is_scalar, encode_char, is_bytes. intros H.
  repeat py_case; repeat constructor; lia.
Qed.

Lemma cont_mod x : cont (0x80 + x mod 64) = true.
Proof. unfold cont. rewrite andb_true_iff, Z.leb_le, Z.ltb_lt. lia. Qed.

(** Evaluates [decode1] on the bytes of a character, deciding each test by arithmetic. *)
Ltac decode_tests :=
  unfold decode1; cbn [length take app]; rewrite ?cont_mod; cbn [negb orb];
  repeat match goal with
  | |- context [?x <? ?y] => (replace (x <? y) with true by lia) || (replace (x <? y) with false by lia)
                             || destruct (x <? y) eqn:?
  | |- context [?x =? ?y] => (replace (x =? y) with true by lia) || (replace (x =? y) with false by lia)
  end.

Ltac encode_cases c :=
  unfold encode_char; destruct (c <? 0x80) eqn:?; [|destruct (c <? 0x800) eqn:?;
    [|destruct (c <? 0x10000) eqn:?]]; py_simpl.

Lemma decode1_encode_char c t :
  is_scalar c → decode1 (encode_char c ++ t) = DChar c (length (encode_char c)).
Proof.
  unfold is_scalar. intros H. encode_cases c; decode_tests; f_equal; lia.
Qed.

Lemma decode1_encode_prefix c n :
  is_scalar c → (0 < n < length (encode_char c))%nat → decode1 (take n (encode_char c)) = DMore.
Proof.
  unfold is_scalar. encode_cases c; cbn [length]; intros H Hn;
    destruct n as [|[|[|[|n]]]]; try lia; decode_tests; done.
Qed.

Lemma encode_cons c s : encode (c :: s) = encode_char c ++ encode s.
Proof. done. Qed.

Lemma encode_app s t : encode (s ++ t) = encode s ++ encode t.
Proof. unfold encode. by rewrite map_app, concat_app. Qed.

Lemma encode_bytes s : scalar_str s → is_bytes (encode s).
Proof.
  induction 1 as [|c s Hc _ IH]; [by constructor|].
  rewrite encode_cons. apply Forall_app. split; [by apply encode_char_bytes|done].
Qed.

Lemma utf8_encode_scalar s : scalar_str s → utf8_encode s = Some (encode s).
Proof. intros H. unfold utf8_encode. by rewrite bool_decide_eq_true_2. Qed.

(** Decoding what was encoded, with further bytes behind it. *)
Lemma decode_encode_app on_error final s t :
  scalar_str s →
  decode_buf on_error final (encode s ++ t) =
  (s ++ (decode_buf on_error final t).1, (decode_buf on_error final t).2).
Proof.
  induction 1 as [|c s Hc _ IH]; [by apply surjective_pairing|].
  rewrite encode_cons, <- app_assoc, decode_buf_step.
  2: { pose proof (encode_char_nonempty c). by destruct (encode_char c). }
  rewrite decode1_encode_char, drop_app_length, IH by done. done.
Qed.

Lemma decode_encode on_error s : scalar_str s → (decode_buf on_error true (encode s)).1 = s.
Proof.
  intros H. rewrite <- (app_nil_r (encode s)), decode_encode_app by done. simpl. apply app_nil_r.
Qed.

(** ** Cutting an encoded string

    [fit room s] is the longest prefix of [s] whose encoding fits in [room] bytes. *)
Fixpoint fit (room : nat) (s : pystr) : pystr :=
  match s with
  | [] => []
  | c :: s' =>
      let n := length (encode_char c) in
      if (n <=? room)%nat then c :: fit (room - n) s' else []
  end.

Lemma fit_prefix room s : fit room s `prefix_of` s.
Proof.
  revert room. induction s as [|c s IH]; intros room; simpl; [done|].
  case_match; [by apply prefix_cons|apply prefix_nil].
Qed.

Lemma fit_length room s : (length (encode (fit room s)) ≤ room)%nat.
Proof.
  revert room. induction s as [|c s IH]; intros room; simpl; [lia|].
  destruct (length (encode_char c) <=? room)%nat eqn:E; simpl; [|lia].
  apply Nat.leb_le in E. rewrite encode_cons, length_app.
  specialize (IH (room - length (encode_char c))%nat). lia.
Qed.

Lemma fit_longest room s p :
  p `prefix_of` s → (length (encode p) ≤ room)%nat → p `prefix_of` fit room s.
Proof.
  intros [k ->]. revert room. induction p as [|c p IH]; intros room H; [apply prefix_nil|].
  rewrite encode_cons, length_app in H. simpl.
  destruct (length (encode_char c) <=? room)%nat eqn:E.
  - apply prefix_cons, IH. lia.
  - apply Nat.leb_gt in E. lia.
Qed.

Lemma decode_ignore_cut room s :
  scalar_str s → decode_ignore (take room (encode s)) = fit room s.
Proof.
  intros H. revert room. induction H as [|c s Hc _ IH]; intros room.
  { change (encode []) with (@nil Z). by rewrite take_nil. }
  rewrite encode_cons. simpl. destruct (length (encode_char c) <=? room)%nat eqn:E.
  - apply Nat.leb_le in E. rewrite take_app_ge by done. unfold decode_ignore.
    assert (encode_char c = encode [c]) as -> by (symmetry; apply app_nil_r).
    rewrite decode_encode_app by (by apply Forall_singleton). simpl. f_equal. apply IH.
  - apply Nat.leb_gt in E. rewrite take_app_le by lia. unfold decode_ignore.
    destruct room as [|room]; [done|].
    assert (take (S room) (encode_char c) ≠ []) as Hne.
    { pose proof (encode_char_nonempty c). by destruct (encode_char c). }
    by rewrite decode_buf_step, decode1_encode_prefix by (done || lia).
Qed.
