(* ===== verification/Errors.v ===== *)
(** * Exceptions

    The error hierarchy of [worker/sandbox/errors.py] together with the exceptions of Python and
    of the Redis client that the worker's handlers tell apart, and the result type of fallible
    code.  [isinstance] tests are boolean functions that follow the class hierarchy. *)
From S2P Require Import Prelude.
From stdpp Require Import options.

Inductive exc :=
(* errors.py *)
| SandboxError (message code : pystr)
| UnknownLanguageError (language : pystr)
| ImageNotFoundError (image : pystr)
| ImageIntegrityError (image expected actual : pystr)
| DockerUnavailableError (detail : pystr)
(* redis.exceptions *)
| RedisError (message : pystr)
| ResponseError (message : pystr)
(* Python *)
| KeyError (key : pystr)
| TypeError
| ValueError
| JSONDecodeError
| UnicodeEncodeError
| AttributeError
| OverflowError
| IndexError
| OSError
| ProcessLookupError
| BrokenPipeError
| ConnectionResetError
| RuntimeError
| NotImplementedError
| AssertionError
| CancelledError
| OtherException
(* errors of the API server: a plain Error, and its circuit breaker's *)
| JsError (message : pystr)
| CircuitOpenError (name : pystr).

#[export] Instance exc_eq_dec : EqDecision exc.
Proof. solve_decision. Defined.

(** [isinstance(exc, Exception)]: all but the cancellation of a task, a [BaseException]. *)
Definition is_Exception (e : exc) : bool := match e with CancelledError => false | _ => true end.

Definition is_SandboxError (e : exc) : bool :=
  match e with
  | SandboxError _ _ | UnknownLanguageError _ | ImageNotFoundError _ | ImageIntegrityError _ _ _
  | DockerUnavailableError _ => true
  | _ => false
  end.

Definition is_UnknownLanguageError (e : exc) : bool :=
  match e with UnknownLanguageError _ => true | _ => false end.

Definition is_DockerUnavailableError (e : exc) : bool :=
  match e with DockerUnavailableError _ => true | _ => false end.

Definition is_RedisError (e : exc) : bool :=
  match e with RedisError _ | ResponseError _ => true | _ => false end.

Definition is_ResponseError (e : exc) : bool := match e with ResponseError _ => true | _ => false end.

(** [json.JSONDecodeError] and [UnicodeEncodeError] derive from [ValueError]. *)
Definition is_ValueError (e : exc) : bool :=
  match e with ValueError | JSONDecodeError | UnicodeEncodeError => true | _ => false end.

Definition is_OSError (e : exc) : bool :=
  match e with
  | OSError | ProcessLookupError | BrokenPipeError | ConnectionResetError => true
  | _ => false
  end.

(** The [code] attribute each sandbox error class passes to its base class. *)
Definition exc_code (e : exc) : option pystr :=
  match e with
  | SandboxError _ code => Some code
  | UnknownLanguageError _ => Some (u "unknown_language")
  | ImageNotFoundError _ => Some (u "image_not_found")
  | ImageIntegrityError _ _ _ => Some (u "image_integrity")
  | DockerUnavailableError _ => Some (u "docker_unavailable")
  | _ => None
  end.

Lemma exc_code_sandbox e : is_Some (exc_code e) ↔ is_SandboxError e = true.
Proof. by destruct e; simpl; split; [by intros [? ?]| |..]; try done; try (intros _; eexists). Qed.

(** ** Results of fallible code *)

Inductive res (A : Type) :=
| Ok (a : A)
| Raise (e : exc).
Arguments Ok {A} a.
Arguments Raise {A} e.

#[export] Instance res_ret : MRet res := λ A a, Ok a.
#[export] Instance res_bind : MBind res := λ A B f m,
  match m with Ok a => f a | Raise e => Raise e end.
#[export] Instance res_fmap : FMap res := λ A B f m,
  match m with Ok a => Ok (f a) | Raise e => Raise e end.

Definition is_ok {A} (r : res A) : bool := match r with Ok _ => true | Raise _ => false end.

(** [o], or the exception when there is no value. *)
Definition or_raise {A} (o : option A) (e : exc) : res A :=
  match o with Some a => Ok a | None => Raise e end.

(** A list comprehension whose body can raise. *)
Fixpoint res_map {A B} (f : A → res B) (l : list A) : res (list B) :=
  match l with
  | [] => Ok []
  | x :: l' => y ← f x; ys ← res_map f l'; mret (y :: ys)
  end.

Lemma res_bind_ok {A B} (m : res A) (f : A → res B) b :
  m ≫= f = Ok b ↔ ∃ a, m = Ok a ∧ f a = Ok b.
Proof. destruct m; simpl; naive_solver. Qed.

Lemma res_bind_raise {A B} (m : res A) (f : A → res B) e :
  m ≫= f = Raise e ↔ m = Raise e ∨ ∃ a, m = Ok a ∧ f a = Raise e.
Proof. destruct m; simpl; naive_solver. Qed.

Lemma res_map_ok {A B} (f : A → res B) l ys :
  res_map f l = Ok ys ↔ Forall2 (λ x y, f x = Ok y) l ys.
Proof.
  revert ys. induction l as [|x l IH]; intros ys; simpl.
  - split; [by intros [= <-]|by inversion 1].
  - split.
    + intros (y & Hy & (ys' & Hys & [= <-])%res_bind_ok)%res_bind_ok.
      constructor; [done|]. by apply IH.
    + inversion 1 as [|? y ? ys' Hy Hys]; simplify_eq. apply IH in Hys.
      rewrite Hy. simpl. by rewrite Hys.
Qed.

Lemma res_map_app {A B} (f : A → res B) l l' :
  res_map f (l ++ l') = (ys ← res_map f l; ys' ← res_map f l'; mret (ys ++ ys')).
Proof.
  induction l as [|x l IH]; simpl; [by destruct (res_map f l')|]. rewrite IH.
  destruct (f x); simpl; [|done]. destruct (res_map f l); simpl; [|done]. by destruct (res_map f l').
Qed.

Lemma res_map_map {A B C} (g : A → B) (f : B → res C) l : res_map f (map g l) = res_map (λ x, f (g x)) l.
Proof. induction l as [|x l IH]; simpl; [done|]. by rewrite IH. Qed.

Lemma res_map_raise {A B} (f : A → res B) l e :
  res_map f l = Raise e → ∃ x, x ∈ l ∧ f x = Raise e.
Proof.
  induction l as [|x l IH]; simpl; [done|].
  intros [H|(y & Hy & [H|(ys & _ & H)]%res_bind_raise)]%res_bind_raise; [|..|done].
  - exists x. set_solver.
  - destruct (IH H) as (x' & ? & ?). exists x'. set_solver.
Qed.

(** The value of a computation that is known to succeed. *)
Definition get_ok {A} (r : res A) : match r with Ok _ => A | Raise _ => unit end :=
  match r with Ok a => a | Raise _ => tt end.
