(* ===== verification/ApiLimits.v ===== *)
(** * Admission to the service ([api/src/middleware/rateLimiter.ts], [api/src/services/quota.ts],
    [CircuitBreaker] of [api/src/services/redis.ts])

    The rate limiter and the concurrency quota are one Lua script each over a sorted set of time
    stamps, which Redis runs atomically.  The scripts are functions on the set; a run of the service
    is the sequence of scripts in the order Redis runs them, whichever servers sent them. *)
From S2P Require Import Prelude Errors.
From stdpp Require Import options.

(** ** Sorted sets *)

(** The members with their scores, and the time at which the key expires. *)
Record zset := ZSet { z_members : gmap pystr Z; z_deadline : option Z }.

Definition zempty : zset := ZSet ∅ None.

(** The key as a command finds it at server time [t]. *)
Definition zlive (t : Z) (z : zset) : zset :=
  match z_deadline z with
  | Some d => if d <=? t then zempty else z
  | None => z
  end.

Definition zremrangebyscore (lo hi : Z) (z : zset) : zset :=
  ZSet (filter (λ kv, ¬ (lo ≤ kv.2 ≤ hi)) (z_members z)) (z_deadline z).

Definition zcard (z : zset) : Z := Z.of_nat (size (z_members z)).
Definition zadd (score : Z) (m : pystr) (z : zset) : zset := ZSet (<[m := score]> (z_members z)) (z_deadline z).
Definition zrem (m : pystr) (z : zset) : zset := ZSet (delete m (z_members z)) (z_deadline z).
Definition pexpire (t ms : Z) (z : zset) : zset := ZSet (z_members z) (Some (t + ms)).

(** The score of the first member in order: [ZRANGE key 0 0 WITHSCORES]. *)
Definition zfirst (z : zset) : option Z :=
  map_fold (λ _ x acc, Some (match acc with None => x | Some y => Z.min x y end)) None (z_members z).

(** ** The scripts *)

(** [SLIDING_WINDOW_LUA], at server time [t]: admitted (1 or 0), remaining requests, milliseconds to
    wait. *)
Definition sliding_window (t now window limit : Z) (member : pystr) (z : zset) : (Z * Z * Z) * zset :=
  let z := zremrangebyscore 0 (now - window) (zlive t z) in
  let count := zcard z in
  if count <? limit then ((1, limit - count - 1, 0), pexpire t window (zadd now member z))
  else
    let retry := match zfirst z with Some oldest => oldest + window - now | None => window end in
    ((0, 0, if retry <? 1 then 1 else retry), z).

(** [ACQUIRE_LUA] *)
Definition acquire (t now ttl limit : Z) (member : pystr) (z : zset) : Z * zset :=
  let z := zremrangebyscore 0 (now - ttl) (zlive t z) in
  let count := zcard z in
  if count <? limit then (1, pexpire t ttl (zadd now member z)) else (0, z).

(** ** Facts on sorted sets *)

Lemma zfirst_spec z :
  match zfirst z with
  | None => z_members z = ∅
  | Some x => (∃ m, z_members z !! m = Some x) ∧ ∀ m y, z_members z !! m = Some y → x ≤ y
  end.
Proof.
  unfold zfirst. apply (map_fold_weak_ind (λ r (mm : gmap pystr Z), match r with
    | None => mm = ∅
    | Some x => (∃ m, mm !! m = Some x) ∧ ∀ m y, mm !! m = Some y → x ≤ y end)); [done|].
  intros i x mm r Hi Hr. destruct r as [y|].
  - destruct Hr as [[m Hm] Hle]. split.
    + destruct (Z.min_spec x y) as [[_ ->]|[_ ->]]; [exists i; by rewrite lookup_insert_eq|].
      exists m. rewrite lookup_insert_ne; [done|]. intros ->. by rewrite Hi in Hm.
    + intros m' y' [[<- <-]|[Hne Hy']]%lookup_insert_Some; [lia|]. apply Hle in Hy'. lia.
  - subst mm. split; [exists i; apply lookup_insert_eq|].
    intros m y [[<- <-]|[Hne Hy]]%lookup_insert_Some; [lia|done].
Qed.

Lemma filter_impl_length {A} (P Q : A → Prop) `{!∀ x, Decision (P x), !∀ x, Decision (Q x)} (l : list A) :
  (∀ x, P x → Q x) → (length (filter P l) ≤ length (filter Q l))%nat.
Proof.
  intros HPQ. induction l as [|x l IH]; [done|]. rewrite !filter_cons.
  repeat case_decide; cbn; try lia. naive_solver.
Qed.

(** Distinct members that are all in the set are at most as many as the set has. *)
Lemma members_size (l : list (pystr * Z)) (mm : gmap pystr Z) :
  NoDup l.*1 → (∀ m x, (m, x) ∈ l → mm !! m = Some x) → (length l ≤ size mm)%nat.
Proof.
  intros Hn Hl. transitivity (size (list_to_map l : gmap pystr Z)).
  - rewrite <- (length_map_to_list (list_to_map l : gmap pystr Z)). rewrite map_to_list_to_map by done. done.
  - apply map_subseteq_size. apply map_subseteq_spec. intros m x Hm. apply Hl.
    by apply elem_of_list_to_map_2.
Qed.

Lemma keys_size (l : list (pystr * Z)) (mm : gmap pystr Z) :
  NoDup l.*1 → (∀ m x, (m, x) ∈ l → is_Some (mm !! m)) → (length l ≤ size mm)%nat.
Proof.
  intros Hn Hl. rewrite <- (length_fmap fst), <- (size_list_to_set (C := gset pystr) l.*1), <- (size_dom (D := gset pystr)) by done.
  apply subseteq_size. intros m Hm%elem_of_list_to_set. apply list_elem_of_fmap in Hm as ([m' x] & -> & Hin).
  apply elem_of_dom. by apply (Hl m' x).
Qed.

Lemma zlive_members t z m x : z_members (zlive t z) !! m = Some x → z_members z !! m = Some x.
Proof. unfold zlive. destruct (z_deadline z) as [d|]; [|done]. destruct (d <=? t); [|done]. cbn. by rewrite lookup_empty. Qed.

Lemma zlive_zcard t z : zcard (zlive t z) ≤ zcard z.
Proof. unfold zlive. destruct (z_deadline z) as [d|]; [|done]. destruct (d <=? t); [|done]. unfold zcard. cbn. rewrite map_size_empty. lia. Qed.

Lemma zremrangebyscore_zcard lo hi z : zcard (zremrangebyscore lo hi z) ≤ zcard z.
Proof. unfold zcard. apply Nat2Z.inj_le, map_subseteq_size, map_filter_subseteq. Qed.

Lemma zadd_zcard x m z : zcard (zadd x m z) ≤ zcard z + 1.
Proof.
  unfold zcard, zadd. cbn. destruct (z_members z !! m) eqn:E.
  - rewrite map_size_insert_Some by (rewrite E; by eexists). lia.
  - rewrite map_size_insert_None by done. lia.
Qed.

(** The two scripts admit the same requests and leave the same set. *)
Lemma acquire_sliding t now w limit m z :
  acquire t now w limit m z = ((sliding_window t now w limit m z).1.1.1, (sliding_window t now w limit m z).2).
Proof. unfold acquire, sliding_window. by destruct (_ <? _). Qed.

(** ** Histories of admissions

    The scripts of one key in the order Redis runs them, at times on which all clocks agree, with the
    slots granted, newest first. *)
Inductive slot_op :=
| Acquire (now limit : Z) (member : pystr).

Definition slot_step (ttl : Z) (s : zset * list (pystr * Z)) (op : slot_op) : zset * list (pystr * Z) :=
  match op with
  | Acquire now limit m =>
      let '(granted, z) := acquire now now ttl limit m s.1 in
      (z, if granted =? 1 then (m, now) :: s.2 else s.2)
  end.

Definition slot_run (ttl : Z) (ops : list slot_op) : zset * list (pystr * Z) :=
  fold_left (slot_step ttl) ops (zempty, []).

(** The times of the acquisitions do not go back from [t0] on, and no limit exceeds [bound]. *)
Fixpoint orderly (bound t0 : Z) (ops : list slot_op) : Prop :=
  match ops with
  | [] => True
  | Acquire now limit _ :: ops => t0 ≤ now ∧ limit ≤ bound ∧ orderly bound now ops
  end.

(** The time of the last acquisition. *)
Fixpoint last_time (t0 : Z) (ops : list slot_op) : Z :=
  match ops with
  | [] => t0
  | Acquire now _ _ :: ops => last_time now ops
  end.

Definition acquired (op : slot_op) : option pystr :=
  match op with Acquire _ _ m => Some m end.

(** The slots younger than [ttl] at time [t]. *)
Definition active (ttl t : Z) (held : list (pystr * Z)) : list (pystr * Z) :=
  filter (λ h, t - ttl < h.2) held.

Lemma orderly_last bound t0 ops : orderly bound t0 ops → t0 ≤ last_time t0 ops.
Proof.
  revert t0. induction ops as [|[now limit m] ops IH]; intros t0; cbn; [lia|].
  intros (Ht & _ & Ho). apply IH in Ho. lia.
Qed.

(** Only acquired members are held. *)
Lemma slot_run_acquired ttl ops m : m ∈ (slot_run ttl ops).2.*1 → m ∈ omap acquired ops.
Proof.
  unfold slot_run. assert (∀ s, m ∈ (fold_left (slot_step ttl) ops s).2.*1 → m ∈ s.2.*1 ∨ m ∈ omap acquired ops) as H.
  { induction ops as [|[now limit m'] ops IH]; intros s; cbn [fold_left]; [by left|]; intros [Hin|Hin]%IH.
    - unfold slot_step in Hin. destruct (acquire _ _ _ _ _ _) as [g z'], (g =? 1); cbn in Hin;
        [apply elem_of_cons in Hin as [->|Hin]; [right; cbn; by left|]|]; by left.
    - right. cbn. by right. }
  intros [Hin|Hin]%H; [by apply elem_of_nil in Hin|done].
Qed.

Section History.
Context (ttl bound : Z) (Httl : 0 < ttl) (Hbound : 0 ≤ bound).

(** The set has every held slot that is young enough, and nothing but held slots; the key does not
    expire before its slots; it never has more members than the bound. *)
Record slots_inv (t0 : Z) (z : zset) (held : list (pystr * Z)) : Prop := {
  inv_held m x : (m, x) ∈ held → 0 ≤ x ≤ t0;
  inv_nodup : NoDup held.*1;
  inv_young m x : (m, x) ∈ held → t0 - ttl < x → z_members z !! m = Some x;
  inv_member m x : z_members z !! m = Some x → (m, x) ∈ held;
  inv_deadline d m x : z_deadline z = Some d → (m, x) ∈ held → x + ttl ≤ d;
  inv_size : zcard z ≤ bound;
}.

Lemma slots_inv_init t0 : slots_inv t0 zempty [].
Proof using Hbound.
  clear Httl. split; try (by intros; set_solver). constructor.
Qed.

(** What a script finds after it has removed the old slots. *)
Lemma evicted_lookup t0 z held now m x :
  slots_inv t0 z held → t0 ≤ now →
  z_members (zremrangebyscore 0 (now - ttl) (zlive now z)) !! m = Some x ↔ (m, x) ∈ held ∧ now - ttl < x.
Proof using Type.
  intros H Hn. unfold zremrangebyscore. cbn [z_members]. rewrite map_lookup_filter_Some. cbn [snd]. split.
  - intros [Hm Hx]. apply zlive_members in Hm. pose proof (inv_member _ _ _ H _ _ Hm) as Hin.
    pose proof (inv_held _ _ _ H _ _ Hin). split; [done|lia].
  - intros [Hin Hx]. split; [|lia]. pose proof (inv_young _ _ _ H _ _ Hin ltac:(lia)) as Hm.
    unfold zlive. destruct (z_deadline z) as [d|] eqn:Ed; [|done].
    pose proof (inv_deadline _ _ _ H _ _ _ Ed Hin). by rewrite (proj2 (Z.leb_gt _ _)) by lia.
Qed.

Lemma evicted_zcard z now : zcard (zremrangebyscore 0 (now - ttl) (zlive now z)) ≤ zcard z.
Proof using Type. etransitivity; [apply zremrangebyscore_zcard|apply zlive_zcard]. Qed.

Lemma acquire_inv t0 z held now limit m :
  slots_inv t0 z held → 0 ≤ t0 ≤ now → limit ≤ bound → m ∉ held.*1 →
  slots_inv now (slot_step ttl (z, held) (Acquire now limit m)).1 (slot_step ttl (z, held) (Acquire now limit m)).2.
Proof using Httl.
  intros H Hn Hl Hm. pose proof (evicted_lookup t0 z held now) as Hev. pose proof (evicted_zcard z now) as Hc.
  pose proof (inv_size _ _ _ H) as Hs. unfold slot_step, acquire. cbn [fst snd].
  set (z1 := zremrangebyscore 0 (now - ttl) (zlive now z)) in *.
  assert (∀ m' x, (m', x) ∈ held → 0 ≤ x ≤ now) as Hheld
    by (intros m' x Hin; apply (inv_held _ _ _ H) in Hin; lia).
  assert (∀ x, (m, x) ∉ held) as Hfresh by (intros x Hin; apply Hm; apply list_elem_of_fmap; by exists (m, x)).
  destruct (Z.ltb_spec (zcard z1) limit) as [Hlt|Hge]; cbn [fst snd Z.eqb Pos.eqb]; split.
  - intros m' x [[= -> ->]|Hin]%elem_of_cons; [lia|by eapply Hheld].
  - rewrite fmap_cons. apply NoDup_cons. split; [done|apply (inv_nodup _ _ _ H)].
  - intros m' x [[= -> ->]|Hin]%elem_of_cons Hx; cbn; [apply lookup_insert_eq|].
    rewrite lookup_insert_ne by (intros ->; by apply Hfresh in Hin). apply Hev; [done|lia|done].
  - intros m' x Hx. cbn in Hx. apply lookup_insert_Some in Hx as [[<- <-]|[Hne Hx]]; [by left|].
    right. by apply Hev in Hx as [? _]; [|done|lia].
  - intros d m' x [= <-] [[= -> ->]|Hin]%elem_of_cons; [lia|]. apply Hheld in Hin. lia.
  - pose proof (zadd_zcard now m z1). unfold zcard, pexpire, zadd in *. cbn in *. lia.
  - done.
  - apply (inv_nodup _ _ _ H).
  - intros m' x Hin Hx. apply Hev; [done|lia|done].
  - intros m' x Hx. by apply Hev in Hx as [? _]; [|done|lia].
  - intros d m' x Hd Hin. unfold z1 in Hd. cbn in Hd. unfold zlive in Hd.
    destruct (z_deadline z) as [d'|] eqn:Ed; [|by rewrite Ed in Hd]. destruct (d' <=? now); [done|].
    rewrite Ed in Hd. injection Hd as <-. by apply (inv_deadline _ _ _ H _ m').
  - lia.
Qed.

(** Every history keeps the invariant. *)
Lemma slot_run_inv ops t0 s :
  0 ≤ t0 → slots_inv t0 s.1 s.2 → orderly bound t0 ops → NoDup (omap acquired ops) →
  (∀ m, m ∈ s.2.*1 → m ∉ omap acquired ops) →
  slots_inv (last_time t0 ops) (fold_left (slot_step ttl) ops s).1 (fold_left (slot_step ttl) ops s).2.
Proof using Httl.
  revert t0 s. induction ops as [|[now limit m] ops IH]; intros t0 [z held] H0 H Ho Hn Hf; [done|]; cbn [fold_left].
  destruct Ho as (Ht & Hl & Ho). cbn in Hn. apply NoDup_cons in Hn as [Hm Hn]. cbn [snd] in Hf.
  assert (m ∉ held.*1) as Hfresh by (intros Hin; apply (Hf m Hin); cbn; by left).
  apply IH; [lia|by apply (acquire_inv t0)|done|done|]. intros m' Hin Hin'.
  unfold slot_step in Hin. destruct (acquire _ _ _ _ _ _) as [g z'], (g =? 1); cbn in Hin;
    [apply elem_of_cons in Hin as [->|Hin]; [done|]|]; apply (Hf m' Hin); cbn; by right.
Qed.

Lemma active_bound t0 z held t : slots_inv t0 z held → t0 ≤ t → Z.of_nat (length (active ttl t held)) ≤ bound.
Proof using Type.
  intros H Ht. transitivity (zcard z); [|apply (inv_size _ _ _ H)]. apply Nat2Z.inj_le, members_size.
  - eapply sublist_NoDup; [apply (inv_nodup _ _ _ H)|]. apply fmap_sublist, sublist_filter.
  - intros m x [Hx Hin]%list_elem_of_filter. cbn in Hx. apply (inv_young _ _ _ H); [done|lia].
Qed.
End History.

(** ** The quota

    The acquisitions and releases of one user in the order Redis runs them.  The script is given the
    clock of the API server that sends it, [now], which can differ from Redis's own, [t]: the scores
    and the eviction go by the one, the expiry of the key by the other.  With the set, the slots that
    were granted (at which time of Redis) and not released, newest first. *)
Inductive quota_op :=
| Reserve (t now limit : Z) (member : pystr)
| Release (member : pystr).

Definition quota_step (ttl : Z) (s : zset * list (pystr * Z)) (op : quota_op) : zset * list (pystr * Z) :=
  match op with
  | Reserve t now limit m =>
      let '(granted, z) := acquire t now ttl limit m s.1 in
      (z, if granted =? 1 then (m, t) :: s.2 else s.2)
  | Release m => (zrem m s.1, filter (λ h, h.1 ≠ m) s.2)
  end.

Definition quota_run (ttl : Z) (ops : list quota_op) : zset * list (pystr * Z) :=
  fold_left (quota_step ttl) ops (zempty, []).

(** Redis's clock does not go back from [t0] on, every server's clock is within [skew] of it, and no
    limit exceeds [bound]. *)
Fixpoint within_skew (skew bound t0 : Z) (ops : list quota_op) : Prop :=
  match ops with
  | [] => True
  | Reserve t now limit _ :: ops =>
      t0 ≤ t ∧ Z.abs (now - t) ≤ skew ∧ limit ≤ bound ∧ within_skew skew bound t ops
  | Release _ :: ops => within_skew skew bound t0 ops
  end.

(** Redis's time at the last acquisition. *)
Fixpoint quota_time (t0 : Z) (ops : list quota_op) : Z :=
  match ops with
  | [] => t0
  | Reserve t _ _ _ :: ops => quota_time t ops
  | Release _ :: ops => quota_time t0 ops
  end.

Definition reserved (op : quota_op) : option pystr :=
  match op with Reserve _ _ _ m => Some m | Release _ => None end.

Section Quota.
Context (ttl skew bound : Z) (Hskew : 0 ≤ skew).

(** The set has every held slot that is young enough, with a score near the time it was granted; the
    key does not expire before its slots; it never has more members than the bound. *)
Record quota_inv (t0 : Z) (z : zset) (held : list (pystr * Z)) : Prop := {
  quota_past m x : (m, x) ∈ held → x ≤ t0;
  quota_nodup : NoDup held.*1;
  quota_young m x : (m, x) ∈ held → t0 - (ttl - 2 * skew) < x →
    ∃ score, z_members z !! m = Some score ∧ x - skew ≤ score;
  quota_deadline d m x : z_deadline z = Some d → (m, x) ∈ held → x + ttl ≤ d;
  quota_size : zcard z ≤ bound;
}.

(** A young slot is still there when a script has removed the old ones. *)
Lemma young_kept t0 z held t now m x :
  quota_inv t0 z held → t0 ≤ t → Z.abs (now - t) ≤ skew → (m, x) ∈ held → t - (ttl - 2 * skew) < x →
  ∃ score, z_members (zremrangebyscore 0 (now - ttl) (zlive t z)) !! m = Some score ∧ x - skew ≤ score.
Proof using Hskew.
  intros H Ht Hn Hin Hx. destruct (quota_young _ _ _ H m x Hin ltac:(lia)) as (score & Hm & Hs).
  exists score. split; [|done]. apply map_lookup_filter_Some. cbn [snd]. split; [|lia].
  unfold zlive. destruct (z_deadline z) as [d|] eqn:Ed; [|done].
  pose proof (quota_deadline _ _ _ H _ _ _ Ed Hin). by rewrite (proj2 (Z.leb_gt _ _)) by lia.
Qed.

Lemma evicted_deadline now t z d :
  z_deadline (zremrangebyscore 0 now (zlive t z)) = Some d → z_deadline z = Some d.
Proof using Type.
  clear Hskew. unfold zlive. destruct (z_deadline z) as [d'|] eqn:Ed; cbn; [|by rewrite Ed].
  destruct (d' <=? t); cbn; [done|]. by rewrite Ed.
Qed.

Lemma reserve_inv t0 z held t now limit m :
  quota_inv t0 z held → t0 ≤ t → Z.abs (now - t) ≤ skew → limit ≤ bound → m ∉ held.*1 →
  quota_inv t (quota_step ttl (z, held) (Reserve t now limit m)).1 (quota_step ttl (z, held) (Reserve t now limit m)).2.
Proof using Hskew.
  intros H Ht Hn Hl Hm. pose proof (λ m' x, young_kept t0 z held t now m' x H Ht Hn) as Hy.
  pose proof (evicted_deadline (now - ttl) t z) as Hd. pose proof (quota_size _ _ _ H) as Hs.
  assert (zcard (zremrangebyscore 0 (now - ttl) (zlive t z)) ≤ zcard z) as Hc
    by (etransitivity; [apply zremrangebyscore_zcard|apply zlive_zcard]).
  unfold quota_step, acquire. cbn [fst snd]. set (z1 := zremrangebyscore 0 (now - ttl) (zlive t z)) in *.
  assert (∀ m' x, (m', x) ∈ held → x ≤ t) as Hpast by (intros m' x Hin; apply (quota_past _ _ _ H) in Hin; lia).
  assert (∀ x, (m, x) ∉ held) as Hfresh by (intros x Hin; apply Hm; apply list_elem_of_fmap; by exists (m, x)).
  destruct (Z.ltb_spec (zcard z1) limit) as [Hlt|Hge]; cbn [fst snd Z.eqb Pos.eqb]; split.
  - intros m' x [[= -> ->]|Hin]%elem_of_cons; [lia|by eapply Hpast].
  - rewrite fmap_cons. apply NoDup_cons. split; [done|apply (quota_nodup _ _ _ H)].
  - intros m' x [[= -> ->]|Hin]%elem_of_cons Hx; cbn; [exists now; split; [apply lookup_insert_eq|lia]|].
    rewrite lookup_insert_ne by (intros ->; by apply Hfresh in Hin). by apply Hy.
  - intros d m' x [= <-] [[= -> ->]|Hin]%elem_of_cons; [lia|]. apply Hpast in Hin. lia.
  - pose proof (zadd_zcard now m z1). unfold zcard, pexpire, zadd in *. cbn in *. lia.
  - done.
  - apply (quota_nodup _ _ _ H).
  - exact Hy.
  - intros d m' x Hd' Hin. by apply (quota_deadline _ _ _ H d m'); [apply Hd|].
  - lia.
Qed.

Lemma release_inv t0 z held m :
  quota_inv t0 z held →
  quota_inv t0 (quota_step ttl (z, held) (Release m)).1 (quota_step ttl (z, held) (Release m)).2.
Proof using Type.
  clear Hskew. intros H. cbn [quota_step fst snd]. split.
  - intros m' x [_ Hin]%list_elem_of_filter. by apply (quota_past _ _ _ H) in Hin.
  - eapply sublist_NoDup; [apply (quota_nodup _ _ _ H)|]. apply fmap_sublist, sublist_filter.
  - intros m' x [Hne Hin]%list_elem_of_filter Hx. cbn. rewrite lookup_delete_ne by done. by apply (quota_young _ _ _ H).
  - intros d m' x Hd [_ Hin]%list_elem_of_filter. by apply (quota_deadline _ _ _ H d m').
  - etransitivity; [|apply (quota_size _ _ _ H)]. unfold zcard. cbn. apply Nat2Z.inj_le, map_subseteq_size, delete_subseteq.
Qed.

Lemma quota_run_inv ops t0 s :
  quota_inv t0 s.1 s.2 → within_skew skew bound t0 ops → NoDup (omap reserved ops) →
  (∀ m, m ∈ s.2.*1 → m ∉ omap reserved ops) →
  quota_inv (quota_time t0 ops) (fold_left (quota_step ttl) ops s).1 (fold_left (quota_step ttl) ops s).2.
Proof using Hskew.
  revert t0 s. induction ops as [|[t now limit m|m] ops IH]; intros t0 [z held] H Ho Hn Hf; [done|..]; cbn [fold_left].
  - destruct Ho as (Ht & Ha & Hl & Ho). cbn in Hn. apply NoDup_cons in Hn as [Hm Hn]. cbn [snd] in Hf.
    assert (m ∉ held.*1) as Hfresh by (intros Hin; apply (Hf m Hin); cbn; by left).
    apply IH; [by apply (reserve_inv t0)|done|done|]. intros m' Hin Hin'.
    unfold quota_step in Hin. destruct (acquire _ _ _ _ _ _) as [g z'], (g =? 1); cbn in Hin;
      [apply elem_of_cons in Hin as [->|Hin]; [done|]|]; apply (Hf m' Hin); cbn; by right.
  - apply IH; [by apply release_inv|done|done|]. intros m' Hin Hin'.
    apply (Hf m'); [|done]. cbn in *. apply list_elem_of_fmap in Hin as (h & -> & [_ Hh]%list_elem_of_filter).
    by apply list_elem_of_fmap_2.
Qed.
End Quota.

(** C28: the concurrency quota holds.  Whatever servers acquire and release slots for a user, with fresh
    job ids and clocks that are within [skew] of Redis's, which does not go back, at any time the
    slots that were granted less than [ttl] minus twice the skew ago and not released are at most as
    many as the largest limit that was asked for; when the clocks agree that is the whole [ttl]. *)
Theorem quota_bound ttl skew bound ops t0 t :
  0 ≤ skew → 0 ≤ bound → within_skew skew bound t0 ops → NoDup (omap reserved ops) → quota_time t0 ops ≤ t →
  Z.of_nat (length (active (ttl - 2 * skew) t (quota_run ttl ops).2)) ≤ bound.
Proof.
  intros Hs Hb Ho Hn Ht.
  assert (quota_inv ttl skew bound (quota_time t0 ops) (quota_run ttl ops).1 (quota_run ttl ops).2) as H.
  { apply quota_run_inv; [done| |done|done|by intros m Hin; apply elem_of_nil in Hin].
    split; try (by intros; set_solver). constructor. }
  etransitivity; [|apply (quota_size _ _ _ _ _ _ H)]. apply Nat2Z.inj_le, keys_size.
  - eapply sublist_NoDup; [apply (quota_nodup _ _ _ _ _ _ H)|]. apply fmap_sublist, sublist_filter.
  - intros m x [Hx Hin]%list_elem_of_filter. cbn in Hx.
    destruct (quota_young _ _ _ _ _ _ H m x Hin) as (score & Hm & _); [lia|by exists score].
Qed.

(** ** The rate limiter *)

(** The checks of one key (time, limit and the member's unique id), with the requests admitted, newest
    first. *)
Definition rate_step (window : Z) (s : zset * list (pystr * Z)) (c : Z * Z * pystr) : zset * list (pystr * Z) :=
  let '(now, limit, m) := c in
  let '((admitted, _, _), z) := sliding_window now now window limit m s.1 in
  (z, if admitted =? 1 then (m, now) :: s.2 else s.2).

Definition rate_run (window : Z) (checks : list (Z * Z * pystr)) : zset * list (pystr * Z) :=
  fold_left (rate_step window) checks (zempty, []).

(** A check is an acquisition that is never released. *)
Definition check_op (c : Z * Z * pystr) : slot_op := Acquire c.1.1 c.1.2 c.2.

Lemma rate_step_slot window s c : rate_step window s c = slot_step window s (check_op c).
Proof.
  destruct c as [[now limit] m]. unfold rate_step, slot_step, check_op. cbn [fst snd]. rewrite acquire_sliding.
  by destruct (sliding_window _ _ _ _ _ _) as [[[a b] c] z].
Qed.

(** The requests admitted in the window that ends at [t]. *)
Definition in_window (window t : Z) (admitted : list (pystr * Z)) : list (pystr * Z) :=
  filter (λ h, t - window < h.2 ≤ t) admitted.

Section Window.
Context (window bound : Z) (Hw : 0 < window) (Hb : 0 ≤ bound).

Definition windows_bounded (admitted : list (pystr * Z)) : Prop :=
  ∀ t, Z.of_nat (length (in_window window t admitted)) ≤ bound.

(** An interval that ends before the newest request was admitted has the older ones only; any other
    has requests that were all in the set when the newest was counted. *)
Lemma rate_step_window t0 s c :
  0 ≤ t0 → slots_inv window bound t0 s.1 s.2 → windows_bounded s.2 → t0 ≤ c.1.1 → c.1.2 ≤ bound → c.2 ∉ s.2.*1 →
  slots_inv window bound c.1.1 (rate_step window s c).1 (rate_step window s c).2 ∧
  windows_bounded (rate_step window s c).2.
Proof using Hw.
  intros H0 H Hs Ht Hl Hf. destruct s as [z held], c as [[now limit] m]. cbn [fst snd] in *.
  rewrite rate_step_slot. unfold check_op. cbn [fst snd].
  pose proof (acquire_inv window bound Hw t0 z held now limit m H ltac:(lia) Hl Hf) as Hi.
  split; [exact Hi|]. intros t. destruct (Z.le_gt_cases now t) as [Hle|Hgt].
  - etransitivity; [|exact (active_bound window bound now _ _ t Hi Hle)].
    apply Nat2Z.inj_le, filter_impl_length. cbn. lia.
  - etransitivity; [|apply (Hs t)]. unfold slot_step. cbn [fst snd].
    destruct (acquire _ _ _ _ _ _) as [g z'], (g =? 1); [|done]. cbn [snd]. unfold in_window at 1.
    rewrite filter_cons_False; [done|]. cbn. lia.
Qed.

Lemma rate_run_window checks t0 s :
  0 ≤ t0 → slots_inv window bound t0 s.1 s.2 → windows_bounded s.2 →
  orderly bound t0 (map check_op checks) → NoDup checks.*2 → (∀ m, m ∈ s.2.*1 → m ∉ checks.*2) →
  windows_bounded (fold_left (rate_step window) checks s).2.
Proof using Hw.
  revert t0 s. induction checks as [|c checks IH]; intros t0 s H0 H Hs Ho Hn Hf; [done|]; cbn [fold_left].
  destruct c as [[now limit] m]. destruct Ho as (Ht & Hl & Ho). apply NoDup_cons in Hn as [Hm Hn]. cbn [snd] in Hm.
  destruct (rate_step_window t0 s (now, limit, m)) as [H1 H2]; [done..| |].
  { intros Hin. apply (Hf m Hin). by left. }
  apply (IH now); [cbn in *; lia|done..|]. intros m' Hin Hin'. rewrite rate_step_slot in Hin.
  unfold slot_step, check_op in Hin. cbn [fst snd] in Hin.
  destruct (acquire _ _ _ _ _ _) as [g z'], (g =? 1); cbn in Hin;
    [apply elem_of_cons in Hin as [->|Hin]; [done|]|]; apply (Hf m' Hin); by right.
Qed.
End Window.

(** C16: the rate limit is a sliding window.  For checks of one key at times that do not go back, with
    unique member ids, every interval of the window's length, wherever it starts, has at most as
    many admitted requests as the largest limit asked for: there is no burst across a boundary. *)
Theorem rate_window_bound window bound checks t0 t :
  0 < window → 0 ≤ bound → 0 ≤ t0 → orderly bound t0 (map check_op checks) → NoDup checks.*2 →
  Z.of_nat (length (in_window window t (rate_run window checks).2)) ≤ bound.
Proof.
  intros Hw Hb H0 Ho Hn. apply (rate_run_window window bound Hw checks t0); [done|by apply slots_inv_init|by intros ?|done|done|].
  intros m Hin. by apply elem_of_nil in Hin.
Qed.

(** When a refused request is admitted again. *)
Section Retry.
Context (window limit : Z) (Hw : 0 < window) (Hl : 0 < limit).

(** A refusal: the set that is left is full, and its oldest member says how long to wait. *)
Lemma refused t0 z held now m rem rest z' :
  slots_inv window limit t0 z held → 0 ≤ t0 ≤ now → m ∉ held.*1 →
  sliding_window now now window limit m z = ((0, rem, rest), z') →
  slots_inv window limit now z' held ∧ zcard z' = limit ∧
  ∃ oldest, zfirst z' = Some oldest ∧ now - window < oldest ≤ now ∧ rest = oldest + window - now.
Proof using Hw Hl.
  intros H Ht Hm E. pose proof (acquire_inv window limit Hw t0 z held now limit m H Ht ltac:(lia) Hm) as Hi.
  unfold slot_step in Hi. cbn [fst snd] in Hi. rewrite acquire_sliding, E in Hi. cbn in Hi.
  pose proof (evicted_lookup window limit t0 z held now) as Hev. unfold sliding_window in E.
  set (z1 := zremrangebyscore 0 (now - window) (zlive now z)) in *.
  destruct (Z.ltb_spec (zcard z1) limit) as [|Hge]; [done|]. injection E as _ Er <-.
  pose proof (inv_size _ _ _ _ _ Hi) as Hsz. split_and!; [done|lia|].
  pose proof (zfirst_spec z1) as Hz. destruct (zfirst z1) as [o|].
  - destruct Hz as [[mo Ho] _]. apply Hev in Ho as [Hin Ho]; [|done|lia]. exists o.
    pose proof (inv_held _ _ _ _ _ H _ _ Hin). split_and!; [done|lia..|].
    by rewrite (proj2 (Z.ltb_ge _ _)) in Er by lia.
  - unfold zcard in Hge. rewrite Hz, map_size_empty in Hge. lia.
Qed.

(** While the oldest member is in the window the set stays full; then it is not. *)
Lemma full_until now z held oldest t m :
  slots_inv window limit now z held → zcard z = limit → zfirst z = Some oldest → now ≤ t →
  (acquire t t window limit m z).1 = if oldest + window <=? t then 1 else 0.
Proof using Hw.
  clear Hl. intros H Hc Ho Ht. pose proof (evicted_lookup window limit now z held t) as Hev.
  pose proof (zfirst_spec z) as Hz. rewrite Ho in Hz. destruct Hz as [[mo Hmo] Hmin].
  unfold acquire. set (z1 := zremrangebyscore 0 (t - window) (zlive t z)) in *.
  destruct (Z.leb_spec (oldest + window) t) as [Hle|Hgt].
  - assert (zcard z1 < limit) as Hlt; [|by rewrite (proj2 (Z.ltb_lt _ _)) by done].
    rewrite <- Hc. apply Nat2Z.inj_lt, map_subset_size. apply map_subset_alt. split.
    + apply map_subseteq_spec. intros i x Hi. apply Hev in Hi as [Hin Hx]; [|done|lia].
      apply (inv_young _ _ _ _ _ H); [done|lia].
    + exists mo. split; [|by rewrite Hmo]. apply eq_None_not_Some. intros [x Hx].
      apply Hev in Hx as [Hin Hx]; [|done|lia].
      assert (z_members z !! mo = Some x) as Heq by (apply (inv_young _ _ _ _ _ H); [done|lia]). simplify_eq. lia.
  - assert (limit ≤ zcard z1) as Hge; [|by rewrite (proj2 (Z.ltb_ge _ _)) by done].
    rewrite <- Hc. apply Nat2Z.inj_le, map_subseteq_size. apply map_subseteq_spec. intros i x Hi.
    apply Hev; [done|lia|]. split; [by apply (inv_member _ _ _ _ _ H)|]. apply Hmin in Hi. lia.
Qed.
End Retry.

(** the waiting time of a refusal is exact.  After any orderly checks of a key with one limit, a
    refused request gets a waiting time between one millisecond and the window; if nobody else is
    admitted meanwhile, a new attempt is refused before that time has passed and admitted from then on. *)
Theorem retry_after_exact window limit checks t0 now m rem rest z' :
  0 < window → 0 < limit → 0 ≤ t0 → orderly limit t0 (map check_op checks) → NoDup (m :: checks.*2) →
  last_time t0 (map check_op checks) ≤ now →
  sliding_window now now window limit m (rate_run window checks).1 = ((0, rem, rest), z') →
  1 ≤ rest ≤ window ∧
  ∀ t m', now ≤ t → (sliding_window t t window limit m' z').1.1.1 = if now + rest <=? t then 1 else 0.
Proof.
  intros Hw Hl H0 Ho Hn Ht E.
  assert (rate_run window checks = slot_run window (map check_op checks)) as Hrun.
  { unfold rate_run, slot_run. generalize (zempty, [] : list (pystr * Z)). clear. induction checks as [|c cs IH]; intros s; [done|].
    cbn. rewrite rate_step_slot. apply IH. }
  assert (omap acquired (map check_op checks) = checks.*2) as Hacq.
  { clear. induction checks as [|[[] ?] cs IH]; [done|]. cbn. by f_equal. }
  apply NoDup_cons in Hn as [Hm Hn]. rewrite <- Hacq in Hm, Hn. rewrite Hrun in E.
  assert (slots_inv window limit (last_time t0 (map check_op checks)) (slot_run window (map check_op checks)).1
            (slot_run window (map check_op checks)).2) as Hi.
  { apply slot_run_inv; [done|done|by apply slots_inv_init; lia|done|done|]. intros m' Hin. by apply elem_of_nil in Hin. }
  pose proof (orderly_last _ _ _ Ho). destruct (refused window limit Hw Hl _ _ _ now m rem rest z' Hi) as (Hi' & Hc & o & Hf & Hoo & ->);
    [lia| |exact E|].
  { intros Hin. by apply Hm, (slot_run_acquired window). }
  split; [lia|]. intros t m' Htt. pose proof (full_until window limit Hw now z' _ o t m' Hi' Hc Hf Htt) as Hfull.
  rewrite acquire_sliding in Hfull. cbn [fst] in Hfull. rewrite Hfull.
  by replace (now + (o + window - now)) with (o + window) by lia.
Qed.

(** ** The circuit breaker *)

Inductive BreakerState := Closed | Open | HalfOpen.

Record Breaker := { breaker_state : BreakerState; failures : Z; openedAt : Z }.

Definition breaker0 : Breaker := {| breaker_state := Closed; failures := 0; openedAt := 0 |}.

(** The head of [run], at time [now]: whether the call goes through. *)
Definition breaker_enter (cooldown now : Z) (b : Breaker) : bool * Breaker :=
  match breaker_state b with
  | Open =>
      if cooldown <=? now - openedAt b
      then (true, {| breaker_state := HalfOpen; failures := failures b; openedAt := openedAt b |})
      else (false, b)
  | _ => (true, b)
  end.

Definition onSuccess (b : Breaker) : Breaker :=
  {| breaker_state := Closed; failures := 0; openedAt := openedAt b |}.

Definition onFailure (threshold now : Z) (b : Breaker) : Breaker :=
  if threshold <=? failures b + 1
  then {| breaker_state := Open; failures := failures b + 1; openedAt := now |}
  else {| breaker_state := breaker_state b; failures := failures b + 1; openedAt := openedAt b |}.

(** Calls overlap: what the breaker sees is any sequence of calls that start and calls that end. *)
Inductive breaker_event :=
| CallStarts (now : Z)
| CallSucceeds
| CallFails (now : Z).

Definition breaker_step (threshold cooldown : Z) (b : Breaker) (e : breaker_event) : Breaker :=
  match e with
  | CallStarts now => (breaker_enter cooldown now b).2
  | CallSucceeds => onSuccess b
  | CallFails now => onFailure threshold now b
  end.

Definition breaker_after (threshold cooldown : Z) (es : list breaker_event) : Breaker :=
  fold_left (breaker_step threshold cooldown) es breaker0.

(** The specification keeps only the times of the failures since the last success, newest first. *)
Definition streak_step (l : list Z) (e : breaker_event) : list Z :=
  match e with
  | CallStarts _ => l
  | CallSucceeds => []
  | CallFails now => now :: l
  end.

Definition streak (es : list breaker_event) : list Z := fold_left streak_step es [].

(** Reject when the streak is long enough and its last failure recent enough. *)
Definition must_reject (threshold cooldown now : Z) (l : list Z) : bool :=
  (threshold <=? Z.of_nat (length l)) && match l with t :: _ => now - t <? cooldown | [] => false end.

(** The times of the events do not go back from [t0]. *)
Fixpoint in_order (t0 : Z) (es : list breaker_event) : Prop :=
  match es with
  | [] => True
  | CallStarts now :: es | CallFails now :: es => t0 ≤ now ∧ in_order now es
  | CallSucceeds :: es => in_order t0 es
  end.

Fixpoint breaker_time (t0 : Z) (es : list breaker_event) : Z :=
  match es with
  | [] => t0
  | CallStarts now :: es | CallFails now :: es => breaker_time now es
  | CallSucceeds :: es => breaker_time t0 es
  end.

Section BreakerSpec.
Context (threshold cooldown : Z) (Hth : 0 < threshold).

Record breaker_inv (t0 : Z) (b : Breaker) (l : list Z) : Prop := {
  binv_failures : failures b = Z.of_nat (length l);
  binv_closed : breaker_state b = Closed ↔ Z.of_nat (length l) < threshold;
  binv_opened : breaker_state b ≠ Closed → head l = Some (openedAt b);
  binv_half : breaker_state b = HalfOpen → cooldown ≤ t0 - openedAt b;
}.

Lemma breaker_step_inv t0 b l e :
  breaker_inv t0 b l → in_order t0 [e] →
  breaker_inv (breaker_time t0 [e]) (breaker_step threshold cooldown b e) (streak_step l e).
Proof using Hth.
  intros [Hf Hc Ho Hh] Ht. destruct e as [now| |now]; cbn in *.
  - unfold breaker_enter. destruct (breaker_state b) eqn:Es; cbn; [by split; rewrite ?Es|..].
    + destruct (Z.leb_spec cooldown (now - openedAt b)); cbn; split; cbn; rewrite ?Es; try done; try lia.
      * split; [done|]. intros Hlt. by apply Hc in Hlt.
      * intros _. by apply Ho.
    + split; rewrite ?Es; try done. intros _. specialize (Hh eq_refl). lia.
  - by split; cbn; [..|done|done].
  - unfold onFailure. destruct (Z.leb_spec threshold (failures b + 1)); split; cbn; try done; try lia.
    + split; [done|]. lia.
    + rewrite Hc. lia.
    + intros Hne. exfalso. apply Hne. apply Hc. lia.
    + intros Hhh. assert (breaker_state b = Closed) by (apply Hc; lia). congruence.
Qed.

Lemma breaker_run_inv es t0 b l :
  breaker_inv t0 b l → in_order t0 es →
  breaker_inv (breaker_time t0 es) (fold_left (breaker_step threshold cooldown) es b) (fold_left streak_step es l).
Proof using Hth.
  revert t0 b l. induction es as [|e es IH]; intros t0 b l H Ho; [done|]. cbn [fold_left].
  replace (breaker_time t0 (e :: es)) with (breaker_time (breaker_time t0 [e]) es) by (by destruct e).
  apply IH; [apply breaker_step_inv; [done|]|]; by destruct e; cbn in *; tauto.
Qed.
End BreakerSpec.

(** C29: the circuit breaker implements its specification.  After any interleaving of calls that start,
    succeed and fail, in the order of time, a call is rejected exactly when the calls that ended
    since the last success are at least [threshold] failures and the last of them is less than the
    cool-down ago; the breaker is closed exactly while they are fewer. *)
Theorem breaker_refines threshold cooldown es t0 now :
  0 < threshold → in_order t0 es → breaker_time t0 es ≤ now →
  (breaker_enter cooldown now (breaker_after threshold cooldown es)).1 = negb (must_reject threshold cooldown now (streak es)) ∧
  (breaker_state (breaker_after threshold cooldown es) = Closed ↔ Z.of_nat (length (streak es)) < threshold).
Proof.
  intros Hth Ho Hn.
  assert (breaker_inv threshold cooldown t0 breaker0 []) as H0 by (split; cbn; [done|split; [lia|done]|done..]).
  pose proof (breaker_run_inv threshold cooldown Hth es t0 breaker0 [] H0 Ho) as H.
  fold (breaker_after threshold cooldown es) (streak es) in H. destruct H as [Hf Hc Hop Hh].
  set (b := breaker_after threshold cooldown es) in *. split; [|done]. unfold must_reject, breaker_enter.
  destruct (breaker_state b) eqn:Es.
  - rewrite (proj2 (Z.leb_gt _ _)) by by apply Hc. done.
  - assert (threshold ≤ Z.of_nat (length (streak es))) as Hle by (apply Z.nlt_ge; intros ?%Hc; done).
    rewrite (proj2 (Z.leb_le threshold _)) by done. specialize (Hop ltac:(done)).
    destruct (streak es) as [|t l]; [done|]. injection Hop as ->. cbn [andb].
    rewrite Z.ltb_antisym, negb_involutive. by destruct (cooldown <=? now - openedAt b).
  - assert (threshold ≤ Z.of_nat (length (streak es))) as Hle by (apply Z.nlt_ge; intros ?%Hc; done).
    rewrite (proj2 (Z.leb_le threshold _)) by done. specialize (Hop ltac:(done)). specialize (Hh eq_refl).
    destruct (streak es) as [|t l]; [done|]. injection Hop as ->. cbn [andb fst].
    by rewrite (proj2 (Z.ltb_ge _ _)) by lia.
Qed.

(** ** Concrete histories *)
Module ExampleLimits.

(** Two slots for a user; the third job waits until the first has been released.  The server that asks
    for the second slot is 300 ms behind Redis. *)
Definition ops : list quota_op :=
  [Reserve 1000 1000 2 (u "a"); Reserve 1500 1200 2 (u "b"); Reserve 1600 1650 2 (u "c"); Release (u "a");
   Reserve 1700 1700 2 (u "d")].

Lemma ops_run : (quota_run 40000 ops).2 = [(u "d", 1700); (u "b", 1500)].
Proof. vm_compute. reflexivity. Qed.

Lemma quota_bound_witness :
  (quota_run 40000 ops).2 = [(u "d", 1700); (u "b", 1500)] ∧
  Z.of_nat (length (active (40000 - 2 * 300) 1800 (quota_run 40000 ops).2)) ≤ 2.
Proof.
  split; [exact ops_run|]. apply (quota_bound 40000 300 2 ops 0 1800); [lia..| | |cbn; lia]; [cbn; lia|by_compute].
Defined.

(** a server whose clock is ahead by the time to live evicts the live slots of other servers: with one
    slot allowed, two jobs hold one at the same time of Redis. *)
Theorem fast_clock_evicts :
  (quota_run 40000 [Reserve 1000 1000 1 (u "a"); Reserve 1001 41001 1 (u "b")]).2 = [(u "b", 1001); (u "a", 1000)].
Proof. vm_compute. reflexivity. Qed.

(** Three requests a second, a burst across the boundary of a second. *)
Definition checks : list (Z * Z * pystr) :=
  [(900, 3, u "a"); (950, 3, u "b"); (990, 3, u "c"); (1010, 3, u "d"); (1890, 3, u "e"); (1950, 3, u "f")].

Lemma checks_run : (rate_run 1000 checks).2 = [(u "f", 1950); (u "c", 990); (u "b", 950); (u "a", 900)].
Proof. vm_compute. reflexivity. Qed.

Lemma checks_orderly : orderly 3 0 (map check_op checks).
Proof. cbn. lia. Qed.

Lemma rate_window_bound_witness :
  (rate_run 1000 checks).2 = [(u "f", 1950); (u "c", 990); (u "b", 950); (u "a", 900)] ∧
  Z.of_nat (length (in_window 1000 1950 (rate_run 1000 checks).2)) ≤ 3.
Proof.
  split; [exact checks_run|].
  apply (rate_window_bound 1000 3 checks 0 1950); [lia..|exact checks_orderly|by_compute].
Defined.

(** The fourth request has to wait until the first is a second old. *)
Definition full : list (Z * Z * pystr) := [(900, 3, u "a"); (950, 3, u "b"); (990, 3, u "c")].

Lemma full_refuses :
  sliding_window 1010 1010 1000 3 (u "d") (rate_run 1000 full).1 =
  ((0, 0, 890), (sliding_window 1010 1010 1000 3 (u "d") (rate_run 1000 full).1).2).
Proof. vm_compute. reflexivity. Qed.

Lemma retry_after_exact_witness :
  let z := (sliding_window 1010 1010 1000 3 (u "d") (rate_run 1000 full).1).2 in
  (sliding_window 1899 1899 1000 3 (u "e") z).1.1.1 = 0 ∧ (sliding_window 1900 1900 1000 3 (u "e") z).1.1.1 = 1.
Proof.
  destruct (retry_after_exact 1000 3 full 0 1010 (u "d") 0 890 _ ltac:(lia) ltac:(lia) ltac:(lia) ltac:(cbn; lia)
              ltac:(by_compute) ltac:(cbn; lia) full_refuses) as [_ H].
  split; [exact (H 1899 (u "e") ltac:(lia))|exact (H 1900 (u "e") ltac:(lia))].
Defined.

(** Five failures open the breaker; a late success of a slow call closes it again. *)
Definition outage : list breaker_event :=
  [CallStarts 0; CallFails 10; CallFails 20; CallFails 30; CallFails 40; CallStarts 45; CallFails 50].

Lemma breaker_refines_witness :
  (breaker_enter 5000 5049 (breaker_after 5 5000 outage)).1 = false ∧
  (breaker_enter 5000 5050 (breaker_after 5 5000 outage)).1 = true.
Proof.
  split.
  - exact (proj1 (breaker_refines 5 5000 outage 0 5049 ltac:(lia) ltac:(cbn; lia) ltac:(cbn; lia))).
  - exact (proj1 (breaker_refines 5 5000 outage 0 5050 ltac:(lia) ltac:(cbn; lia) ltac:(cbn; lia))).
Defined.
End ExampleLimits.
