(* ===== verification/Json.v ===== *)
(** * JSON values as Python sees them

    What [json.loads] returns and the worker then treats as [dict[str, Any]]: the value type with
    its induction principle, dictionaries (insertion ordered, one entry per key), truthiness, the
    [or] idiom, [str(...)] and [int(...)] of an arbitrary value with the exceptions they raise. *)
From S2P Require Import Prelude PyStr Errors.
From stdpp Require Import options.

(** Python floats: a finite one is [m * 2^e]. *)
Inductive pyfloat :=
| FNan
| FInf (negative : bool)
| FFin (m e : Z).

#[export] Instance pyfloat_eq_dec : EqDecision pyfloat.
Proof. solve_decision. Defined.

Unset Elimination Schemes.
Inductive json :=
| JNull
| JBool (b : bool)
| JInt (z : Z)
| JFloat (f : pyfloat)
| JStr (s : pystr)
| JList (l : list json)
| JDict (d : list (pystr * json)).
Set Elimination Schemes.

Section JsonInd.
Context (P : json → Prop).
Context (Hnull : P JNull) (Hbool : ∀ b, P (JBool b)) (Hint : ∀ z, P (JInt z)).
Context (Hfloat : ∀ f, P (JFloat f)) (Hstr : ∀ s, P (JStr s)).
Context (Hlist : ∀ l, Forall P l → P (JList l)).
Context (Hdict : ∀ d, Forall (λ kv, P kv.2) d → P (JDict d)).

Definition json_ind : ∀ j, P j :=
  fix go j :=
    match j with
    | JNull => Hnull
    | JBool b => Hbool b
    | JInt z => Hint z
    | JFloat f => Hfloat f
    | JStr s => Hstr s
    | JList l =>
        Hlist l ((fix gol l := match l return Forall P l with
                               | [] => Forall_nil_2 _
                               | x :: l' => Forall_cons_2 _ _ _ (go x) (gol l')
                               end) l)
    | JDict d =>
        Hdict d ((fix god d := match d return Forall (λ kv, P kv.2) d with
                               | [] => Forall_nil_2 _
                               | kv :: d' => Forall_cons_2 (λ kv, P kv.2) _ _ (go kv.2) (god d')
                               end) d)
    end.
End JsonInd.

#[export] Instance json_eq_dec : EqDecision json.
Proof.
  hnf. fix go 1. intros x y.
  destruct x as [|a|a|a|a|a|a], y as [|b|b|b|b|b|b]; try (by right).
  - by left.
  - destruct (decide (a = b)); [left; congruence|right; congruence].
  - destruct (decide (a = b)); [left; congruence|right; congruence].
  - destruct (decide (a = b)); [left; congruence|right; congruence].
  - destruct (decide (a = b)); [left; congruence|right; congruence].
  - destruct (@list_eq_dec _ go a b); [left; congruence|right; congruence].
  - destruct (@list_eq_dec _ (@prod_eq_dec _ _ _ go) a b); [left; congruence|right; congruence].
Defined.

(** ** Dictionaries *)

(** [d.get(k)] *)
Fixpoint dict_get (k : pystr) (d : list (pystr * json)) : option json :=
  match d with
  | [] => None
  | (k', v) :: d' => if k' =s k then Some v else dict_get k d'
  end.

(** [d[k] = v]: an existing key keeps its place, a new one goes last. *)
Fixpoint dict_set (k : pystr) (v : json) (d : list (pystr * json)) : list (pystr * json) :=
  match d with
  | [] => [(k, v)]
  | (k', v') :: d' => if k' =s k then (k', v) :: d' else (k', v') :: dict_set k v d'
  end.

(** [d.update(pairs)], and the dictionary of a sequence of pairs *)
Definition dict_update (d pairs : list (pystr * json)) : list (pystr * json) :=
  fold_left (λ d kv, dict_set kv.1 kv.2 d) pairs d.
Definition dict_of_pairs (pairs : list (pystr * json)) : list (pystr * json) :=
  dict_update [] pairs.

Lemma dict_get_set k v d k' :
  dict_get k' (dict_set k v d) = if k =s k' then Some v else dict_get k' d.
Proof.
  induction d as [|[k1 v1] d IH]; simpl; [done|].
  repeat (case_bool_decide; subst; simpl; try done); rewrite ?bool_decide_eq_true_2 by done; try done;
    repeat case_bool_decide; subst; try done.
Qed.

Lemma dict_set_keys k v d :
  map fst (dict_set k v d) = if bool_decide (k ∈ map fst d) then map fst d else map fst d ++ [k].
Proof.
  induction d as [|[k1 v1] d IH]; simpl; [done|].
  destruct (decide (k1 = k)) as [->|Hne].
  - rewrite bool_decide_eq_true_2 by done. simpl. by rewrite bool_decide_eq_true_2 by set_solver.
  - rewrite bool_decide_eq_false_2 by done. simpl. rewrite IH.
    repeat case_bool_decide; set_solver.
Qed.

Lemma dict_set_NoDup k v d : NoDup (map fst d) → NoDup (map fst (dict_set k v d)).
Proof.
  intros H. rewrite dict_set_keys. case_bool_decide as Hk; [done|].
  apply NoDup_app. split; [done|]. split; [set_solver|apply NoDup_singleton].
Qed.

Lemma dict_update_get_out pairs d k :
  k ∉ map fst pairs → dict_get k (dict_update d pairs) = dict_get k d.
Proof.
  unfold dict_update. revert d. induction pairs as [|[k1 v1] pairs IH]; intros d Hk; simpl; [done|].
  rewrite IH by set_solver. rewrite dict_get_set. case_bool_decide; [|done]. set_solver.
Qed.

Lemma dict_update_get_in pairs d k v :
  NoDup (map fst pairs) → (k, v) ∈ pairs → dict_get k (dict_update d pairs) = Some v.
Proof.
  unfold dict_update. revert d. induction pairs as [|[k1 v1] pairs IH]; intros d Hnd Hin; [by inversion Hin|].
  simpl in *. apply NoDup_cons in Hnd as [Hk Hnd]. apply elem_of_cons in Hin as [[= <- <-]|Hin]; [|by apply IH].
  change (dict_get k (dict_update (dict_set k v d) pairs) = Some v).
  rewrite dict_update_get_out by done. rewrite dict_get_set. by rewrite bool_decide_eq_true_2.
Qed.

Lemma dict_update_NoDup pairs d : NoDup (map fst d) → NoDup (map fst (dict_update d pairs)).
Proof.
  unfold dict_update. revert d. induction pairs as [|[k v] pairs IH]; intros d H; simpl; [done|].
  apply IH. by apply dict_set_NoDup.
Qed.

(** Building a dictionary from pairs with distinct keys keeps them as they are. *)
Lemma dict_update_fresh pairs d :
  NoDup (map fst (d ++ pairs)) → dict_update d pairs = d ++ pairs.
Proof.
  unfold dict_update. revert d. induction pairs as [|[k v] pairs IH]; intros d H; simpl.
  { by rewrite app_nil_r. }
  assert (dict_set k v d = d ++ [(k, v)]) as ->.
  { assert (k ∉ map fst d) as Hk.
    { rewrite map_app in H. apply NoDup_app in H as (_ & H & _). intros Hin. by apply (H k); [|left]. }
    clear -Hk. induction d as [|[k1 v1] d IH]; simpl in *; [done|].
    rewrite bool_decide_eq_false_2 by set_solver. by rewrite IH by set_solver. }
  rewrite IH; rewrite <- app_assoc; done.
Qed.

(** Evaluates look-ups of a known key in a dictionary with known keys. *)
Ltac dict_eval :=
  repeat match goal with
  | |- context [dict_get ?k ?d] => let v := eval hnf in (dict_get k d) in change (dict_get k d) with v
  end.

(** ** Truthiness, [str(...)], [int(...)] *)

Definition truthy (j : json) : bool :=
  match j with
  | JNull => false
  | JBool b => b
  | JInt z => negb (z =? 0)
  | JFloat (FFin m _) => negb (m =? 0)
  | JFloat _ => true
  | JStr s => negb (s =s [])
  | JList l => match l with [] => false | _ => true end
  | JDict d => match d with [] => false | _ => true end
  end.

(** [d.get(k) or default] *)
Definition get_or (k : pystr) (d : list (pystr * json)) (default : json) : json :=
  match dict_get k d with
  | Some v => if truthy v then v else default
  | None => default
  end.

(** Text of floats and containers, which the worker only passes through. *)
Class JsonRuntime := {
  float_repr : pyfloat → pystr;
  float_of_text : pystr → pyfloat;
  repr_container : json → pystr;
}.

Section PyCasts.
Context `{!PyRuntime, !JsonRuntime}.

(** [str(v)] *)
Definition py_str (j : json) : pystr :=
  match j with
  | JNull => u "None"
  | JBool b => if b then u "True" else u "False"
  | JInt z => str_of_int z
  | JFloat f => float_repr f
  | JStr s => s
  | JList _ | JDict _ => repr_container j
  end.

(** Truncation of a finite float towards zero. *)
Definition float_trunc (m e : Z) : Z := if 0 <=? e then m * 2 ^ e else Z.quot m (2 ^ (- e)).

(** [int(v)] *)
Definition py_int_of (j : json) : res Z :=
  match j with
  | JBool b => Ok (if b then 1 else 0)
  | JInt z => Ok z
  | JFloat (FFin m e) => Ok (float_trunc m e)
  | JFloat FNan => Raise ValueError
  | JFloat (FInf _) => Raise OverflowError
  | JStr s => or_raise (py_int s) ValueError
  | JNull | JList _ | JDict _ => Raise TypeError
  end.

End PyCasts.

(** The [AttributeError] of a method call on a value that is not a dictionary. *)
Definition as_dict (j : json) : res (list (pystr * json)) :=
  match j with JDict d => Ok d | _ => Raise AttributeError end.

(** [j[k]] with a string key: only a dictionary accepts one. *)
Definition subscript (j : json) (k : pystr) : res json :=
  match j with
  | JDict d => or_raise (dict_get k d) (KeyError k)
  | _ => Raise TypeError
  end.

(** A runtime for concrete runs, in which no float or container is ever printed. *)
Module PlainJson.
Definition plain_json : JsonRuntime :=
  {| float_repr := λ _, u "0.0"; float_of_text := λ _, FFin 0 0; repr_container := λ _, u "{}" |}.
End PlainJson.
