(* ===== verification/JsonText.v ===== *)
(** * JSON text: [json.dumps] and [json.loads]

    The printer, in the three styles the worker uses (Python's defaults: [ensure_ascii], separators
    [", "] and [": "]; [indent=2]; and [ensure_ascii=False]) and in that of JavaScript's
    [JSON.stringify], with which the API server writes; and the decoder with Python's
    deviations from the standard ([NaN] and [Infinity] are accepted, a repeated key keeps its last
    value, an integer of more than 4300 digits raises [ValueError] instead of [JSONDecodeError]).
    Decoding what was printed, in any sound style, gives the value back. *)
From S2P Require Import Prelude PyStr Errors Utf8 Json.
From stdpp Require Import options.

(** ** Printing *)

Definition hex_digit (n : Z) : Z := if n <? 10 then 48 + n else 87 + n.

(** [\uXXXX] *)
Definition u_escape (n : Z) : pystr :=
  [92; 117; hex_digit (n / 4096); hex_digit ((n / 256) mod 16); hex_digit ((n / 16) mod 16);
   hex_digit (n mod 16)].

Definition escape_char (c : Z) : pystr :=
  if c =? 34 then [92; 34]
  else if c =? 92 then [92; 92]
  else if c =? 10 then [92; 110]
  else if c =? 13 then [92; 114]
  else if c =? 9 then [92; 116]
  else if c =? 12 then [92; 102]
  else if c =? 8 then [92; 98]
  else if (32 <=? c) && (c <=? 126) then [c]
  else if c <? 0x10000 then u_escape c
  else u_escape (0xD800 + (c - 0x10000) / 1024) ++ u_escape (0xDC00 + (c - 0x10000) mod 1024).

(** Without [ensure_ascii] only the quote, the backslash and the control characters are escaped. *)
Definition escape_raw (c : Z) : pystr := if 127 <=? c then [c] else escape_char c.

Definition spaces (n : nat) : pystr := replicate n 32.
Definition newline (indent : nat) : pystr := 10 :: spaces indent.

(** [JSON.stringify] escapes these and the surrogates that are not part of a pair. *)
Definition escape_js (c : Z) : pystr := if in_range 0xD800 0xDFFF c then u_escape c else escape_raw c.

(** A style: how characters are escaped, and the white space after an opening bracket, after a comma
    and before a closing bracket, by nesting depth, and after a colon. *)
Record style := Style {
  escape : Z → pystr;
  ws_open : nat → pystr;
  ws_sep : nat → pystr;
  ws_close : nat → pystr;
  ws_colon : pystr;
}.

Definition compact : style := Style escape_char (λ _, []) (λ _, [32]) (λ _, []) [32].
Definition raw : style := Style escape_raw (λ _, []) (λ _, [32]) (λ _, []) [32].
Definition indented : style :=
  Style escape_char (λ n, newline (2 * n)) (λ n, newline (2 * n)) (λ n, newline (2 * n)) [32].
Definition tight : style := Style escape_js (λ _, []) (λ _, []) (λ _, []) [].

Section Dumps.
Context {JR : JsonRuntime}.

Definition dumps_float (f : pyfloat) : pystr :=
  match f with
  | FNan => u "NaN"
  | FInf false => u "Infinity"
  | FInf true => u "-Infinity"
  | FFin _ _ => float_repr f
  end.

Definition render_str (S : style) (s : pystr) : pystr := 34 :: concat (map (escape S) s) ++ [34].

(** A value at a nesting depth. *)
Fixpoint render (S : style) (depth : nat) (j : json) : pystr :=
  match j with
  | JNull => u "null"
  | JBool true => u "true"
  | JBool false => u "false"
  | JInt z => str_of_int z
  | JFloat f => dumps_float f
  | JStr s => render_str S s
  | JList [] => u "[]"
  | JList l =>
      91 :: ws_open S (depth + 1) ++ join (44 :: ws_sep S (depth + 1)) (map (render S (depth + 1)) l) ++
      ws_close S depth ++ [93]
  | JDict [] => u "{}"
  | JDict d =>
      123 :: ws_open S (depth + 1) ++
      join (44 :: ws_sep S (depth + 1)) (map (λ kv, render_str S kv.1 ++ 58 :: ws_colon S ++ render S (depth + 1) kv.2) d) ++
      ws_close S depth ++ [125]
  end.

(** [json.dumps(v)], [json.dumps(v, indent=2)] and [json.dumps(v, ensure_ascii=False)] *)
Definition json_dumps (j : json) : pystr := render compact 0 j.
Definition json_dumps_pretty (j : json) : pystr := render indented 0 j.
Definition json_dumps_raw (j : json) : pystr := render raw 0 j.

(** [JSON.stringify(v)]; integers only, which JavaScript prints so below 10^21. *)
Definition js_stringify (j : json) : pystr := render tight 0 j.
End Dumps.

(** ** Reading *)

Definition is_json_ws (c : Z) : bool := (c =? 32) || (c =? 9) || (c =? 10) || (c =? 13).
Definition skip_ws (s : pystr) : pystr := drop_while is_json_ws s.

Fixpoint span (f : Z → bool) (s : pystr) : pystr * pystr :=
  match s with
  | c :: s' => if f c then let '(a, b) := span f s' in (c :: a, b) else ([], s)
  | [] => ([], [])
  end.

Definition hex_value (c : Z) : option Z :=
  if is_digit c then Some (c - 48)
  else if (97 <=? c) && (c <=? 102) then Some (c - 87)
  else if (65 <=? c) && (c <=? 70) then Some (c - 55)
  else None.

Definition hex4 (s : pystr) : option (Z * pystr) :=
  match s with
  | a :: b :: c :: d :: s' =>
      a ← hex_value a; b ← hex_value b; c ← hex_value c; d ← hex_value d;
      Some (a * 4096 + b * 256 + c * 16 + d, s')
  | _ => None
  end.

(** The character of a one-letter escape. *)
Definition unescape (c : Z) : option Z :=
  if c =? 34 then Some 34 else if c =? 92 then Some 92 else if c =? 47 then Some 47
  else if c =? 98 then Some 8 else if c =? 102 then Some 12 else if c =? 110 then Some 10
  else if c =? 114 then Some 13 else if c =? 116 then Some 9 else None.

(** One character of a string body, and what follows it; [None] at the closing quote. *)
Definition parse_char (s : pystr) : res (option Z * pystr) :=
  match s with
  | [] => Raise JSONDecodeError
  | c :: s1 =>
    if c =? 34 then Ok (None, s1)
    else if c =? 92 then
      match s1 with
      | [] => Raise JSONDecodeError
      | e :: s2 =>
        if e =? 117 then
          match hex4 s2 with
          | None => Raise JSONDecodeError
          | Some (h, s3) =>
            if in_range 0xD800 0xDBFF h then
              match s3 with
              | b1 :: b2 :: s4 =>
                if (b1 =? 92) && (b2 =? 117) then
                  match hex4 s4 with
                  | None => Raise JSONDecodeError
                  | Some (l, s5) =>
                      if in_range 0xDC00 0xDFFF l
                      then Ok (Some (0x10000 + (h - 0xD800) * 1024 + (l - 0xDC00)), s5)
                      else Ok (Some h, s3)
                  end
                else Ok (Some h, s3)
              | _ => Ok (Some h, s3)
              end
            else Ok (Some h, s3)
          end
        else match unescape e with Some x => Ok (Some x, s2) | None => Raise JSONDecodeError end
      end
    else if c <? 32 then Raise JSONDecodeError
    else Ok (Some c, s1)
  end.

(** The body of a string after its opening quote; every character takes input, so the length of
    the input is enough fuel. *)
Fixpoint parse_str (fuel : nat) (s : pystr) : res (pystr * pystr) :=
  match fuel with
  | O => Raise JSONDecodeError
  | S fuel' =>
      '(c, s') ← parse_char s;
      match c with
      | None => Ok ([], s')
      | Some c => '(t, s'') ← parse_str fuel' s'; Ok (c :: t, s'')
      end
  end.

Section Loads.
Context {JR : JsonRuntime}.

(** The fraction and the exponent of a number, when they are well formed. *)
Definition parse_frac (s : pystr) : pystr * pystr :=
  match s with
  | p :: d :: s' => if (p =? 46) && is_digit d then
                      let '(ds, r) := span is_digit s' in (p :: d :: ds, r)
                    else ([], s)
  | _ => ([], s)
  end.

Definition parse_exp (s : pystr) : pystr * pystr :=
  match s with
  | e :: s' =>
      if (e =? 101) || (e =? 69) then
        let '(sign, s1) := match s' with
                           | c :: s1 => if (c =? 43) || (c =? 45) then ([c], s1) else ([], s')
                           | [] => ([], s')
                           end in
        match span is_digit s1 with
        | ([], _) => ([], s)
        | (ds, r) => (e :: sign ++ ds, r)
        end
      else ([], s)
  | [] => ([], s)
  end.

Definition parse_int_part (s : pystr) : option (pystr * pystr) :=
  match s with
  | c :: s' => if c =? 48 then Some ([c], s')
               else if is_digit c then Some (span is_digit s) else None
  | [] => None
  end.

Definition parse_number (s : pystr) : res (json * pystr) :=
  let '(sign, s1) := match s with
                     | c :: s' => if c =? 45 then ([c], s') else ([], s)
                     | [] => ([], s)
                     end in
  match parse_int_part s1 with
  | None => Raise JSONDecodeError
  | Some (ds, s2) =>
      let '(fr, s3) := parse_frac s2 in
      let '(ex, s4) := parse_exp s3 in
      if (fr =s []) && (ex =s []) then
        if (length ds <=? INT_MAX_STR_DIGITS)%nat then
          Ok (JInt (if sign =s [] then digits_value 0 ds else - digits_value 0 ds), s4)
        else Raise ValueError
      else Ok (JFloat (float_of_text (sign ++ ds ++ fr ++ ex)), s4)
  end.

(** The fixed words of the grammar, with Python's three additions. *)
Definition literals : list (pystr * json) :=
  [(u "null", JNull); (u "true", JBool true); (u "false", JBool false); (u "NaN", JFloat FNan);
   (u "Infinity", JFloat (FInf false)); (u "-Infinity", JFloat (FInf true))].

Fixpoint parse_literal (ls : list (pystr * json)) (s : pystr) : option (json * pystr) :=
  match ls with
  | [] => None
  | (w, j) :: ls' => if startswith s w then Some (j, drop (length w) s) else parse_literal ls' s
  end.

(** Values, list items and object members.  [parse_items] and [parse_members] start after the
    opening bracket or a comma, with white space skipped. *)
Fixpoint parse_value (fuel : nat) (s : pystr) : res (json * pystr) :=
  match fuel with
  | O => Raise JSONDecodeError
  | S fuel' =>
    match s with
    | [] => Raise JSONDecodeError
    | c :: s1 =>
      if c =? 34 then '(t, r) ← parse_str (length s1) s1; Ok (JStr t, r)
      else if c =? 91 then
        match skip_ws s1 with
        | d :: r => if d =? 93 then Ok (JList [], r)
                    else '(l, r) ← parse_items fuel' (d :: r); Ok (JList l, r)
        | [] => Raise JSONDecodeError
        end
      else if c =? 123 then
        match skip_ws s1 with
        | d :: r => if d =? 125 then Ok (JDict [], r)
                    else '(l, r) ← parse_members fuel' (d :: r); Ok (JDict (dict_of_pairs l), r)
        | [] => Raise JSONDecodeError
        end
      else match parse_literal literals s with
           | Some jr => Ok jr
           | None => parse_number s
           end
    end
  end
with parse_items (fuel : nat) (s : pystr) : res (list json * pystr) :=
  match fuel with
  | O => Raise JSONDecodeError
  | S fuel' =>
    '(j, r) ← parse_value fuel' s;
    match skip_ws r with
    | c :: r => if c =? 93 then Ok ([j], r)
                else if c =? 44 then '(l, r') ← parse_items fuel' (skip_ws r); Ok (j :: l, r')
                else Raise JSONDecodeError
    | [] => Raise JSONDecodeError
    end
  end
with parse_members (fuel : nat) (s : pystr) : res (list (pystr * json) * pystr) :=
  match fuel with
  | O => Raise JSONDecodeError
  | S fuel' =>
    match s with
    | q :: s1 =>
      if q =? 34 then
        '(k, r) ← parse_str (length s1) s1;
        match skip_ws r with
        | c :: r =>
          if c =? 58 then
            '(j, r) ← parse_value fuel' (skip_ws r);
            match skip_ws r with
            | c :: r =>
              if c =? 125 then Ok ([(k, j)], r)
              else if c =? 44 then '(l, r') ← parse_members fuel' (skip_ws r); Ok ((k, j) :: l, r')
              else Raise JSONDecodeError
            | [] => Raise JSONDecodeError
            end
          else Raise JSONDecodeError
        | [] => Raise JSONDecodeError
        end
      else Raise JSONDecodeError
    | [] => Raise JSONDecodeError
    end
  end.

(** [json.loads(text)].  A value and an item each start with input of their own, so twice the
    length of the text bounds the nesting of calls. *)
Definition json_loads (s : pystr) : res json :=
  '(j, r) ← parse_value (2 * length s + 2) (skip_ws s);
  match skip_ws r with [] => Ok j | _ => Raise JSONDecodeError end.

End Loads.

(** ** Decoding what was printed *)

(** Values that survive the round trip: text of scalar values, distinct keys, integers within the
    digit limit, no floats (their text is not modelled). *)
Fixpoint wf_json (j : json) : bool :=
  match j with
  | JNull | JBool _ => true
  | JInt z => (length (digits (Z.abs z)) <=? INT_MAX_STR_DIGITS)%nat
  | JFloat _ => false
  | JStr s => bool_decide (scalar_str s)
  | JList l => forallb wf_json l
  | JDict d => bool_decide (NoDup (map fst d)) &&
               forallb (λ kv, bool_decide (scalar_str kv.1) && wf_json kv.2) d
  end.

Section StrRoundTrip.

Lemma hex_value_digit n : 0 ≤ n < 16 → hex_value (hex_digit n) = Some n.
Proof.
  intros H. unfold hex_value, hex_digit, is_digit.
  repeat (case_match; py_simpl; try lia); try (f_equal; lia).
  all: rewrite ?andb_false_iff, ?Z.leb_gt in *; lia.
Qed.

#[local] Ltac Zify.zify_post_hook ::= Z.div_mod_to_equations.

Lemma hex4_escape n t : 0 ≤ n < 0x10000 →
  hex4 (hex_digit (n / 4096) :: hex_digit ((n / 256) mod 16) :: hex_digit ((n / 16) mod 16)
        :: hex_digit (n mod 16) :: t) = Some (n, t).
Proof.
  intros H. unfold hex4. rewrite !hex_value_digit by lia. simpl. f_equal. f_equal. lia.
Qed.

Lemma parse_char_escape c t : is_scalar c → parse_char (escape_char c ++ t) = Ok (Some c, t).
Proof.
  unfold is_scalar. intros H. unfold escape_char.
  repeat (destruct (c =? _) eqn:?; py_simpl; [by subst|]).
  destruct (_ && _) eqn:Ep; py_simpl.
  { unfold parse_char. simpl. replace (c =? 34) with false by lia.
    replace (c =? 92) with false by lia. by replace (c <? 32) with false by lia. }
  destruct (c <? 0x10000) eqn:Ec; py_simpl.
  - unfold parse_char. cbn -[hex4 hex_digit in_range]. rewrite hex4_escape by lia.
    by assert (in_range 0xD800 0xDBFF c = false) as -> by (apply in_range_false; lia).
  - unfold parse_char. cbn -[hex4 hex_digit Z.div Z.modulo Z.mul Z.add in_range].
    rewrite hex4_escape by lia.
    assert (in_range 0xD800 0xDBFF (0xD800 + (c - 0x10000) / 1024) = true) as Hh.
    { apply in_range_true. lia. }
    assert (in_range 0xDC00 0xDFFF (0xDC00 + (c - 0x10000) mod 1024) = true) as Hl.
    { apply in_range_true. lia. }
    rewrite Hh. cbn -[hex4 hex_digit Z.div Z.modulo Z.mul Z.add in_range].
    rewrite hex4_escape by lia. rewrite Hl. f_equal. f_equal. f_equal. lia.
Qed.

Lemma parse_char_raw c t : is_scalar c → parse_char (escape_raw c ++ t) = Ok (Some c, t).
Proof.
  intros H. unfold escape_raw. destruct (127 <=? c) eqn:E; py_simpl; [|by apply parse_char_escape].
  unfold parse_char. cbn [app]. rewrite !(proj2 (Z.eqb_neq _ _)) by lia.
  by replace (c <? 32) with false by lia.
Qed.

Lemma escape_char_nonempty c : escape_char c ≠ [].
Proof. unfold escape_char. by repeat case_match. Qed.
End StrRoundTrip.

(** ** Sound styles *)

Definition all_ws (w : pystr) : Prop := Forall (λ c, is_json_ws c = true) w.

(** The decoder undoes the escapes, and the layout is white space. *)
Class StyleOk (S : style) : Prop := {
  escape_reads c t : is_scalar c → parse_char (escape S c ++ t) = Ok (Some c, t);
  escape_nonempty c : escape S c ≠ [];
  open_ws n : all_ws (ws_open S n);
  sep_ws n : all_ws (ws_sep S n);
  close_ws n : all_ws (ws_close S n);
  colon_ws : all_ws (ws_colon S);
}.

Lemma newline_ws n : all_ws (newline n).
Proof. constructor; [done|]. by apply Forall_replicate. Qed.

#[export] Instance compact_ok : StyleOk compact.
Proof. by split; intros; [apply parse_char_escape|apply escape_char_nonempty|repeat constructor..]. Qed.

#[export] Instance indented_ok : StyleOk indented.
Proof. by split; intros; [apply parse_char_escape|apply escape_char_nonempty|apply newline_ws..|repeat constructor]. Qed.

#[export] Instance raw_ok : StyleOk raw.
Proof.
  split; intros; [by apply parse_char_raw| |repeat constructor..].
  cbn. unfold escape_raw. case_match; [done|apply escape_char_nonempty].
Qed.

#[export] Instance tight_ok : StyleOk tight.
Proof.
  split; intros; [|..|repeat constructor|repeat constructor|repeat constructor|repeat constructor]; cbn; unfold escape_js.
  - assert (in_range 0xD800 0xDFFF c = false) as -> by (apply in_range_false; unfold is_scalar in *; lia).
    by apply parse_char_raw.
  - case_match; [done|]. apply (escape_nonempty (S := raw)).
Qed.

Section RoundTrip.
Context {JR : JsonRuntime}.

(** What may follow a value in the text: the end, a comma, a closing bracket or white space. *)
Definition terminated (r : pystr) : Prop :=
  match r with [] => True | c :: _ => c = 44 ∨ c = 93 ∨ c = 125 ∨ is_json_ws c = true end.

Lemma terminated_head c r :
  terminated (c :: r) → is_digit c = false ∧ c ≠ 46 ∧ c ≠ 101 ∧ c ≠ 69.
Proof.
  cbn. unfold is_json_ws. rewrite !orb_true_iff, !Z.eqb_eq. intros H.
  by repeat destruct H as [H|H]; subst.
Qed.

Lemma terminated_ws w r : all_ws w → terminated r → terminated (w ++ r).
Proof. intros [|c w' Hc _] Hr; [done|]. cbn. auto. Qed.

Lemma skip_ws_app w r : all_ws w → skip_ws (w ++ r) = skip_ws r.
Proof. unfold skip_ws. induction 1 as [|c w Hc _ IH]; [done|]. cbn. by rewrite Hc. Qed.

Lemma span_digits ds r :
  Forall (λ c, is_digit c = true) ds → terminated r → span is_digit (ds ++ r) = (ds, r).
Proof.
  induction 1 as [|c ds Hc _ IH]; intros Hr; simpl.
  - destruct r as [|c r]; [done|]. cbn. by destruct (terminated_head c r Hr) as [-> _].
  - by rewrite Hc, IH.
Qed.

(** The first digit of a positive number is not zero. *)
Lemma digits_aux_head fuel n acc :
  0 < n < 10 ^ Z.of_nat fuel →
  ∃ c ds, digits_aux fuel n acc = c :: ds ∧ 49 ≤ c ≤ 57.
Proof.
  revert n acc. induction fuel as [|fuel IH]; intros n acc Hn; simpl; [simpl in *; lia|].
  destruct (n <? 10) eqn:E; py_simpl; [eexists _, _; split; [done|lia]|].
  rewrite Nat2Z.inj_succ, Z.pow_succ_r in Hn by lia.
  apply IH. split; [apply Z.div_str_pos; lia|apply Z.div_lt_upper_bound; lia].
Qed.

Lemma digits_head n : 0 < n → ∃ c ds, digits n = c :: ds ∧ 49 ≤ c ≤ 57.
Proof. intros. apply digits_aux_head. split; [done|]. apply digits_fuel. lia. Qed.

Lemma parse_int_part_digits n r :
  0 ≤ n → terminated r → parse_int_part (digits n ++ r) = Some (digits n, r).
Proof.
  intros Hn Hr. destruct (decide (n = 0)) as [->|Hn0]; [done|].
  destruct (digits_head n) as (c & ds & E & Hc); [lia|].
  rewrite E. simpl. replace (c =? 48) with false by lia.
  replace (is_digit c) with true by (unfold is_digit; lia).
  rewrite <- (span_digits (c :: ds) r) at 1; [|by rewrite <- E; apply digits_digit|done].
  simpl. by replace (is_digit c) with true by (unfold is_digit; lia).
Qed.

Lemma parse_frac_end r : terminated r → parse_frac r = ([], r).
Proof.
  destruct r as [|c [|d r]]; [done..|]. intros (_ & Hc & _)%terminated_head. cbn.
  by rewrite (proj2 (Z.eqb_neq _ _) Hc).
Qed.

Lemma parse_exp_end r : terminated r → parse_exp r = ([], r).
Proof.
  destruct r as [|c r]; [done|]. intros (_ & _ & He & HE)%terminated_head. cbn.
  by rewrite (proj2 (Z.eqb_neq _ _) He), (proj2 (Z.eqb_neq _ _) HE).
Qed.

Lemma parse_number_str z r :
  (length (digits (Z.abs z)) ≤ INT_MAX_STR_DIGITS)%nat → terminated r →
  parse_number (str_of_int z ++ r) = Ok (JInt z, r).
Proof.
  intros Hlen Hr. unfold parse_number, str_of_int.
  destruct (z <? 0) eqn:Ez; py_simpl; simpl.
  - rewrite parse_int_part_digits, parse_frac_end, parse_exp_end by (done || lia). simpl.
    rewrite (proj2 (Nat.leb_le _ _)) by (by replace (- z) with (Z.abs z) by lia).
    rewrite digits_value_digits by lia. by rewrite Z.opp_involutive.
  - pose proof (digits_digit z Ez) as Hd. pose proof (digits_nonempty z) as Hne.
    destruct (digits z ++ r) as [|c s] eqn:E; [by destruct (digits z)|].
    assert ((c =? 45) = false) as ->.
    { destruct (digits z) as [|d ds]; [done|]. simplify_eq/=. inversion Hd as [|?? Hc]. subst.
      unfold is_digit in Hc. py_simpl. lia. }
    rewrite <- E, parse_int_part_digits, parse_frac_end, parse_exp_end by (done || lia). simpl.
    rewrite (proj2 (Nat.leb_le _ _)) by (by replace z with (Z.abs z) by lia).
    by rewrite digits_value_digits.
Qed.

(** The head of an integer's text selects the number branch of [parse_value]. *)
Lemma str_of_int_head z : ∃ c t, str_of_int z = c :: t ∧
  (is_digit c = true ∨ c = 45 ∧ ∃ d t', t = d :: t' ∧ is_digit d = true).
Proof.
  unfold str_of_int. destruct (z <? 0) eqn:Ez; py_simpl.
  - pose proof (digits_digit (- z) ltac:(lia)) as Hd. pose proof (digits_nonempty (- z)).
    eexists _, _. split; [done|]. right. split; [done|].
    destruct (digits (- z)); [done|]. inversion Hd. eauto.
  - pose proof (digits_digit z Ez) as Hd. pose proof (digits_nonempty z).
    destruct (digits z); [done|]. inversion Hd. eauto 10.
Qed.

Lemma parse_literal_int z r : parse_literal literals (str_of_int z ++ r) = None.
Proof.
  destruct (str_of_int_head z) as (c & t & -> & Hc). unfold literals. cbn [parse_literal].
  unfold is_digit in Hc.
  repeat match goal with |- context [startswith ?s ?w] =>
    let v := eval vm_compute in w in
    assert (startswith s w = false) as ->
      by (apply bool_decide_eq_false; change w with v; intros [k Hk]; simplify_eq/=;
          destruct Hc as [?|(? & ? & ? & ? & ?)]; simplify_eq/=; lia)
  end.
  done.
Qed.

(** Nested calls needed to read a value back. *)
Fixpoint need (j : json) : nat :=
  match j with
  | JList l => S (list_sum (map (λ j, S (need j)) l))
  | JDict d => S (list_sum (map (λ kv, S (need kv.2)) d))
  | _ => 1
  end.

Context {S : style} {SO : StyleOk S}.
#[local] Set Default Proof Using "Type*".

Definition member (depth : nat) (kv : pystr * json) : pystr := render_str S kv.1 ++ 58 :: ws_colon S ++ render S depth kv.2.

Lemma length_escaped s : (length s ≤ length (concat (map (escape S) s)))%nat.
Proof.
  induction s as [|c s IH]; simpl; [lia|]. rewrite length_app.
  pose proof (escape_nonempty c). destruct (escape S c); [done|simpl; lia].
Qed.

Lemma parse_str_escaped fuel s t :
  scalar_str s → (length s < fuel)%nat →
  parse_str fuel (concat (map (escape S) s) ++ 34 :: t) = Ok (s, t).
Proof.
  intros H. revert fuel. induction H as [|c s Hc _ IH]; intros fuel Hf;
    (destruct fuel as [|fuel]; [simpl in *; lia|]); [done|].
  cbn [parse_str map concat]. rewrite <- app_assoc, escape_reads by done. simpl.
  rewrite IH by (simpl in *; lia). done.
Qed.

(** The way [parse_value] and [parse_members] call it. *)
Lemma parse_str_render s t :
  scalar_str s →
  let body := concat (map (escape S) s) ++ 34 :: t in
  parse_str (length body) body = Ok (s, t).
Proof.
  intros H. apply parse_str_escaped; [done|]. rewrite length_app. simpl.
  pose proof (length_escaped s). lia.
Qed.

(** A printed value starts with a character that is neither space nor a closing bracket. *)
Lemma render_head depth j : wf_json j = true →
  ∃ c t, render S depth j = c :: t ∧ is_json_ws c = false ∧ c ≠ 93 ∧ c ≠ 125.
Proof.
  destruct j as [|[]|z|f|s|[]|[]]; simpl; intros Hwf; try done;
    try (eexists _, _; split; [reflexivity|done]); [].
  destruct (str_of_int_head z) as (c & t & -> & Hc). exists c, t. split; [done|].
  unfold is_digit, is_json_ws in *.
  assert (48 ≤ c ∨ c = 45) as Hc' by (destruct Hc as [?|[-> _]]; [py_simpl; lia|by right]).
  rewrite !orb_false_iff, !Z.eqb_neq. destruct Hc as [Hc|[-> _]]; [py_simpl|]; repeat split; lia.
Qed.

(** A text that starts so is not touched by the skipping of white space. *)
Lemma skip_ws_render depth j t : wf_json j = true → skip_ws (render S depth j ++ t) = render S depth j ++ t.
Proof.
  intros H. destruct (render_head depth j H) as (c & t' & -> & Hc & _).
  unfold skip_ws. cbn [app drop_while]. by rewrite Hc.
Qed.

Lemma join_cons2 sep p q ps : join sep (p :: q :: ps) = p ++ sep ++ join sep (q :: ps).
Proof. done. Qed.

Lemma join_head sep (p : pystr) ps t : ∃ t', join sep (p :: ps) ++ t = p ++ t'.
Proof. destruct ps; [by eexists|]. rewrite join_cons2, <- app_assoc. by eexists. Qed.

Definition reads_back (j : json) : Prop :=
  wf_json j = true → ∀ depth fuel r, (need j ≤ fuel)%nat → terminated r →
  parse_value fuel (render S depth j ++ r) = Ok (j, r).

Lemma close_terminated depth c r : c = 93 ∨ c = 125 → terminated (ws_close S depth ++ c :: r).
Proof. intros H. apply terminated_ws; [apply close_ws|]. cbn. tauto. Qed.

Lemma skip_close depth c r : c = 93 ∨ c = 125 → skip_ws (ws_close S depth ++ c :: r) = c :: r.
Proof. intros H. rewrite skip_ws_app by apply close_ws. by destruct H as [-> | ->]. Qed.

Lemma comma_terminated t : terminated (44 :: t).
Proof. by left. Qed.

#[local] Hint Resolve close_terminated comma_terminated : core.

Lemma parse_items_render depth outer l fuel r :
  Forall reads_back l → l ≠ [] → forallb wf_json l = true →
  (list_sum (map (λ j, Datatypes.S (need j)) l) ≤ fuel)%nat →
  parse_items fuel (join (44 :: ws_sep S depth) (map (render S depth) l) ++ ws_close S outer ++ 93 :: r) = Ok (l, r).
Proof.
  intros Hl. revert fuel. induction Hl as [|j l Hj Hl IH]; intros fuel Hne Hwf Hf; [done|].
  simpl in Hwf, Hf. apply andb_true_iff in Hwf as [Hwj Hwl].
  destruct fuel as [|fuel]; [lia|]. cbn [map].
  destruct l as [|j2 l].
  - cbn [map join parse_items]. rewrite Hj by (auto || lia). cbn -[skip_ws].
    by rewrite skip_close by auto.
  - cbn [map]. rewrite join_cons2, <- !app_assoc. cbn [app parse_items].
    rewrite Hj by (auto || lia). cbn -[parse_items join skip_ws map].
    change (skip_ws (44 :: ?x)) with (44 :: x). cbn -[parse_items join skip_ws map].
    rewrite skip_ws_app by apply sep_ws.
    specialize (IH fuel ltac:(done) Hwl ltac:(lia)). cbn [map] in IH.
    destruct (join_head (44 :: ws_sep S depth) (render S depth j2) (map (render S depth) l)
                (ws_close S outer ++ 93 :: r)) as [t' Ht'].
    rewrite Ht' in *. rewrite skip_ws_render by (simpl in Hwl; by apply andb_true_iff in Hwl as [? _]).
    by rewrite IH.
Qed.

(** One member, up to what follows its value. *)
Lemma parse_member depth k j fuel r :
  reads_back j → scalar_str k → wf_json j = true → (need j ≤ fuel)%nat → terminated r →
  parse_members (Datatypes.S fuel) (member depth (k, j) ++ r) =
  match skip_ws r with
  | c :: r => if c =? 125 then Ok ([(k, j)], r)
              else if c =? 44 then '(l, r') ← parse_members fuel (skip_ws r); Ok ((k, j) :: l, r')
              else Raise JSONDecodeError
  | [] => Raise JSONDecodeError
  end.
Proof.
  intros Hj Hk Hwj Hf Hr. unfold member, render_str. cbn [fst snd app parse_members].
  change (34 =? 34) with true. cbn iota. rewrite <- !app_assoc. cbn [app].
  rewrite (parse_str_render k) by done. cbn -[parse_value parse_members skip_ws].
  change (skip_ws (58 :: ?x)) with (58 :: x). cbn -[parse_value parse_members skip_ws].
  rewrite <- app_assoc, skip_ws_app by apply colon_ws. rewrite skip_ws_render by done.
  by rewrite Hj.
Qed.

Lemma parse_members_render depth outer d fuel r :
  Forall (λ kv, reads_back kv.2) d → d ≠ [] →
  forallb (λ kv, bool_decide (scalar_str kv.1) && wf_json kv.2) d = true →
  (list_sum (map (λ kv, Datatypes.S (need kv.2)) d) ≤ fuel)%nat →
  parse_members fuel (join (44 :: ws_sep S depth) (map (member depth) d) ++ ws_close S outer ++ 125 :: r) = Ok (d, r).
Proof.
  intros Hd. revert fuel. induction Hd as [|[k j] d Hj Hd IH]; intros fuel Hne Hwf Hf; [done|].
  simpl in Hwf, Hf, Hj. apply andb_true_iff in Hwf as [[Hk Hwj]%andb_true_iff Hwd].
  apply bool_decide_eq_true in Hk.
  destruct fuel as [|fuel]; [lia|]. cbn [map].
  destruct d as [|kv2 d].
  - cbn [map join]. rewrite parse_member by (auto || lia). by rewrite skip_close by auto.
  - cbn [map]. rewrite join_cons2, <- !app_assoc. cbn [app]. rewrite parse_member by (auto || lia).
    change (skip_ws (44 :: ?x)) with (44 :: x).
    change (44 =? 125) with false. change (44 =? 44) with true. cbn iota. rewrite skip_ws_app by apply sep_ws.
    specialize (IH fuel ltac:(done) Hwd ltac:(lia)). cbn [map] in IH.
    destruct (join_head (44 :: ws_sep S depth) (member depth kv2) (map (member depth) d)
                (ws_close S outer ++ 125 :: r)) as [t' Ht'].
    rewrite Ht' in *. change (skip_ws (member depth kv2 ++ t')) with (member depth kv2 ++ t').
    by rewrite IH.
Qed.

Lemma parse_value_render j : reads_back j.
Proof.
  induction j as [|b|z|f|s|l Hl|d Hd] using json_ind; intros Hwf depth fuel r Hf Hr;
    (destruct fuel as [|fuel]; [simpl in *; lia|]); simpl in Hwf; try done.
  - by destruct b.
  - cbn [render]. destruct (str_of_int_head z) as (c & t & E & Hc). rewrite E. cbn [app parse_value].
    assert (c ≠ 34 ∧ c ≠ 91 ∧ c ≠ 123) as (H1 & H2 & H3).
    { unfold is_digit in Hc. destruct Hc as [Hc|[-> _]]; [py_simpl|]; lia. }
    rewrite !(proj2 (Z.eqb_neq _ _)) by done.
    change (c :: t ++ r) with ((c :: t) ++ r). rewrite <- E.
    rewrite parse_literal_int. apply parse_number_str; [|done]. by apply Nat.leb_le.
  - apply bool_decide_eq_true in Hwf. cbn [render]. unfold render_str.
    cbn [app parse_value]. change (34 =? 34) with true. cbn iota.
    rewrite <- app_assoc. cbn [app]. rewrite (parse_str_render s r) by done. done.
  - destruct l as [|j l]; [done|].
    cbn [render app parse_value]. change (91 =? 34) with false. change (91 =? 91) with true. cbn iota.
    rewrite <- !app_assoc, skip_ws_app by apply open_ws. cbn [app map].
    pose proof (parse_items_render (depth + 1) depth (j :: l) fuel r Hl ltac:(done) Hwf) as Hp.
    specialize (Hp ltac:(simpl in *; lia)). cbn [map] in Hp.
    destruct (join_head (44 :: ws_sep S (depth + 1)) (render S (depth + 1) j) (map (render S (depth + 1)) l)
                (ws_close S depth ++ 93 :: r)) as [t' Ht'].
    assert (wf_json j = true) as Hw by (simpl in Hwf; by apply andb_true_iff in Hwf as [? _]).
    rewrite Ht' in *. rewrite skip_ws_render by done.
    destruct (render_head (depth + 1) j Hw) as (c & t & E & _ & Hc & _). rewrite E in *. cbn [app] in *.
    rewrite (proj2 (Z.eqb_neq _ _)) by done. by rewrite Hp.
  - destruct d as [|kv d]; [done|].
    cbn [render app parse_value]. change (123 =? 34) with false. change (123 =? 91) with false.
    change (123 =? 123) with true. cbn iota.
    apply andb_true_iff in Hwf as [Hnd Hwf]. apply bool_decide_eq_true in Hnd.
    rewrite <- !app_assoc, skip_ws_app by apply open_ws. cbn [app].
    fold (member (depth + 1)).
    pose proof (parse_members_render (depth + 1) depth (kv :: d) fuel r Hd ltac:(done) Hwf) as Hp.
    specialize (Hp ltac:(simpl in *; lia)). cbn [map] in *.
    destruct (join_head (44 :: ws_sep S (depth + 1)) (member (depth + 1) kv) (map (member (depth + 1)) d)
                (ws_close S depth ++ 125 :: r)) as [t' Ht'].
    rewrite Ht' in *. change (skip_ws (member (depth + 1) kv ++ t')) with (member (depth + 1) kv ++ t').
    unfold member, render_str in *. cbn [app] in *.
    change (34 =? 125) with false. cbn iota. rewrite Hp. simpl.
    unfold dict_of_pairs. by rewrite dict_update_fresh.
Qed.

Lemma join_length (sep : pystr) (ls : list pystr) :
  (list_sum (map length ls) + length ls ≤ length (join (44%Z :: sep) ls) + 1)%nat.
Proof.
  induction ls as [|l ls IH]; [simpl; lia|]. destruct ls as [|l2 ls]; [simpl; lia|].
  rewrite join_cons2, !length_app. simpl in *. lia.
Qed.

Lemma need_length j : ∀ depth, wf_json j = true → (need j ≤ 2 * length (render S depth j))%nat.
Proof.
  induction j as [|b|z|f|s|l Hl|d Hd] using json_ind; intros depth; cbn [need]; intros Hwf; try done.
  - vm_compute. lia.
  - destruct b; vm_compute; lia.
  - cbn [render]. pose proof (str_of_int_nonempty z). destruct (str_of_int z); simpl; [done|lia].
  - cbn [render]. unfold render_str. simpl. lia.
  - destruct l as [|j0 l0]; [vm_compute; lia|]. cbn [render]. set (l := j0 :: l0) in *.
    cbn [length]. rewrite !length_app. cbn [length]. cbn [wf_json] in Hwf.
    pose proof (join_length (ws_sep S (depth + 1)) (map (render S (depth + 1)) l)) as Hj.
    rewrite length_map, map_map in Hj.
    assert (list_sum (map (λ j, Datatypes.S (need j)) l) ≤
            length l + 2 * list_sum (map (λ j, length (render S (depth + 1) j)) l))%nat; [|subst l; simpl in *; lia].
    clear Hj. clearbody l. induction Hl as [|j l Hj _ IH]; simpl in *; [lia|].
    apply andb_true_iff in Hwf as [Hw1 Hw2]. specialize (Hj (depth + 1)%nat Hw1). specialize (IH Hw2). lia.
  - destruct d as [|kv0 d0]; [vm_compute; lia|]. cbn [render]. set (d := kv0 :: d0) in *.
    cbn [length]. rewrite !length_app. cbn [length]. cbn [wf_json] in Hwf.
    apply andb_true_iff in Hwf as [_ Hwf]. fold (member (depth + 1)).
    pose proof (join_length (ws_sep S (depth + 1)) (map (member (depth + 1)) d)) as Hj.
    rewrite length_map, map_map in Hj.
    assert (list_sum (map (λ kv, Datatypes.S (need kv.2)) d) ≤
            length d + 2 * list_sum (map (λ kv, length (member (depth + 1) kv)) d))%nat; [|subst d; simpl in *; lia].
    clear Hj. clearbody d. induction Hd as [|kv d Hkv _ IH]; [simpl; lia|].
    apply andb_true_iff in Hwf as [[_ Hw1]%andb_true_iff Hw2]. specialize (Hkv (depth + 1)%nat Hw1).
    specialize (IH Hw2).
    assert (length (render S (depth + 1) kv.2) ≤ length (member (depth + 1) kv))%nat
      by (unfold member; rewrite length_app; cbn [length]; rewrite length_app; lia).
    unfold list_sum in *. cbn [map foldr length]. lia.
Qed.

(** Decoding the text of a well-formed value gives the value back. *)
Lemma loads_render depth j : wf_json j = true → json_loads (render S depth j) = Ok j.
Proof.
  intros Hwf. unfold json_loads. rewrite <- (app_nil_r (render S depth j)) at 2.
  rewrite skip_ws_render by done.
  rewrite parse_value_render; [done..| |done].
  pose proof (need_length j depth Hwf). lia.
Qed.
End RoundTrip.

Section Printers.
Context {JR : JsonRuntime}.

Lemma loads_dumps j : wf_json j = true → json_loads (json_dumps j) = Ok j.
Proof. apply loads_render. Qed.

Lemma loads_dumps_pretty j : wf_json j = true → json_loads (json_dumps_pretty j) = Ok j.
Proof. apply loads_render. Qed.

Lemma loads_stringify j : wf_json j = true → json_loads (js_stringify j) = Ok j.
Proof. apply loads_render. Qed.

Lemma loads_dumps_raw j : wf_json j = true → json_loads (json_dumps_raw j) = Ok j.
Proof. apply loads_render. Qed.
End Printers.

(** ** Dictionaries that text can carry *)

Lemma wf_str s : scalar_str s → wf_json (JStr s) = true.
Proof. apply bool_decide_eq_true. Qed.

Definition wf_attr (kv : pystr * json) : Prop := scalar_str kv.1 ∧ wf_json kv.2 = true.

Lemma wf_dict d : NoDup (map fst d) → Forall wf_attr d → wf_json (JDict d) = true.
Proof.
  intros Hn Hd. cbn [wf_json]. apply andb_true_iff. split; [by apply bool_decide_eq_true|].
  apply forallb_forall. intros kv Hin%list_elem_of_In. rewrite Forall_forall in Hd. destruct (Hd kv Hin).
  apply andb_true_iff. by rewrite bool_decide_eq_true.
Qed.

Lemma wf_dict_inv d : wf_json (JDict d) = true → NoDup (map fst d) ∧ Forall wf_attr d.
Proof.
  cbn [wf_json]. intros [Hn Hd]%andb_true_iff. apply bool_decide_eq_true in Hn. split; [done|].
  apply Forall_forall. intros kv Hin%list_elem_of_In. rewrite forallb_forall in Hd. specialize (Hd kv Hin).
  apply andb_true_iff in Hd as [Hk Hv]. by apply bool_decide_eq_true in Hk.
Qed.

Lemma dict_set_wf k v d : Forall wf_attr d → wf_attr (k, v) → Forall wf_attr (dict_set k v d).
Proof.
  intros Hd Hkv. induction Hd as [|[k' v'] d Hk' Hd IH]; cbn [dict_set]; [by apply Forall_singleton|].
  case_bool_decide as E; constructor; try done. subst. exact Hkv.
Qed.

Lemma dict_update_wf pairs d : Forall wf_attr d → Forall wf_attr pairs → Forall wf_attr (dict_update d pairs).
Proof.
  unfold dict_update. intros Hd Hp. revert d Hd. induction Hp as [|[k v] pairs Hkv _ IH]; intros d Hd; [done|].
  cbn [fold_left]. apply IH. by apply dict_set_wf.
Qed.
