(* ===== verification/Effects.v ===== *)
(** * Effects: the outside world, mutable state and exceptions

    Everything the worker and the API server do to the world outside their own memory (Redis, MinIO, the [docker]
    command, the file system, clocks) is a command [cmd] with an answer type.  The world itself is
    not modelled: it is a [Handler], an arbitrary function from commands to answers over an
    arbitrary environment type, so a theorem over all handlers holds for every behaviour of Redis
    and Docker and for every interleaving with other tasks.  A computation [M] threads the
    environment, the processes' own mutable objects ([Mem]) and the trace of commands, and either
    returns or raises; as in Python and JavaScript, state changes made before an exception stay. *)
From S2P Require Import Prelude Errors ApiLimits.
From stdpp Require Import options.

(** ** Commands *)

(** The [ex=] and [keepttl=] arguments of [SET]. *)
Inductive set_ttl := SetEx (seconds : Z) | SetKeepTtl.

(** One of the two output pipes of the [docker run] process. *)
Inductive stream_kind := Stdout | Stderr.

(** One step of a background task of a running job: a read of a pipe completes, standard input has
    been fed, the resource sampler goes on to its next [await]. *)
Inductive bg := BgRead (kind : stream_kind) (chunk : bytes) | BgStdin | BgSample.

#[export] Instance set_ttl_eq_dec : EqDecision set_ttl.
Proof. solve_decision. Defined.
#[export] Instance stream_kind_eq_dec : EqDecision stream_kind.
Proof. solve_decision. Defined.

(** A command queued in a [MULTI]. *)
Inductive tx :=
| TxXadd (stream : pystr) (fields : list (pystr * pystr))
| TxSet (key value : pystr) (ttl : set_ttl).

#[export] Instance tx_eq_dec : EqDecision tx.
Proof. solve_decision. Defined.

Inductive cmd :=
(* Redis *)
| RGet (key : pystr)
| RExists (key : pystr)
| RSet (key value : pystr) (ttl : set_ttl)
| RZrem (key member : pystr)
| RPublish (channel message : pystr)
| RXgroupCreate (stream group id : pystr) (mkstream : bool)
| RXreadgroup (group consumer stream id : pystr) (count block_ms : Z)
| RXpendingRange (stream group min max : pystr) (count idle : Z)
| RXclaim (stream group consumer : pystr) (min_idle : Z) (ids : list pystr)
| RXack (stream group id : pystr)
| RXdel (stream id : pystr)
| RXadd (stream : pystr) (fields : list (pystr * pystr)) (maxlen : Z) (approximate : bool)
| RXlen (stream : pystr)
(* the outcome of the task that polls a cancellation key: it ended, or a poll raised *)
| RWatchCancel (key : pystr)
(* a transaction, and the two Lua scripts of the API server *)
| RMulti (txs : list tx)
| REvalRate (key : pystr) (now window limit : Z) (member : pystr)
| REvalAcquire (key : pystr) (now ttl limit : Z) (member : pystr)
(* a client for a URL *)
| RConnect (url : pystr)
| RClose
(* MinIO *)
| MClient (endpoint access_key secret_key : pystr) (secure : bool)
| MBucketExists (bucket : pystr)
| MMakeBucket (bucket : pystr)
| MPutObject (bucket name : pystr) (body : bytes) (len : Z) (content_type : pystr)
(* the docker command line and the docker run process *)
| DSimple (argv : list pystr)
| DSpawn (argv : list pystr)
| PWaitAny (timeout : Z) (with_cancel : bool)
| PWait (timeout : option Z)
| PKill
| PReturncode
(* an [await] of the readers of the two pipes while a pipe stays open: nothing but an exception ends
   it, and that exception is the answer *)
| PPipeOpen
| PWriteStdin (data : bytes)
| PCloseStdin
(* files *)
| FMakedirs (path : pystr)
| FMkdtemp (prefix dir : pystr)
| FChmod (path : pystr) (mode : Z)
| FRealpath (path : pystr)
| FWriteText (path content : pystr)
| FReadText (path : pystr)
| FRmtree (path : pystr)
| FIsdir (path : pystr)
| FListdir (path : pystr)
| FGetmtime (path : pystr)
(* time *)
| TMonotonic
| TTime
| TNowIso
| TSleep (usec : Z)
| TRandint (lo hi : Z)
| TUniform (lo hi : Z)
(* an event that another task sets: [is_set()], and [wait_for(wait(), seconds)] *)
| TStopSet
| TWaitStop (seconds : Z)
(* the reaper task is cancelled and awaited: it had ended, it raised, or it was cancelled *)
| TJoinReaper
(* what the background tasks of the job do while its main task waits *)
| TBackground
(* the process: the HTTP server of prometheus_client, the handler of a signal *)
| SMetricsServer (port : Z)
| SAddSignal (name : pystr)
(* the API server's clock, in milliseconds, and its source of unique ids *)
| JDateNow
| JUlid.

#[export] Instance cmd_eq_dec : EqDecision cmd.
Proof. solve_decision. Defined.

(** Answers.  Times are in microseconds. *)
Definition ans (c : cmd) : Type :=
  match c with
  | RGet _ => option pystr
  | RExists _ | RZrem _ _ | RPublish _ _ | RXack _ _ _ | RXdel _ _ | RXlen _ => Z
  | RXreadgroup _ _ _ _ _ _ => list (pystr * list (pystr * gmap pystr pystr))
  | RXpendingRange _ _ _ _ _ _ => list (pystr * Z)
  | RXclaim _ _ _ _ _ => list (pystr * gmap pystr pystr)
  | RXadd _ _ _ _ => pystr
  | RMulti _ => option (list (option exc))
  | REvalRate _ _ _ _ _ => Z * Z * Z
  | REvalAcquire _ _ _ _ _ | JDateNow => Z
  | JUlid => pystr
  | MBucketExists _ => bool
  | DSimple _ => Z * bytes * bytes
  | PWaitAny _ _ => bool * bool
  | PWait _ => bool
  | PReturncode => option Z
  | PPipeOpen => exc
  | FMkdtemp _ _ | FRealpath _ | FReadText _ => pystr
  | FIsdir _ => bool
  | FListdir _ => list pystr
  | FGetmtime _ | TMonotonic | TTime | TRandint _ _ | TUniform _ _ => Z
  | TNowIso => pystr
  | TStopSet | TWaitStop _ => bool
  | TBackground => list bg
  | _ => unit
  end.

(** A command with the answer it got. *)
Inductive event := Ev (c : cmd) (r : res (ans c)).

Definition ev_cmd (e : event) : cmd := match e with Ev c _ => c end.
Definition ev_ok (e : event) : bool := match e with Ev _ r => is_ok r end.

(** ** The memory of the processes *)

(** Prometheus metrics: counters by label, the histograms' observations (newest first), gauges. *)
Record Metrics := {
  executions_total : gmap (pystr * pystr) Z;
  execution_duration : list (pystr * Z);
  container_startup : list Z;
  queue_depth_gauge : Z;
  oom_kills : Z;
  timeout_kills : Z;
  jobs_in_flight : Z;
  reclaimed_jobs : Z;
  dead_lettered : Z;
}.

(** The module variables of the API server: [groupEnsured] and [inFlight] of [jobQueue.ts], and the
    circuit breaker of [redis.ts]. *)
Record ApiMem := {
  groupEnsured : bool;
  inFlight : gset pystr;
  redisBreaker : Breaker;
}.

Record Mem := {
  (* QueueConsumer._group_ready *)
  group_ready : bool;
  (* SandboxExecutor._cid_cache *)
  cid_cache : gmap pystr pystr;
  (* the lru_cache of seccomp.profile_path, most recently used first *)
  profile_cache : list (pystr * bool * pystr);
  metrics : Metrics;
  (* the other process *)
  api : ApiMem;
}.

Definition api0 : ApiMem := {| groupEnsured := false; inFlight := ∅; redisBreaker := breaker0 |}.

Definition metrics0 : Metrics :=
  {| executions_total := ∅; execution_duration := []; container_startup := [];
     queue_depth_gauge := 0; oom_kills := 0; timeout_kills := 0; jobs_in_flight := 0;
     reclaimed_jobs := 0; dead_lettered := 0 |}.

Definition mem0 : Mem :=
  {| group_ready := false; cid_cache := ∅; profile_cache := []; metrics := metrics0; api := api0 |}.

(** ** Computations *)

Class Handler (E : Type) := handle : ∀ c : cmd, E → res (ans c) * E.

Record st (E : Type) := St { env : E; mem : Mem; trace : list event }.
Arguments St {E}.
Arguments env {E}.
Arguments mem {E}.
Arguments trace {E}.

Definition M (E A : Type) : Type := st E → res A * st E.

Section Monad.
Context {E : Type}.

#[export] Instance M_ret : MRet (M E) := λ A a s, (Ok a, s).
#[export] Instance M_bind : MBind (M E) := λ A B f m s,
  match m s with
  | (Ok a, s') => f a s'
  | (Raise e, s') => (Raise e, s')
  end.

Definition raise {A} (e : exc) : M E A := λ s, (Raise e, s).

(** A pure fallible computation. *)
Definition lift {A} (r : res A) : M E A := λ s, (r, s).

(** [try: m except ...: k e], where [k] is [None] for an exception that is not caught. *)
Definition try_except {A} (m : M E A) (k : exc → option (M E A)) : M E A := λ s,
  match m s with
  | (Ok a, s') => (Ok a, s')
  | (Raise e, s') => match k e with Some h => h s' | None => (Raise e, s') end
  end.

(** [try: m finally: f]; an exception of [f] replaces the outcome of [m]. *)
Definition try_finally {A} (m : M E A) (f : M E unit) : M E A := λ s,
  let '(r, s') := m s in
  match f s' with
  | (Ok _, s'') => (r, s'')
  | (Raise e, s'') => (Raise e, s'')
  end.

(** [with contextlib.suppress(...): m] *)
Definition suppress (caught : exc → bool) (m : M E unit) : M E unit :=
  try_except m (λ e, if caught e then Some (mret tt) else None).

(** The outcome of [m] as a value, as a task stores it. *)
Definition attempt {A} (m : M E A) : M E (res A) := λ s, let '(r, s') := m s in (Ok r, s').

Definition get_mem : M E Mem := λ s, (Ok (mem s), s).
Definition modify_mem (f : Mem → Mem) : M E unit := λ s, (Ok tt, St (env s) (f (mem s)) (trace s)).
Definition modify_metrics (f : Metrics → Metrics) : M E unit :=
  modify_mem (λ m, {| group_ready := group_ready m; cid_cache := cid_cache m;
                      profile_cache := profile_cache m; metrics := f (metrics m); api := api m |}).
Definition modify_api (f : ApiMem → ApiMem) : M E unit :=
  modify_mem (λ m, {| group_ready := group_ready m; cid_cache := cid_cache m;
                      profile_cache := profile_cache m; metrics := metrics m; api := f (api m) |}).

(** Issue a command. *)
Definition call `{!Handler E} (c : cmd) : M E (ans c) := λ s,
  let '(r, e) := handle c (env s) in (r, St e (mem s) (Ev c r :: trace s)).

(** An answer the environment can give. *)
Definition answer `{!Handler E} (c : cmd) (r : res (ans c)) : Prop := ∃ e e', handle c e = (r, e').

Definition when (b : bool) (m : M E unit) : M E unit := if b then m else mret tt.

(** [for x in l: f x] *)
Fixpoint for_each {A} (l : list A) (f : A → M E unit) : M E unit :=
  match l with
  | [] => mret tt
  | x :: l' => f x ≫= λ _, for_each l' f
  end.

(** A loop that collects results. *)
Fixpoint for_map {A B} (l : list A) (f : A → M E B) : M E (list B) :=
  match l with
  | [] => mret []
  | x :: l' => y ← f x; ys ← for_map l' f; mret (y :: ys)
  end.

End Monad.

(** ** Reasoning about computations

    [wp m Q s]: the outcome and final state of running [m] from [s] satisfy [Q].  The rules below
    compute it through the constructs of the monad. *)
Section Wp.
Context {E : Type}.

Definition wp {A} (m : M E A) (Q : res A → st E → Prop) (s : st E) : Prop := Q (m s).1 (m s).2.

Lemma wp_mono {A} (m : M E A) (Q Q' : res A → st E → Prop) s :
  (∀ r s', Q r s' → Q' r s') → wp m Q s → wp m Q' s.
Proof. unfold wp. auto. Qed.

Lemma wp_and {A} (m : M E A) (Q Q' : res A → st E → Prop) s :
  wp m Q s → wp m Q' s → wp m (λ r s', Q r s' ∧ Q' r s') s.
Proof. by split. Qed.

Lemma wp_ret {A} (a : A) (Q : res A → st E → Prop) s : Q (Ok a) s → wp (mret a) Q s.
Proof. done. Qed.

Lemma wp_raise {A} (e : exc) (Q : res A → st E → Prop) s : Q (Raise e) s → wp (raise (A:=A) e) Q s.
Proof. done. Qed.

Lemma wp_lift {A} (r : res A) (Q : res A → st E → Prop) s : Q r s → wp (lift r) Q s.
Proof. done. Qed.

Lemma wp_bind {A B} (m : M E A) (f : A → M E B) (Q : res B → st E → Prop) s :
  wp m (λ r s', match r with Ok a => wp (f a) Q s' | Raise e => Q (Raise e) s' end) s →
  wp (m ≫= f) Q s.
Proof. unfold wp, mbind, M_bind. destruct (m s) as [[] ?]; done. Qed.

Lemma wp_call `{!Handler E} c (Q : res (ans c) → st E → Prop) s :
  (∀ r e, Q r (St e (mem s) (Ev c r :: trace s))) → wp (call c) Q s.
Proof. intros H. unfold wp, call. destruct (handle c (env s)). apply H. Qed.

(** With what the environment did. *)
Lemma wp_call_eq `{!Handler E} c (Q : res (ans c) → st E → Prop) s :
  (∀ r e, handle c (env s) = (r, e) → Q r (St e (mem s) (Ev c r :: trace s))) → wp (call c) Q s.
Proof. intros H. unfold wp, call. destruct (handle c (env s)) eqn:?. by apply H. Qed.

Lemma wp_try {A} (m : M E A) (k : exc → option (M E A)) (Q : res A → st E → Prop) s :
  wp m (λ r s', match r with
                | Ok a => Q (Ok a) s'
                | Raise e => match k e with Some h => wp h Q s' | None => Q (Raise e) s' end
                end) s →
  wp (try_except m k) Q s.
Proof. unfold wp, try_except. destruct (m s) as [[a|e] s']; simpl; [done|]. by destruct (k e). Qed.

Lemma wp_suppress (c : exc → bool) (m : M E unit) (Q : res unit → st E → Prop) s :
  wp m (λ r s', match r with
                | Ok _ => Q (Ok tt) s'
                | Raise e => Q (if c e then Ok tt else Raise e) s'
                end) s →
  wp (suppress c m) Q s.
Proof.
  intros H. unfold suppress. apply wp_try. eapply wp_mono; [|exact H]. clear H.
  intros [[]|e] s' H; [done|]. destruct (c e); done.
Qed.

Lemma wp_finally {A} (m : M E A) f (Q : res A → st E → Prop) s :
  wp m (λ r s', wp f (λ rf s'', match rf with Ok _ => Q r s'' | Raise e => Q (Raise e) s'' end) s') s →
  wp (try_finally m f) Q s.
Proof. unfold wp, try_finally. destruct (m s) as [r s']; simpl. by destruct (f s') as [[] ?]. Qed.

Lemma wp_attempt {A} (m : M E A) (Q : res (res A) → st E → Prop) s :
  wp m (λ r s', Q (Ok r) s') s → wp (attempt m) Q s.
Proof. unfold wp, attempt. by destruct (m s). Qed.

Lemma wp_get_mem (Q : res Mem → st E → Prop) s : Q (Ok (mem s)) s → wp get_mem Q s.
Proof. done. Qed.

Lemma wp_modify_mem f (Q : res unit → st E → Prop) s :
  Q (Ok tt) (St (env s) (f (mem s)) (trace s)) → wp (modify_mem f) Q s.
Proof. done. Qed.

(** A state predicate each turn keeps, whether it returns or raises, is kept by the loop. *)
Lemma wp_for_each {A} (l : list A) f (I : st E → Prop) s :
  (∀ x s, x ∈ l → I s → wp (f x) (λ _ s', I s') s) → I s → wp (for_each l f) (λ _ s', I s') s.
Proof.
  revert s. induction l as [|x l IH]; intros s Hf Hi; simpl; [by apply wp_ret|]. apply wp_bind.
  eapply wp_mono; [|apply Hf; [by left|done]]. intros [] s' Hi'; [|done].
  apply IH; [|done]. intros. apply Hf; [by right|done].
Qed.

Lemma wp_run {A} (m : M E A) (Q : res A → st E → Prop) s r s' :
  wp m Q s → m s = (r, s') → Q r s'.
Proof. unfold wp. intros H Hm. by rewrite Hm in H. Qed.

(** [returns m Q s]: if [m] returns from [s], its value and final state satisfy [Q]. *)
Definition returns {A} (m : M E A) (Q : A → st E → Prop) (s : st E) : Prop :=
  wp m (λ r s', ∀ a, r = Ok a → Q a s') s.

Lemma returns_bind {A B} (m : M E A) (f : A → M E B) Q s :
  returns m (λ a s', returns (f a) Q s') s → returns (m ≫= f) Q s.
Proof.
  unfold returns. intros H. apply wp_bind. eapply wp_mono; [|exact H].
  intros [a|e] s' H'; [exact (H' a eq_refl)|done].
Qed.

Lemma returns_mono {A} (m : M E A) (Q Q' : A → st E → Prop) s :
  (∀ a s', Q a s' → Q' a s') → returns m Q s → returns m Q' s.
Proof. intros HQ. apply wp_mono. intros r s' H a Ha. by apply HQ, H. Qed.

Lemma returns_ret {A} (a : A) (Q : A → st E → Prop) s : Q a s → returns (mret a) Q s.
Proof. by intros H a' [= <-]. Qed.

Lemma returns_raise {A} (e : exc) (Q : A → st E → Prop) s : returns (raise e) Q s.
Proof. by intros a [=]. Qed.

Lemma returns_lift {A} (r : res A) (Q : A → st E → Prop) s :
  (∀ a, r = Ok a → Q a s) → returns (lift r) Q s.
Proof. done. Qed.

Lemma returns_call `{!Handler E} c (Q : ans c → st E → Prop) s :
  (∀ a e, Q a (St e (mem s) (Ev c (Ok a) :: trace s))) → returns (call c) Q s.
Proof. intros H. apply wp_call. intros r e a ->. apply H. Qed.

Lemma returns_call_eq `{!Handler E} c (Q : ans c → st E → Prop) s :
  (∀ a e, handle c (env s) = (Ok a, e) → Q a (St e (mem s) (Ev c (Ok a) :: trace s))) → returns (call c) Q s.
Proof. intros H. apply wp_call_eq. intros r e He a ->. by apply H. Qed.

Lemma returns_finally {A} (m : M E A) f (Q : A → st E → Prop) s :
  returns m (λ a s', returns f (λ _ s'', Q a s'') s') s → returns (try_finally m f) Q s.
Proof.
  unfold returns. intros H. apply wp_finally. eapply wp_mono; [|exact H].
  intros [a|e] s' H'.
  - specialize (H' a eq_refl). eapply wp_mono; [|exact H']. intros [[]|e] s'' H'' a'; [|done].
    intros [= <-]. exact (H'' tt eq_refl).
  - unfold wp. by destruct (f s').1.
Qed.

(** ** What a computation may do

    [emits P m]: whatever the environment answers, running [m] adds only commands satisfying [P]
    to the trace (newest first), and removes none. *)
Definition emits (P : event → Prop) {A} (m : M E A) : Prop :=
  ∀ s, ∃ new, trace (m s).2 = new ++ trace s ∧ Forall P new.

Lemma emits_returns (P : event → Prop) {A} (m : M E A) s :
  emits P m → returns m (λ _ s', ∃ new, trace s' = new ++ trace s ∧ Forall P new) s.
Proof. intros H a _. apply H. Qed.

Lemma emits_weaken (P P' : event → Prop) {A} (m : M E A) :
  (∀ e, P e → P' e) → emits P m → emits P' m.
Proof.
  intros HP H s. destruct (H s) as (new & Ht & Hn). exists new. split; [done|].
  by eapply Forall_impl.
Qed.

Lemma emits_ret (P : event → Prop) {A} (a : A) : emits P (mret a).
Proof. intros s. by exists []. Qed.

Lemma emits_raise (P : event → Prop) {A} e : emits P (raise (A:=A) e).
Proof. intros s. by exists []. Qed.

Lemma emits_lift (P : event → Prop) {A} (r : res A) : emits P (lift r).
Proof. intros s. by exists []. Qed.

Lemma emits_get_mem (P : event → Prop) : emits P get_mem.
Proof. intros s. by exists []. Qed.

Lemma emits_modify_mem (P : event → Prop) f : emits P (modify_mem f).
Proof. intros s. by exists []. Qed.

Lemma emits_modify_metrics (P : event → Prop) f : emits P (modify_metrics f).
Proof. intros s. by exists []. Qed.

Lemma emits_call `{!Handler E} (P : event → Prop) c : (∀ r, answer c r → P (Ev c r)) → emits P (call c).
Proof.
  intros H s. unfold call. destruct (handle c (env s)) as [r e] eqn:Eh. exists [Ev c r]. split; [done|].
  apply Forall_singleton, H. by exists (env s), e.
Qed.

Lemma emits_seq (P : event → Prop) (s s' s'' : list event) :
  (∃ new, s' = new ++ s ∧ Forall P new) → (∃ new, s'' = new ++ s' ∧ Forall P new) →
  ∃ new, s'' = new ++ s ∧ Forall P new.
Proof.
  intros (n1 & -> & H1) (n2 & -> & H2). exists (n2 ++ n1). split; [by rewrite app_assoc|].
  by apply Forall_app.
Qed.

Lemma emits_bind (P : event → Prop) {A B} (m : M E A) (f : A → M E B) :
  emits P m → (∀ a, emits P (f a)) → emits P (m ≫= f).
Proof.
  intros Hm Hf s. specialize (Hm s). unfold mbind, M_bind.
  destruct (m s) as [[a|e] s'] eqn:Em; simpl in *; [|done]. exact (emits_seq _ _ _ _ Hm (Hf a s')).
Qed.

Lemma emits_try (P : event → Prop) {A} (m : M E A) (k : exc → option (M E A)) :
  emits P m → (∀ e h, k e = Some h → emits P h) → emits P (try_except m k).
Proof.
  intros Hm Hk s. specialize (Hm s). unfold try_except.
  destruct (m s) as [[a|e] s'] eqn:Em; simpl in *; [done|].
  destruct (k e) as [h|] eqn:Ek; [|done]. exact (emits_seq _ _ _ _ Hm (Hk e h Ek s')).
Qed.

Lemma emits_suppress (P : event → Prop) c (m : M E unit) : emits P m → emits P (suppress c m).
Proof.
  intros Hm. apply emits_try; [done|]. intros e h H. destruct (c e); simplify_eq. apply emits_ret.
Qed.

Lemma emits_finally (P : event → Prop) {A} (m : M E A) f :
  emits P m → emits P f → emits P (try_finally m f).
Proof.
  intros Hm Hf s. specialize (Hm s). unfold try_finally.
  destruct (m s) as [r s'] eqn:Em; simpl in *. specialize (Hf s').
  destruct (f s') as [[]]; exact (emits_seq _ _ _ _ Hm Hf).
Qed.

Lemma emits_attempt (P : event → Prop) {A} (m : M E A) : emits P m → emits P (attempt m).
Proof. intros Hm s. specialize (Hm s). unfold attempt. by destruct (m s). Qed.

Lemma emits_when (P : event → Prop) b (m : M E unit) : emits P m → emits P (when b m).
Proof. destruct b; [done|]. intros _. apply emits_ret. Qed.

Lemma emits_for_each (P : event → Prop) {A} (l : list A) f : (∀ x, emits P (f x)) → emits P (for_each l f).
Proof.
  intros Hf. induction l as [|x l IH]; simpl; [apply emits_ret|]. by apply emits_bind.
Qed.

Lemma emits_for_map (P : event → Prop) {A B} (l : list A) (f : A → M E B) :
  (∀ x, emits P (f x)) → emits P (for_map l f).
Proof.
  intros Hf. induction l as [|x l IH]; simpl; [apply emits_ret|].
  apply emits_bind; [done|]. intros y. apply emits_bind; [done|]. intros ys. apply emits_ret.
Qed.

End Wp.

#[export] Hint Resolve emits_ret emits_raise emits_lift emits_get_mem emits_modify_mem
  emits_modify_metrics emits_suppress emits_when : sandbox.

(** Walks through a computation with the rules above, leaving the conditions on commands. *)
Ltac emits_tac :=
  repeat match goal with
  | |- emits _ (_ ≫= _) => apply emits_bind; [|intros ?]
  | |- emits _ (try_except _ _) => apply emits_try; [|intros ? ? ?]
  | |- emits _ (try_finally _ _) => apply emits_finally
  | |- emits _ (suppress _ _) => apply emits_suppress
  | |- emits _ (attempt _) => apply emits_attempt
  | |- emits _ (when _ _) => apply emits_when
  | |- emits _ (for_each _ _) => apply emits_for_each; intros ?
  | |- emits _ (for_map _ _) => apply emits_for_map; intros ?
  | |- emits _ ?m => lazymatch m with call ?c => refine (emits_call _ c _); intros ? ? end
  | |- emits _ (mret _) => apply emits_ret
  | |- emits _ (raise _) => apply emits_raise
  | |- emits _ (lift _) => apply emits_lift
  | |- emits _ get_mem => apply emits_get_mem
  | |- emits _ (modify_mem _) => apply emits_modify_mem
  | |- emits _ (modify_metrics _) => apply emits_modify_metrics
  | |- emits _ (modify_api _) => apply emits_modify_mem
  | |- emits _ (match ?x with _ => _ end) => destruct x eqn:?
  | H : (if ?b then _ else _) = Some _ |- _ => destruct b; simplify_eq/=
  | H : Some _ = Some _ |- _ => simplify_eq/=
  | |- emits _ _ => solve [eauto with sandbox]
  end.

(** Steps through a goal [wp m Q s]. *)
Ltac wp_step :=
  match goal with
  | |- wp (_ ≫= _) _ _ => apply wp_bind
  | |- wp (mret _) _ _ => apply wp_ret
  | |- wp (raise _) _ _ => apply wp_raise
  | |- wp (lift _) _ _ => apply wp_lift
  | |- wp (try_except _ _) _ _ => apply wp_try
  | |- wp (suppress _ _) _ _ => apply wp_suppress
  | |- wp (attempt _) _ _ => apply wp_attempt
  | |- wp (try_finally _ _) _ _ => apply wp_finally
  | |- wp get_mem _ _ => apply wp_get_mem
  | |- wp (modify_mem _) _ _ => apply wp_modify_mem
  | |- wp (modify_metrics _) _ _ => apply wp_modify_mem
  | |- wp (modify_api _) _ _ => apply wp_modify_mem
  | |- wp ?m _ _ => lazymatch m with call ?c => refine (wp_call c _ _ _); intros ? ?; cbv beta end
  end.

(** ** What a computation keeps

    [evolves R m]: running [m], whatever its outcome, relates the state before to the state after. *)
Section Evolves.
Context {E : Type} (R : st E → st E → Prop) {HR : PreOrder R}.

Definition evolves {A} (m : M E A) : Prop := ∀ s, R s (m s).2.

Lemma evolves_ret {A} (a : A) : evolves (mret a).
Proof using HR. intros s. reflexivity. Qed.

Lemma evolves_raise {A} e : evolves (raise (A:=A) e).
Proof using HR. intros s. reflexivity. Qed.

Lemma evolves_lift {A} (r : res A) : evolves (lift r).
Proof using HR. intros s. reflexivity. Qed.

Lemma evolves_get_mem : evolves get_mem.
Proof using HR. intros s. reflexivity. Qed.

Lemma evolves_modify_mem f : (∀ s, R s (St (env s) (f (mem s)) (trace s))) → evolves (modify_mem f).
Proof using Type. intros H s. apply H. Qed.

Lemma evolves_call `{!Handler E} c :
  (∀ s r e, handle c (env s) = (r, e) → R s (St e (mem s) (Ev c r :: trace s))) → evolves (call c).
Proof using Type. intros H s. unfold call. destruct (handle c (env s)) eqn:?. by apply H. Qed.

Lemma evolves_bind {A B} (m : M E A) (f : A → M E B) :
  evolves m → (∀ a, evolves (f a)) → evolves (m ≫= f).
Proof using HR.
  intros Hm Hf s. specialize (Hm s). unfold mbind, M_bind.
  destruct (m s) as [[a|e] s']; simpl in *; [|done]. etransitivity; [exact Hm|apply Hf].
Qed.

Lemma evolves_try {A} (m : M E A) (k : exc → option (M E A)) :
  evolves m → (∀ e h, k e = Some h → evolves h) → evolves (try_except m k).
Proof using HR.
  intros Hm Hk s. specialize (Hm s). unfold try_except.
  destruct (m s) as [[a|e] s']; simpl in *; [done|]. destruct (k e) as [h|] eqn:Ek; [|done].
  etransitivity; [exact Hm|by apply (Hk e)].
Qed.

Lemma evolves_suppress c (m : M E unit) : evolves m → evolves (suppress c m).
Proof using HR.
  intros Hm. apply evolves_try; [done|]. intros e h H. destruct (c e); simplify_eq. apply evolves_ret.
Qed.

Lemma evolves_finally {A} (m : M E A) f : evolves m → evolves f → evolves (try_finally m f).
Proof using HR.
  intros Hm Hf s. specialize (Hm s). unfold try_finally. destruct (m s) as [r s']; simpl in *.
  specialize (Hf s'). destruct (f s') as [[]]; simpl in *; by etransitivity.
Qed.

Lemma evolves_attempt {A} (m : M E A) : evolves m → evolves (attempt m).
Proof using Type. intros Hm s. specialize (Hm s). unfold attempt. by destruct (m s). Qed.

Lemma evolves_when b (m : M E unit) : evolves m → evolves (when b m).
Proof using HR. destruct b; [done|]. intros _. apply evolves_ret. Qed.

Lemma evolves_for_each {A} (l : list A) f : (∀ x, evolves (f x)) → evolves (for_each l f).
Proof using HR. intros Hf. induction l as [|x l IH]; simpl; [apply evolves_ret|]. by apply evolves_bind. Qed.

End Evolves.

Ltac evolves_tac :=
  repeat match goal with
  | |- evolves _ (_ ≫= _) => apply evolves_bind; [apply _| |intros ?]
  | |- evolves _ (try_except _ _) => apply evolves_try; [apply _| |intros ? ? ?]
  | |- evolves _ (try_finally _ _) => apply evolves_finally; [apply _| |]
  | |- evolves _ (suppress _ _) => apply evolves_suppress; [apply _|]
  | |- evolves _ (attempt _) => apply evolves_attempt
  | |- evolves _ (when _ _) => apply evolves_when; [apply _|]
  | |- evolves _ (for_each _ _) => apply evolves_for_each; [apply _|intros ?]
  | |- evolves _ (mret _) => apply evolves_ret; apply _
  | |- evolves _ (raise _) => apply evolves_raise; apply _
  | |- evolves _ (lift _) => apply evolves_lift; apply _
  | |- evolves _ get_mem => apply evolves_get_mem; apply _
  | |- evolves _ (modify_mem _) => apply evolves_modify_mem; intros ?
  | |- evolves _ (modify_metrics _) => apply evolves_modify_mem; intros ?
  | |- evolves _ ?m => lazymatch m with call ?c => refine (evolves_call _ c _); intros ? ? ? ? end
  | |- evolves _ (match ?x with _ => _ end) => destruct x eqn:?
  | H : (if ?b then _ else _) = Some _ |- _ => destruct b; simplify_eq/=
  | H : Some _ = Some _ |- _ => simplify_eq/=
  | |- evolves _ _ => solve [eauto with sandbox]
  end.

(** Steps through a goal [returns m Q s]. *)
Ltac ret_step :=
  match goal with
  | |- returns (_ ≫= _) _ _ => apply returns_bind
  | |- returns (mret _) _ _ => apply returns_ret
  | |- returns (raise _) _ _ => apply returns_raise
  | |- returns (lift _) _ _ => apply returns_lift; intros ? ?
  | |- returns (try_finally _ _) _ _ => apply returns_finally
  | |- returns ?m _ _ => lazymatch m with call ?c => refine (returns_call c _ _ _); intros ? ?; cbv beta end
  end.

(** A command, with the equation of its answer. *)
Ltac call_eq :=
  match goal with
  | |- returns ?m _ _ => lazymatch m with call ?c => refine (returns_call_eq c _ _ _) end
  | |- wp ?m _ _ => lazymatch m with call ?c => refine (wp_call_eq c _ _ _) end
  end.

(** Runs [wp_step] through a computation, splitting on every answer. *)
Ltac wp_go :=
  repeat first
    [ progress cbv beta
    | wp_step
    | match goal with
      | |- match ?r with Ok _ => _ | Raise _ => _ end => destruct r
      | |- wp (match ?x with _ => _ end) _ _ => destruct x eqn:?
      end ].

(** ** Concrete worlds, for examples *)
Module Scripted.
Definition default_ans (c : cmd) : ans c :=
  match c with
  | RGet _ => None
  | RExists _ | RZrem _ _ | RPublish _ _ | RXack _ _ _ | RXdel _ _ | RXlen _ => 0
  | RXreadgroup _ _ _ _ _ _ => []
  | RXpendingRange _ _ _ _ _ _ => []
  | RXclaim _ _ _ _ _ => []
  | RXadd _ _ _ _ => []
  | RMulti _ => Some []
  | REvalRate _ _ _ _ _ => (1, 0, 0)
  | REvalAcquire _ _ _ _ _ => 1
  | JDateNow => 0
  | JUlid => []
  | MBucketExists _ => true
  | DSimple _ => (0, [], [])
  | PWaitAny _ _ => (true, false)
  | PWait _ => true
  | PReturncode => Some 0
  | PPipeOpen => CancelledError
  | FMkdtemp _ _ | FRealpath _ | FReadText _ => []
  | FIsdir _ => true
  | FListdir _ => []
  | FGetmtime _ | TMonotonic | TTime => 0
  | TRandint lo _ | TUniform lo _ => lo
  | TStopSet | TWaitStop _ => true
  | TNowIso => []
  | TBackground => [BgRead Stdout []; BgRead Stderr []]
  | _ => tt
  end.

(** A stateless world that answers by a function of the command. *)
Definition world (f : ∀ c, res (ans c)) : Handler unit := λ c _, (f c, tt).

(** Every command succeeds with an empty answer. *)
Definition quiet : Handler unit := world (λ c, Ok (default_ans c)).

Definition start : st unit := St tt mem0 [].
End Scripted.
