(* ===== verification/Constants.v ===== *)
(** * Protocol constants ([worker/sandbox/constants.py])

    Stream and key names, TTLs and job statuses shared with the API server, and the fact that the
    per-job keys never collide. *)
From S2P Require Import Prelude.
From stdpp Require Import options.

Definition JOB_STREAM : pystr := u "sandbox:jobs".
Definition DEAD_LETTER_STREAM : pystr := u "sandbox:jobs:dead".
Definition CONSUMER_GROUP : pystr := u "workers".

Definition RESULT_TTL_SECONDS : Z := 3600.
Definition RECORD_TTL_SECONDS : Z := 3600 * 2.

Definition STATUS_PENDING : pystr := u "PENDING".
Definition STATUS_RUNNING : pystr := u "RUNNING".
Definition STATUS_COMPLETED : pystr := u "COMPLETED".
Definition STATUS_FAILED : pystr := u "FAILED".
Definition STATUS_TIMEOUT : pystr := u "TIMEOUT".
Definition STATUS_KILLED : pystr := u "KILLED".

Definition TERMINAL_STATUSES : gset pystr :=
  {[STATUS_COMPLETED; STATUS_FAILED; STATUS_TIMEOUT; STATUS_KILLED]}.

Definition job_record_key (job_id : pystr) : pystr := u "sandbox:job:" ++ job_id.
Definition result_key (job_id : pystr) : pystr := u "sandbox:result:" ++ job_id.
Definition stream_channel (job_id : pystr) : pystr := u "sandbox:stream:" ++ job_id.
Definition cancel_key (job_id : pystr) : pystr := u "sandbox:cancel:" ++ job_id.
Definition concurrency_key (user_id : pystr) : pystr := u "sandbox:concurrency:" ++ user_id.

(** The kinds of keys the worker derives from an identifier. *)
Inductive key_kind := KRecord | KResult | KChannel | KCancel | KConcurrency.

#[export] Instance key_kind_eq_dec : EqDecision key_kind.
Proof. solve_decision. Defined.

Definition key_of (k : key_kind) : pystr → pystr :=
  match k with
  | KRecord => job_record_key
  | KResult => result_key
  | KChannel => stream_channel
  | KCancel => cancel_key
  | KConcurrency => concurrency_key
  end.

(** Two keys are equal only when they are of the same kind and for the same identifier. *)
Lemma key_of_inj k k' i i' : key_of k i = key_of k' i' → k = k' ∧ i = i'.
Proof.
  destruct k, k'; cbv -[app]; intros H; simplify_eq/=; done.
Qed.

Lemma key_of_not_stream k i : key_of k i ≠ JOB_STREAM ∧ key_of k i ≠ DEAD_LETTER_STREAM.
Proof. destruct k; cbv -[app]; split; intros H; simplify_eq/=. Qed.

(** the Redis keys the worker derives from job and user identifiers never collide: equal keys
    come from the same function and the same identifier, and none is the name of a stream. *)
Theorem redis_keys_disjoint k k' i i' :
  (key_of k i = key_of k' i' ↔ k = k' ∧ i = i') ∧
  key_of k i ≠ JOB_STREAM ∧ key_of k i ≠ DEAD_LETTER_STREAM.
Proof.
  split; [|apply key_of_not_stream].
  split; [apply key_of_inj|]. by intros [-> ->].
Qed.

Lemma terminal_failed : STATUS_FAILED ∈ TERMINAL_STATUSES.
Proof. unfold TERMINAL_STATUSES. rewrite !elem_of_union, !elem_of_singleton. auto. Qed.

Lemma terminal_killed : STATUS_KILLED ∈ TERMINAL_STATUSES.
Proof. unfold TERMINAL_STATUSES. rewrite !elem_of_union, !elem_of_singleton. auto. Qed.

Lemma terminal_not_running : STATUS_RUNNING ∉ TERMINAL_STATUSES.
Proof. by_compute. Qed.
