(* ===== verification/Types.v ===== *)
(** * Request and result types ([worker/sandbox/types.py])

    [ExecutionRequest.from_dict] with the exceptions each malformed field raises, in the order the
    fields are read, and [ExecutionResult.to_dict]. *)
From S2P Require Import Prelude PyStr Utf8 Errors Json JsonText Constants.
From stdpp Require Import options.

Record InputFile := { file_name : pystr; file_content : pystr }.

Record ExecutionRequest := {
  req_language : pystr;
  req_code : pystr;
  req_stdin : pystr;
  req_timeout : Z;
  req_env_vars : list (pystr * pystr);
  req_files : list InputFile;
}.

Record OutputFile := { out_name : pystr; out_size_bytes : Z; out_url : pystr }.

Record ExecutionResult := {
  job_id : pystr;
  status : pystr;
  stdout : pystr;
  stderr : pystr;
  exit_code : option Z;
  wall_time_ms : Z;
  cpu_time_ms : Z;
  memory_bytes : Z;
  oom_killed : bool;
  timed_out : bool;
  truncated : bool;
  out_files : list OutputFile;
}.

(** The dataclass defaults: a result with only its job and status. *)
Definition bare_result (jid st : pystr) : ExecutionResult :=
  {| job_id := jid; status := st; stdout := []; stderr := []; exit_code := None;
     wall_time_ms := 0; cpu_time_ms := 0; memory_bytes := 0; oom_killed := false;
     timed_out := false; truncated := false; out_files := [] |}.

(** Iterating over a value: lists, the characters of a string, the keys of a dictionary. *)
Definition iter_json (j : json) : res (list json) :=
  match j with
  | JList l => Ok l
  | JStr s => Ok (map (λ c, JStr [c]) s)
  | JDict d => Ok (map (λ kv, JStr kv.1) d)
  | _ => Raise TypeError
  end.

Section FromDict.
Context `{!PyRuntime, !JsonRuntime}.

Definition file_from_json (f : json) : res InputFile :=
  n ← subscript f (u "name");
  c ← subscript f (u "content");
  mret {| file_name := py_str n; file_content := py_str c |}.

Definition from_dict (data : json) : res ExecutionRequest :=
  d ← as_dict data;
  raw ← iter_json (get_or (u "files") d (JList []));
  files ← res_map file_from_json raw;
  language ← subscript data (u "language");
  code ← subscript data (u "code");
  timeout ← py_int_of (get_or (u "timeout_seconds") d (JInt 10));
  env ← as_dict (get_or (u "env_vars") d (JDict []));
  mret {| req_language := py_str language;
          req_code := py_str code;
          req_stdin := py_str (get_or (u "stdin") d (JStr []));
          req_timeout := timeout;
          req_env_vars := map (λ kv, (kv.1, py_str kv.2)) env;
          req_files := files |}.

End FromDict.

Definition output_file_to_dict (f : OutputFile) : json :=
  JDict [(u "name", JStr (out_name f)); (u "size_bytes", JInt (out_size_bytes f));
         (u "url", JStr (out_url f))].

Definition json_of_option (z : option Z) : json := match z with Some z => JInt z | None => JNull end.

Definition to_dict (r : ExecutionResult) : json :=
  JDict [(u "job_id", JStr (job_id r));
         (u "status", JStr (status r));
         (u "stdout", JStr (stdout r));
         (u "stderr", JStr (stderr r));
         (u "exit_code", json_of_option (exit_code r));
         (u "wall_time_ms", JInt (wall_time_ms r));
         (u "cpu_time_ms", JInt (cpu_time_ms r));
         (u "memory_bytes", JInt (memory_bytes r));
         (u "oom_killed", JBool (oom_killed r));
         (u "timed_out", JBool (timed_out r));
         (u "truncated", JBool (truncated r));
         (u "files", JList (map output_file_to_dict (out_files r)))].

(** ** The API's encoding of a request

    The shape of [ExecutionRequest] in [api/src/types/index.ts], which the API enqueues. *)
Definition request_json (r : ExecutionRequest) : json :=
  JDict [(u "language", JStr (req_language r));
         (u "code", JStr (req_code r));
         (u "stdin", JStr (req_stdin r));
         (u "timeout_seconds", JInt (req_timeout r));
         (u "env_vars", JDict (map (λ kv, (kv.1, JStr kv.2)) (req_env_vars r)));
         (u "files", JList (map (λ f, JDict [(u "name", JStr (file_name f));
                                             (u "content", JStr (file_content f))]) (req_files r)))].

Section TypesFacts.
Context `{PR : PyRuntime, JR : JsonRuntime}.

Lemma file_from_json_encoded files :
  res_map file_from_json
    (map (λ f, JDict [(u "name", JStr (file_name f)); (u "content", JStr (file_content f))]) files)
  = Ok files.
Proof.
  apply res_map_ok. apply Forall2_fmap_l. apply Forall_Forall2_diag.
  apply Forall_true. by intros [].
Qed.

(** The dictionary as [from_dict] reads it: the optional fields may be absent. *)
Lemma from_dict_fields d language code stdin timeout env files :
  dict_get (u "language") d = Some (JStr language) → dict_get (u "code") d = Some (JStr code) →
  dict_get (u "timeout_seconds") d = Some (JInt timeout) → timeout ≠ 0 →
  dict_get (u "stdin") d = JStr <$> stdin →
  dict_get (u "env_vars") d = (λ e, JDict (map (λ kv, (kv.1, JStr kv.2)) e)) <$> env →
  dict_get (u "files") d =
    (λ l, JList (map (λ f, JDict [(u "name", JStr (file_name f)); (u "content", JStr (file_content f))]) l)) <$> files →
  from_dict (JDict d) =
  Ok {| req_language := language; req_code := code; req_stdin := default [] stdin; req_timeout := timeout;
        req_env_vars := default [] env; req_files := default [] files |}.
Proof.
  intros Hl Hc Ht Hne Hs He Hf. unfold from_dict. cbn [as_dict mbind res_bind]. unfold get_or. rewrite Ht, Hs, He, Hf.
  assert (iter_json (match (λ l, JList (map (λ f, JDict [(u "name", JStr (file_name f)); (u "content", JStr (file_content f))]) l)) <$> files with
            | Some v => if truthy v then v else JList [] | None => JList [] end) =
          Ok (map (λ f, JDict [(u "name", JStr (file_name f)); (u "content", JStr (file_content f))]) (default [] files))) as ->
    by (by destruct files as [[]|]).
  cbn [mbind res_bind]. rewrite file_from_json_encoded. cbn [mbind res_bind subscript]. rewrite Hl, Hc.
  cbn [or_raise mbind res_bind truthy]. rewrite (proj2 (Z.eqb_neq _ _)) by done. cbn [negb py_int_of mbind res_bind].
  assert (as_dict (match (λ e, JDict (map (λ kv, (kv.1, JStr kv.2)) e)) <$> env with
            | Some v => if truthy v then v else JDict [] | None => JDict [] end) =
          Ok (map (λ kv, (kv.1, JStr kv.2)) (default [] env))) as -> by (by destruct env as [[]|]).
  cbn [mbind res_bind py_str]. unfold mret, res_ret. do 2 f_equal.
  - destruct stdin as [s|]; [|done]. cbn. by case_bool_decide; subst.
  - rewrite map_map. cbn. rewrite <- (map_id (default [] env)) at 2. apply map_ext. by intros [].
Qed.

(** A request with every field, encoded in the shape of [ExecutionRequest] in
    [api/src/types/index.ts], is decoded to the same request, unless its timeout is zero (which the
    worker replaces by the default). *)
Theorem from_dict_request_json r :
  req_timeout r ≠ 0 → from_dict (request_json r) = Ok r.
Proof.
  intros Ht. unfold request_json.
  rewrite (from_dict_fields _ (req_language r) (req_code r) (Some (req_stdin r)) (req_timeout r)
             (Some (req_env_vars r)) (Some (req_files r))); [by destruct r|by dict_eval..].
Qed.

(** The exceptions of [from_dict]: the last one needs an infinite float as the timeout, which
    [json.loads] produces for [Infinity]. *)
Lemma from_dict_raise data e :
  from_dict data = Raise e →
  (∃ k, e = KeyError k) ∨ e = TypeError ∨ e = ValueError ∨ e = AttributeError ∨
  e = OverflowError ∧ ∃ d neg, data = JDict d ∧ dict_get (u "timeout_seconds") d = Some (JFloat (FInf neg)).
Proof.
  assert (∀ f k e', subscript f k = Raise e' → (∃ k, e' = KeyError k) ∨ e' = TypeError) as Hsub.
  { intros [] k e'; simpl; try (intros; simplify_eq; by right).
    destruct (dict_get k d) eqn:?; simpl; intros; simplify_eq; eauto. }
  unfold from_dict. intros H.
  apply res_bind_raise in H as [H|(d & Hd & H)].
  { destruct data; simplify_eq/=; naive_solver. }
  destruct data as [| | | | | |d']; simplify_eq/=.
  apply res_bind_raise in H as [H|(raw & _ & H)].
  { destruct (get_or _ d _); simplify_eq/=; naive_solver. }
  apply res_bind_raise in H as [H|(files & _ & H)].
  { apply res_map_raise in H as (f & _ & H). unfold file_from_json in H.
    apply res_bind_raise in H as [H|(n & _ & H)]; [apply Hsub in H; naive_solver|].
    apply res_bind_raise in H as [H|(c & _ & H)]; [apply Hsub in H; naive_solver|done]. }
  apply res_bind_raise in H as [H|(lang & _ & H)]; [apply (Hsub (JDict d)) in H; naive_solver|].
  apply res_bind_raise in H as [H|(code & _ & H)]; [apply (Hsub (JDict d)) in H; naive_solver|].
  apply res_bind_raise in H as [H|(t & _ & H)].
  { unfold get_or in H. destruct (dict_get _ d) as [v|] eqn:Ev; [|done].
    destruct (truthy v); [|done].
    destruct v as [| | |[|neg|]|sv| |]; simplify_eq/=; try naive_solver.
    destruct (py_int sv); simplify_eq/=; naive_solver. }
  apply res_bind_raise in H as [H|(env & _ & H)]; [|done].
  destruct (get_or _ d _); simplify_eq/=; naive_solver.
Qed.

(** ** Storing a result as text *)

(** Results that text can carry: scalar text and integers below the decimal conversion limit. *)
Definition small_int (z : Z) : Prop := (length (digits (Z.abs z)) ≤ INT_MAX_STR_DIGITS)%nat.

(** These are the integers below a power of ten. *)
Lemma small_int_iff z : small_int z ↔ Z.abs z < 10 ^ Z.of_nat INT_MAX_STR_DIGITS.
Proof.
  unfold small_int, INT_MAX_STR_DIGITS. split; intros H.
  - pose proof (digits_value_bound (digits (Z.abs z)) 0 ltac:(lia) (digits_digit _ (Z.abs_nonneg z))) as Hb.
    rewrite digits_value_digits in Hb by lia. eapply Z.lt_le_trans; [exact Hb|].
    rewrite Z.add_0_l, Z.mul_1_l. apply Z.pow_le_mono_r; [lia|]. by apply Nat2Z.inj_le.
  - apply (digits_length _ 4299). split; [apply Z.abs_nonneg|exact H].
Qed.

Lemma small_int_mono z w : Z.abs z ≤ Z.abs w → small_int w → small_int z.
Proof. rewrite !small_int_iff. lia. Qed.

Definition wf_output_file (f : OutputFile) : Prop :=
  scalar_str (out_name f) ∧ small_int (out_size_bytes f) ∧ scalar_str (out_url f).

Definition wf_result (r : ExecutionResult) : Prop :=
  scalar_str (job_id r) ∧ scalar_str (status r) ∧ scalar_str (stdout r) ∧ scalar_str (stderr r) ∧
  match exit_code r with Some z => small_int z | None => True end ∧
  small_int (wall_time_ms r) ∧ small_int (cpu_time_ms r) ∧ small_int (memory_bytes r) ∧
  Forall wf_output_file (out_files r).

#[local] Ltac closed_conj :=
  repeat match goal with
  | |- _ && _ = true => apply andb_true_iff; split
  | |- bool_decide _ = true => apply bool_decide_eq_true_2
  | |- (_ <=? _)%nat = true => apply Nat.leb_le
  end.

Lemma to_dict_wf r : wf_result r → wf_json (to_dict r) = true.
Proof.
  intros (Hj & Hs & Ho & He & Hx & Hw & Hc & Hm & Hf). unfold to_dict. cbn [wf_json].
  assert (forallb wf_json (map output_file_to_dict (out_files r)) = true) as Hfiles.
  { clear -Hf. induction Hf as [|f fs (H1 & H2 & H3) _ IH]; [done|].
    cbn [map forallb]. rewrite IH, andb_true_r. unfold output_file_to_dict. cbn [wf_json forallb fst snd].
    closed_conj; try done; by_compute. }
  assert (wf_json (json_of_option (exit_code r)) = true) as Hexit.
  { destruct (exit_code r); [|done]. by apply Nat.leb_le. }
  cbn [forallb fst snd wf_json]. closed_conj; try done; by_compute.
Qed.

(** the text a result is stored as decodes to exactly the dictionary [to_dict] built, so a
    reader of the result key sees every field the worker wrote. *)
Theorem result_text_roundtrip r :
  wf_result r → json_loads (json_dumps (to_dict r)) = Ok (to_dict r).
Proof. intros H. apply loads_dumps. by apply to_dict_wf. Qed.

End TypesFacts.

(** ** Concrete values *)
Module ExampleTypes.
#[local] Existing Instance AsciiRuntime.ascii_runtime.
#[local] Existing Instance PlainJson.plain_json.

Definition request : ExecutionRequest :=
  {| req_language := u "python"; req_code := u "print(1)"; req_stdin := []; req_timeout := 5;
     req_env_vars := [(u "MODE", u "x")]; req_files := [{| file_name := u "a.txt"; file_content := u "data" |}] |}.

Definition result : ExecutionResult :=
  {| job_id := u "j1"; status := u "COMPLETED"; stdout := u "1"; stderr := []; exit_code := Some 0;
     wall_time_ms := 31; cpu_time_ms := 12; memory_bytes := 4096; oom_killed := false;
     timed_out := false; truncated := false;
     out_files := [{| out_name := u "o.txt"; out_size_bytes := 3; out_url := u "http://m/o" |}] |}.

Lemma from_dict_request_json_witness :
  req_timeout request = 5 ∧ from_dict (request_json request) = Ok request.
Proof. split; [reflexivity|]. by apply (from_dict_request_json request). Defined.

Lemma result_text_roundtrip_witness :
  json_loads (json_dumps (to_dict result)) = Ok (to_dict result).
Proof.
  apply (result_text_roundtrip result). unfold wf_result, small_int. cbn.
  repeat split; try by_compute; lia.
Defined.
End ExampleTypes.
