(* ===== verification/Telemetry.v ===== *)
(** * Structured logging ([worker/telemetry/logging.py])

    [JsonFormatter.format]: a log record becomes one line of JSON.  What the [logging] library
    computes from the record (the formatted time, the message, the formatted exception) is part of the
    record here; its [__dict__] is the ordered list of its attributes, whose values are the ones the
    worker passes (text, numbers, booleans, [None]). *)
From S2P Require Import Prelude PyStr Utf8 Errors Json JsonText.
From stdpp Require Import options.

Definition _RESERVED : gset pystr := list_to_set (map u
  ["name"; "msg"; "args"; "levelname"; "levelno"; "pathname"; "filename"; "module"; "exc_info";
   "exc_text"; "stack_info"; "lineno"; "funcName"; "created"; "msecs"; "relativeCreated"; "thread";
   "threadName"; "processName"; "process"; "taskName"; "message"; "asctime"]%string).

Record LogRecord := {
  lr_time : pystr;
  levelname : pystr;
  lr_name : pystr;
  lr_message : pystr;
  lr_dict : list (pystr * json);
  exc_info : option pystr;
}.

(** The attributes that are copied. *)
Definition is_extra (key : pystr) : bool := negb (in_set key _RESERVED) && negb (startswith key (u "_")).

Definition log_payload (r : LogRecord) : list (pystr * json) :=
  let payload := [(u "ts", JStr (lr_time r)); (u "level", JStr (levelname r));
                  (u "logger", JStr (lr_name r)); (u "msg", JStr (lr_message r))] in
  let payload := dict_update payload (filter (λ kv, is_extra kv.1 = true) (lr_dict r)) in
  match exc_info r with
  | Some text => dict_set (u "exc") (JStr text) payload
  | None => payload
  end.

Definition format {JR : JsonRuntime} (r : LogRecord) : pystr := json_dumps_raw (JDict (log_payload r)).

(** ** The root logger *)

(** The handlers of the root logger: the one installed here, which writes to standard output with a
    [JsonFormatter], and those of others. *)
Inductive log_handler := StdoutJson | OtherHandler.

Record RootLogger := { handlers : list log_handler; root_level : Z }.

(** The names [Logger.setLevel] knows. *)
Definition level_names : list (pystr * Z) :=
  [(u "CRITICAL", 50); (u "FATAL", 50); (u "ERROR", 40); (u "WARN", 30); (u "WARNING", 30); (u "INFO", 20);
   (u "DEBUG", 10); (u "NOTSET", 0)].

(** The name of the worker's logger and the root logger after the call; an unknown level raises after
    the handler was installed. *)
Definition configure_logging {PR : PyRuntime} (level : pystr) (root : RootLogger) : res pystr * RootLogger :=
  let root := {| handlers := []; root_level := root_level root |} in
  let root := {| handlers := handlers root ++ [StdoutJson]; root_level := root_level root |} in
  match find (λ nl, bool_decide (nl.1 = str_upper level)) level_names with
  | Some (_, n) => (Ok (u "sandbox.worker"), {| handlers := handlers root; root_level := n |})
  | None => (Raise ValueError, root)
  end.

(** However often it is called, records are written once: the root logger has this one handler. *)
Lemma configure_logging_once {PR : PyRuntime} level level' root :
  handlers (configure_logging level root).2 = [StdoutJson] ∧
  (is_ok (configure_logging level' root).1 = true →
   (configure_logging level' (configure_logging level root).2).2 = (configure_logging level' root).2).
Proof.
  unfold configure_logging. destruct (find _ level_names) as [[? n]|];
    (split; [done|]); by destruct (find _ level_names) as [[? n']|].
Qed.

(** ** One line per record *)

(** Neither a control character nor, therefore, a line break. *)
Definition printable (s : pystr) : Prop := Forall (λ c, 32 ≤ c) s.

#[local] Instance printable_dec s : Decision (printable s).
Proof. unfold printable. apply _. Defined.

(** Values whose text consists of code points. *)
Definition code_points (s : pystr) : Prop := Forall (λ c, 0 ≤ c) s.

#[local] Instance code_points_dec s : Decision (code_points s).
Proof. unfold code_points. apply _. Defined.

Fixpoint json_code_points (j : json) : Prop :=
  match j with
  | JStr s => code_points s
  | JList l => foldr (λ x P, json_code_points x ∧ P) True l
  | JDict d => foldr (λ kv P, (code_points kv.1 ∧ json_code_points kv.2) ∧ P) True d
  | _ => True
  end.

Lemma escape_raw_printable c : 0 ≤ c → printable (escape_raw c).
Proof.
  assert (∀ n, 0 ≤ n → 32 ≤ hex_digit n) as Hx by (intros n Hn; unfold hex_digit; case_match; lia).
  intros Hc. unfold escape_raw. destruct (127 <=? c) eqn:E1; py_simpl; [by apply Forall_singleton; lia|].
  unfold escape_char.
  do 7 (destruct (c =? _); [by_compute|]).
  destruct (_ && _) eqn:E2; [rewrite andb_true_iff, !Z.leb_le in E2; apply Forall_singleton; lia|].
  destruct (c <? 0x10000) eqn:E3; py_simpl; [|lia].
  unfold u_escape, printable. rewrite !Forall_cons.
  split_and!; try lia; try (apply Hx; first [apply Z.div_pos; lia|apply Z.mod_pos_bound; lia]). done.
Qed.

Lemma join_printable sep ps : printable sep → Forall printable ps → printable (join sep ps).
Proof. apply join_Forall. Qed.

Lemma str_of_int_printable z : printable (str_of_int z).
Proof.
  assert (∀ n, 0 ≤ n → printable (digits n)) as Hd.
  { intros n Hn. eapply Forall_impl; [by apply digits_digit|]. intros c Hc. unfold is_digit in Hc.
    rewrite andb_true_iff, !Z.leb_le in Hc. lia. }
  unfold str_of_int. destruct (z <? 0) eqn:E; py_simpl; [apply Forall_cons; split; [lia|]|]; apply Hd; lia.
Qed.

Lemma render_str_printable s : code_points s → printable (render_str raw s).
Proof.
  intros H. apply Forall_cons. split; [lia|]. apply Forall_app. split; [|by_compute].
  induction H as [|c s Hc _ IH]; [constructor|]. cbn [map concat]. apply Forall_app.
  split; [by apply escape_raw_printable|done].
Qed.

Section Lines.
Context {JR : JsonRuntime} (Hfloat : ∀ f, printable (float_repr f)).

Lemma render_printable j : ∀ depth, json_code_points j → printable (render raw depth j).
Proof using Hfloat.
  induction j as [|b|z|f|s|l Hl|d Hd] using json_ind; intros depth Hj; cbn [render].
  - by_compute.
  - destruct b; by_compute.
  - apply str_of_int_printable.
  - destruct f as [|[]|]; [by_compute..|apply Hfloat].
  - by apply render_str_printable.
  - destruct l as [|x l]; [by_compute|]. cbn [ws_open ws_sep ws_close raw app].
    apply Forall_cons. split; [lia|]. apply Forall_app. split; [|by_compute].
    apply join_printable; [by_compute|]. revert Hl Hj. cbn [json_code_points]. generalize (x :: l) as l'. intros l' Hl.
    induction Hl as [|y l' Hy _ IH]; [constructor|]. cbn [foldr map]. intros [H1 H2]. constructor; auto.
  - destruct d as [|x d]; [by_compute|]. cbn [ws_open ws_sep ws_close raw app].
    apply Forall_cons. split; [lia|]. apply Forall_app. split; [|by_compute].
    apply join_printable; [by_compute|]. revert Hd Hj. cbn [json_code_points]. generalize (x :: d) as d'. intros d' Hd.
    induction Hd as [|kv d' Hkv _ IH]; [constructor|]. cbn [foldr map]. intros [[H1 H2] H3].
    constructor; [|auto]. apply Forall_app. split; [by apply render_str_printable|].
    apply Forall_cons. split; [lia|]. apply Forall_app. split; [by_compute|exact (Hkv _ H2)].
Qed.

Lemma dict_set_code_points k v d :
  json_code_points (JDict d) → code_points k → json_code_points v → json_code_points (JDict (dict_set k v d)).
Proof.
  intros Hd Hk Hv. induction d as [|[k' v'] d IH]; [done|]. cbn in Hd. destruct Hd as [[H1 H2] H3].
  cbn [dict_set]. case_bool_decide; cbn; auto. split; [done|]. by apply IH.
Qed.

Lemma dict_update_code_points pairs d :
  json_code_points (JDict d) → json_code_points (JDict pairs) → json_code_points (JDict (dict_update d pairs)).
Proof.
  unfold dict_update. revert d. induction pairs as [|[k v] pairs IH]; intros d Hd Hp; [done|].
  cbn in Hp. destruct Hp as [[H1 H2] H3]. cbn [fold_left]. apply IH; [|done]. by apply dict_set_code_points.
Qed.

(** The text of a record is made of code points, as every Python string is. *)
Definition record_code_points (r : LogRecord) : Prop :=
  code_points (lr_time r) ∧ code_points (levelname r) ∧ code_points (lr_name r) ∧ code_points (lr_message r) ∧
  json_code_points (JDict (lr_dict r)) ∧ match exc_info r with Some t => code_points t | None => True end.

Lemma u_code_points s : code_points (u s).
Proof. eapply Forall_impl; [apply u_scalar|]. unfold is_scalar. intros. lia. Qed.

Lemma filter_code_points d :
  json_code_points (JDict d) → json_code_points (JDict (filter (λ kv, is_extra kv.1 = true) d)).
Proof.
  induction d as [|kv d IH]; [done|]. intros [H1 H2]. rewrite filter_cons. case_decide; cbn; [split; [done|]|];
    by apply IH.
Qed.

(** A log record is one line.  Whatever text a record carries (message, job id, the text of an
    exception or of Docker's error output), its line contains no character below U+0020, hence no
    line break: a value under an attacker's control cannot forge a second record. *)
Theorem log_line_single r : record_code_points r → printable (format r).
Proof using Hfloat.
  intros (H1 & H2 & H3 & H4 & H5 & H6). apply render_printable. unfold log_payload.
  assert (json_code_points (JDict (dict_update
    [(u "ts", JStr (lr_time r)); (u "level", JStr (levelname r)); (u "logger", JStr (lr_name r));
     (u "msg", JStr (lr_message r))] (filter (λ kv, is_extra kv.1 = true) (lr_dict r))))) as Hp.
  { apply dict_update_code_points; [|by apply filter_code_points].
    cbn [json_code_points foldr fst snd]. split_and!; try done; apply u_code_points. }
  destruct (exc_info r); [|done]. apply dict_set_code_points; [done|apply u_code_points|done].
Qed.
End Lines.

(** ** The line carries the record *)

Definition wf_record (r : LogRecord) : Prop :=
  scalar_str (lr_time r) ∧ scalar_str (levelname r) ∧ scalar_str (lr_name r) ∧ scalar_str (lr_message r) ∧
  Forall wf_attr (lr_dict r) ∧ match exc_info r with Some t => scalar_str t | None => True end.

Lemma log_payload_NoDup r : NoDup (map fst (log_payload r)).
Proof.
  unfold log_payload. destruct (exc_info r); [apply dict_set_NoDup|]; apply dict_update_NoDup; by_compute.
Qed.

Lemma log_payload_wf r : wf_record r → Forall wf_attr (log_payload r).
Proof.
  intros (H1 & H2 & H3 & H4 & H5 & H6). unfold log_payload.
  assert (∀ k t, scalar_str t → wf_attr (u k, JStr t)) as Hw
    by (intros k t Ht; split; [apply u_scalar|by apply bool_decide_eq_true]).
  assert (Forall wf_attr (filter (λ kv, is_extra kv.1 = true) (lr_dict r))) as Hf.
  { apply Forall_forall. intros kv [_ Hin]%list_elem_of_filter. rewrite Forall_forall in H5. auto. }
  assert (Forall wf_attr (dict_update
    [(u "ts", JStr (lr_time r)); (u "level", JStr (levelname r)); (u "logger", JStr (lr_name r));
     (u "msg", JStr (lr_message r))] (filter (λ kv, is_extra kv.1 = true) (lr_dict r)))) as Hp.
  { apply dict_update_wf; [|exact Hf]. rewrite !Forall_cons. split_and!; try (by apply Hw). apply Forall_nil_2. }
  destruct (exc_info r); [apply dict_set_wf; [exact Hp|by apply Hw]|exact Hp].
Qed.

(** Nothing of a record is lost: the line read back as JSON is the record's payload, with every
    extra attribute under its own name. *)
Theorem log_line_loads {JR : JsonRuntime} r :
  wf_record r → json_loads (format r) = Ok (JDict (log_payload r)).
Proof.
  intros H. apply loads_dumps_raw, wf_dict; [apply log_payload_NoDup|by apply log_payload_wf].
Qed.

(** A message with line breaks and a forged record in it. *)
Module ExampleLog.
#[local] Existing Instance PlainJson.plain_json.

Definition record : LogRecord :=
  {| lr_time := u "2024-01-01T00:00:00+0000"; levelname := u "ERROR"; lr_name := u "sandbox.worker";
     lr_message := u "job failed" ++ [10] ++ u "{}"; exc_info := None;
     lr_dict := [(u "name", JStr (u "sandbox.worker")); (u "job_id", JStr (u "j" ++ [13; 10] ++ u "x"));
                 (u "_private", JInt 1)] |}.

Example line : format record =
  u "{" ++ [34] ++ u "ts" ++ [34] ++ u ": " ++ [34] ++ u "2024-01-01T00:00:00+0000" ++ [34] ++ u ", " ++
  [34] ++ u "level" ++ [34] ++ u ": " ++ [34] ++ u "ERROR" ++ [34] ++ u ", " ++
  [34] ++ u "logger" ++ [34] ++ u ": " ++ [34] ++ u "sandbox.worker" ++ [34] ++ u ", " ++
  [34] ++ u "msg" ++ [34] ++ u ": " ++ [34] ++ u "job failed\n{}" ++ [34] ++ u ", " ++
  [34] ++ u "job_id" ++ [34] ++ u ": " ++ [34] ++ u "j\r\nx" ++ [34] ++ u "}".
Proof. vm_compute. reflexivity. Qed.

Lemma log_line_single_witness : printable (format record).
Proof.
  apply (log_line_single (λ f, ltac:(by_compute)) record).
  unfold record_code_points. cbn. split_and!; try done; by_compute.
Defined.

Lemma log_line_loads_witness : json_loads (format record) = Ok (JDict (log_payload record)).
Proof.
  apply (log_line_loads record). unfold wf_record, wf_attr. split_and!; try by_compute; try done.
Defined.
End ExampleLog.
