(* ===== verification/ResourceLimits.v ===== *)
(** * Resource envelopes ([worker/sandbox/resource_limits.py])

    Per-language limits, their translation into [docker run] flags and the timeout clamp. *)
From S2P Require Import Prelude PyStr Errors.
From stdpp Require Import options.

Definition MAX_TIMEOUT_SECONDS : Z := 60.
Definition MAX_MEMORY_MB : Z := 1024.

(** [cpu_quota] is the float [cpu_centi / 100]; every configured value has at most two decimals,
    so its shortest decimal representation is the one [str_of_centi] prints. *)
Record ResourceConfig := {
  memory_mb : Z;
  cpu_centi : Z;
  timeout_seconds : Z;
  pids_limit : Z;
  disk_mb : Z;
  network_enabled : bool;
  output_max_bytes : Z;
}.

(** [str(c / 100)] for [c >= 0]: at least one digit after the point, no trailing zero after it. *)
Definition str_of_centi (c : Z) : pystr :=
  str_of_int (c / 100) ++ u "." ++
  (if c mod 10 =? 0 then str_of_int ((c mod 100) / 10)
   else str_of_int ((c mod 100) / 10) ++ str_of_int (c mod 10)).

Section ResourceConfig.
Implicit Types (c : ResourceConfig).

Definition clamp_timeout c (requested : option Z) : Z :=
  let ceiling := Z.min (timeout_seconds c) MAX_TIMEOUT_SECONDS in
  match requested with
  | None => ceiling
  | Some r => if r <=? 0 then ceiling else Z.max 1 (Z.min r ceiling)
  end.

Definition to_docker_flags c : list pystr :=
  [u "--memory=" ++ str_of_int (memory_mb c) ++ u "m";
   u "--memory-swap=" ++ str_of_int (memory_mb c) ++ u "m";
   u "--cpus=" ++ str_of_centi (cpu_centi c);
   u "--pids-limit=" ++ str_of_int (pids_limit c);
   u "--tmpfs=/tmp:rw,noexec,nosuid,nodev,size=" ++ str_of_int (disk_mb c) ++ u "m";
   u "--ulimit";
   u "nofile=256:256";
   u "--ulimit";
   u "nproc=" ++ str_of_int (pids_limit c) ++ u ":" ++ str_of_int (pids_limit c);
   u "--ulimit";
   u "fsize=" ++ str_of_int (disk_mb c * 1024 * 1024)]
  ++ (if network_enabled c then [] else [u "--network=none"]).

End ResourceConfig.

(** ** The configured languages *)

Definition _DEFAULTS : list (pystr * ResourceConfig) :=
  [(u "python",
    {| memory_mb := 256; cpu_centi := 50; timeout_seconds := 10; pids_limit := 64;
       disk_mb := 64; network_enabled := false; output_max_bytes := 1048576 |});
   (u "javascript",
    {| memory_mb := 256; cpu_centi := 50; timeout_seconds := 10; pids_limit := 64;
       disk_mb := 64; network_enabled := false; output_max_bytes := 1048576 |});
   (u "typescript",
    {| memory_mb := 320; cpu_centi := 75; timeout_seconds := 15; pids_limit := 96;
       disk_mb := 128; network_enabled := false; output_max_bytes := 1048576 |});
   (u "java",
    {| memory_mb := 512; cpu_centi := 100; timeout_seconds := 20; pids_limit := 128;
       disk_mb := 128; network_enabled := false; output_max_bytes := 1048576 |});
   (u "go",
    {| memory_mb := 384; cpu_centi := 100; timeout_seconds := 20; pids_limit := 128;
       disk_mb := 256; network_enabled := false; output_max_bytes := 1048576 |});
   (u "ruby",
    {| memory_mb := 256; cpu_centi := 50; timeout_seconds := 10; pids_limit := 64;
       disk_mb := 64; network_enabled := false; output_max_bytes := 1048576 |});
   (u "rust",
    {| memory_mb := 512; cpu_centi := 100; timeout_seconds := 25; pids_limit := 128;
       disk_mb := 256; network_enabled := false; output_max_bytes := 1048576 |});
   (u "bash",
    {| memory_mb := 128; cpu_centi := 50; timeout_seconds := 10; pids_limit := 32;
       disk_mb := 32; network_enabled := false; output_max_bytes := 1048576 |})].

(** A dictionary with string keys, written in the order of the source. *)
Fixpoint assoc {A} (k : pystr) (l : list (pystr * A)) : option A :=
  match l with
  | [] => None
  | (k', v) :: l' => if k' =s k then Some v else assoc k l'
  end.

Definition get_resource_config (language : pystr) : res ResourceConfig :=
  or_raise (assoc language _DEFAULTS) (KeyError language).

Definition has_resource_config (language : pystr) : bool :=
  bool_decide (language ∈ map fst _DEFAULTS).

Lemma assoc_elem {A} k (l : list (pystr * A)) v : assoc k l = Some v → (k, v) ∈ l.
Proof.
  induction l as [|[k' v'] l IH]; simpl; [done|].
  case_bool_decide; intros; simplify_eq; set_solver.
Qed.

Lemma assoc_is_Some {A} k (l : list (pystr * A)) : is_Some (assoc k l) ↔ k ∈ map fst l.
Proof.
  induction l as [|[k' v'] l IH]; simpl.
  - split; [by intros []|by inversion 1].
  - case_bool_decide; subst; [split; [set_solver|done]|]. rewrite IH. set_solver.
Qed.

Lemma assoc_NoDup {A} k (l : list (pystr * A)) v : NoDup (map fst l) → (k, v) ∈ l → assoc k l = Some v.
Proof.
  induction l as [|[k' v'] l IH]; simpl; intros Hnd Hin; [by inversion Hin|].
  apply NoDup_cons in Hnd as [Hk Hnd]. apply elem_of_cons in Hin as [[= <- <-]|Hin].
  - by rewrite bool_decide_eq_true_2.
  - rewrite bool_decide_eq_false_2; [by apply IH|]. intros ->. apply Hk.
    apply list_elem_of_fmap. by exists (k, v).
Qed.

(** ** Properties *)

Lemma clamp_timeout_ceiling c r :
  1 ≤ timeout_seconds c →
  1 ≤ clamp_timeout c r ≤ Z.min (timeout_seconds c) MAX_TIMEOUT_SECONDS.
Proof. intros. unfold clamp_timeout, MAX_TIMEOUT_SECONDS. destruct r; [case_match|]; lia. Qed.

(** the clamp puts any requested timeout into [1, min(limit, 60)]; a request inside that range
    is kept, a larger one is cut to the ceiling, and a missing or non-positive one gives the
    ceiling. *)
Theorem clamp_timeout_spec c r :
  1 ≤ timeout_seconds c →
  let ceiling := Z.min (timeout_seconds c) MAX_TIMEOUT_SECONDS in
  1 ≤ clamp_timeout c r ≤ ceiling ∧
  clamp_timeout c r = match r with
                      | Some t => if decide (1 ≤ t) then Z.min t ceiling else ceiling
                      | None => ceiling
                      end.
Proof.
  intros H ceiling. split; [by apply clamp_timeout_ceiling|].
  unfold clamp_timeout. fold ceiling. destruct r as [t|]; [|done].
  unfold ceiling, MAX_TIMEOUT_SECONDS. case_decide; case_match; py_simpl; lia.
Qed.

Lemma clamp_timeout_witness :
  1 ≤ timeout_seconds (Build_ResourceConfig 256 50 10 64 64 false 1048576) ∧
  clamp_timeout (Build_ResourceConfig 256 50 10 64 64 false 1048576) (Some 30) = 10.
Proof.
  split; [by vm_compute|].
  rewrite (proj2 (clamp_timeout_spec (Build_ResourceConfig 256 50 10 64 64 false 1048576) (Some 30) ltac:(by vm_compute))).
  by vm_compute.
Defined.

(** The configurations stay within the hard ceilings, isolate the network and bound processes,
    disk and output. *)
Definition sound_config (c : ResourceConfig) : Prop :=
  0 < memory_mb c ≤ MAX_MEMORY_MB ∧ 0 < cpu_centi c ≤ 100 ∧
  1 ≤ timeout_seconds c ≤ MAX_TIMEOUT_SECONDS ∧ 0 < pids_limit c ≤ 128 ∧ 0 < disk_mb c ≤ 256 ∧
  network_enabled c = false ∧ 0 < output_max_bytes c ≤ 1048576.

Lemma defaults_sound k c : (k, c) ∈ _DEFAULTS → sound_config c.
Proof.
  assert (Forall (λ kv, sound_config kv.2) _DEFAULTS) as H.
  { unfold sound_config, MAX_MEMORY_MB, MAX_TIMEOUT_SECONDS. by_compute. }
  rewrite Forall_forall in H. intros Hin. exact (H _ Hin).
Qed.

Lemma get_resource_config_sound language c :
  get_resource_config language = Ok c → sound_config c.
Proof.
  unfold get_resource_config. destruct (assoc language _DEFAULTS) as [c'|] eqn:E; simpl; [|done].
  intros; simplify_eq. eapply defaults_sound, assoc_elem, E.
Qed.

(** every language with limits gets memory, CPU, time, processes, disk and output within the
    hard ceilings, swap equal to memory, and no network; a language without limits is exactly one
    for which the look-up raises [KeyError]. *)
Theorem resource_config_total language :
  match get_resource_config language with
  | Ok c => sound_config c ∧ has_resource_config language = true ∧
            u "--network=none" ∈ to_docker_flags c ∧
            ∃ m, to_docker_flags c !! 0%nat = Some (u "--memory=" ++ m) ∧
                 to_docker_flags c !! 1%nat = Some (u "--memory-swap=" ++ m)
  | Raise e => e = KeyError language ∧ has_resource_config language = false
  end.
Proof.
  pose proof (get_resource_config_sound language) as Hs.
  unfold get_resource_config, has_resource_config in *.
  pose proof (assoc_is_Some language _DEFAULTS) as Ha.
  destruct (assoc language _DEFAULTS) as [c|]; simpl in *.
  - specialize (Hs c eq_refl). split; [done|].
    split; [apply bool_decide_eq_true_2, Ha; eauto|].
    destruct Hs as (_ & _ & _ & _ & _ & Hn & _).
    split; [unfold to_docker_flags; rewrite Hn; set_solver|]. by eexists.
  - split; [done|]. apply bool_decide_eq_false_2. rewrite <- Ha. by intros [].
Qed.
