(* ===== verification/Seccomp.v ===== *)
(** * Seccomp profiles ([worker/sandbox/seccomp.py])

    The syscall sets, the profile builder and the profile cache.  What a profile permits is decided
    by libseccomp and the kernel, which are not part of the program: [SeccompSemantics] states the
    two documented facts the builder relies on (a call no rule matches gets the default action; a
    call whose matching rules agree gets their action), and the theorems hold for every semantics
    with these laws. *)
From S2P Require Import Prelude PyStr Utf8 Errors Json JsonText Effects.
From stdpp Require Import options.

(** ** Constants *)

Definition _CLONE_NAMESPACE_MASK : Z := 0x7E020000.

Definition _CLONE_NAMESPACE_FLAGS : list Z :=
  [0x00020000; 0x02000000; 0x04000000; 0x08000000; 0x10000000; 0x20000000; 0x40000000].

Definition _ENOSYS : Z := 38.

Definition BLOCKLIST_LANGUAGES : gset pystr := {[u "typescript"; u "go"; u "rust"]}.

Definition ARCHITECTURES : list pystr :=
  map u ["SCMP_ARCH_X86_64"; "SCMP_ARCH_X86"; "SCMP_ARCH_X32"; "SCMP_ARCH_AARCH64"; "SCMP_ARCH_ARM"]%string.

(** Escape and privilege primitives, subtracted from every allow-list. *)
Definition DANGEROUS_SYSCALLS : gset pystr := list_to_set (map u
  ["ptrace"; "process_vm_readv"; "process_vm_writev"; "kcmp"; "init_module"; "finit_module";
   "delete_module"; "create_module"; "get_kernel_syms"; "query_module"; "mount"; "umount";
   "umount2"; "mount_setattr"; "move_mount"; "open_tree"; "fsopen"; "fsconfig"; "fspick";
   "pivot_root"; "chroot"; "unshare"; "setns"; "bpf"; "keyctl"; "add_key"; "request_key";
   "perf_event_open"; "userfaultfd"; "io_uring_setup"; "io_uring_enter"; "io_uring_register";
   "io_setup"; "io_destroy"; "io_submit"; "io_cancel"; "io_getevents"; "kexec_load";
   "kexec_file_load"; "reboot"; "swapon"; "swapoff"; "settimeofday"; "stime"; "clock_settime";
   "clock_settime64"; "clock_adjtime"; "clock_adjtime64"; "adjtimex"; "acct"; "quotactl";
   "nfsservctl"; "ioperm"; "iopl"; "modify_ldt"; "vm86"; "vm86old"; "personality";
   "open_by_handle_at"; "name_to_handle_at"; "fanotify_init"; "fanotify_mark"; "lookup_dcookie";
   "sysfs"; "_sysctl"; "vhangup"; "memfd_create"; "memfd_secret"; "mknod"; "mknodat"; "setuid";
   "setgid"; "setreuid"; "setregid"; "setresuid"; "setresgid"; "setfsuid"; "setfsgid";
   "setgroups"; "capset"]%string).

(** The allow-list shared by the interpreted runtimes. *)
Definition COMMON_SYSCALLS : gset pystr := list_to_set (map u
  ["read"; "write"; "readv"; "writev"; "pread64"; "pwrite64"; "preadv"; "pwritev"; "preadv2";
   "pwritev2"; "open"; "openat"; "openat2"; "close"; "close_range"; "creat"; "lseek"; "_llseek";
   "dup"; "dup2"; "dup3"; "pipe"; "pipe2"; "fcntl"; "fcntl64"; "flock"; "fsync"; "fdatasync";
   "sync"; "syncfs"; "sync_file_range"; "fadvise64"; "fadvise64_64"; "readahead"; "sendfile";
   "sendfile64"; "copy_file_range"; "splice"; "tee"; "vmsplice"; "ioctl"; "stat"; "fstat";
   "lstat"; "newfstatat"; "statx"; "fstatat64"; "stat64"; "lstat64"; "fstat64"; "statfs";
   "fstatfs"; "statfs64"; "fstatfs64"; "getdents"; "getdents64"; "getcwd"; "chdir"; "fchdir";
   "rename"; "renameat"; "renameat2"; "mkdir"; "mkdirat"; "rmdir"; "link"; "linkat"; "unlink";
   "unlinkat"; "symlink"; "symlinkat"; "readlink"; "readlinkat"; "chmod"; "fchmod"; "fchmodat";
   "chown"; "fchown"; "lchown"; "fchownat"; "umask"; "access"; "faccessat"; "faccessat2";
   "truncate"; "ftruncate"; "truncate64"; "ftruncate64"; "utime"; "utimes"; "utimensat";
   "utimensat_time64"; "futimesat"; "mmap"; "mmap2"; "munmap"; "mremap"; "mprotect"; "msync";
   "mincore"; "madvise"; "mlock"; "munlock"; "mlock2"; "mlockall"; "munlockall"; "brk";
   "get_mempolicy"; "set_mempolicy"; "membarrier"; "rt_sigaction"; "rt_sigprocmask";
   "rt_sigreturn"; "rt_sigpending"; "rt_sigsuspend"; "rt_sigtimedwait"; "rt_sigtimedwait_time64";
   "rt_sigqueueinfo"; "rt_tgsigqueueinfo"; "sigaltstack"; "signalfd"; "signalfd4"; "kill";
   "tgkill"; "tkill"; "getpid"; "getppid"; "gettid"; "getuid"; "geteuid"; "getgid"; "getegid";
   "getgroups"; "getresuid"; "getresgid"; "getpgrp"; "getpgid"; "setpgid"; "getsid"; "setsid";
   "getpriority"; "setpriority"; "set_tid_address"; "set_robust_list"; "get_robust_list";
   "prctl"; "arch_prctl"; "getcpu"; "capget"; "execve"; "execveat"; "fork"; "vfork"; "exit";
   "exit_group"; "wait4"; "waitid"; "futex"; "futex_waitv"; "futex_time64"; "set_thread_area";
   "get_thread_area"; "sched_yield"; "sched_getaffinity"; "sched_setaffinity"; "sched_getparam";
   "sched_setparam"; "sched_getscheduler"; "sched_setscheduler"; "sched_get_priority_max";
   "sched_get_priority_min"; "sched_rr_get_interval"; "sched_rr_get_interval_time64";
   "sched_getattr"; "sched_setattr"; "rseq"; "nanosleep"; "clock_nanosleep";
   "clock_nanosleep_time64"; "clock_gettime"; "clock_gettime64"; "clock_getres";
   "clock_getres_time64"; "gettimeofday"; "time"; "times"; "getrandom"; "poll"; "ppoll";
   "ppoll_time64"; "select"; "_newselect"; "pselect6"; "pselect6_time64"; "epoll_create";
   "epoll_create1"; "epoll_ctl"; "epoll_wait"; "epoll_pwait"; "epoll_pwait2"; "eventfd";
   "eventfd2"; "timerfd_create"; "timerfd_settime"; "timerfd_settime64"; "timerfd_gettime";
   "timerfd_gettime64"; "inotify_init"; "inotify_init1"; "inotify_add_watch"; "inotify_rm_watch";
   "restart_syscall"; "getrlimit"; "setrlimit"; "prlimit64"; "getrusage"; "uname"; "sysinfo"]%string).

(** Per-language additions. *)
Definition LANGUAGE_EXTRA (language : pystr) : gset pystr :=
  if language =s u "javascript" then {[u "epoll_pwait"; u "statx"]}
  else if language =s u "typescript" then {[u "epoll_pwait"; u "statx"]}
  else if language =s u "java" then
    {[u "get_mempolicy"; u "set_mempolicy"; u "getcpu"; u "sched_setaffinity"]}
  else if language =s u "go" then {[u "sched_getaffinity"; u "rseq"]}
  else ∅.

(** Added only for a runtime that is granted a network. *)
Definition NETWORK_SYSCALLS : gset pystr := list_to_set (map u
  ["socket"; "connect"; "bind"; "listen"; "accept"; "accept4"; "getsockname"; "getpeername";
   "sendto"; "recvfrom"; "sendmsg"; "recvmsg"; "sendmmsg"; "recvmmsg"; "recvmmsg_time64";
   "getsockopt"; "setsockopt"; "shutdown"]%string).

Definition _ALWAYS_LOCAL : gset pystr := {[u "socketpair"]}.

(** ** What the lists contain *)

(** Splits membership in a literal set into its elements. *)
#[local] Ltac literal_set :=
  repeat match goal with
  | H : _ ∈ _ ∪ _ |- _ => apply elem_of_union in H as [H|H]
  | H : _ ∈ {[_]} |- _ => apply elem_of_singleton in H as ->
  end.

Lemma extra_subset language : LANGUAGE_EXTRA language ⊆ COMMON_SYSCALLS.
Proof.
  intros x. unfold LANGUAGE_EXTRA.
  repeat (case_bool_decide as E; clear E; [intros Hx; literal_set; apply elem_of_names; reflexivity|]).
  intros Hx. destruct (not_elem_of_empty x Hx).
Qed.

Lemma local_notin l : has_name l "socketpair" = false → _ALWAYS_LOCAL ## list_to_set (map u l).
Proof. intros H x ->%elem_of_singleton Hx%elem_of_names. by rewrite H in Hx. Qed.

Lemma base_not_dangerous : (COMMON_SYSCALLS ∪ _ALWAYS_LOCAL ∪ NETWORK_SYSCALLS) ## DANGEROUS_SYSCALLS.
Proof.
  intros x [[Hx|Hx]%elem_of_union|Hx]%elem_of_union;
    [refine (names_disjoint _ _ _ x Hx); vm_compute; reflexivity|refine (local_notin _ _ x Hx); vm_compute; reflexivity
    |refine (names_disjoint _ _ _ x Hx); vm_compute; reflexivity].
Qed.

Lemma network_not_common x : x ∈ COMMON_SYSCALLS ∪ _ALWAYS_LOCAL → x ∉ NETWORK_SYSCALLS.
Proof.
  intros [Hx|Hx]%elem_of_union;
    [refine (names_disjoint _ _ _ x Hx); vm_compute; reflexivity|refine (local_notin _ _ x Hx); vm_compute; reflexivity].
Qed.

Lemma clone_not_listed x :
  x ∈ [u "clone"; u "clone3"] →
  x ∉ COMMON_SYSCALLS ∪ _ALWAYS_LOCAL ∪ NETWORK_SYSCALLS ∪ DANGEROUS_SYSCALLS.
Proof.
  intros H Hx. unfold COMMON_SYSCALLS, _ALWAYS_LOCAL, NETWORK_SYSCALLS, DANGEROUS_SYSCALLS in Hx.
  repeat (apply elem_of_cons in H as [->|H]); [| |by inversion H];
    repeat (apply elem_of_union in Hx as [Hx|Hx]);
    by (apply elem_of_names in Hx || apply elem_of_singleton in Hx).
Qed.

Lemma ptrace_dangerous : u "ptrace" ∈ DANGEROUS_SYSCALLS.
Proof. by apply elem_of_names. Qed.

Lemma socket_network : u "socket" ∈ NETWORK_SYSCALLS.
Proof. by apply elem_of_names. Qed.

(** Every name is ASCII text. *)
Lemma listed_scalar x :
  x ∈ COMMON_SYSCALLS ∪ _ALWAYS_LOCAL ∪ NETWORK_SYSCALLS ∪ DANGEROUS_SYSCALLS → scalar_str x.
Proof.
  unfold COMMON_SYSCALLS, _ALWAYS_LOCAL, NETWORK_SYSCALLS, DANGEROUS_SYSCALLS. intros Hx.
  repeat (apply elem_of_union in Hx as [Hx|Hx]);
    first [apply elem_of_names_inv in Hx as (s & -> & _)|apply elem_of_singleton in Hx as ->]; apply u_scalar.
Qed.

(** Unification must not evaluate the sets; [vm_compute] still does. *)
#[global] Opaque COMMON_SYSCALLS DANGEROUS_SYSCALLS NETWORK_SYSCALLS _ALWAYS_LOCAL.

(** ** Profiles *)

Record arg_cond := { arg_index : nat; arg_value : Z; arg_valueTwo : Z; arg_op : pystr }.

Record rule := {
  names : list pystr;
  action : pystr;
  errnoRet : option Z;
  args : list arg_cond;
}.

Record profile := {
  defaultAction : pystr;
  defaultErrnoRet : option Z;
  architectures : list pystr;
  syscalls : list rule;
}.

Definition ACT_ALLOW : pystr := u "SCMP_ACT_ALLOW".
Definition ACT_ERRNO : pystr := u "SCMP_ACT_ERRNO".
Definition CMP_MASKED_EQ : pystr := u "SCMP_CMP_MASKED_EQ".

Definition allowed_syscalls (language : pystr) (network : bool) : gset pystr :=
  let allowed := COMMON_SYSCALLS ∪ LANGUAGE_EXTRA language in
  let allowed := allowed ∪ _ALWAYS_LOCAL in
  let allowed := if network then allowed ∪ NETWORK_SYSCALLS else allowed in
  allowed ∖ DANGEROUS_SYSCALLS.

(** [sorted] on strings: lexicographic order of code points. *)
Fixpoint str_leb (a b : pystr) : bool :=
  match a, b with
  | [], _ => true
  | _ :: _, [] => false
  | x :: a', y :: b' => (x <? y) || ((x =? y) && str_leb a' b')
  end.
Definition str_le (a b : pystr) : Prop := str_leb a b = true.
#[export] Instance str_le_dec : RelDecision str_le.
Proof. intros a b. unfold str_le. apply _. Defined.

Definition sorted (s : gset pystr) : list pystr := merge_sort str_le (elements s).

Definition _build_allowlist_profile (language : pystr) (network : bool) : profile :=
  {| defaultAction := ACT_ERRNO;
     defaultErrnoRet := Some 1;
     architectures := ARCHITECTURES;
     syscalls :=
       [{| names := sorted (allowed_syscalls language network); action := ACT_ALLOW;
           errnoRet := None; args := [] |};
        {| names := [u "clone"]; action := ACT_ALLOW; errnoRet := None;
           args := [{| arg_index := 0; arg_value := _CLONE_NAMESPACE_MASK; arg_valueTwo := 0;
                       arg_op := CMP_MASKED_EQ |}] |};
        {| names := [u "clone3"]; action := ACT_ERRNO; errnoRet := Some _ENOSYS; args := [] |}] |}.

(** The deny rule of one namespace flag. *)
Definition clone_deny_rule (flag : Z) : rule :=
  {| names := [u "clone"]; action := ACT_ERRNO; errnoRet := Some 1;
     args := [{| arg_index := 0; arg_value := flag; arg_valueTwo := flag; arg_op := CMP_MASKED_EQ |}] |}.

Definition _build_blocklist_profile : profile :=
  {| defaultAction := ACT_ALLOW;
     defaultErrnoRet := None;
     architectures := ARCHITECTURES;
     syscalls :=
       [{| names := sorted DANGEROUS_SYSCALLS; action := ACT_ERRNO; errnoRet := Some 1; args := [] |};
        {| names := [u "clone3"]; action := ACT_ERRNO; errnoRet := Some _ENOSYS; args := [] |}]
       ++ map clone_deny_rule _CLONE_NAMESPACE_FLAGS |}.

Definition build_profile (language : pystr) (network : bool) : profile :=
  if in_set language BLOCKLIST_LANGUAGES then _build_blocklist_profile
  else _build_allowlist_profile language network.

(** ** The order of names *)

#[export] Instance str_le_total : Total str_le.
Proof.
  intros a. unfold str_le. induction a as [|x a IH]; intros [|y b]; simpl; auto.
  rewrite !orb_true_iff, !andb_true_iff, !Z.ltb_lt, !Z.eqb_eq. specialize (IH b).
  destruct (Z.lt_total x y) as [?|[?|?]]; subst; intuition auto.
Qed.

#[export] Instance str_le_trans : Transitive str_le.
Proof.
  intros a. unfold str_le. induction a as [|x a IH]; intros [|y b] [|z c]; simpl; try done.
  rewrite !orb_true_iff, !andb_true_iff, !Z.ltb_lt, !Z.eqb_eq.
  intros [?|[-> ?]] [?|[-> ?]]; [left; lia|by left|by left|right]. split; [done|]. by eapply IH.
Qed.

#[export] Instance str_le_antisymm : AntiSymm (=) str_le.
Proof.
  intros a. unfold str_le. induction a as [|x a IH]; intros [|y b]; simpl; try done.
  rewrite !orb_true_iff, !andb_true_iff, !Z.ltb_lt, !Z.eqb_eq.
  intros [?|[-> H1]] [?|[Hx H2]]; try lia. f_equal. by apply IH.
Qed.

Lemma elem_of_sorted s x : x ∈ sorted s ↔ x ∈ s.
Proof. unfold sorted. by rewrite merge_sort_Permutation, elem_of_elements. Qed.

Lemma sorted_NoDup s : NoDup (sorted s).
Proof. unfold sorted. rewrite merge_sort_Permutation. apply NoDup_elements. Qed.

Lemma sorted_StronglySorted s : StronglySorted str_le (sorted s).
Proof. apply StronglySorted_merge_sort; apply _. Qed.

(** The names of a rule are a canonical list: the profile does not depend on set order. *)
Lemma sorted_canonical s l :
  NoDup l → StronglySorted str_le l → (∀ x, x ∈ l ↔ x ∈ s) → l = sorted s.
Proof.
  intros Hnd Hs Hel. eapply (StronglySorted_unique str_le); [done|apply sorted_StronglySorted|].
  apply NoDup_Permutation; [done|apply sorted_NoDup|]. intros x. by rewrite elem_of_sorted.
Qed.

(** ** What the allow-lists contain *)

Lemma allowed_unfold language network x :
  x ∈ allowed_syscalls language network ↔
  x ∈ COMMON_SYSCALLS ∪ _ALWAYS_LOCAL ∨ network = true ∧ x ∈ NETWORK_SYSCALLS.
Proof.
  pose proof (extra_subset language) as He. pose proof base_not_dangerous as Hd.
  unfold allowed_syscalls. generalize dependent (LANGUAGE_EXTRA language). generalize dependent COMMON_SYSCALLS.
  generalize _ALWAYS_LOCAL NETWORK_SYSCALLS DANGEROUS_SYSCALLS.
  intros local net dangerous common Hd extra He. destruct network; set_solver.
Qed.

Lemma allowed_not_dangerous language network x :
  x ∈ allowed_syscalls language network → x ∉ DANGEROUS_SYSCALLS.
Proof. unfold allowed_syscalls. by intros [_ ?]%elem_of_difference. Qed.

(** Neither form of [clone] is in any of the sets: both have rules of their own. *)
Lemma union4_notin (A B C D : gset pystr) x :
  (x ∉ A ∪ B ∪ C ∪ D) → (x ∉ A ∪ B) ∧ (x ∉ C) ∧ (x ∉ D).
Proof. set_solver. Qed.

Lemma union4_in (A B C D : gset pystr) x : (x ∈ A ∪ B) ∨ x ∈ C ∨ x ∈ D → x ∈ A ∪ B ∪ C ∪ D.
Proof. set_solver. Qed.

Lemma clone_not_dangerous x : x ∈ [u "clone"; u "clone3"] → in_set x DANGEROUS_SYSCALLS = false.
Proof. intros (_ & _ & H)%clone_not_listed%union4_notin. by apply in_set_false. Qed.

Lemma clone_not_network x : x ∈ [u "clone"; u "clone3"] → in_set x NETWORK_SYSCALLS = false.
Proof. intros (_ & H & _)%clone_not_listed%union4_notin. by apply in_set_false. Qed.

Lemma clone_not_allowed language network x :
  x ∈ [u "clone"; u "clone3"] → in_set x (allowed_syscalls language network) = false.
Proof.
  intros (H1 & H2 & _)%clone_not_listed%union4_notin. apply in_set_false.
  intros [Ha|[_ Ha]]%allowed_unfold; [exact (H1 Ha)|exact (H2 Ha)].
Qed.

Lemma in_clone_pair x : x = u "clone" ∨ x = u "clone3" → x ∈ [u "clone"; u "clone3"].
Proof. set_solver. Qed.
#[local] Hint Resolve in_clone_pair : sandbox.

(** ** Semantics of a profile *)

(** A system call with its argument registers. *)
Record sysreq := { sc_name : pystr; sc_arg : nat → Z }.

(** [SCMP_CMP_MASKED_EQ]: the argument masked with [value] equals [valueTwo]. *)
Definition cond_holds (c : arg_cond) (q : sysreq) : bool :=
  (arg_op c =s CMP_MASKED_EQ) && (Z.land (sc_arg q (arg_index c)) (arg_value c) =? arg_valueTwo c).

Definition rule_matches (r : rule) (q : sysreq) : bool :=
  bool_decide (sc_name q ∈ names r) && forallb (λ c, cond_holds c q) (args r).

Abbreviation verdict := (pystr * option Z)%type.
Definition verdict_of (r : rule) : verdict := (action r, errnoRet r).
Definition default_of (p : profile) : verdict := (defaultAction p, defaultErrnoRet p).

Class SeccompSemantics := filter_verdict : profile → sysreq → verdict.

Class SeccompLaws `{!SeccompSemantics} : Prop := {
  verdict_default p q :
    (∀ r, r ∈ syscalls p → rule_matches r q = false) → filter_verdict p q = default_of p;
  verdict_agree p q v r :
    r ∈ syscalls p → rule_matches r q = true →
    (∀ r', r' ∈ syscalls p → rule_matches r' q = true → verdict_of r' = v) →
    filter_verdict p q = v;
}.

(** A semantics with these laws: the first matching rule decides. *)
Module FirstMatch.
Fixpoint first_match (rs : list rule) (q : sysreq) : option verdict :=
  match rs with
  | [] => None
  | r :: rs' => if rule_matches r q then Some (verdict_of r) else first_match rs' q
  end.

#[export] Instance first_match_semantics : SeccompSemantics := λ p q,
  match first_match (syscalls p) q with Some v => v | None => default_of p end.

#[export] Instance first_match_laws : SeccompLaws.
Proof.
  split; unfold filter_verdict, first_match_semantics; intros p q.
  - intros H. assert (first_match (syscalls p) q = None) as ->; [|done].
    induction (syscalls p) as [|r rs IH]; simpl; [done|].
    rewrite H by set_solver. apply IH. set_solver.
  - intros v r Hr Hm Hall. assert (first_match (syscalls p) q = Some v) as ->; [|done].
    induction (syscalls p) as [|r0 rs IH]; [by inversion Hr|]. simpl.
    destruct (rule_matches r0 q) eqn:E; [f_equal; apply Hall; set_solver|].
    apply IH; [|set_solver]. apply elem_of_cons in Hr as [->|]; [congruence|done].
Qed.
End FirstMatch.

(** ** Namespace flags

    The mask of the allow-list rule and the per-flag rules of the block-list agree. *)

Lemma land_pow2 a k : 0 ≤ k → Z.land a (2 ^ k) = if Z.testbit a k then 2 ^ k else 0.
Proof.
  intros Hk. apply Z.bits_inj'. intros n Hn. rewrite Z.land_spec, Z.pow2_bits_eqb by done.
  destruct (Z.eqb_spec k n) as [->|Hne].
  - destruct (Z.testbit a n); [by rewrite Z.pow2_bits_true|by rewrite Z.bits_0].
  - rewrite andb_false_r. destruct (Z.testbit a k); [by rewrite Z.pow2_bits_false|by rewrite Z.bits_0].
Qed.

Lemma land_flag a k : 0 ≤ k → (Z.land a (2 ^ k) =? 2 ^ k) = Z.testbit a k.
Proof.
  intros Hk. pose proof (Z.pow_pos_nonneg 2 k ltac:(lia) Hk). rewrite land_pow2 by done.
  destruct (Z.testbit a k); lia.
Qed.

Lemma land_flag_zero a k : 0 ≤ k → (Z.land a (2 ^ k) =? 0) = negb (Z.testbit a k).
Proof.
  intros Hk. pose proof (Z.pow_pos_nonneg 2 k ltac:(lia) Hk). rewrite land_pow2 by done.
  destruct (Z.testbit a k); lia.
Qed.

Lemma land_lor_zero a x y : (Z.land a (Z.lor x y) =? 0) = (Z.land a x =? 0) && (Z.land a y =? 0).
Proof.
  apply eq_true_iff_eq. rewrite andb_true_iff, !Z.eqb_eq, Z.land_lor_distr_r. apply Z.lor_eq_0_iff.
Qed.

Lemma mask_flags a :
  existsb (λ flag, Z.land a flag =? flag) _CLONE_NAMESPACE_FLAGS =
  negb (Z.land a _CLONE_NAMESPACE_MASK =? 0).
Proof.
  change _CLONE_NAMESPACE_FLAGS with [2 ^ 17; 2 ^ 25; 2 ^ 26; 2 ^ 27; 2 ^ 28; 2 ^ 29; 2 ^ 30].
  change _CLONE_NAMESPACE_MASK with
    (Z.lor (2 ^ 17) (Z.lor (2 ^ 25) (Z.lor (2 ^ 26) (Z.lor (2 ^ 27)
      (Z.lor (2 ^ 28) (Z.lor (2 ^ 29) (2 ^ 30))))))).
  rewrite !land_lor_zero, !land_flag_zero by lia. unfold existsb.
  rewrite !land_flag by lia. rewrite !negb_andb, !negb_involutive, orb_false_r. done.
Qed.

(** ** The policy the profiles implement *)

(** A [clone] whose flags ask for a new namespace. *)
Definition creates_namespace (q : sysreq) : bool :=
  negb (Z.land (sc_arg q 0%nat) _CLONE_NAMESPACE_MASK =? 0).

Definition deny : verdict := (ACT_ERRNO, Some 1).
Definition allow : verdict := (ACT_ALLOW, None).

(** The intended decision on every call, written without profiles. *)
Definition policy (language : pystr) (network : bool) (q : sysreq) : verdict :=
  let s := sc_name q in
  if s =s u "clone3" then (ACT_ERRNO, Some _ENOSYS)
  else if s =s u "clone" then (if creates_namespace q then deny else allow)
  else if in_set s DANGEROUS_SYSCALLS then deny
  else if in_set language BLOCKLIST_LANGUAGES then allow
  else if in_set s (COMMON_SYSCALLS ∪ _ALWAYS_LOCAL) || (network && in_set s NETWORK_SYSCALLS)
  then allow else deny.

Section Policy.
Set Default Proof Using "Type*".
Context `{SS : !SeccompSemantics} {SL : SeccompLaws}.

Lemma rule_matches_plain ns a e q :
  rule_matches {| names := ns; action := a; errnoRet := e; args := [] |} q = bool_decide (sc_name q ∈ ns).
Proof. unfold rule_matches. simpl. by rewrite andb_true_r. Qed.

Lemma rule_matches_masked n a e v v2 q :
  rule_matches {| names := [n]; action := a; errnoRet := e;
                  args := [{| arg_index := 0; arg_value := v; arg_valueTwo := v2; arg_op := CMP_MASKED_EQ |}] |} q
  = bool_decide (sc_name q = n) && (Z.land (sc_arg q 0%nat) v =? v2).
Proof.
  unfold rule_matches, cond_holds, names, args, arg_op, arg_index, arg_value, arg_valueTwo, forallb.
  rewrite (bool_decide_eq_true_2 (CMP_MASKED_EQ = _) eq_refl), andb_true_l, andb_true_r.
  f_equal. apply bool_decide_ext. apply list_elem_of_singleton.
Qed.

#[local] Hint Extern 1 (_ ∈ _ :: _) => constructor : sandbox.

(** A profile in which every matching rule gives one verdict gives that verdict. *)
Lemma verdict_unique p q v :
  (∃ r, r ∈ syscalls p ∧ rule_matches r q = true) →
  Forall (λ r, rule_matches r q = true → verdict_of r = v) (syscalls p) → filter_verdict p q = v.
Proof.
  intros (r & Hr & Hm) Hall. rewrite Forall_forall in Hall. eapply verdict_agree; eauto.
Qed.

Lemma verdict_none p q :
  Forall (λ r, rule_matches r q = false) (syscalls p) → filter_verdict p q = default_of p.
Proof. intros H. rewrite Forall_forall in H. by apply verdict_default. Qed.

(** The three rules of the allow-list profile, as booleans on the call. *)
Lemma allowlist_rules language network q :
  ∃ r1 r2 r3,
    syscalls (_build_allowlist_profile language network) = [r1; r2; r3] ∧
    verdict_of r1 = allow ∧ verdict_of r2 = allow ∧ verdict_of r3 = (ACT_ERRNO, Some _ENOSYS) ∧
    rule_matches r1 q = in_set (sc_name q) (allowed_syscalls language network) ∧
    rule_matches r2 q = (sc_name q =s u "clone") && negb (creates_namespace q) ∧
    rule_matches r3 q = (sc_name q =s u "clone3").
Proof.
  do 3 eexists. split; [reflexivity|]. do 3 (split; [reflexivity|]). split_and!.
  - rewrite rule_matches_plain. apply bool_decide_ext, elem_of_sorted.
  - rewrite rule_matches_masked. unfold creates_namespace. by rewrite negb_involutive.
  - rewrite rule_matches_plain. apply bool_decide_ext, list_elem_of_singleton.
Qed.

Lemma allowlist_verdict language network q :
  filter_verdict (_build_allowlist_profile language network) q =
  (let s := sc_name q in
   if s =s u "clone3" then (ACT_ERRNO, Some _ENOSYS)
   else if s =s u "clone" then (if creates_namespace q then deny else allow)
   else if in_set s (allowed_syscalls language network) then allow else deny).
Proof.
  destruct (allowlist_rules language network q) as (r1 & r2 & r3 & Hp & V1 & V2 & V3 & M1 & M2 & M3).
  pose proof (clone_not_allowed language network (sc_name q)) as Hcl.
  cbv zeta. case_bool_decide as E3; [|case_bool_decide as E2].
  - apply verdict_unique; rewrite Hp; [exists r3; split; [|congruence]; auto 10 with sandbox|].
    rewrite Hcl in M1 by auto with sandbox. rewrite E3 in M2.
    rewrite bool_decide_eq_false_2, andb_false_l in M2 by done.
    repeat (apply Forall_cons_2; [congruence|]). apply Forall_nil_2.
  - rewrite Hcl in M1 by auto with sandbox. destruct (creates_namespace q).
    + rewrite verdict_none; [done|]. rewrite Hp. by repeat (apply Forall_cons_2; [done|]).
    + rewrite andb_true_l in M2. cbn in M2. apply verdict_unique; rewrite Hp; [exists r2; split; [|congruence]; auto 10 with sandbox|].
      repeat (apply Forall_cons_2; [congruence|]). apply Forall_nil_2.
  - destruct (in_set _ _) eqn:Ea.
    + apply verdict_unique; rewrite Hp; [exists r1; split; [|congruence]; auto 10 with sandbox|].
      repeat (apply Forall_cons_2; [congruence|]). apply Forall_nil_2.
    + rewrite verdict_none; [done|]. rewrite Hp. by repeat (apply Forall_cons_2; [done|]).
Qed.

(** The flag rules of the block-list match exactly a [clone] that creates a namespace. *)
Lemma clone_deny_rules q :
  (∃ r, r ∈ map clone_deny_rule _CLONE_NAMESPACE_FLAGS ∧ rule_matches r q = true) ↔
  sc_name q = u "clone" ∧ creates_namespace q = true.
Proof.
  unfold creates_namespace. rewrite <- mask_flags, existsb_exists. split.
  - intros (r & (flag & -> & Hf)%list_elem_of_fmap & Hm). unfold clone_deny_rule in Hm.
    rewrite rule_matches_masked, andb_true_iff, bool_decide_eq_true in Hm.
    destruct Hm as [Hn Hm]. split; [done|]. exists flag. by rewrite <- list_elem_of_In.
  - intros (Hn & flag & Hf & Hm). exists (clone_deny_rule flag). split.
    + apply list_elem_of_fmap. exists flag. by rewrite list_elem_of_In.
    + unfold clone_deny_rule. by rewrite rule_matches_masked, bool_decide_eq_true_2.
Qed.

Lemma clone_deny_rule_verdict r : r ∈ map clone_deny_rule _CLONE_NAMESPACE_FLAGS → verdict_of r = deny.
Proof. by intros (flag & -> & _)%list_elem_of_fmap. Qed.

Lemma blocklist_rules q :
  ∃ r1 r2,
    syscalls _build_blocklist_profile = r1 :: r2 :: map clone_deny_rule _CLONE_NAMESPACE_FLAGS ∧
    verdict_of r1 = deny ∧ verdict_of r2 = (ACT_ERRNO, Some _ENOSYS) ∧
    rule_matches r1 q = in_set (sc_name q) DANGEROUS_SYSCALLS ∧
    rule_matches r2 q = (sc_name q =s u "clone3").
Proof.
  do 2 eexists. split; [reflexivity|]. do 2 (split; [reflexivity|]). split.
  - rewrite rule_matches_plain. apply bool_decide_ext, elem_of_sorted.
  - rewrite rule_matches_plain. apply bool_decide_ext, list_elem_of_singleton.
Qed.

Lemma blocklist_verdict q :
  filter_verdict _build_blocklist_profile q =
  (let s := sc_name q in
   if s =s u "clone3" then (ACT_ERRNO, Some _ENOSYS)
   else if s =s u "clone" then (if creates_namespace q then deny else allow)
   else if in_set s DANGEROUS_SYSCALLS then deny else allow).
Proof.
  destruct (blocklist_rules q) as (r1 & r2 & Hp & V1 & V2 & M1 & M2).
  pose proof (clone_deny_rules q) as Hc. pose proof clone_deny_rule_verdict as Hv.
  pose proof (clone_not_dangerous (sc_name q)) as Hcl.
  assert (default_of _build_blocklist_profile = allow) as Hdef by reflexivity. cbv zeta.
  generalize dependent (in_set (sc_name q) DANGEROUS_SYSCALLS).
  generalize dependent (map clone_deny_rule _CLONE_NAMESPACE_FLAGS).
  generalize dependent _build_blocklist_profile. intros p Hdef cl Hp Hc Hv dangerous M1 Hcl.
  assert (¬ (sc_name q = u "clone" ∧ creates_namespace q = true) →
          Forall (λ r, rule_matches r q = false) cl) as Hno.
  { intros Hn. apply Forall_forall. intros r Hr. apply not_true_is_false.
    intros Hm. apply Hn, Hc. by exists r. }
  case_bool_decide as E3; [|case_bool_decide as E2; [destruct (creates_namespace q) eqn:En|]].
  - rewrite Hcl in M1 by auto with sandbox. apply verdict_unique; rewrite Hp; [exists r2; split; [|congruence]; auto 10 with sandbox|].
    do 2 (apply Forall_cons_2; [congruence|]).
    eapply Forall_impl; [apply Hno; rewrite E3; by intros [? _]|]. congruence.
  - rewrite Hcl in M1 by auto with sandbox. destruct (proj2 Hc (conj E2 eq_refl)) as (r & Hr & Hm).
    apply verdict_unique; rewrite Hp; [exists r; split; [|congruence]; auto 10 with sandbox|].
    do 2 (apply Forall_cons_2; [congruence|]). apply Forall_forall. auto.
  - rewrite Hcl in M1 by auto with sandbox. rewrite verdict_none; [done|]. rewrite Hp.
    do 2 (apply Forall_cons_2; [done|]). apply Hno. by intros [_ ?].
  - assert (Forall (λ r, rule_matches r q = false) cl) as Hcl' by (apply Hno; by intros [? _]).
    destruct dangerous.
    + apply verdict_unique; rewrite Hp; [exists r1; split; [|congruence]; auto 10 with sandbox|].
      do 2 (apply Forall_cons_2; [congruence|]). eapply Forall_impl; [done|]. congruence.
    + rewrite verdict_none; [done|]. rewrite Hp. by do 2 (apply Forall_cons_2; [done|]).
Qed.

Lemma allowed_in_set language network s :
  in_set s (allowed_syscalls language network) =
  in_set s (COMMON_SYSCALLS ∪ _ALWAYS_LOCAL) || (network && in_set s NETWORK_SYSCALLS).
Proof.
  apply eq_true_iff_eq.
  rewrite orb_true_iff, andb_true_iff, !in_set_true. apply allowed_unfold.
Qed.

Lemma verdict_policy language network q :
  filter_verdict (build_profile language network) q = policy language network q.
Proof.
  unfold build_profile, policy. cbv zeta. destruct (in_set language BLOCKLIST_LANGUAGES).
  - apply blocklist_verdict.
  - rewrite allowlist_verdict. cbv zeta. rewrite <- (allowed_in_set language).
    pose proof (allowed_not_dangerous language network (sc_name q)) as Hd.
    rewrite <- in_set_true, <- in_set_false in Hd.
    generalize dependent (in_set (sc_name q) (allowed_syscalls language network)).
    generalize (in_set (sc_name q) DANGEROUS_SYSCALLS). intros d a Hd.
    repeat case_bool_decide; destruct a, d; try reflexivity; by specialize (Hd eq_refl).
Qed.

(** Generalises the membership tests, which the tactics below would otherwise evaluate. *)
Ltac hide_sets :=
  repeat match goal with
  | |- context [in_set ?x ?s] => generalize dependent (in_set x s); intros
  end.

(** C17: for every language, the generated profile decides every system call exactly as the policy
    says: dangerous calls are denied with EPERM, [clone] is allowed unless it creates a namespace,
    [clone3] fails with ENOSYS, and on the allow-list languages nothing outside the allow-list is
    permitted. *)
Theorem profile_policy language network q :
  filter_verdict (build_profile language network) q = policy language network q.
Proof. apply verdict_policy. Qed.

(** C10: no profile of any language, with or without a network, permits a dangerous system call or a
    [clone] into a new namespace. *)
Theorem dangerous_denied language network q :
  sc_name q ∈ DANGEROUS_SYSCALLS ∨ (sc_name q = u "clone" ∧ creates_namespace q = true) →
  filter_verdict (build_profile language network) q = deny.
Proof.
  rewrite verdict_policy. unfold policy. cbv zeta. intros [Hd|[-> Hn]].
  - apply in_set_true in Hd. pose proof (clone_not_dangerous (sc_name q)) as Hc. hide_sets.
    do 2 (case_bool_decide; [by rewrite Hc in * by auto with sandbox|]). by rewrite Hd.
  - hide_sets. rewrite bool_decide_eq_false_2 by done. rewrite bool_decide_eq_true_2 by done. by rewrite Hn.
Qed.

(** the allow-list profile of a runtime without a network permits no network system call. *)
Theorem network_denied language q :
  in_set language BLOCKLIST_LANGUAGES = false → sc_name q ∈ NETWORK_SYSCALLS →
  filter_verdict (build_profile language false) q = deny.
Proof.
  intros Hl Hn. rewrite verdict_policy. unfold policy. cbv zeta. rewrite Hl.
  pose proof (clone_not_network (sc_name q)) as Hc. pose proof (network_not_common (sc_name q)) as Hx.
  rewrite <- in_set_true, <- in_set_false in Hx. apply in_set_true in Hn. hide_sets.
  do 2 (case_bool_decide; [by rewrite Hc in * by auto with sandbox|]).
  destruct b, b0, b1; try reflexivity; naive_solver.
Qed.
End Policy.

(** The per-call semantics of the theorems above is realisable: [FirstMatch] satisfies the laws. *)
Definition ptrace_call : sysreq := {| sc_name := u "ptrace"; sc_arg := λ _, 0 |}.
Definition socket_call : sysreq := {| sc_name := u "socket"; sc_arg := λ _, 0 |}.

Definition clone3_call : sysreq := {| sc_name := u "clone3"; sc_arg := λ _, 0 |}.

Lemma profile_policy_witness :
  filter_verdict (SeccompSemantics := FirstMatch.first_match_semantics) (build_profile (u "c") false) clone3_call
  = (ACT_ERRNO, Some 38).
Proof. exact (profile_policy (SL := FirstMatch.first_match_laws) (u "c") false clone3_call). Defined.

Lemma dangerous_denied_witness :
  ptrace_call.(sc_name) ∈ DANGEROUS_SYSCALLS ∧
  filter_verdict (SeccompSemantics := FirstMatch.first_match_semantics) (build_profile (u "go") true) ptrace_call = deny.
Proof.
  split; [exact ptrace_dangerous|].
  exact (dangerous_denied (SL := FirstMatch.first_match_laws) (u "go") true ptrace_call (or_introl ptrace_dangerous)).
Defined.

Lemma network_denied_witness :
  filter_verdict (SeccompSemantics := FirstMatch.first_match_semantics) (build_profile (u "python") false) socket_call = deny.
Proof.
  exact (network_denied (SL := FirstMatch.first_match_laws) (u "python") socket_call eq_refl socket_network).
Defined.

(** ** The profile file *)

(** Sorting of dictionary items by key, as [sort_keys] does. *)
Definition key_le (a b : pystr * json) : Prop := str_le a.1 b.1.
#[export] Instance key_le_dec : RelDecision key_le.
Proof. intros a b. unfold key_le. apply _. Defined.

Fixpoint sort_keys (j : json) : json :=
  match j with
  | JList l => JList (map sort_keys l)
  | JDict d => JDict (merge_sort key_le (map (λ kv, (kv.1, sort_keys kv.2)) d))
  | _ => j
  end.

Definition arg_to_json (a : arg_cond) : json :=
  JDict [(u "index", JInt (Z.of_nat (arg_index a))); (u "value", JInt (arg_value a));
         (u "valueTwo", JInt (arg_valueTwo a)); (u "op", JStr (arg_op a))].

(** The dictionary of a rule: [errnoRet] and [args] are present only where the source writes them. *)
Definition rule_to_json (r : rule) : json :=
  JDict ([(u "names", JList (map JStr (names r))); (u "action", JStr (action r))] ++
         match errnoRet r with Some e => [(u "errnoRet", JInt e)] | None => [] end ++
         match args r with [] => [] | l => [(u "args", JList (map arg_to_json l))] end).

Definition profile_to_json (p : profile) : json :=
  JDict ([(u "defaultAction", JStr (defaultAction p))] ++
         match defaultErrnoRet p with Some e => [(u "defaultErrnoRet", JInt e)] | None => [] end ++
         [(u "architectures", JList (map JStr (architectures p)));
          (u "syscalls", JList (map rule_to_json (syscalls p)))]).

Section ProfilePath.
Context {JR : JsonRuntime} {E : Type} {HE : Handler E}.

(** [os.environ] and [tempfile.gettempdir()]. *)
Context (environ : gmap pystr pystr) (tempdir : pystr).

Definition LRU_MAXSIZE : nat := 32.

Definition cache_lookup (language : pystr) (network : bool) (c : list (pystr * bool * pystr)) : option pystr :=
  snd <$> find (λ e, bool_decide (e.1 = (language, network))) c.

Definition cache_remove (language : pystr) (network : bool) (c : list (pystr * bool * pystr)) :
  list (pystr * bool * pystr) := filter (λ e, e.1 ≠ (language, network)) c.

Definition set_profile_cache (c : list (pystr * bool * pystr)) (m : Mem) : Mem :=
  {| group_ready := group_ready m; cid_cache := cid_cache m; profile_cache := c; metrics := metrics m; api := api m |}.

Definition cache_dir : pystr :=
  match environ !! u "SECCOMP_CACHE_DIR" with
  | Some (c :: d) => c :: d
  | _ => path_join tempdir (u "sandbox-seccomp")
  end.

Definition profile_file (language : pystr) (network : bool) : pystr :=
  path_join cache_dir (language ++ (if network then u "-net" else []) ++ u ".json").

Definition profile_text (language : pystr) (network : bool) : pystr :=
  json_dumps_pretty (sort_keys (profile_to_json (build_profile language network))).

(** The body of [profile_path], without the cache. *)
Definition write_profile (language : pystr) (network : bool) : M E pystr :=
  _ ← call (FMakedirs cache_dir);
  _ ← call (FWriteText (profile_file language network) (profile_text language network));
  mret (profile_file language network).

Definition profile_path (language : pystr) (network : bool) : M E pystr :=
  m ← get_mem;
  match cache_lookup language network (profile_cache m) with
  | Some path =>
      _ ← modify_mem (λ m, set_profile_cache
            ((language, network, path) :: cache_remove language network (profile_cache m)) m);
      mret path
  | None =>
      path ← write_profile language network;
      _ ← modify_mem (λ m, set_profile_cache
            (take LRU_MAXSIZE ((language, network, path) :: profile_cache m)) m);
      mret path
  end.

(** The CLI: the exit code, with what goes to stdout and to stderr. *)
Definition _main (argv : list pystr) : Z * pystr * pystr :=
  match argv with
  | _ :: language :: rest =>
      (0, profile_text language (bool_decide (u "--network" ∈ rest)) ++ [10], [])
  | _ => (2, [], u "usage: python -m worker.sandbox.seccomp <language> [--network]" ++ [10])
  end.

(** *** The file holds the profile *)

Lemma sort_keys_wf j : wf_json j = true → wf_json (sort_keys j) = true.
Proof.
  induction j as [| | | | |l Hl|d Hd] using json_ind; cbn [sort_keys wf_json]; try done.
  - rewrite !forallb_forall. intros Hw y (x & <- & Hx)%in_map_iff.
    rewrite Forall_forall in Hl. apply Hl; [by apply list_elem_of_In|auto].
  - intros [Hn%bool_decide_eq_true Hw]%andb_true_iff. set (d' := map _ d).
    pose proof (merge_sort_Permutation key_le d') as Hp. apply andb_true_iff. split.
    + apply bool_decide_eq_true. rewrite Hp. unfold d'. by rewrite map_map.
    + rewrite forallb_forall in *. intros kv Hkv. apply (Permutation_in _ Hp) in Hkv.
      apply in_map_iff in Hkv as (kv0 & <- & Hin). specialize (Hw kv0 Hin).
      rewrite andb_true_iff in *. destruct Hw as [? Hw]. split; [done|]. cbn.
      rewrite Forall_forall in Hd. apply (Hd kv0); [by apply list_elem_of_In|done].
Qed.

(** Profiles whose text is scalar and whose numbers are printable. *)
Definition small (z : Z) : bool := (length (digits (Z.abs z)) <=? INT_MAX_STR_DIGITS)%nat.
Definition wf_arg (a : arg_cond) : Prop :=
  small (Z.of_nat (arg_index a)) && small (arg_value a) && small (arg_valueTwo a) = true ∧ scalar_str (arg_op a).
Definition wf_rule (r : rule) : Prop :=
  Forall scalar_str (names r) ∧ scalar_str (action r) ∧ default true (small <$> errnoRet r) = true ∧
  Forall wf_arg (args r).
Definition wf_profile (p : profile) : Prop :=
  scalar_str (defaultAction p) ∧ default true (small <$> defaultErrnoRet p) = true ∧
  Forall scalar_str (architectures p) ∧ Forall wf_rule (syscalls p).

#[local] Instance wf_arg_dec a : Decision (wf_arg a).
Proof. unfold wf_arg. apply _. Defined.
#[local] Instance wf_rule_dec r : Decision (wf_rule r).
Proof. unfold wf_rule. apply _. Defined.

Lemma wf_list {A} (f : A → json) (l : list A) :
  Forall (λ x, wf_json (f x) = true) l → wf_json (JList (map f l)) = true.
Proof.
  rewrite Forall_forall. cbn. intros H. apply forallb_forall. intros y (x & <- & Hx)%in_map_iff.
  by apply H, list_elem_of_In.
Qed.

Lemma wf_strs l : Forall scalar_str l → wf_json (JList (map JStr l)) = true.
Proof. intros H. apply wf_list. eapply Forall_impl; [done|apply wf_str]. Qed.

#[local] Ltac wf_dict_tac :=
  apply wf_dict; [by_compute|]; repeat apply Forall_cons_2; try apply Forall_nil_2; cbn [fst snd];
  (split; [apply u_scalar|]).

Lemma arg_to_json_wf a : wf_arg a → wf_json (arg_to_json a) = true.
Proof.
  intros [[[Hi Hv]%andb_true_iff H2]%andb_true_iff Ho]. unfold arg_to_json.
  wf_dict_tac; try done. by apply wf_str.
Qed.

Lemma rule_to_json_wf r : wf_rule r → wf_json (rule_to_json r) = true.
Proof.
  intros (Hn & Ha & He & Hg). unfold rule_to_json.
  destruct (errnoRet r) as [e|], (args r) as [|a l] eqn:El; cbn [app];
    wf_dict_tac; first [exact He|by apply wf_strs|by apply wf_str|apply wf_list];
    (eapply Forall_impl; [done|apply arg_to_json_wf]).
Qed.

Lemma profile_to_json_wf p : wf_profile p → wf_json (profile_to_json p) = true.
Proof.
  intros (Ha & He & Hr & Hs). unfold profile_to_json.
  destruct (defaultErrnoRet p) as [e|]; cbn [app];
    wf_dict_tac; first [exact He|by apply wf_strs|by apply wf_str|apply wf_list];
    (eapply Forall_impl; [done|apply rule_to_json_wf]).
Qed.

Lemma sorted_scalar s : (∀ x, x ∈ s → scalar_str x) → Forall scalar_str (sorted s).
Proof. intros H. apply Forall_forall. intros x Hx%elem_of_sorted. auto. Qed.

Lemma allowed_scalar language network x : x ∈ allowed_syscalls language network → scalar_str x.
Proof. intros Hx%allowed_unfold. apply listed_scalar, union4_in. destruct Hx as [Hx|[_ Hx]]; [left|right; left]; exact Hx. Qed.

Lemma build_profile_wf language network : wf_profile (build_profile language network).
Proof.
  unfold build_profile. destruct (in_set language BLOCKLIST_LANGUAGES).
  - split_and!; [by_compute|reflexivity|by_compute|]. cbn [syscalls _build_blocklist_profile app].
    apply Forall_cons_2; [|by_compute].
    split_and!; [|by_compute|reflexivity|constructor]. apply sorted_scalar. intros x Hx.
    apply listed_scalar, union4_in. right. right. exact Hx.
  - split_and!; [by_compute|reflexivity|by_compute|]. cbn [syscalls _build_allowlist_profile app].
    apply Forall_cons_2; [|by_compute].
    split_and!; [|by_compute|reflexivity|constructor]. apply sorted_scalar, allowed_scalar.
Qed.

(** the text written to the profile file, read back as JSON, is the profile of the language
    with its keys sorted: the file Docker is given says what [build_profile] computed. *)
Theorem profile_text_loads language network :
  json_loads (profile_text language network) =
  Ok (sort_keys (profile_to_json (build_profile language network))).
Proof.
  apply loads_dumps_pretty, sort_keys_wf, profile_to_json_wf, build_profile_wf.
Qed.

(** *** The cache *)

(** Every entry holds the path of its profile, no key is repeated and the cache is bounded. *)
Definition cache_ok (m : Mem) : Prop :=
  (∀ l n p, (l, n, p) ∈ profile_cache m → p = profile_file l n) ∧
  NoDup (map fst (profile_cache m)) ∧ (length (profile_cache m) ≤ LRU_MAXSIZE)%nat.

Lemma cache_lookup_some l n c p : cache_lookup l n c = Some p → (l, n, p) ∈ c.
Proof.
  unfold cache_lookup. destruct (find _ c) as [[k p']|] eqn:Hf; [|done].
  apply find_some in Hf as [Hin Hk]. simpl in *. intros [= ->]. apply bool_decide_eq_true in Hk as ->.
  by apply list_elem_of_In.
Qed.

Lemma cache_lookup_none l n c : cache_lookup l n c = None → (l, n) ∉ map fst c.
Proof.
  unfold cache_lookup. destruct (find _ c) eqn:Hf; [done|]. intros _ Hin.
  apply list_elem_of_fmap in Hin as (e & He & Hin%list_elem_of_In).
  eapply find_none in Hf; [|done]. simpl in Hf. by rewrite <- He, bool_decide_eq_true_2 in Hf.
Qed.

Lemma cache_lookup_head l n p c : cache_lookup l n ((l, n, p) :: c) = Some p.
Proof. unfold cache_lookup. simpl. by rewrite bool_decide_eq_true_2. Qed.

Lemma cache_ok_hit m l n p :
  cache_ok m → cache_lookup l n (profile_cache m) = Some p →
  cache_ok (set_profile_cache ((l, n, p) :: cache_remove l n (profile_cache m)) m).
Proof.
  intros (Hp & Hnd & Hlen) Hl. apply cache_lookup_some in Hl as Hin. unfold cache_ok. simpl.
  assert (∀ e, e ∈ cache_remove l n (profile_cache m) → e ∈ profile_cache m) as Hsub.
  { intros e. unfold cache_remove. by rewrite list_elem_of_filter; intros [_ ?]. }
  split_and!.
  - intros l' n' p' [[= -> -> ->]|?]%elem_of_cons; auto.
  - apply NoDup_cons. split.
    + intros ([k p'] & Hk & Hf)%list_elem_of_fmap. simpl in Hk. subst k.
      unfold cache_remove in Hf. apply list_elem_of_filter in Hf as [Hne _]. by apply Hne.
    + unfold cache_remove. eapply sublist_NoDup; [exact Hnd|].
      apply (fmap_sublist fst). apply sublist_filter.
  - apply list_elem_of_split in Hin as (c1 & c2 & Hc). unfold cache_remove. rewrite Hc in Hlen |- *.
    rewrite filter_app, filter_cons_False by (simpl; tauto).
    rewrite length_app in *. simpl in Hlen.
    pose proof (length_filter (λ e : pystr * bool * pystr, e.1 ≠ (l, n)) c1).
    pose proof (length_filter (λ e : pystr * bool * pystr, e.1 ≠ (l, n)) c2). lia.
Qed.

Lemma cache_ok_miss m l n :
  cache_ok m → cache_lookup l n (profile_cache m) = None →
  cache_ok (set_profile_cache (take LRU_MAXSIZE ((l, n, profile_file l n) :: profile_cache m)) m).
Proof.
  intros (Hp & Hnd & Hlen) Hl%cache_lookup_none. unfold cache_ok.
  cbn [set_profile_cache profile_cache].
  split_and!.
  - intros l' n' p' H%elem_of_take. destruct H as (i & H & _). apply list_elem_of_lookup_2 in H.
    apply elem_of_cons in H as [[= -> -> ->]|?]; auto.
  - change (NoDup (fst <$> take LRU_MAXSIZE ((l, n, profile_file l n) :: profile_cache m))).
    rewrite fmap_take. eapply sublist_NoDup; [|apply sublist_take]. apply NoDup_cons. auto.
  - rewrite length_take. lia.
Qed.

(** C37: the profile cache is sound and bounded.  From a sound cache, [profile_path] keeps it sound;
    when it returns, the result is the path of this language's profile and the next call finds it in
    the cache; when the profile was cached no command is issued, and otherwise the only commands issued
    are the creation of the cache directory and then, to the path that is returned, the write of a
    text that reads back as the profile of this language and network flag; if one of the two fails,
    its exception is raised and the cache stays as it was. *)
Theorem profile_path_spec language network s :
  cache_ok (mem s) →
  wp (profile_path language network) (λ r s',
    cache_ok (mem s') ∧
    (∀ p, r = Ok p →
       p = profile_file language network ∧
       cache_lookup language network (profile_cache (mem s')) = Some p) ∧
    (is_Some (cache_lookup language network (profile_cache (mem s))) → is_ok r = true ∧ trace s' = trace s) ∧
    (cache_lookup language network (profile_cache (mem s)) = None → ∃ text,
       json_loads text = Ok (sort_keys (profile_to_json (build_profile language network))) ∧
       let mk := FMakedirs cache_dir in
       let wr := FWriteText (profile_file language network) text in
       match r with
       | Ok _ => trace s' = Ev wr (Ok tt) :: Ev mk (Ok tt) :: trace s
       | Raise e => trace s' = Ev mk (Raise e) :: trace s ∨
                    trace s' = Ev wr (Raise e) :: Ev mk (Ok tt) :: trace s
       end) ∧
    (∀ e, r = Raise e → mem s' = mem s)) s.
Proof.
  intros Hok. unfold profile_path. do 2 wp_step.
  destruct (cache_lookup _ _ _) as [p|] eqn:Hl.
  - do 3 wp_step. split_and!; [by apply cache_ok_hit| |done|done|done].
    intros p' [= <-]. split; [|apply cache_lookup_head]. eapply (proj1 Hok). by apply cache_lookup_some.
  - pose proof (profile_text_loads language network).
    unfold write_profile. wp_go; repeat match goal with a : ans _ |- _ => destruct a end;
      split_and!; try done; try (by intros [? ?]); try (intros _; eexists; split; [done|]; eauto).
    + by apply cache_ok_miss.
    + intros p' [= <-]. split; [done|]. apply cache_lookup_head.
Qed.
End ProfilePath.

Lemma profile_path_spec_witness :
  let s := snd (profile_path (JR := PlainJson.plain_json) (HE := Scripted.quiet) ∅ (u "/tmp")
                  (u "python") false Scripted.start) in
  cache_ok ∅ (u "/tmp") (mem s) ∧
  cache_lookup (u "python") false (profile_cache (mem s)) = Some (u "/tmp/sandbox-seccomp/python.json") ∧
  ∃ text, json_loads (JR := PlainJson.plain_json) text =
            Ok (sort_keys (profile_to_json (build_profile (u "python") false))) ∧
    map ev_cmd (trace s) = [FWriteText (u "/tmp/sandbox-seccomp/python.json") text; FMakedirs (u "/tmp/sandbox-seccomp")].
Proof.
  assert (cache_ok ∅ (u "/tmp") (mem Scripted.start)) as H0.
  { split_and!; [intros ??? H; by inversion H|constructor|simpl; lia]. }
  destruct (profile_path_spec (JR := PlainJson.plain_json) (HE := Scripted.quiet) ∅ (u "/tmp")
              (u "python") false Scripted.start H0) as (Hc & Hp & _ & Hw & _).
  split; [exact Hc|]. split; [exact (proj2 (Hp _ eq_refl))|].
  destruct (Hw eq_refl) as (text & Hl & Ht). exists text. split; [exact Hl|].
  exact (f_equal (map ev_cmd) Ht).
Defined.
