(* ===== verification/Config.v ===== *)
(** * Worker configuration ([worker/config.py])

    The environment is a finite map; [hostname-uuid], the temporary directory and the current
    directory are parameters. *)
From S2P Require Import Prelude PyStr Paths Errors.
From stdpp Require Import options.

Record WorkerConfig := {
  redis_url : pystr;
  minio_endpoint : pystr;
  minio_access_key : pystr;
  minio_secret_key : pystr;
  minio_bucket : pystr;
  minio_secure : bool;
  worker_concurrency : Z;
  worker_id : pystr;
  docker_path : pystr;
  local_workdir : pystr;
  host_workdir : pystr;
  block_ms : Z;
  read_count : Z;
  claim_min_idle_ms : Z;
  max_retries : Z;
  sigterm_grace_seconds : Z;
  metrics_port : Z;
  log_level : pystr;
  otlp_endpoint : pystr;
}.

Section Load.
Context {PR : PyRuntime} (environ : gmap pystr pystr).

Definition _int (name : pystr) (default : Z) : res Z :=
  match environ !! name with
  | None | Some [] => Ok default
  | Some raw => or_raise (py_int raw) ValueError
  end.

Definition _str (name default : pystr) : pystr :=
  match environ !! name with
  | None | Some [] => default
  | Some value => value
  end.

Definition _bool (name : pystr) (default : bool) : bool :=
  match environ !! name with
  | None | Some [] => default
  | Some raw => bool_decide (str_lower raw ∈ [u "1"; u "true"; u "yes"; u "on"])
  end.

(** The integer settings with their defaults. *)
Definition load_worker_config (tempdir default_id : pystr) : res WorkerConfig :=
  concurrency ← _int (u "WORKER_CONCURRENCY") 4;
  block ← _int (u "QUEUE_BLOCK_MS") 5000;
  count ← _int (u "QUEUE_READ_COUNT") 10;
  idle ← _int (u "QUEUE_CLAIM_MIN_IDLE_MS") 60000;
  retries ← _int (u "QUEUE_MAX_RETRIES") 3;
  grace ← _int (u "SIGTERM_GRACE_SECONDS") 2;
  port ← _int (u "METRICS_PORT") 9100;
  mret {| redis_url := _str (u "REDIS_URL") (u "redis://localhost:6379/0");
          minio_endpoint := _str (u "MINIO_ENDPOINT") (u "localhost:9000");
          minio_access_key := _str (u "MINIO_ACCESS_KEY") (u "minioadmin");
          minio_secret_key := _str (u "MINIO_SECRET_KEY") (u "minioadmin");
          minio_bucket := _str (u "MINIO_BUCKET") (u "sandbox-artifacts");
          minio_secure := _bool (u "MINIO_USE_SSL") false;
          worker_concurrency := concurrency;
          worker_id := _str (u "WORKER_ID") default_id;
          docker_path := _str (u "DOCKER_PATH") (u "docker");
          local_workdir := _str (u "SANDBOX_WORKDIR") (path_join tempdir (u "sandbox-work"));
          host_workdir := _str (u "SANDBOX_HOST_WORKDIR") [];
          block_ms := block;
          read_count := count;
          claim_min_idle_ms := idle;
          max_retries := retries;
          sigterm_grace_seconds := grace;
          metrics_port := port;
          log_level := _str (u "LOG_LEVEL") (u "INFO");
          otlp_endpoint := _str (u "OTEL_EXPORTER_OTLP_ENDPOINT") [] |}.

(** ** Properties *)

(** The variables that must hold integers. *)
Definition int_settings : list pystr :=
  map u ["WORKER_CONCURRENCY"; "QUEUE_BLOCK_MS"; "QUEUE_READ_COUNT"; "QUEUE_CLAIM_MIN_IDLE_MS";
         "QUEUE_MAX_RETRIES"; "SIGTERM_GRACE_SECONDS"; "METRICS_PORT"]%string.

(** A variable that is set to something [int] does not accept. *)
Definition malformed (name : pystr) : bool :=
  match environ !! name with
  | None | Some [] => false
  | Some raw => match py_int raw with Some _ => false | None => true end
  end.

Lemma int_outcome name default :
  if malformed name then _int name default = Raise ValueError else ∃ z, _int name default = Ok z.
Proof.
  unfold _int, malformed. destruct (environ !! name) as [[|c raw]|]; [eauto| |eauto].
  destruct (py_int (c :: raw)); simpl; eauto.
Qed.

Lemma str_nonempty name default : default ≠ [] → _str name default ≠ [].
Proof. unfold _str. destruct (environ !! name) as [[|]|]; done. Qed.

(** the configuration loads exactly when no integer setting is malformed, and otherwise loading
    raises [ValueError]; a loaded configuration has a work directory, a worker id and a docker path
    that are not empty (given that the built-in worker id is not). *)
Theorem load_worker_config_outcome tempdir default_id :
  default_id ≠ [] →
  if existsb malformed int_settings
  then load_worker_config tempdir default_id = Raise ValueError
  else ∃ c, load_worker_config tempdir default_id = Ok c ∧
            local_workdir c ≠ [] ∧ worker_id c ≠ [] ∧ docker_path c ≠ [].
Proof.
  intros Hd. unfold load_worker_config, int_settings. cbn [map existsb].
  repeat (
    lazymatch goal with |- context [malformed ?n || _] =>
    match goal with |- context [_int n ?d] =>
      pose proof (int_outcome n d) as Hi; destruct (malformed n); cbv iota in Hi;
      [rewrite Hi; exact eq_refl|destruct Hi as [? ->]; cbn [orb mbind res_bind]]
    end
    end).
  cbn. eexists. split; [reflexivity|]. split_and!; apply str_nonempty; [|done|done].
  by apply path_join_nonempty.
Qed.
End Load.

(** [WorkerConfig.host_path_for]; [relpath] rejects an empty path. *)
Definition host_path_for (cwd : pystr) (c : WorkerConfig) (local_path : pystr) : res pystr :=
  if host_workdir c =s [] then Ok local_path
  else if local_path =s [] then Raise ValueError
  else Ok (normpath (path_join (host_workdir c) (relpath cwd local_path (local_workdir c)))).

(** a job directory that is a child of the worker's work directory is translated to the child of
    the same name of the host's work directory: the mount shows this job's files and no others. *)
Theorem host_path_for_child cwd c name :
  startswith cwd [slash] = true → local_workdir c ≠ [] → component name = true →
  host_path_for cwd c (path_join (local_workdir c) name) =
  Ok (if host_workdir c =s [] then path_join (local_workdir c) name
      else normpath (path_join (host_workdir c) name)).
Proof.
  intros Hcwd Hl Hn. unfold host_path_for. destruct (host_workdir c =s []); [done|].
  rewrite bool_decide_eq_false_2; [by rewrite relpath_child|].
  pose proof Hn as (Hne & _)%component_spec. by apply path_join_nonempty.
Qed.

Definition example_config : res WorkerConfig :=
  load_worker_config (PR := AsciiRuntime.ascii_runtime)
    {[ u "SANDBOX_HOST_WORKDIR" := u "/host/work/"; u "QUEUE_MAX_RETRIES" := u "5" ]} (u "/tmp") (u "w1").

Lemma load_worker_config_outcome_witness :
  ∃ c, example_config = Ok c ∧ local_workdir c ≠ [] ∧ worker_id c ≠ [] ∧ docker_path c ≠ [].
Proof.
  exact (load_worker_config_outcome (PR := AsciiRuntime.ascii_runtime)
    {[ u "SANDBOX_HOST_WORKDIR" := u "/host/work/"; u "QUEUE_MAX_RETRIES" := u "5" ]} (u "/tmp") (u "w1")
    ltac:(done)).
Defined.

Lemma host_path_for_child_witness :
  ∃ c, example_config = Ok c ∧
       host_path_for (u "/") c (u "/tmp/sandbox-work/job-1") = Ok (u "/host/work/job-1").
Proof.
  eexists. split; [vm_compute; reflexivity|].
  refine (eq_trans (host_path_for_child (u "/") _ (u "job-1") _ _ _) _); by vm_compute.
Defined.
