(* ===== verification/ImageRegistry.v ===== *)
(** * Runtime registry ([worker/sandbox/image_registry.py])

    The table of languages: image, entrypoint, source file name, build mode, resource envelope. *)
From S2P Require Import Prelude PyStr Errors Json Effects ResourceLimits Seccomp.
From stdpp Require Import options.

Record RuntimeConfig := {
  rt_id : pystr;
  rt_name : pystr;
  rt_version : pystr;
  rt_image : pystr;
  rt_image_digest : pystr;
  rt_entrypoint : list pystr;
  rt_source_filename : pystr;
  rt_needs_exec_build : bool;
  rt_limits : ResourceConfig;
}.

(** [RuntimeConfig.argv_for] *)
Definition argv_for (rt : RuntimeConfig) (source_path : pystr) : list pystr :=
  rt_entrypoint rt ++ [source_path].

(** [RuntimeConfig.seccomp_profile_path] *)
Definition seccomp_profile_path `{JR : JsonRuntime} {E} `{HE : Handler E}
    (environ : gmap pystr pystr) (tempdir : pystr) (rt : RuntimeConfig) : M E pystr :=
  profile_path environ tempdir (rt_id rt) (network_enabled (rt_limits rt)).

(** An entry of [specs]. *)
Record spec := Spec {
  spec_id : pystr;
  spec_name : pystr;
  spec_version : pystr;
  spec_entrypoint : list pystr;
  spec_source_filename : pystr;
  spec_needs_exec_build : bool;
}.

Definition specs : list spec :=
  [Spec (u "python") (u "Python") (u "3.12") [u "python3"; u "-I"; u "-B"] (u "main.py") false;
   Spec (u "javascript") (u "JavaScript (Node.js)") (u "20") [u "node"] (u "main.js") false;
   Spec (u "typescript") (u "TypeScript") (u "5.7") [u "/usr/local/bin/run-code"] (u "main.ts") false;
   Spec (u "java") (u "Java") (u "21")
     [u "java"; u "-XX:+UseSerialGC"; u "-XX:TieredStopAtLevel=1"; u "-Xss8m"] (u "Main.java") false;
   Spec (u "go") (u "Go") (u "1.22") [u "/usr/local/bin/run-code"] (u "main.go") true;
   Spec (u "ruby") (u "Ruby") (u "3.3") [u "ruby"; u "--disable-gems"] (u "main.rb") false;
   Spec (u "rust") (u "Rust") (u "1.83") [u "/usr/local/bin/run-code"] (u "main.rs") true;
   Spec (u "bash") (u "Bash") (u "5.2") [u "bash"] (u "main.sh") false].

Section Registry.
Context {PR : PyRuntime} (environ : gmap pystr pystr).

(** [os.environ.get(name, default)] *)
Definition env_get (name default : pystr) : pystr := from_option id default (environ !! name).

(** Image reference and pinned digest. *)
Definition _image_for (language : pystr) : pystr * pystr :=
  let prefix := env_get (u "SANDBOX_IMAGE_PREFIX") [] in
  let tag := env_get (u "SANDBOX_IMAGE_TAG") (u "latest") in
  (prefix ++ u "sandbox-runtime-" ++ language ++ u ":" ++ tag,
   env_get (u "SANDBOX_DIGEST_" ++ str_upper language) []).

(** One round of the loop of [_build]. *)
Definition runtime_of (s : spec) : res (pystr * RuntimeConfig) :=
  limits ← get_resource_config (spec_id s);
  mret (spec_id s,
        {| rt_id := spec_id s; rt_name := spec_name s; rt_version := spec_version s;
           rt_image := (_image_for (spec_id s)).1; rt_image_digest := (_image_for (spec_id s)).2;
           rt_entrypoint := spec_entrypoint s; rt_source_filename := spec_source_filename s;
           rt_needs_exec_build := spec_needs_exec_build s; rt_limits := limits |}).

(** The registry, in insertion order. *)
Definition _build : res (list (pystr * RuntimeConfig)) := res_map runtime_of specs.

Definition get_runtime (registry : list (pystr * RuntimeConfig)) (language : pystr) : res RuntimeConfig :=
  or_raise (assoc language registry) (UnknownLanguageError language).

Definition list_runtimes (registry : list (pystr * RuntimeConfig)) : list RuntimeConfig :=
  omap (λ k, assoc k registry) (sorted (list_to_set (map fst registry))).

(** ** Properties *)

Lemma runtime_of_ok s : has_resource_config (spec_id s) = true → ∃ rt, runtime_of s = Ok (spec_id s, rt).
Proof.
  unfold has_resource_config, runtime_of, get_resource_config. intros H%bool_decide_eq_true.
  apply assoc_is_Some in H as [c ->]. by eexists.
Qed.

Lemma runtime_of_inv s k rt :
  runtime_of s = Ok (k, rt) →
  k = spec_id s ∧ rt_id rt = k ∧ (rt_image rt, rt_image_digest rt) = _image_for k ∧
  get_resource_config k = Ok (rt_limits rt) ∧ rt_entrypoint rt = spec_entrypoint s ∧
  rt_source_filename rt = spec_source_filename s.
Proof.
  unfold runtime_of. intros (limits & Hl & [= <- <-])%res_bind_ok.
  by split_and!.
Qed.

Lemma specs_ids : map spec_id specs ≡ₚ map fst _DEFAULTS.
Proof. reflexivity. Qed.

Lemma build_ok : ∃ reg, _build = Ok reg ∧ map fst reg = map spec_id specs ∧
  Forall2 (λ s e, runtime_of s = Ok e) specs reg.
Proof.
  unfold _build. eexists. split; [reflexivity|]. split; [reflexivity|].
  repeat constructor; reflexivity.
Qed.

(** Nothing in a source file name or an entrypoint can escape the mount or be read as a flag. *)
Definition plain_file (f : pystr) : bool :=
  all_of (λ c, ascii_isalnum c || (c =? 46)) f && negb (startswith f (u ".")) && negb (f =s []).

Lemma specs_plain : Forall (λ s, plain_file (spec_source_filename s) = true ∧ spec_entrypoint s ≠ []) specs.
Proof. by_compute. Qed.

Lemma get_runtime_spec language :
  ∃ reg, _build = Ok reg ∧
  match get_runtime reg language with
  | Ok rt =>
      rt_id rt = language ∧ (rt_image rt, rt_image_digest rt) = _image_for language ∧
      get_resource_config language = Ok (rt_limits rt) ∧ sound_config (rt_limits rt) ∧
      plain_file (rt_source_filename rt) = true ∧ rt_entrypoint rt ≠ []
  | Raise e => e = UnknownLanguageError language ∧ has_resource_config language = false
  end.
Proof.
  destruct build_ok as (reg & Hb & Hk & Hf). exists reg. split; [done|].
  unfold get_runtime. destruct (assoc language reg) as [rt|] eqn:Ha; simpl.
  - apply assoc_elem in Ha. destruct (list_elem_of_lookup_1 _ _ Ha) as [i Hi].
    destruct (Forall2_lookup_r _ _ _ _ _ Hf Hi) as (s & Hs & Hr).
    apply runtime_of_inv in Hr as (-> & -> & -> & Hc & -> & ->). split_and!; try done.
    + by eapply get_resource_config_sound.
    + eapply (proj1 (Forall_lookup _ _) specs_plain _ _ Hs).
    + eapply (proj1 (Forall_lookup _ _) specs_plain _ _ Hs).
  - split; [done|]. apply bool_decide_eq_false_2. rewrite <- specs_ids, <- Hk, <- assoc_is_Some, Ha.
    by intros [].
Qed.

(** the registry is built for every environment, and looking a language up either returns its
    runtime, with the image and digest the environment names, the language's own resource limits,
    which are within the hard ceilings and without a network, and a source file name that is one
    plain component, or raises [UnknownLanguageError] exactly for a language without limits. *)
Theorem get_runtime_total language :
  ∃ reg, _build = Ok reg ∧
  match get_runtime reg language with
  | Ok rt =>
      rt_id rt = language ∧ (rt_image rt, rt_image_digest rt) = _image_for language ∧
      get_resource_config language = Ok (rt_limits rt) ∧ sound_config (rt_limits rt) ∧
      plain_file (rt_source_filename rt) = true ∧ rt_entrypoint rt ≠ []
  | Raise e => e = UnknownLanguageError language ∧ has_resource_config language = false
  end.
Proof. apply get_runtime_spec. Qed.

Lemma assoc_keys {A} (l l' : list (pystr * A)) :
  NoDup (map fst l) → (∀ e, e ∈ l' → e ∈ l) → omap (λ k, assoc k l) (map fst l') = map snd l'.
Proof.
  intros Hnd. induction l' as [|[k v] l' IH]; intros Hs; simpl; [done|].
  rewrite (assoc_NoDup k l v) by (done || (apply Hs; by left)). f_equal. apply IH.
  intros e He. apply Hs. by right.
Qed.

Lemma omap_ids (reg : list (pystr * RuntimeConfig)) ks :
  (∀ k, k ∈ ks → ∃ rt, assoc k reg = Some rt ∧ rt_id rt = k) →
  map rt_id (omap (λ k, assoc k reg) ks) = ks.
Proof.
  induction ks as [|k ks IH]; intros H; simpl; [done|].
  destruct (H k ltac:(by left)) as (rt & -> & Hid). simpl. f_equal; [done|].
  apply IH. intros k' Hk'. apply H. by right.
Qed.

(** [list_runtimes] lists every registered runtime once, in increasing order of id. *)
Theorem list_runtimes_sorted :
  ∃ reg, _build = Ok reg ∧
  StronglySorted str_le (map rt_id (list_runtimes reg)) ∧
  list_runtimes reg ≡ₚ map snd reg.
Proof.
  destruct build_ok as (reg & Hb & Hk & Hf). exists reg. split; [done|].
  assert (NoDup (map fst reg)) as Hnd by (rewrite Hk; by_compute).
  unfold list_runtimes. split.
  - rewrite omap_ids; [apply sorted_StronglySorted|]. intros k Hin.
    apply elem_of_sorted, elem_of_list_to_set, assoc_is_Some in Hin as [rt Hrt].
    exists rt. split; [done|]. apply assoc_elem in Hrt. destruct (list_elem_of_lookup_1 _ _ Hrt) as [i Hi].
    destruct (Forall2_lookup_r _ _ _ _ _ Hf Hi) as (s & _ & (? & ? & _)%runtime_of_inv). congruence.
  - rewrite <- (assoc_keys reg reg) by done. apply omap_Permutation.
    unfold sorted. rewrite merge_sort_Permutation. by apply elements_list_to_set.
Qed.
End Registry.
