(* ===== verification/Capture.v ===== *)
(** * Output capture ([_OutputCapture] and [_pump] of [worker/sandbox/executor.py])

    The two pipes of the container are read concurrently into one buffer with a combined byte cap.
    A run of the two pumps is a schedule: the chunks in the order in which the reads complete, an
    empty chunk being the end of the stream.  Decoding and appending a chunk happen without an
    [await] in between, so a chunk is one step. *)
From S2P Require Import Prelude PyStr Utf8 Errors Effects.
From stdpp Require Import options.

Record OutputCapture := {
  max_bytes : Z;
  _stdout : list pystr;
  _stderr : list pystr;
  _used : Z;
  cap_truncated : bool;
}.

Definition new_capture (limit : Z) : OutputCapture :=
  {| max_bytes := limit; _stdout := []; _stderr := []; _used := 0; cap_truncated := false |}.

Definition kind_eqb (k k' : stream_kind) : bool :=
  match k, k' with Stdout, Stdout | Stderr, Stderr => true | _, _ => false end.

(** [c] with the text appended to the list of its stream. *)
Definition push (k : stream_kind) (text : pystr) (used : Z) (trunc : bool) (c : OutputCapture) :
  OutputCapture :=
  {| max_bytes := max_bytes c;
     _stdout := match k with Stdout => _stdout c ++ [text] | Stderr => _stdout c end;
     _stderr := match k with Stdout => _stderr c | Stderr => _stderr c ++ [text] end;
     _used := used;
     cap_truncated := trunc |}.

(** [_OutputCapture.append]: what was kept, and the new state. *)
Definition append (k : stream_kind) (text : pystr) (c : OutputCapture) : res (pystr * OutputCapture) :=
  if max_bytes c <=? _used c then
    Ok ([], {| max_bytes := max_bytes c; _stdout := _stdout c; _stderr := _stderr c;
               _used := _used c; cap_truncated := true |})
  else
    encoded ← or_raise (utf8_encode text) UnicodeEncodeError;
    let room := max_bytes c - _used c in
    if room <? Z.of_nat (length encoded) then
      let text := decode_ignore (take (Z.to_nat room) encoded) in
      Ok (text, push k text (max_bytes c) true c)
    else
      Ok (text, push k text (_used c + Z.of_nat (length encoded)) (cap_truncated c) c).

Definition cap_stdout (c : OutputCapture) : pystr := concat (_stdout c).
Definition cap_stderr (c : OutputCapture) : pystr := concat (_stderr c).
Definition cap_text (k : stream_kind) (c : OutputCapture) : pystr :=
  match k with Stdout => cap_stdout c | Stderr => cap_stderr c end.

(** One turn of the loop of [_pump], up to the call of [on_output]: the decoder's held-back bytes
    and the chunk read give a text; the text is appended; the result is what was kept. *)
Definition pump_step (k : stream_kind) (buffer chunk : bytes) (c : OutputCapture) :
  res (pystr * bytes * OutputCapture) :=
  let '(text, buffer') := inc_decode buffer chunk (bool_decide (chunk = [])) in
  match text with
  | [] => Ok ([], buffer', c)
  | _ => '(kept, c') ← append k text c; Ok (kept, buffer', c')
  end.

(** The two pumps: the decoder of a stream that is still open, [None] after its end; the capture. *)
Record Pumps := { dec_out : option bytes; dec_err : option bytes; capture : OutputCapture }.

Definition dec (k : stream_kind) (p : Pumps) : option bytes :=
  match k with Stdout => dec_out p | Stderr => dec_err p end.

Definition new_pumps (limit : Z) : Pumps :=
  {| dec_out := Some []; dec_err := Some []; capture := new_capture limit |}.

(** A read of stream [k] completes with [chunk]; an ended pump reads no more. *)
Definition pumps_step (k : stream_kind) (chunk : bytes) (p : Pumps) : res (pystr * Pumps) :=
  match dec k p with
  | None => Ok ([], p)
  | Some buffer =>
      '(kept, buffer', c) ← pump_step k buffer chunk (capture p);
      let d := if bool_decide (chunk = []) then None else Some buffer' in
      Ok (kept, {| dec_out := match k with Stdout => d | Stderr => dec_out p end;
                   dec_err := match k with Stdout => dec_err p | Stderr => d end;
                   capture := c |})
  end.

(** Both pumps on a schedule: what was kept of each chunk, in order, and the final state. *)
Fixpoint pump_all (sched : list (stream_kind * bytes)) (p : Pumps) :
  res (list (stream_kind * pystr) * Pumps) :=
  match sched with
  | [] => Ok ([], p)
  | (k, chunk) :: sched' =>
      '(kept, p') ← pumps_step k chunk p;
      '(out, p'') ← pump_all sched' p';
      Ok ((k, kept) :: out, p'')
  end.

(** ** The capture *)

Definition enc_len (s : pystr) : Z := Z.of_nat (length (encode s)).

Lemma enc_len_app s t : enc_len (s ++ t) = enc_len s + enc_len t.
Proof. unfold enc_len. rewrite encode_app, length_app. lia. Qed.

Lemma enc_len_nonneg s : 0 ≤ enc_len s.
Proof. unfold enc_len. lia. Qed.

Lemma enc_len_pos s : s ≠ [] → 0 < enc_len s.
Proof.
  destruct s as [|c s]; [done|]. intros _. unfold enc_len. rewrite encode_cons, length_app.
  pose proof (encode_char_nonempty c). destruct (encode_char c); [done|]. simpl. lia.
Qed.

Lemma cap_text_push k k' text used tr c :
  cap_text k (push k' text used tr c) = cap_text k c ++ (if kind_eqb k k' then text else []).
Proof.
  destruct k, k'; unfold cap_text, cap_stdout, cap_stderr; cbn [push _stdout _stderr];
    rewrite ?concat_snoc; cbn; by rewrite ?app_nil_r.
Qed.

(** The texts of one stream among a list of emissions. *)
Definition of_kind {A} (k : stream_kind) (l : list (stream_kind * list A)) : list A :=
  concat (map snd (filter (λ e, e.1 = k) l)).

Lemma of_kind_cons {A} k k' (t : list A) l :
  of_kind k ((k', t) :: l) = (if kind_eqb k k' then t else []) ++ of_kind k l.
Proof. unfold of_kind. rewrite filter_cons. simpl. destruct k, k'; done. Qed.

Lemma of_kind_app {A} k (l l' : list (stream_kind * list A)) : of_kind k (l ++ l') = of_kind k l ++ of_kind k l'.
Proof. unfold of_kind. by rewrite filter_app, map_app, concat_app. Qed.

Lemma of_kind_single {A} k k' (t : list A) :
  of_kind k [(k', t)] = if kind_eqb k k' then t else [].
Proof. rewrite of_kind_cons. apply app_nil_r. Qed.

(** Encoded size of both streams together. *)
Definition total (f : stream_kind → pystr) : Z := enc_len (f Stdout) + enc_len (f Stderr).

(** A cut loses less than one character. *)
Lemma fit_tight room s :
  (room < length (encode s))%nat → (room < length (encode (fit room s)) + 4)%nat.
Proof.
  revert room. induction s as [|c s IH]; intros room; [simpl; lia|].
  rewrite encode_cons, length_app. simpl. intros H.
  assert (length (encode_char c) ≤ 4)%nat by (unfold encode_char; repeat py_case; simpl; lia).
  destruct (length (encode_char c) <=? room)%nat eqn:E.
  - apply Nat.leb_le in E. rewrite encode_cons, length_app.
    specialize (IH (room - length (encode_char c))%nat). lia.
  - apply Nat.leb_gt in E. simpl. lia.
Qed.

(** [cap_inv limit ts c]: [c] is a correct capture of the texts [ts].  Before truncation it holds
    them all; afterwards it holds a prefix of each stream, within the limit and less than one
    character below it, and the texts did not fit. *)
Definition cap_inv (limit : Z) (ts : list (stream_kind * pystr)) (c : OutputCapture) : Prop :=
  max_bytes c = limit ∧
  if cap_truncated c then
    _used c = limit ∧ limit < total (λ k, of_kind k ts) ∧
    (∀ k, cap_text k c `prefix_of` of_kind k ts) ∧
    limit - 4 < total (λ k, cap_text k c) ≤ limit
  else
    _used c = total (λ k, of_kind k ts) ∧ _used c ≤ limit ∧ ∀ k, cap_text k c = of_kind k ts.

Lemma cap_inv_init limit : 0 ≤ limit → cap_inv limit [] (new_capture limit).
Proof. intros H. split; [done|]. simpl. by split_and!; [|done|intros []]. Qed.

Lemma total_snoc k text ts :
  total (λ k', of_kind k' (ts ++ [(k, text)])) = total (λ k', of_kind k' ts) + enc_len text.
Proof.
  unfold total. rewrite !of_kind_app, !of_kind_single, !enc_len_app. destruct k; cbn -[enc_len]; change (enc_len []) with 0; lia.
Qed.

Lemma total_push k text used tr c :
  total (λ k', cap_text k' (push k text used tr c)) = total (λ k', cap_text k' c) + enc_len text.
Proof. unfold total. rewrite !cap_text_push, !enc_len_app. destruct k; cbn -[enc_len]; change (enc_len []) with 0; lia. Qed.

(** Appending keeps the invariant and grows the stream by what it returns. *)
Lemma append_inv limit ts c k text :
  cap_inv limit ts c → scalar_str text → text ≠ [] →
  ∃ kept c', append k text c = Ok (kept, c') ∧ cap_inv limit (ts ++ [(k, text)]) c' ∧
             ∀ k', cap_text k' c' = cap_text k' c ++ (if kind_eqb k' k then kept else []).
Proof.
  intros [Hm Hinv] Hs Hne. pose proof (enc_len_pos text Hne) as Hpos. unfold append.
  destruct (Z.leb_spec (max_bytes c) (_used c)) as [Hfull|Hroom].
  - eexists _, _. split; [reflexivity|]. split; [|intros k'; destruct (kind_eqb _ _); by rewrite app_nil_r].
    split; [done|]. cbn [cap_truncated _used]. rewrite total_snoc.
    change (cap_text ?k {| max_bytes := _ |}) with (cap_text k c).
    destruct (cap_truncated c).
    + destruct Hinv as (Hu & Ht & Hp & Hb). split_and!; [done|lia| |exact (proj1 Hb)|exact (proj2 Hb)].
      intros k'. rewrite of_kind_app. by apply prefix_app_r.
    + destruct Hinv as (Hu & Hl & He). split_and!; [lia|lia| | |].
      * intros k'. change (cap_text k' c `prefix_of` of_kind k' (ts ++ [(k, text)])).
        rewrite of_kind_app, He. by apply prefix_app_r.
      * change (limit - 4 < total (λ k, cap_text k c)). unfold total. rewrite !He. unfold total in *. lia.
      * change (total (λ k, cap_text k c) ≤ limit). unfold total. rewrite !He. unfold total in *. lia.
  - destruct (cap_truncated c) eqn:Etr; [lia|]. destruct Hinv as (Hu & Hl & He).
    rewrite utf8_encode_scalar by done. cbn [or_raise mbind res_bind].
    fold (enc_len text). destruct (Z.ltb_spec (max_bytes c - _used c) (enc_len text)) as [Hcut|Hfit].
    + rewrite decode_ignore_cut by done. set (room := Z.to_nat (max_bytes c - _used c)).
      pose proof (fit_tight room text ltac:(unfold enc_len in Hcut; lia)) as Htight.
      pose proof (fit_length room text) as Hlen.
      eexists _, _. split; [reflexivity|]. split; [|intros k'; apply cap_text_push].
      split; [done|]. cbn [push cap_truncated _used max_bytes]. rewrite total_snoc.
      split_and!; [done|lia| | |].
      * intros k'. rewrite cap_text_push, of_kind_app, of_kind_single, He.
        apply prefix_app. destruct (kind_eqb _ _); [apply fit_prefix|done].
      * rewrite total_push. unfold total in *. rewrite !He. unfold enc_len at 3. lia.
      * rewrite total_push. unfold total in *. rewrite !He. unfold enc_len at 3. lia.
    + eexists _, _. split; [reflexivity|]. split; [|intros k'; apply cap_text_push].
      split; [done|]. cbn [push cap_truncated _used max_bytes]. rewrite total_snoc.
      split_and!; [lia|lia|]. intros k'. by rewrite cap_text_push, of_kind_app, of_kind_single, He.
Qed.

(** ** The pumps *)

(** [pumps_inv limit recv p]: after receiving the bytes [recv k] on each stream, the capture is a
    correct capture of what was decoded, an ended stream is decoded completely and an open one up
    to the bytes its decoder holds back. *)
Definition pumps_inv (limit : Z) (recv : stream_kind → bytes) (p : Pumps) : Prop :=
  ∃ ts, cap_inv limit ts (capture p) ∧
  ∀ k, match dec k p with
       | None => of_kind k ts = decode_replace (recv k)
       | Some b => is_bytes b ∧
           ∀ rest, decode_replace (recv k ++ rest) = of_kind k ts ++ decode_replace (b ++ rest)
       end.

Lemma pumps_inv_init limit : 0 ≤ limit → pumps_inv limit (λ _, []) (new_pumps limit).
Proof.
  intros H. exists []. split; [by apply cap_inv_init|].
  intros []; (split; [constructor|done]).
Qed.

Lemma replacement_scalar : scalar_str REPLACEMENT.
Proof. repeat constructor; unfold is_scalar; lia. Qed.

(** What a step decodes, and that it is appended to the invariant's texts. *)
Lemma pump_step_inv limit ts c k buffer chunk :
  cap_inv limit ts c → is_bytes buffer → is_bytes chunk →
  ∃ kept b' c' text, pump_step k buffer chunk c = Ok (kept, b', c') ∧
    inc_decode buffer chunk (bool_decide (chunk = [])) = (text, b') ∧ is_bytes b' ∧
    cap_inv limit (ts ++ match text with [] => [] | _ => [(k, text)] end) c' ∧
    ∀ k', cap_text k' c' = cap_text k' c ++ (if kind_eqb k' k then kept else []).
Proof.
  intros Hc Hb Hch. unfold pump_step.
  assert (is_bytes (buffer ++ chunk)) as Hbc by by apply Forall_app.
  pose proof (decode_buf_scalar REPLACEMENT (bool_decide (chunk = [])) _ replacement_scalar Hbc) as Hs.
  pose proof (decode_buf_rest REPLACEMENT (bool_decide (chunk = [])) (buffer ++ chunk)) as Hr.
  fold (inc_decode buffer chunk (bool_decide (chunk = []))) in Hs, Hr.
  destruct (inc_decode buffer chunk _) as [text b']. simpl in Hs, Hr.
  assert (is_bytes b') as Hb' by (destruct Hr as [x Hx]; rewrite Hx in Hbc; by apply Forall_app in Hbc as [_ ?]).
  destruct text as [|x text].
  - eexists _, _, _, _. split_and!; [done..| |]; [by rewrite app_nil_r|].
    intros k'. by destruct (kind_eqb k' k); rewrite app_nil_r.
  - destruct (append_inv limit ts c k (x :: text)) as (kept & c' & -> & Hinv & Hk); [done..|].
    by eexists _, _, _, _.
Qed.

Definition upd (recv : stream_kind → bytes) (k : stream_kind) (chunk : bytes) : stream_kind → bytes :=
  λ k', recv k' ++ (if kind_eqb k' k then chunk else []).

Lemma kind_eqb_spec k k' : reflect (k = k') (kind_eqb k k').
Proof. destruct k, k'; by constructor. Qed.

Lemma of_kind_text k' k (ts : list (stream_kind * pystr)) text :
  of_kind k' (ts ++ match text with [] => [] | _ => [(k, text)] end) =
  of_kind k' ts ++ (if kind_eqb k' k then text else []).
Proof.
  rewrite of_kind_app. f_equal. destruct text; [by destruct (kind_eqb k' k)|]. apply of_kind_single.
Qed.

Lemma pumps_step_inv limit recv p k chunk :
  pumps_inv limit recv p → is_bytes chunk →
  ∃ kept p', pumps_step k chunk p = Ok (kept, p') ∧
    pumps_inv limit (match dec k p with Some _ => upd recv k chunk | None => recv end) p' ∧
    (∀ k', dec k' p' = None ↔ dec k' p = None ∨ k' = k ∧ chunk = []) ∧
    ∀ k', cap_text k' (capture p') = cap_text k' (capture p) ++ (if kind_eqb k' k then kept else []).
Proof.
  intros (ts & Hc & Hd) Hch. unfold pumps_step. destruct (dec k p) as [buffer|] eqn:Ed.
  2: { eexists _, _. split; [done|]. split; [by exists ts|]. split.
       - intros k'. split; [by left|]. by intros [?|[-> _]].
       - intros k'. by destruct (kind_eqb k' k); rewrite app_nil_r. }
  pose proof (Hd k) as Hk. rewrite Ed in Hk. destruct Hk as [Hb Hdec].
  destruct (pump_step_inv limit ts (capture p) k buffer chunk) as (kept & b' & c' & text & Hs & Hi & Hb' & Hc' & Hcap); [done..|].
  rewrite Hs. cbn [mbind res_bind]. eexists _, _. split; [reflexivity|]. cbn [capture]. split_and!; [| |done].
  - exists (ts ++ match text with [] => [] | _ => [(k, text)] end). split; [done|]. intros k'.
    rewrite of_kind_text. unfold upd. destruct (kind_eqb_spec k' k) as [->|Hne].
    + destruct (bool_decide_reflect (chunk = [])) as [->|Hn].
      * replace (dec k _) with (@None bytes) by by destruct k. rewrite app_nil_r.
        specialize (Hdec []). rewrite !app_nil_r in Hdec. rewrite Hdec. f_equal.
        unfold inc_decode in Hi. rewrite app_nil_r in Hi. unfold decode_replace.
        by rewrite Hi.
      * replace (dec k _) with (Some b') by by destruct k. split; [done|]. intros rest.
        rewrite <- !app_assoc, Hdec. f_equal. unfold decode_replace.
        rewrite app_assoc. by apply decode_buf_app.
    + replace (dec k' _) with (dec k' p) by by destruct k, k'. rewrite !app_nil_r.
      specialize (Hd k'). destruct (dec k' p); [|done]. destruct Hd as [? Hd]. split; [done|].
      intros rest. rewrite ?app_nil_r. apply Hd.
  - intros k'. destruct (decide (k' = k)) as [->|Hne].
    + replace (dec k _) with (if bool_decide (chunk = []) then None else Some b') by by destruct k.
      case_bool_decide; split; try done; [by right|]. intros [?|[_ ?]]; congruence.
    + replace (dec k' _) with (dec k' p) by by destruct k, k'. split; [by left|]. by intros [?|[? _]].
Qed.

(** The bytes a schedule delivers on a stream before its end, and whether it reaches the end. *)
Fixpoint received (k : stream_kind) (sched : list (stream_kind * bytes)) : bytes :=
  match sched with
  | [] => []
  | (k', chunk) :: sched' =>
      if kind_eqb k k' then
        (if bool_decide (chunk = []) then [] else chunk ++ received k sched')
      else received k sched'
  end.

Definition ends (k : stream_kind) (sched : list (stream_kind * bytes)) : bool :=
  bool_decide ((k, []) ∈ sched).

Lemma pumps_step_dec k chunk p kept p' :
  pumps_step k chunk p = Ok (kept, p') →
  (∀ k', dec k' p = None → dec k' p' = None) ∧ (chunk = [] → dec k p' = None).
Proof.
  unfold pumps_step. destruct (dec k p) as [b|] eqn:Ed.
  - intros ([[kept' b'] c] & _ & [= -> <-])%res_bind_ok. split.
    + intros k' Hk'. destruct k, k'; simpl in *; congruence.
    + intros ->. by destruct k.
  - by intros [= <- <-].
Qed.

Lemma pump_all_dec sched p out p' k :
  pump_all sched p = Ok (out, p') → dec k p = None ∨ (k, []) ∈ sched → dec k p' = None.
Proof.
  revert p out. induction sched as [|[k0 chunk] sched IH]; intros p out H Hk; simpl in H.
  { simplify_eq. destruct Hk as [?|Hk]; [done|inversion Hk]. }
  apply res_bind_ok in H as ([kept p1] & Hs & ([out' p2] & Ha & [= <- <-])%res_bind_ok).
  apply pumps_step_dec in Hs as [Hd Hn]. eapply IH; [exact Ha|].
  destruct Hk as [?|[[= <- <-]|?]%elem_of_cons]; auto.
Qed.

(** A stream that was open has ended only by an empty read. *)
Lemma pump_all_ended sched p out p' k :
  pump_all sched p = Ok (out, p') → dec k p' = None → dec k p = None ∨ (k, []) ∈ sched.
Proof.
  revert p out. induction sched as [|[k0 chunk] sched IH]; intros p out H Hk; simpl in H.
  { simplify_eq. by left. }
  apply res_bind_ok in H as ([kept p1] & Hs & ([out' p2] & Ha & [= <- <-])%res_bind_ok).
  destruct (IH _ _ Ha Hk) as [Hd|Hin]; [|right; by constructor].
  unfold pumps_step in Hs. destruct (dec k0 p) as [b|] eqn:Ed; [|simplify_eq; by left].
  apply res_bind_ok in Hs as ([[kept' b'] c] & _ & [= -> <-]).
  destruct chunk as [|x chunk], k, k0; simpl in *; try (by left); try done; right; by left.
Qed.

Lemma pumps_inv_ext limit recv recv' p :
  (∀ k, recv k = recv' k) → pumps_inv limit recv p → pumps_inv limit recv' p.
Proof.
  intros He (ts & Hc & Hd). exists ts. split; [done|]. intros k. specialize (Hd k). by rewrite <- He.
Qed.

Lemma pump_all_inv limit sched recv p :
  pumps_inv limit recv p → Forall (λ e, is_bytes e.2) sched →
  ∃ out p', pump_all sched p = Ok (out, p') ∧
    pumps_inv limit (λ k, recv k ++ match dec k p with Some _ => received k sched | None => [] end) p' ∧
    (∀ k, dec k p' = None ↔ dec k p = None ∨ (k, []) ∈ sched) ∧
    ∀ k, cap_text k (capture p') = cap_text k (capture p) ++ of_kind k out.
Proof.
  revert recv p. induction sched as [|[k chunk] sched IH]; intros recv p Hp Hs.
  { exists [], p. split; [done|]. split; [|split].
    - eapply pumps_inv_ext; [|done]. intros k. destruct (dec k p); by rewrite app_nil_r.
    - intros k. split; [by left|]. intros [?|H]; [done|inversion H].
    - intros k. by rewrite app_nil_r. }
  apply Forall_cons in Hs as [Hch Hs].
  destruct (pumps_step_inv limit recv p k chunk) as (kept & p' & Hst & Hp' & Hd & Hcap); [done..|].
  destruct (IH _ p' Hp' Hs) as (out & p'' & Hall & Hp'' & Hd' & Hcap').
  exists ((k, kept) :: out), p''. simpl. rewrite Hst. simpl. rewrite Hall. simpl.
  split; [done|]. split; [|split].
  - eapply pumps_inv_ext; [|done]. intros k'. specialize (Hd k'). simpl.
    destruct (kind_eqb_spec k' k) as [->|Hne].
    + destruct (dec k p) as [b|] eqn:Ed.
      * unfold upd. replace (kind_eqb k k) with true by by destruct k. rewrite <- app_assoc. f_equal.
        case_bool_decide as Hc; [|destruct (dec k p'); [done|naive_solver]].
        subst chunk. by rewrite (proj2 Hd ltac:(auto)).
      * by rewrite (proj2 Hd (or_introl eq_refl)).
    + assert ((match dec k p with Some _ => upd recv k chunk | None => recv end) k' = recv k') as ->.
      { destruct (dec k p); [|done]. unfold upd. destruct (kind_eqb_spec k' k); [done|apply app_nil_r]. }
      f_equal. destruct (dec k' p) as [b|], (dec k' p'); naive_solver.
  - intros k'. rewrite Hd', Hd, elem_of_cons. naive_solver.
  - intros k'. by rewrite Hcap', Hcap, of_kind_cons, app_assoc.
Qed.

Lemma received_bytes k sched : Forall (λ e, is_bytes e.2) sched → is_bytes (received k sched).
Proof.
  induction 1 as [|[k' chunk] sched Hc _ IH]; simpl; [by constructor|].
  destruct (kind_eqb k k'); [|done]. case_bool_decide; [by constructor|]. by apply Forall_app.
Qed.

(** ** What the capture holds at the end *)

(** The text of the whole of a stream. *)
Definition full_text (sched : list (stream_kind * bytes)) (k : stream_kind) : pystr :=
  decode_replace (received k sched).

Lemma capture_final limit sched :
  0 ≤ limit → Forall (λ e, is_bytes e.2) sched → (∀ k, ends k sched = true) →
  ∃ out p ts, pump_all sched (new_pumps limit) = Ok (out, p) ∧ cap_inv limit ts (capture p) ∧
    (∀ k, of_kind k ts = full_text sched k) ∧ ∀ k, cap_text k (capture p) = of_kind k out.
Proof.
  intros Hl Hb He.
  destruct (pump_all_inv limit sched _ _ (pumps_inv_init limit Hl) Hb) as (out & p & Hr & (ts & Hc & Hts) & Hd & Hcap).
  exists out, p, ts. split; [done|]. split; [done|]. split.
  - intros k. specialize (Hts k). specialize (Hd k).
    rewrite (proj2 Hd) in Hts by (right; exact (bool_decide_eq_true_1 _ (He k))). rewrite Hts.
    unfold full_text. by destruct k.
  - intros k. rewrite Hcap. by destruct k.
Qed.

(** C9: the combined output cap.  However the container's output is cut into reads and however the
    reads of the two pipes interleave, the pumps never fail and the captured text of both streams
    together encodes to at most the configured number of bytes; the truncation flag is set exactly
    when the complete output does not fit, and then less than one character of room is left. *)
Theorem capture_cap limit sched :
  0 ≤ limit → Forall (λ e, is_bytes e.2) sched → (∀ k, ends k sched = true) →
  ∃ out p, pump_all sched (new_pumps limit) = Ok (out, p) ∧
    total (λ k, cap_text k (capture p)) ≤ limit ∧
    (cap_truncated (capture p) = true ↔ limit < total (full_text sched)) ∧
    (cap_truncated (capture p) = true → limit - 4 < total (λ k, cap_text k (capture p))).
Proof.
  intros Hl Hb He. destruct (capture_final limit sched Hl Hb He) as (out & p & ts & Hr & Hc & Hts & _).
  exists out, p. split; [done|]. destruct Hc as [_ Hc].
  assert (total (λ k, of_kind k ts) = total (full_text sched)) as Ht by (unfold total; by rewrite !Hts).
  destruct (cap_truncated (capture p)).
  - destruct Hc as (_ & Hlt & _ & Hb1 & Hb2). rewrite Ht in Hlt. done.
  - destruct Hc as (Hu & Hle & Heq). rewrite Ht in Hu.
    assert (total (λ k, cap_text k (capture p)) = total (full_text sched)) as ->.
    { rewrite <- Ht. unfold total. by rewrite !Heq. }
    split; [lia|]. split; [|done]. split; [done|lia].
Qed.

(** C20: the capture is faithful.  However the reads are cut and interleaved, each captured stream is
    a prefix of the UTF-8 decoding of all its bytes, the whole of it when the truncation flag is not
    set, and it is exactly what was forwarded to the output callback. *)
Theorem capture_faithful limit sched :
  0 ≤ limit → Forall (λ e, is_bytes e.2) sched → (∀ k, ends k sched = true) →
  ∃ out p, pump_all sched (new_pumps limit) = Ok (out, p) ∧ ∀ k,
    cap_text k (capture p) `prefix_of` full_text sched k ∧
    (cap_truncated (capture p) = false → cap_text k (capture p) = full_text sched k) ∧
    of_kind k out = cap_text k (capture p).
Proof.
  intros Hl Hb He. destruct (capture_final limit sched Hl Hb He) as (out & p & ts & Hr & Hc & Hts & Hcap).
  exists out, p. split; [done|]. intros k. destruct Hc as [_ Hc]. rewrite <- Hts. split; [|split; [|done]].
  - destruct (cap_truncated (capture p)); [apply Hc|]. destruct Hc as (_ & _ & Heq). by rewrite Heq.
  - intros Htr. rewrite Htr in Hc. by destruct Hc as (_ & _ & Heq).
Qed.

(** A euro sign split over two reads, interleaved with standard error. *)
Definition split_schedule : list (stream_kind * bytes) :=
  [(Stdout, [104; 0xE2]); (Stderr, [33]); (Stdout, [0x82; 0xAC]); (Stderr, []); (Stdout, [])].

Lemma split_schedule_ok : Forall (λ e, is_bytes e.2) split_schedule ∧ ∀ k, ends k split_schedule = true.
Proof. split; [repeat constructor; simpl; lia|by intros []]. Qed.

Lemma capture_cap_witness :
  ∃ out p, pump_all split_schedule (new_pumps 3) = Ok (out, p) ∧
    total (λ k, cap_text k (capture p)) ≤ 3 ∧
    (cap_truncated (capture p) = true ↔ 3 < total (full_text split_schedule)) ∧
    (cap_truncated (capture p) = true → 3 - 4 < total (λ k, cap_text k (capture p))).
Proof.
  apply (capture_cap 3 split_schedule); [lia|apply split_schedule_ok|apply split_schedule_ok].
Defined.

Lemma capture_faithful_witness :
  ∃ out p, pump_all split_schedule (new_pumps 100) = Ok (out, p) ∧ ∀ k,
    cap_text k (capture p) `prefix_of` full_text split_schedule k ∧
    (cap_truncated (capture p) = false → cap_text k (capture p) = full_text split_schedule k) ∧
    of_kind k out = cap_text k (capture p).
Proof.
  apply (capture_faithful 100 split_schedule); [lia|apply split_schedule_ok|apply split_schedule_ok].
Defined.

Example split_schedule_text : full_text split_schedule Stdout = [104; 0x20AC].
Proof. reflexivity. Qed.
