(* ===== verification/Executor.v ===== *)
(** * Launching a job ([worker/sandbox/executor.py]: image check, work directory, command line)

    [_verify_image], [_safe_basename], [_write_file], [_prepare_workdir] and [_build_command].  The
    run of the container and [execute] are in [Run.v].  What Docker makes of a command line, its
    options and the environment of the container, is not this program's code: it is the interface
    [DockerCli] with the rules of Docker's documentation as [DockerCliLaws]. *)
From S2P Require Import Prelude PyStr Paths Utf8 Errors Json Effects Types ResourceLimits Seccomp Config ImageRegistry.
From stdpp Require Import options.

(** What the executor reads of its surroundings: the configuration, the process environment, the
    temporary and current directories, the registry built at import, and [repr] of a string. *)
Record Host := {
  config : WorkerConfig;
  h_environ : gmap pystr pystr;
  h_tempdir : pystr;
  h_cwd : pystr;
  h_registry : list (pystr * RuntimeConfig);
  h_repr : pystr → pystr;
}.

Definition _FORBIDDEN_ENV : gset pystr := list_to_set (map u
  ["PATH"; "LD_PRELOAD"; "LD_LIBRARY_PATH"; "LD_AUDIT"; "HOME"; "TMPDIR"; "NODE_OPTIONS";
   "PYTHONPATH"; "PYTHONSTARTUP"; "BASH_ENV"; "ENV"; "IFS"; "RUBYOPT"; "GEM_PATH"; "CLASSPATH";
   "JAVA_TOOL_OPTIONS"; "SANDBOX"]%string).

(** ** File names *)

Definition backslash : Z := 92.

Definition safe_char `{PR : PyRuntime} (c : Z) : bool :=
  isalnum c || (c =? 46) || (c =? 95) || (c =? 45).

Definition _safe_basename `{PR : PyRuntime} (name : pystr) : option pystr :=
  if bool_decide (0 ∈ name) then None
  else
    let base := basename (replace_char backslash slash name) in
    if bool_decide (base ∈ [[]; dot; dotdot]) then None
    else if negb (all_of safe_char base) then None
    else if (255 <? Z.of_nat (length base)) then None
    else Some base.

(** ** Environment variables of the request *)

Definition env_rejected `{PR : PyRuntime} (key : pystr) : bool :=
  in_set (str_upper key) _FORBIDDEN_ENV || bool_decide (61 ∈ key) || (key =s []).

Definition env_flags `{PR : PyRuntime} (vars : list (pystr * pystr)) : list pystr :=
  concat (map (λ kv, if env_rejected kv.1 then [] else [u "-e"; kv.1 ++ u "=" ++ kv.2]) vars).

Section Executor.
Context {PR : PyRuntime} {JR : JsonRuntime} {E : Type} {HE : Handler E} (h : Host).

Definition docker : pystr := docker_path (config h).

(** ** Image verification *)

Definition inspect_image (rt : RuntimeConfig) : list pystr :=
  [docker; u "image"; u "inspect"; rt_image rt; u "--format"; u "{{json .RepoDigests}}"].

Definition _verify_image (rt : RuntimeConfig) : M E unit :=
  r ← call (DSimple (inspect_image rt));
  let '(rc, out, err) := r in
  if negb (rc =? 0) then
    let text := str_lower (decode_replace err) in
    if str_contains (u "cannot connect to the docker daemon") text
       || str_contains (u "is the docker daemon running") text
    then raise (DockerUnavailableError (strip (decode_replace err)))
    else raise (ImageNotFoundError (rt_image rt))
  else if rt_image_digest rt =s [] then mret tt
  else
    let digests := decode_replace out in
    if str_contains (rt_image_digest rt) digests then mret tt
    else raise (ImageIntegrityError (rt_image rt) (rt_image_digest rt) (strip digests)).

(** ** Work directory *)

Definition _write_file (workdir name content : pystr) : M E unit :=
  real ← call (FRealpath (path_join workdir name));
  root ← call (FRealpath workdir);
  if negb (startswith real (root ++ [slash])) then
    raise (SandboxError (u "path escapes sandbox dir: " ++ h_repr h name) (u "path_escape"))
  else
    _ ← call (FWriteText real content);
    call (FChmod real (* 0o644 *) 420).

Definition write_input (workdir : pystr) (f : InputFile) : M E unit :=
  match _safe_basename (file_name f) with
  | None => raise (SandboxError (u "unsafe input filename: " ++ h_repr h (file_name f)) (u "unsafe_filename"))
  | Some safe => _write_file workdir safe (file_content f)
  end.

Definition _prepare_workdir (rt : RuntimeConfig) (request : ExecutionRequest) (job_id : pystr) : M E pystr :=
  _ ← call (FMakedirs (local_workdir (config h)));
  workdir ← call (FMkdtemp (job_id ++ u "-") (local_workdir (config h)));
  _ ← call (FChmod workdir (* 0o755 *) 493);
  _ ← _write_file workdir (rt_source_filename rt) (req_code request);
  _ ← for_each (req_files request) (write_input workdir);
  mret workdir.

(** ** The [docker run] command line *)

Definition work_in (rt : RuntimeConfig) : pystr := if rt_needs_exec_build rt then u "/build" else u "/tmp".

(** The fixed part, up to the resource flags. *)
Definition hardening (container seccomp : pystr) : list pystr :=
  [docker; u "run"; u "--rm"; u "-i"; u "--name"; container; u "--read-only"; u "--cap-drop"; u "ALL";
   u "--security-opt"; u "no-new-privileges"; u "--security-opt"; u "seccomp=" ++ seccomp;
   u "--user"; u "nobody"; u "--hostname"; u "sandbox"; u "--label"; u "sandbox-managed=1";
   u "--stop-timeout"; u "2"; u "--init"].

Definition build_tmpfs (rt : RuntimeConfig) : list pystr :=
  if rt_needs_exec_build rt then
    [u "--tmpfs"; u "/build:rw,exec,nosuid,nodev,size=" ++ str_of_int (disk_mb (rt_limits rt)) ++ u "m,mode=1777"]
  else [].

Definition fixed_env (rt : RuntimeConfig) : list pystr :=
  [u "--workdir"; work_in rt; u "-e"; u "SANDBOX=1"; u "-e"; u "HOME=" ++ work_in rt; u "-e"; u "TMPDIR=/tmp"].

Definition command_line (rt : RuntimeConfig) (request : ExecutionRequest)
    (host_src container seccomp : pystr) : list pystr :=
  hardening container seccomp ++ to_docker_flags (rt_limits rt) ++ build_tmpfs rt ++ fixed_env rt ++
  env_flags (req_env_vars request) ++ [u "-v"; host_src ++ u ":/sandbox:ro"; rt_image rt] ++
  argv_for rt (u "/sandbox/" ++ rt_source_filename rt).

Definition _build_command (rt : RuntimeConfig) (request : ExecutionRequest) (workdir container : pystr) :
  M E (list pystr) :=
  host_src ← lift (host_path_for (h_cwd h) (config h) workdir);
  seccomp ← seccomp_profile_path (h_environ h) (h_tempdir h) rt;
  mret (command_line rt request host_src container seccomp).

End Executor.

(** ** Safe names *)

Section SafeNames.
Context {PR : PyRuntime} {PL : PyRuntimeLaws}.
Set Default Proof Using "Type*".

Lemma safe_char_ascii c : 0 ≤ c < 128 → safe_char c = true → ascii_isalnum c = true ∨ c ∈ [46; 95; 45].
Proof.
  intros Hc. unfold safe_char. rewrite isalnum_ascii by done. rewrite !orb_true_iff, !Z.eqb_eq.
  intros [[[?|?]|?]|?]; [by left|right; set_solver..].
Qed.

Lemma safe_chars_exclude b c :
  all_of safe_char b = true → c ∈ [0; slash; backslash] → c ∉ b.
Proof.
  intros Hall Hc Hin. rewrite all_of_true in Hall. specialize (Hall c Hin).
  repeat (apply elem_of_cons in Hc as [->|Hc]); [..|by inversion Hc];
    (apply safe_char_ascii in Hall; [|by vm_compute]);
    (destruct Hall as [H|H]; [by vm_compute in H|]);
    repeat (apply elem_of_cons in H as [H|H]; [discriminate H|]); by inversion H.
Qed.

Lemma replace_char_id a b s : a ∉ s → replace_char a b s = s.
Proof.
  unfold replace_char. induction s as [|c s IH]; intros H; simpl; [done|].
  apply not_elem_of_cons in H as [Hc H]. destruct (Z.eqb_spec c a); [congruence|]. by rewrite IH.
Qed.

Lemma safe_basename_some name b :
  _safe_basename name = Some b →
  (b ∉ [[]; dot; dotdot]) ∧ all_of safe_char b = true ∧ Z.of_nat (length b) ≤ 255 ∧
  b = basename (replace_char backslash slash name).
Proof.
  unfold _safe_basename. cbv zeta. case_bool_decide; [done|]. case_bool_decide; [done|].
  destruct (all_of _ _) eqn:Ea; simpl; [|done]. destruct (Z.ltb_spec 255 (Z.of_nat (length (basename (replace_char backslash slash name))))); [done|].
  intros [= <-]. auto.
Qed.

(** an accepted input file name is a single path component of at most 255 characters without
    NUL, slash or backslash, and accepting it again changes nothing. *)
Theorem safe_basename_safe name b :
  _safe_basename name = Some b →
  component b = true ∧ (0 ∉ b) ∧ (backslash ∉ b) ∧ Z.of_nat (length b) ≤ 255 ∧ _safe_basename b = Some b.
Proof.
  intros (Hn & Ha & Hl & _)%safe_basename_some.
  assert (∀ c, c ∈ [0; slash; backslash] → c ∉ b) as Hx by (intros; by apply safe_chars_exclude).
  rewrite component_spec. split_and!; [set_solver..|done|].
  unfold _safe_basename. cbv zeta. rewrite bool_decide_eq_false_2 by set_solver.
  rewrite replace_char_id, basename_id by set_solver.
  rewrite bool_decide_eq_false_2 by done. rewrite Ha. simpl.
  destruct (Z.ltb_spec 255 (Z.of_nat (length b))); [lia|done].
Qed.
End SafeNames.

Lemma safe_basename_safe_witness :
  _safe_basename (PR := AsciiRuntime.ascii_runtime) (u "..\..\data.csv") = Some (u "data.csv") ∧
  component (u "data.csv") = true.
Proof.
  assert (_safe_basename (PR := AsciiRuntime.ascii_runtime) (u "..\..\data.csv") = Some (u "data.csv")) as H
    by (vm_compute; reflexivity).
  split; [exact H|].
  exact (proj1 (safe_basename_safe (PL := AsciiRuntime.ascii_runtime_laws) _ _ H)).
Defined.

(** ** How Docker reads the command line

    Docker's command-line client is not part of the program: [docker_run] stands for what it makes of the
    arguments after [docker run] (the options, in order, with their values; then the image and the
    arguments of the container), [docker_env] for the variables it gives the container on top of those
    of the image.  The laws are its documented behaviour on the options the worker uses. *)
Abbreviation option_list := (list (pystr * option pystr)).

Class DockerCli := {
  docker_run : list pystr → option (option_list * list pystr);
  docker_env : gmap pystr pystr → option_list → gmap pystr pystr;
}.

(** The options the worker uses: those that take the next argument as their value, those without a
    value, and those written with their value as one argument, [--name=value]. *)
Definition value_options : list pystr :=
  map u ["--name"; "--cap-drop"; "--security-opt"; "--user"; "--hostname"; "--label"; "--stop-timeout"; "--ulimit";
         "--tmpfs"; "--workdir"; "-e"; "-v"]%string.
Definition bare_options : list pystr := map u ["--rm"; "-i"; "--read-only"; "--init"]%string.
Definition joined_options : list pystr :=
  map u ["--memory"; "--memory-swap"; "--cpus"; "--pids-limit"; "--tmpfs"; "--network"]%string.

(** The name of an option: its text up to an equals sign. *)
Fixpoint option_name (f : pystr) : pystr :=
  match f with [] => [] | c :: f' => if c =? 61 then [] else c :: option_name f' end.

Definition assigns (f : pystr) : bool :=
  startswith f (u "--") && bool_decide (61 ∈ f) && bool_decide (option_name f ∈ joined_options).

Definition env_option (o : pystr * option pystr) : bool :=
  bool_decide (option_name o.1 ∈ map u ["-e"; "--env"; "--env-file"]%string).

Class DockerCliLaws `{!DockerCli} : Prop := {
  run_value f v rest : f ∈ value_options →
    docker_run (f :: v :: rest) = '(os, args) ← docker_run rest; Some ((f, Some v) :: os, args);
  run_bare f rest : f ∈ bare_options ∨ assigns f = true →
    docker_run (f :: rest) = '(os, args) ← docker_run rest; Some ((f, None) :: os, args);
  (* the first argument that is no option is the image *)
  run_image image rest : startswith image (u "-") = false → docker_run (image :: rest) = Some ([], image :: rest);
  env_image image : docker_env image [] = image;
  (* a variable replaces one of the image or of an earlier option *)
  env_set image os k v : k ≠ [] → 61 ∉ k →
    docker_env image (os ++ [(u "-e", Some (k ++ u "=" ++ v))]) = <[k := v]> (docker_env image os);
  env_other image os o : env_option o = false → docker_env image (os ++ [o]) = docker_env image os;
}.

(** A client of this kind. *)
Module PlainDocker.

Fixpoint parse (argv : list pystr) : option (option_list * list pystr) :=
  match argv with
  | [] => None
  | f :: rest =>
      if startswith f (u "-") then
        if bool_decide (f ∈ value_options) then
          match rest with
          | v :: rest' => '(os, args) ← parse rest'; Some ((f, Some v) :: os, args)
          | [] => None
          end
        else '(os, args) ← parse rest; Some ((f, None) :: os, args)
      else Some ([], argv)
  end.

(** [KEY=VALUE], split at the first equals sign. *)
Fixpoint split_eq (s : pystr) : option (pystr * pystr) :=
  match s with
  | [] => None
  | c :: s' => if c =? 61 then Some ([], s') else '(k, v) ← split_eq s'; Some (c :: k, v)
  end.

Definition env_step (m : gmap pystr pystr) (o : pystr * option pystr) : gmap pystr pystr :=
  match o with
  | (f, Some s) =>
      if f =s u "-e" then match split_eq s with Some (k, v) => <[k := v]> m | None => m end else m
  | _ => m
  end.

#[export] Instance plain_docker : DockerCli := {
  docker_run := parse;
  docker_env image os := fold_left env_step os image;
}.

Lemma split_eq_app k v : 61 ∉ k → split_eq (k ++ 61 :: v) = Some (k, v).
Proof.
  induction k as [|c k IH]; intros H; simpl; [done|]. apply not_elem_of_cons in H as [Hc H].
  destruct (Z.eqb_spec c 61); [congruence|]. by rewrite IH.
Qed.

Lemma no_value f : f ∈ bare_options ∨ assigns f = true → startswith f (u "-") = true ∧ f ∉ value_options.
Proof.
  assert (Forall (λ f, startswith f (u "-") = true ∧ f ∉ value_options) bare_options) as Hb by by_compute.
  assert (Forall (λ f, 61 ∉ f) value_options) as Hv by by_compute.
  rewrite Forall_forall in Hb, Hv. intros [Hf|[[Hs He]%andb_true_iff _]%andb_true_iff]; [by apply Hb|].
  apply bool_decide_eq_true in He. split; [|by intros Hin%Hv].
  apply bool_decide_eq_true in Hs as [k ->]. by apply bool_decide_eq_true; eexists.
Qed.

#[export] Instance plain_docker_laws : DockerCliLaws.
Proof.
  assert (Forall (λ f, startswith f (u "-") = true) value_options) as Hv by by_compute.
  rewrite Forall_forall in Hv. split.
  - intros f v rest Hf. simpl. by rewrite (Hv f Hf), bool_decide_eq_true_2.
  - intros f rest [Hs Hn]%no_value. simpl. by rewrite Hs, bool_decide_eq_false_2.
  - intros image rest Hi. simpl. by rewrite Hi.
  - done.
  - intros image os k v _ Hk. simpl. rewrite fold_left_app. cbn [fold_left env_step].
    rewrite bool_decide_eq_true_2 by done. change (u "=" ++ v) with (61 :: v). by rewrite split_eq_app.
  - intros image os [f [v|]] Ho; simpl; rewrite fold_left_app; cbn [fold_left env_step]; [|done].
    rewrite bool_decide_eq_false_2; [done|]. intros ->. by vm_compute in Ho.
Qed.
End PlainDocker.

Section Reading.
Context {DC : DockerCli} {DL : DockerCliLaws}.

(** The arguments [a] are read as the options [o], whatever follows. *)
Definition opts_ok (a : list pystr) (o : option_list) : Prop :=
  ∀ b, docker_run (a ++ b) = '(o', p) ← docker_run b; Some (o ++ o', p).

Lemma opts_ok_nil : opts_ok [] [].
Proof. intros b. simpl. by destruct (docker_run b) as [[]|]. Qed.

Lemma opts_ok_flag f a o :
  bool_decide (f ∈ bare_options) || assigns f = true → opts_ok a o → opts_ok (f :: a) ((f, None) :: o).
Proof using DL.
  intros Hf%orb_true_iff Ha b. cbn [app].
  rewrite run_bare by (destruct Hf as [Hf%bool_decide_eq_true|]; auto). rewrite Ha. by destruct (docker_run b) as [[]|].
Qed.

Lemma opts_ok_value f v a o :
  bool_decide (f ∈ value_options) = true → opts_ok a o → opts_ok (f :: v :: a) ((f, Some v) :: o).
Proof using DL.
  intros Hf%bool_decide_eq_true Ha b. cbn [app]. rewrite run_value, Ha by done. by destruct (docker_run b) as [[]|].
Qed.

Lemma opts_ok_app a a' o o' : opts_ok a o → opts_ok a' o' → opts_ok (a ++ a') (o ++ o').
Proof.
  intros Ha Ha' b. rewrite <- app_assoc, Ha, Ha'. destruct (docker_run b) as [[]|]; simpl; [|done].
  by rewrite app_assoc.
Qed.

(** Options that are not about variables leave them alone. *)
Lemma env_same image os os' :
  Forall (λ o, env_option o = false) os' → docker_env image (os ++ os') = docker_env image os.
Proof using DL.
  induction os' as [|o os' IH] using rev_ind; [by rewrite app_nil_r|].
  intros [H [Ho _]%Forall_cons]%Forall_app. rewrite app_assoc, (env_other image (os ++ os') o Ho). auto.
Qed.
End Reading.

Ltac opts_tac :=
  repeat first
    [ apply opts_ok_nil
    | apply opts_ok_value; [reflexivity|]
    | apply opts_ok_flag; [reflexivity|] ].

Section CommandLine.
Context {PR : PyRuntime} {DC : DockerCli} {DL : DockerCliLaws} (h : Host).

Definition hardening_opts (container seccomp : pystr) : option_list :=
  [(u "--rm", None); (u "-i", None); (u "--name", Some container); (u "--read-only", None);
   (u "--cap-drop", Some (u "ALL")); (u "--security-opt", Some (u "no-new-privileges"));
   (u "--security-opt", Some (u "seccomp=" ++ seccomp)); (u "--user", Some (u "nobody"));
   (u "--hostname", Some (u "sandbox")); (u "--label", Some (u "sandbox-managed=1"));
   (u "--stop-timeout", Some (u "2")); (u "--init", None)].

Definition limit_opts (c : ResourceConfig) : option_list :=
  [(u "--memory=" ++ str_of_int (memory_mb c) ++ u "m", None);
   (u "--memory-swap=" ++ str_of_int (memory_mb c) ++ u "m", None);
   (u "--cpus=" ++ str_of_centi (cpu_centi c), None);
   (u "--pids-limit=" ++ str_of_int (pids_limit c), None);
   (u "--tmpfs=/tmp:rw,noexec,nosuid,nodev,size=" ++ str_of_int (disk_mb c) ++ u "m", None);
   (u "--ulimit", Some (u "nofile=256:256"));
   (u "--ulimit", Some (u "nproc=" ++ str_of_int (pids_limit c) ++ u ":" ++ str_of_int (pids_limit c)));
   (u "--ulimit", Some (u "fsize=" ++ str_of_int (disk_mb c * 1024 * 1024)))]
  ++ (if network_enabled c then [] else [(u "--network=none", None)]).

Definition tmpfs_opts (rt : RuntimeConfig) : option_list :=
  if rt_needs_exec_build rt then
    [(u "--tmpfs", Some (u "/build:rw,exec,nosuid,nodev,size=" ++ str_of_int (disk_mb (rt_limits rt)) ++ u "m,mode=1777"))]
  else [].

Definition fixed_env_opts (rt : RuntimeConfig) : option_list :=
  [(u "--workdir", Some (work_in rt)); (u "-e", Some (u "SANDBOX=1"));
   (u "-e", Some (u "HOME=" ++ work_in rt)); (u "-e", Some (u "TMPDIR=/tmp"))].

(** The variables of the request that are passed on. *)
Definition user_vars (vars : list (pystr * pystr)) : list (pystr * pystr) :=
  filter (λ kv, env_rejected kv.1 = false) vars.

Definition env_opt (kv : pystr * pystr) : pystr * option pystr := (u "-e", Some (kv.1 ++ u "=" ++ kv.2)).

(** The options that do not depend on the request: those before its variables, and the mount. *)
Definition leading_options (rt : RuntimeConfig) (container seccomp : pystr) : option_list :=
  hardening_opts container seccomp ++ limit_opts (rt_limits rt) ++ tmpfs_opts rt ++ fixed_env_opts rt.

Definition mount_option (host_src : pystr) : pystr * option pystr := (u "-v", Some (host_src ++ u ":/sandbox:ro")).

Definition run_options (rt : RuntimeConfig) (request : ExecutionRequest) (host_src container seccomp : pystr) :
  option_list :=
  leading_options rt container seccomp ++ map env_opt (user_vars (req_env_vars request)) ++ [mount_option host_src].

Lemma env_flags_opts vars : opts_ok (env_flags vars) (map env_opt (user_vars vars)).
Proof using DL.
  unfold env_flags, user_vars. induction vars as [|kv vars IH]; simpl; [apply opts_ok_nil|].
  rewrite filter_cons. destruct (env_rejected kv.1); simpl; [done|].
  apply opts_ok_value; [reflexivity|done].
Qed.

Lemma limits_opts c : opts_ok (to_docker_flags c) (limit_opts c).
Proof using DL.
  unfold to_docker_flags, limit_opts. destruct (network_enabled c); rewrite ?app_nil_r; cbn [app]; opts_tac.
Qed.

Lemma command_line_read rt request host_src container seccomp :
  startswith (rt_image rt) (u "-") = false →
  ∃ rest, command_line h rt request host_src container seccomp = docker h :: u "run" :: rest ∧
    docker_run rest = Some (run_options rt request host_src container seccomp,
                            rt_image rt :: argv_for rt (u "/sandbox/" ++ rt_source_filename rt)).
Proof using DL.
  intros Hi. eexists. split; [reflexivity|].
  assert (opts_ok (skipn 2 (hardening h container seccomp)) (hardening_opts container seccomp)) as H1
    by (cbn [skipn hardening]; opts_tac).
  assert (opts_ok (build_tmpfs rt) (tmpfs_opts rt)) as H2
    by (unfold build_tmpfs, tmpfs_opts; destruct (rt_needs_exec_build rt); opts_tac).
  assert (opts_ok (fixed_env rt) (fixed_env_opts rt)) as H3 by (unfold fixed_env; opts_tac).
  assert (opts_ok [u "-v"; host_src ++ u ":/sandbox:ro"] [mount_option host_src]) as H4 by (unfold mount_option; opts_tac).
  pose proof (opts_ok_app _ _ _ _ H1 (opts_ok_app _ _ _ _ (limits_opts (rt_limits rt))
    (opts_ok_app _ _ _ _ H2 (opts_ok_app _ _ _ _ H3 (opts_ok_app _ _ _ _ (env_flags_opts (req_env_vars request)) H4))))) as H.
  specialize (H (rt_image rt :: argv_for rt (u "/sandbox/" ++ rt_source_filename rt))).
  rewrite <- !app_assoc in H. cbn [skipn hardening app] in H. cbn [app]. rewrite H, run_image by done.
  cbn [mbind option_bind]. unfold run_options, leading_options. by rewrite <- !app_assoc, app_nil_r.
Qed.

(** The options that isolate the container and limit its resources. *)
Definition isolation (rt : RuntimeConfig) (seccomp : pystr) : option_list :=
  [(u "--read-only", None); (u "--cap-drop", Some (u "ALL"));
   (u "--security-opt", Some (u "no-new-privileges"));
   (u "--security-opt", Some (u "seccomp=" ++ seccomp)); (u "--user", Some (u "nobody"));
   (u "--rm", None); (u "--init", None);
   (u "--memory=" ++ str_of_int (memory_mb (rt_limits rt)) ++ u "m", None);
   (u "--pids-limit=" ++ str_of_int (pids_limit (rt_limits rt)), None)].

Lemma isolation_leading rt container seccomp : isolation rt seccomp ⊆ leading_options rt container seccomp.
Proof.
  unfold isolation, leading_options, hardening_opts, limit_opts. intros o Ho. rewrite !elem_of_app.
  repeat (apply elem_of_cons in Ho as [->|Ho]; [first [left; by repeat constructor|right; left; left; by repeat constructor]|]).
  by inversion Ho.
Qed.

Lemma network_leading rt container seccomp :
  network_enabled (rt_limits rt) = false → (u "--network=none", None) ∈ leading_options rt container seccomp.
Proof.
  intros Hn. unfold leading_options, limit_opts. rewrite Hn, !elem_of_app. right. left. right. by left.
Qed.


(** ** The container's environment *)

Lemma env_rejected_false k :
  env_rejected k = false → in_set (str_upper k) _FORBIDDEN_ENV = false ∧ (61 ∉ k) ∧ k ≠ [].
Proof.
  unfold env_rejected. rewrite !orb_false_iff, !bool_decide_eq_false. tauto.
Qed.

(** The variables of the request, set in order. *)
Definition set_vars (vars : list (pystr * pystr)) (m : gmap pystr pystr) : gmap pystr pystr :=
  fold_left (λ m kv, <[kv.1 := kv.2]> m) vars m.

Lemma set_vars_app vars vars' m : set_vars (vars ++ vars') m = set_vars vars' (set_vars vars m).
Proof. apply fold_left_app. Qed.

Lemma env_user image os vars :
  Forall (λ kv, env_rejected kv.1 = false) vars →
  docker_env image (os ++ map env_opt vars) = set_vars vars (docker_env image os).
Proof using DL.
  induction vars as [|kv vars IH] using rev_ind; [by rewrite app_nil_r|].
  intros [H [Hkv _]%Forall_cons]%Forall_app. apply env_rejected_false in Hkv as (_ & Hk & Hne).
  rewrite map_app, app_assoc, set_vars_app, <- IH by done. change (map env_opt [kv]) with [env_opt kv]. unfold env_opt at 2.
  by rewrite env_set.
Qed.

Lemma set_vars_out vars m k : k ∉ map fst vars → set_vars vars m !! k = m !! k.
Proof.
  revert m. induction vars as [|kv vars IH]; intros m H; [done|]. cbn [map] in H.
  apply not_elem_of_cons in H as [Hk H]. cbn [set_vars fold_left]. unfold set_vars in IH. rewrite IH by done.
  by rewrite lookup_insert_ne.
Qed.

Context {PL : PyRuntimeLaws}.

(** The reserved names are upper-case ASCII: the check of [key.upper()] cannot miss them. *)
Lemma forbidden_upper k : in_set k _FORBIDDEN_ENV = true → str_upper k = k.
Proof using PL.
  intros H%in_set_true. unfold _FORBIDDEN_ENV in H. rewrite elem_of_list_to_set in H.
  assert (Forall (λ k, is_ascii k ∧ map ascii_upper k = k) (map u
    ["PATH"; "LD_PRELOAD"; "LD_LIBRARY_PATH"; "LD_AUDIT"; "HOME"; "TMPDIR"; "NODE_OPTIONS";
     "PYTHONPATH"; "PYTHONSTARTUP"; "BASH_ENV"; "ENV"; "IFS"; "RUBYOPT"; "GEM_PATH"; "CLASSPATH";
     "JAVA_TOOL_OPTIONS"; "SANDBOX"]%string)) as Hall.
  { unfold is_ascii. by_compute. }
  rewrite Forall_forall in Hall. destruct (Hall k H) as [Ha Hu]. by rewrite str_upper_ascii.
Qed.

(** The values the worker itself sets. *)
Definition fixed_value (rt : RuntimeConfig) (k : pystr) : option pystr :=
  if k =s u "SANDBOX" then Some (u "1")
  else if k =s u "HOME" then Some (work_in rt)
  else if k =s u "TMPDIR" then Some (u "/tmp")
  else None.


Definition fixed_map (rt : RuntimeConfig) (image : gmap pystr pystr) : gmap pystr pystr :=
  <[u "TMPDIR" := u "/tmp"]> (<[u "HOME" := work_in rt]> (<[u "SANDBOX" := u "1"]> image)).

Lemma fixed_map_lookup rt image k :
  fixed_map rt image !! k = match fixed_value rt k with Some v => Some v | None => image !! k end.
Proof.
  unfold fixed_map, fixed_value. rewrite !lookup_insert.
  repeat case_bool_decide; repeat case_decide; by subst.
Qed.

Lemma leading_env rt container seccomp image : docker_env image (leading_options rt container seccomp) = fixed_map rt image.
Proof using DL.
  unfold leading_options. rewrite !app_assoc.
  assert (docker_env image (((hardening_opts container seccomp ++ limit_opts (rt_limits rt)) ++ tmpfs_opts rt) ++
            [(u "--workdir", Some (work_in rt))]) = image) as Hw.
  { rewrite <- (env_image image) at 2. rewrite <- (app_nil_l (_ ++ _)). apply env_same. rewrite !Forall_app. split_and!.
    - by repeat constructor.
    - unfold limit_opts. destruct (network_enabled _); by repeat constructor.
    - unfold tmpfs_opts. destruct (rt_needs_exec_build rt); by repeat constructor.
    - by repeat constructor. }
  assert (∀ (os : option_list) a b c d, os ++ [a; b; c; d] = (((os ++ [a]) ++ [b]) ++ [c]) ++ [d]) as Happ
    by (intros; by rewrite <- !app_assoc).
  unfold fixed_env_opts. rewrite Happ.
  change (u "SANDBOX=1") with (u "SANDBOX" ++ u "=" ++ u "1").
  change (u "HOME=" ++ work_in rt) with (u "HOME" ++ u "=" ++ work_in rt).
  change (u "TMPDIR=/tmp") with (u "TMPDIR" ++ u "=" ++ u "/tmp").
  rewrite !env_set, Hw by (done || by_compute). done.
Qed.

Lemma run_options_env rt request host_src container seccomp image :
  docker_env image (run_options rt request host_src container seccomp) =
  set_vars (user_vars (req_env_vars request)) (fixed_map rt image).
Proof using DL.
  unfold run_options. rewrite app_assoc, env_same by by apply Forall_singleton.
  rewrite env_user, leading_env; [done|]. apply Forall_forall. by intros kv [? _]%list_elem_of_filter.
Qed.


End CommandLine.

(** ** Files are written inside the work directory *)

(** The answers [os.path.realpath(p)] got in a trace. *)
Definition realpath_answer (p : pystr) (e : event) : option pystr :=
  match e with
  | Ev c r =>
      match c return res (ans c) → option pystr with
      | FRealpath p' => λ r, match r with Ok real => if p' =s p then Some real else None | Raise _ => None end
      | _ => λ _, None
      end r
  end.

(** Every file written is below a real path of the directory obtained before (newest first). *)
Fixpoint confined (workdir : pystr) (tr : list event) : Prop :=
  match tr with
  | [] => True
  | e :: old =>
      confined workdir old ∧
      match ev_cmd e with
      | FWriteText p _ =>
          ∃ root, root ∈ omap (realpath_answer workdir) old ∧ startswith p (root ++ [slash]) = true
      | _ => True
      end
  end.

Definition no_write (e : event) : Prop := match ev_cmd e with FWriteText _ _ => False | _ => True end.

Section Confinement.
Context {PR : PyRuntime} {JR : JsonRuntime} {E : Type} {HE : Handler E} (h : Host).

Definition grown (t0 : list event) (P : list event → Prop) (s : st E) : Prop :=
  ∃ new, trace s = new ++ t0 ∧ P new.

Lemma write_file_confined t0 workdir name content s :
  grown t0 (confined workdir) s →
  wp (_write_file h workdir name content) (λ _ s', grown t0 (confined workdir) s') s.
Proof.
  intros (new & Ht & Hc). unfold _write_file. wp_step. wp_step.
  destruct r as [real|]; [|by exists (Ev (FRealpath (path_join workdir name)) (Raise e0) :: new); simpl; rewrite Ht].
  wp_step. wp_step. simpl trace. rewrite Ht.
  destruct r as [root|x]; [|by eexists (_ :: _ :: new)].
  destruct (startswith real (root ++ [slash])) eqn:Es; simpl; [|wp_step; by eexists (_ :: _ :: new)].
  assert (confined workdir (Ev (FRealpath workdir) (Ok root) :: Ev (FRealpath (path_join workdir name)) (Ok real) :: new)) as Hc2
    by done.
  assert (∀ r, confined workdir (Ev (FWriteText real content) r :: Ev (FRealpath workdir) (Ok root)
                :: Ev (FRealpath (path_join workdir name)) (Ok real) :: new)) as Hc3.
  { intros r. split; [done|]. exists root. split; [|done]. simpl. rewrite bool_decide_eq_true_2 by done. by left. }
  wp_step. wp_step. simpl trace. destruct r; [|eexists (_ :: _ :: _ :: new); split; [done|apply Hc3]].
  wp_step. eexists (_ :: _ :: _ :: _ :: new). split; [done|]. split; [apply Hc3|done].
Qed.

(** C19: preparing the work directory writes only inside it.  Whatever the file names of the request,
    nothing is written before [mkdtemp] has answered with a fresh directory under the configured one,
    every file written lies under a real path of that directory that was read before the write, and
    when preparation succeeds its result is that directory. *)
Theorem prepare_workdir_confined rt request job_id s :
  wp (_prepare_workdir h rt request job_id) (λ r s',
    ∃ new, trace s' = new ++ trace s ∧
      ((Forall no_write new ∧ is_ok r = false) ∨
       ∃ workdir late early,
         new = late ++ Ev (FMkdtemp (job_id ++ u "-") (local_workdir (config h))) (Ok workdir) :: early ∧
         Forall no_write early ∧ confined workdir late ∧ (∀ d, r = Ok d → d = workdir))) s.
Proof.
  unfold _prepare_workdir. wp_step. wp_step.
  destruct r as [[]|x]; [|eexists [_]; split; [done|left; split; [by repeat constructor|done]]].
  wp_step. wp_step.
  destruct r as [workdir|x]; [|eexists [_; _]; split; [done|left; split; [by repeat constructor|done]]].
  set (mk := Ev (FMkdtemp (job_id ++ u "-") (local_workdir (config h))) (Ok workdir)).
  set (dirs := Ev (FMakedirs (local_workdir (config h))) (Ok tt)).
  set (I := grown (mk :: dirs :: trace s) (confined workdir)).
  eapply (wp_mono _ (λ r s', I s' ∧ ∀ d, r = Ok d → d = workdir)).
  { intros r s' [(late & Ht & Hc) Hd]. exists (late ++ [mk; dirs]). rewrite <- app_assoc. split; [done|]. right.
    exists workdir, late, [dirs]. split_and!; [done|by repeat constructor|done|done]. }
  wp_step. wp_step. destruct r as [[]|x]; [|split; [by eexists [_]|done]].
  wp_step. eapply wp_mono; [|apply write_file_confined; by eexists [_]].
  intros [[]|x] s1 H1; [|done].
  wp_step. eapply wp_mono; [|apply (wp_for_each _ _ I); [|exact H1]].
  - intros [[]|x] s2 H2; [|done]. wp_step. split; [done|]. by intros d [= ->].
  - intros f s2 _ H2. unfold write_input. destruct (_safe_basename _); [by apply write_file_confined|].
    by wp_step.
Qed.

(** What the message of a failed inspection says of the daemon. *)
Definition says_unreachable (err : bytes) : bool :=
  existsb (λ phrase, str_contains (u phrase) (str_lower (decode_replace err)))
    ["cannot connect to the docker daemon"; "is the docker daemon running"]%string.

(** C36: the image check.  It runs one inspection of the image and returns normally exactly when Docker
    reported the image present and, when a digest is pinned, the report contains that digest; a digest
    that is missing is an integrity error; a failed inspection is an unavailable daemon if its message
    says so, and otherwise a missing image. *)
Theorem verify_image_spec rt s :
  wp (_verify_image h rt) (λ r s',
    ∃ a, trace s' = Ev (DSimple (inspect_image h rt)) a :: trace s ∧
    r = match a with
        | Raise e => Raise e
        | Ok (rc, out, err) =>
            if rc =? 0 then
              if (rt_image_digest rt =s []) || str_contains (rt_image_digest rt) (decode_replace out) then Ok tt
              else Raise (ImageIntegrityError (rt_image rt) (rt_image_digest rt) (strip (decode_replace out)))
            else if says_unreachable err then Raise (DockerUnavailableError (strip (decode_replace err)))
            else Raise (ImageNotFoundError (rt_image rt))
        end) s.
Proof.
  unfold _verify_image. wp_step. wp_step. destruct r as [[[rc out] err]|x]; [|by eexists].
  destruct (rc =? 0) eqn:Erc; simpl negb; cbv iota.
  - destruct (rt_image_digest rt =s []) eqn:Ed; cbv iota;
      [|destruct (str_contains (rt_image_digest rt) (decode_replace out)) eqn:Ec];
      wp_step; exists (Ok (rc, out, err)); (split; [done|]); cbv iota; by rewrite Erc, ?Ec.
  - assert (says_unreachable err = str_contains (u "cannot connect to the docker daemon") (str_lower (decode_replace err))
              || str_contains (u "is the docker daemon running") (str_lower (decode_replace err))) as Hsay
      by (unfold says_unreachable; cbn [existsb]; by rewrite orb_false_r).
    rewrite <- Hsay. destruct (says_unreachable err) eqn:Es; wp_step; exists (Ok (rc, out, err));
      (split; [done|]); cbv iota; by rewrite Erc, Es.
Qed.
End Confinement.

(** A concrete host and request, for the examples. *)
Module ExampleHost.
#[local] Existing Instance AsciiRuntime.ascii_runtime.

Definition registry : list (pystr * RuntimeConfig) := get_ok (_build ∅).

Definition host : Host :=
  {| config := get_ok (load_worker_config ∅ (u "/tmp") (u "w1")); h_environ := ∅; h_tempdir := u "/tmp";
     h_cwd := u "/"; h_registry := registry; h_repr := id |}.

Definition go : RuntimeConfig := get_ok (get_runtime registry (u "go")).

Definition request : ExecutionRequest :=
  {| req_language := u "go"; req_code := u "package main"; req_stdin := []; req_timeout := 5;
     req_env_vars := [(u "Ld_Preload", u "evil.so"); (u "MODE", u "a=b"); (u "--privileged", u "x")];
     req_files := [] |}.
End ExampleHost.

Module ExampleCommand.
#[local] Existing Instances AsciiRuntime.ascii_runtime AsciiRuntime.ascii_runtime_laws PlainJson.plain_json
  PlainDocker.plain_docker PlainDocker.plain_docker_laws Scripted.quiet.

Definition workdir : pystr := u "/tmp/sandbox-work/j-1".

Definition argv : list pystr :=
  Eval vm_compute in
    get_ok (_build_command ExampleHost.host ExampleHost.go ExampleHost.request workdir (u "sandbox-j") Scripted.start).1.

Lemma built :
  (_build_command ExampleHost.host ExampleHost.go ExampleHost.request workdir (u "sandbox-j") Scripted.start).1 = Ok argv.
Proof. vm_compute. reflexivity. Qed.


(** An image with a variable of its own. *)
Definition image : gmap pystr pystr := {[u "PATH" := u "/usr/bin"]}.

End ExampleCommand.
