(* ===== verification/Run.v ===== *)
(** * Running a job ([worker/sandbox/executor.py]: [_run], [execute] and what they start)

    A running job has a main task and four background tasks: the two pumps, the feeder of standard
    input and the resource sampler.  The main task gives way to them whenever it awaits; what they do
    meanwhile is the answer of [TBackground], a finite list of steps in the order the event loop
    takes them.  A step runs to the task's next [await] (a call of [on_output] is part of its step).
    The wait for the pumps returns when both have read the end of their pipe; while one stays open,
    only an exception ends it ([PPipeOpen]).
    The pipes are the ones [_default_spawn] opens, so none of them is [None]. *)
From S2P Require Import Prelude PyStr Utf8 Errors Json JsonText Effects Constants Types ResourceLimits Config ImageRegistry Capture Executor.
From stdpp Require Import options.

Definition _SIGKILL_EXIT : Z := 137.
Definition _KILL_WAIT_SECONDS : Z := 5.

(** [_Sample] *)
Record Sample := { peak_bytes : Z; cpu_usec : Z }.

Definition sample0 : Sample := {| peak_bytes := 0; cpu_usec := 0 |}.

Definition note_mem (v : Z) (s : Sample) : Sample :=
  if peak_bytes s <? v then {| peak_bytes := v; cpu_usec := cpu_usec s |} else s.
Definition note_cpu (v : Z) (s : Sample) : Sample :=
  if v =? 0 then s else {| peak_bytes := peak_bytes s; cpu_usec := v |}.

(** How the main task's wait ended. *)
Inductive outcome := Completed | TimedOut | Killed.

#[export] Instance outcome_eq_dec : EqDecision outcome.
Proof. solve_decision. Defined.

Definition _build_result (job_id : pystr) (returncode : option Z) (o : outcome) (c : OutputCapture)
    (s : Sample) (wall_ms : Z) : ExecutionResult :=
  let oom := match o with Completed => bool_decide (returncode = Some _SIGKILL_EXIT) | _ => false end in
  {| Types.job_id := job_id;
     status := match o with
               | Completed => if oom then STATUS_FAILED else STATUS_COMPLETED
               | TimedOut => STATUS_TIMEOUT
               | Killed => STATUS_KILLED
               end;
     stdout := cap_stdout c;
     stderr := cap_stderr c;
     exit_code := match o with Completed => returncode | _ => None end;
     wall_time_ms := wall_ms;
     cpu_time_ms := cpu_usec s / 1000;
     memory_bytes := peak_bytes s;
     oom_killed := oom;
     timed_out := bool_decide (o = TimedOut);
     truncated := cap_truncated c;
     out_files := [] |}.

(** Where the sampler's loop stands: before the memory read, before the CPU read, ended by an
    exception. *)
Inductive sampler_pc := AtMemory | AtCpu | Ended.

(** The local state of a run. *)
Record RunSt := {
  pumps : Pumps;
  pump_failed : stream_kind → bool;
  gather_exc : option exc;
  stdin_done : bool;
  sampler : sampler_pc;
  observed : bool;
  sample : Sample;
}.

Definition run0 (limit : Z) : RunSt :=
  {| pumps := new_pumps limit; pump_failed := λ _, false; gather_exc := None; stdin_done := false;
     sampler := AtMemory; observed := false; sample := sample0 |}.

Definition with_pumps (p : Pumps) (rs : RunSt) : RunSt :=
  {| pumps := p; pump_failed := pump_failed rs; gather_exc := gather_exc rs; stdin_done := stdin_done rs;
     sampler := sampler rs; observed := observed rs; sample := sample rs |}.

(** A pump raised: its task is over, and [asyncio.gather] takes the first exception. *)
Definition fail_pump (k : stream_kind) (e : exc) (rs : RunSt) : RunSt :=
  {| pumps := pumps rs; pump_failed := λ k', kind_eqb k k' || pump_failed rs k';
     gather_exc := match gather_exc rs with Some e' => Some e' | None => Some e end;
     stdin_done := stdin_done rs; sampler := sampler rs; observed := observed rs; sample := sample rs |}.

Definition with_stdin_done (rs : RunSt) : RunSt :=
  {| pumps := pumps rs; pump_failed := pump_failed rs; gather_exc := gather_exc rs; stdin_done := true;
     sampler := sampler rs; observed := observed rs; sample := sample rs |}.

Definition with_sampler (pc : sampler_pc) (o : bool) (s : Sample) (rs : RunSt) : RunSt :=
  {| pumps := pumps rs; pump_failed := pump_failed rs; gather_exc := gather_exc rs;
     stdin_done := stdin_done rs; sampler := pc; observed := o; sample := s |}.

Section Run.
Context {PR : PyRuntime} {JR : JsonRuntime} {E : Type} {HE : Handler E} (h : Host).

(** ** Container id and cgroup files *)

Definition set_cid_cache (f : gmap pystr pystr → gmap pystr pystr) (m : Mem) : Mem :=
  {| group_ready := group_ready m; cid_cache := f (cid_cache m); profile_cache := profile_cache m;
     metrics := metrics m; api := api m |}.

Definition _resolve_cid (container : pystr) : M E pystr :=
  m ← get_mem;
  match cid_cache m !! container with
  | Some cid => mret cid
  | None =>
      r ← call (DSimple [docker h; u "inspect"; u "-f"; u "{{.Id}}"; container]);
      let '(rc, out, _) := r in
      let cid := if rc =? 0 then strip (decode_replace out) else [] in
      _ ← when (negb (cid =s [])) (modify_mem (set_cid_cache (λ c, <[container := cid]> c)));
      mret cid
  end.

(** [None] on any error of the file or of the number. *)
Definition _read_int_file (path : pystr) : M E (option Z) :=
  try_except (text ← call (FReadText path); v ← lift (or_raise (py_int (strip text)) ValueError); mret (Some v))
    (λ e, if is_OSError e || is_ValueError e then Some (mret None) else None).

(** The second field of the first [usage_usec] line. *)
Fixpoint usage_of_lines (lines : list pystr) : res (option Z) :=
  match lines with
  | [] => Ok None
  | line :: lines' =>
      if startswith line (u "usage_usec") then
        field ← or_raise (split_ws line !! 1%nat) IndexError;
        v ← or_raise (py_int field) ValueError;
        mret (Some v)
      else usage_of_lines lines'
  end.

Definition is_IndexError (e : exc) : bool := match e with IndexError => true | _ => false end.

Definition _read_usage_usec (path : pystr) : M E (option Z) :=
  try_except (text ← call (FReadText path); lift (usage_of_lines (split_char 10 text)))
    (λ e, if is_OSError e || is_ValueError e || is_IndexError e then Some (mret None) else None).

(** The first reader of a list that gives a value. *)
Fixpoint first_value (readers : list (M E (option Z))) : M E (option Z) :=
  match readers with
  | [] => mret None
  | r :: readers' => v ← r; match v with Some z => mret (Some z) | None => first_value readers' end
  end.

Definition memory_paths (cid : pystr) : list pystr :=
  [u "/sys/fs/cgroup/system.slice/docker-" ++ cid ++ u ".scope/memory.peak";
   u "/sys/fs/cgroup/docker/" ++ cid ++ u "/memory.peak";
   u "/sys/fs/cgroup/system.slice/docker-" ++ cid ++ u ".scope/memory.current";
   u "/sys/fs/cgroup/docker/" ++ cid ++ u "/memory.current";
   u "/sys/fs/cgroup/memory/docker/" ++ cid ++ u "/memory.max_usage_in_bytes"].

Definition _default_memory_reader (container : pystr) : M E Z :=
  cid ← _resolve_cid container;
  if cid =s [] then mret 0
  else v ← first_value (map _read_int_file (memory_paths cid)); mret (default 0 v).

Definition _default_cpu_reader (container : pystr) : M E Z :=
  cid ← _resolve_cid container;
  if cid =s [] then mret 0
  else
    v ← first_value (map _read_usage_usec
          [u "/sys/fs/cgroup/system.slice/docker-" ++ cid ++ u ".scope/cpu.stat";
           u "/sys/fs/cgroup/docker/" ++ cid ++ u "/cpu.stat"]);
    match v with
    | Some usec => mret usec
    | None =>
        n ← _read_int_file (u "/sys/fs/cgroup/cpu,cpuacct/docker/" ++ cid ++ u "/cpuacct.usage");
        mret (match n with Some nanos => nanos / 1000 | None => 0 end)
    end.

(** ** Background tasks *)

Definition is_pipe_error (e : exc) : bool :=
  match e with BrokenPipeError | ConnectionResetError | RuntimeError | NotImplementedError => true | _ => false end.

Definition _feed_stdin (data : bytes) : M E unit :=
  suppress is_pipe_error (_ ← when (negb (data =s [])) (call (PWriteStdin data)); call PCloseStdin).

(** The startup observer the worker installs: [CONTAINER_STARTUP.observe]. *)
Definition observe_startup (v : Z) : M E unit :=
  modify_metrics (λ m,
    {| executions_total := executions_total m; execution_duration := execution_duration m;
       container_startup := v :: container_startup m; queue_depth_gauge := queue_depth_gauge m;
       oom_kills := oom_kills m; timeout_kills := timeout_kills m; jobs_in_flight := jobs_in_flight m;
       reclaimed_jobs := reclaimed_jobs m; dead_lettered := dead_lettered m |}).

(** First half of a turn of [_sample]'s loop: the startup observation and the memory read. *)
Definition sample_memory (container : pystr) (start : Z) (rs : RunSt) : M E RunSt :=
  seen ← (if observed rs then mret true
          else cid ← _resolve_cid container;
               if cid =s [] then mret false
               else t ← call TMonotonic; _ ← observe_startup (t - start); mret true);
  v ← _default_memory_reader container;
  mret (with_sampler AtCpu seen (note_mem v (sample rs)) rs).

(** Second half: the CPU read. *)
Definition sample_cpu (container : pystr) (rs : RunSt) : M E RunSt :=
  v ← _default_cpu_reader container;
  mret (with_sampler AtMemory (observed rs) (note_cpu v (sample rs)) rs).

Definition sample_step (container : pystr) (start : Z) (rs : RunSt) : M E RunSt :=
  let turn := match sampler rs with
              | AtMemory => sample_memory container start rs
              | AtCpu => sample_cpu container rs
              | Ended => mret rs
              end in
  r ← attempt turn;
  mret (match r with Ok rs' => rs' | Raise _ => with_sampler Ended (observed rs) (sample rs) rs end).

(** The last read of a cancelled sampler; any failure only ends it. *)
Definition sample_final (container : pystr) (rs : RunSt) : M E RunSt :=
  match sampler rs with
  | Ended => mret rs
  | _ =>
      r ← attempt (_default_memory_reader container);
      match r with
      | Raise _ => mret (with_sampler Ended (observed rs) (sample rs) rs)
      | Ok mem =>
          let s := note_mem mem (sample rs) in
          r ← attempt (_default_cpu_reader container);
          mret (with_sampler Ended (observed rs)
                  (match r with Ok cpu => note_cpu cpu s | Raise _ => s end) rs)
      end
  end.

Context (on_output : option (stream_kind → pystr → M E unit)).

(** A turn of [_pump]'s loop with the chunk that was read. *)
Definition _pump (k : stream_kind) (chunk : bytes) (rs : RunSt) : M E RunSt :=
  if pump_failed rs k then mret rs
  else
    match pumps_step k chunk (pumps rs) with
    | Raise e => mret (fail_pump k e rs)
    | Ok (kept, p) =>
        let rs' := with_pumps p rs in
        match on_output, kept with
        | Some f, _ :: _ =>
            r ← attempt (f k kept);
            mret (match r with Ok _ => rs' | Raise e => fail_pump k e rs' end)
        | _, _ => mret rs'
        end
    end.

Definition feed_step (data : bytes) (rs : RunSt) : M E RunSt :=
  if stdin_done rs then mret rs else _ ← attempt (_feed_stdin data); mret (with_stdin_done rs).

Section Job.
Context (container : pystr) (start : Z) (data : bytes).

Definition bg_step (b : bg) (rs : RunSt) : M E RunSt :=
  match b with
  | BgRead k chunk => _pump k chunk rs
  | BgStdin => feed_step data rs
  | BgSample => sample_step container start rs
  end.

Fixpoint bg_steps (bs : list bg) (rs : RunSt) : M E RunSt :=
  match bs with [] => mret rs | b :: bs' => rs' ← bg_step b rs; bg_steps bs' rs' end.

(** The main task awaits: background steps happen. *)
Definition background (rs : RunSt) : M E RunSt := bs ← call TBackground; bg_steps bs rs.

(** ** The main task *)

Definition kill_argv (signal : pystr) : list pystr := [docker h; u "kill"; u "--signal=" ++ signal; container].
Definition rm_argv : list pystr := [docker h; u "rm"; u "-f"; container].

Definition is_ProcessLookupError (e : exc) : bool :=
  match e with ProcessLookupError => true | _ => false end.

Definition _terminate (rs : RunSt) : M E RunSt :=
  _ ← call (DSimple (kill_argv (u "TERM")));
  rs ← background rs;
  exited ← call (PWait (Some (sigterm_grace_seconds (config h))));
  if (exited : bool) then mret rs
  else
    _ ← call (DSimple (kill_argv (u "KILL")));
    rs ← background rs;
    exited ← call (PWait (Some _KILL_WAIT_SECONDS));
    if (exited : bool) then mret rs
    else
      _ ← call (DSimple rm_argv);
      _ ← suppress is_ProcessLookupError (call PKill);
      rs ← background rs;
      _ ← call (PWait None);
      mret rs.

Definition _await_completion (timeout : Z) (cancellable : bool) (rs : RunSt) : M E (outcome * RunSt) :=
  rs ← background rs;
  w ← call (PWaitAny timeout cancellable);
  let '(exited, cancelled) := (w : bool * bool) in
  if exited then mret (Completed, rs)
  else
    rs ← _terminate rs;
    mret (if cancellable && cancelled then Killed else TimedOut, rs).

(** [await pump]: the exception of a pump that failed is raised; otherwise the [await] returns when
    both pumps have read their stream to its end.  While a pipe stays open it does not return: only
    an exception, such as the cancellation of the task, ends it. *)
Definition pumps_ended (p : Pumps) : bool :=
  bool_decide (dec Stdout p = None) && bool_decide (dec Stderr p = None).

Definition await_pumps (rs : RunSt) : M E RunSt :=
  rs ← background rs;
  match gather_exc rs with
  | Some e => raise e
  | None => if pumps_ended (pumps rs) then mret rs else e ← call PPipeOpen; raise e
  end.
End Job.

Definition _run (rt : RuntimeConfig) (request : ExecutionRequest) (job_id workdir container : pystr)
    (cancellable : bool) : M E ExecutionResult :=
  let timeout := clamp_timeout (rt_limits rt) (Some (req_timeout request)) in
  start ← call TMonotonic;
  argv ← _build_command h rt request workdir container;
  _ ← call (DSpawn argv);
  data ← lift (or_raise (utf8_encode (req_stdin request)) UnicodeEncodeError);
  r ← _await_completion container start data timeout cancellable (run0 (output_max_bytes (rt_limits rt)));
  let '(o, rs) := r in
  rs ← await_pumps container start data rs;
  rs ← background container start data rs;
  rs ← feed_step data rs;
  rs ← sample_final container rs;
  stop ← call TMonotonic;
  rc ← call PReturncode;
  mret (_build_result job_id rc o (capture (pumps rs)) (sample rs) (Z.quot (stop - start) 1000)).

(** ** Cleanup and the public entry point *)

Definition _cleanup (container workdir : pystr) : M E unit :=
  _ ← modify_mem (set_cid_cache (delete container));
  _ ← suppress is_Exception (_ ← call (DSimple (rm_argv container)); mret tt);
  suppress is_OSError (call (FRmtree workdir)).

Definition container_name (job_id : pystr) : pystr := u "sandbox-" ++ job_id.

Definition execute (request : ExecutionRequest) (job_id : pystr) (cancellable : bool) : M E ExecutionResult :=
  rt ← lift (get_runtime (h_registry h) (req_language request));
  _ ← _verify_image h rt;
  workdir ← _prepare_workdir h rt request job_id;
  try_finally (_run rt request job_id workdir (container_name job_id) cancellable)
    (_cleanup (container_name job_id) workdir).

End Run.

(** ** What background tasks do to the trace *)

(** Commands only the main task issues. *)
Definition control (c : cmd) : bool :=
  match c with
  | DSimple (_ :: verb :: _) => (verb =s u "kill") || (verb =s u "rm")
  | DSpawn _ | PWait _ | PWaitAny _ _ | PKill | PReturncode => true
  | _ => false
  end.

(** An event of a background task: not a control command and not a wait of the main task. *)
Definition bg_event (e : event) : Prop := control (ev_cmd e) = false ∧ ev_cmd e ≠ TBackground.

(** The chunks the reads of one event delivered, and those of a trace in order of time. *)
Definition bg_chunk (b : bg) : list (stream_kind * bytes) :=
  match b with BgRead k chunk => [(k, chunk)] | _ => [] end.

Definition event_chunks (e : event) : list (stream_kind * bytes) :=
  match e with
  | Ev c r =>
      match c return res (ans c) → list (stream_kind * bytes) with
      | TBackground => λ r, match r with Ok bs => concat (map bg_chunk bs) | Raise _ => [] end
      | _ => λ _, []
      end r
  end.

Definition chunks (tr : list event) : list (stream_kind * bytes) := concat (map event_chunks (rev tr)).

Lemma chunks_app tr tr' : chunks (tr ++ tr') = chunks tr' ++ chunks tr.
Proof. unfold chunks. by rewrite rev_app_distr, map_app, concat_app. Qed.

Lemma event_chunks_other e : ev_cmd e ≠ TBackground → event_chunks e = [].
Proof. destruct e as [c r]. by destruct c. Qed.

Lemma chunks_single e : ev_cmd e ≠ TBackground → chunks [e] = [].
Proof. intros H. unfold chunks. cbn [rev app map concat]. by rewrite event_chunks_other. Qed.

Lemma chunks_bg tr : Forall bg_event tr → chunks tr = [].
Proof.
  unfold chunks. intros H%Forall_rev. induction H as [|e l [_ He] _ IH]; simpl; [done|].
  by rewrite event_chunks_other, IH.
Qed.

Lemma pump_all_app a b p :
  pump_all (a ++ b) p =
  ('(out, p') ← pump_all a p; '(out', p'') ← pump_all b p'; Ok (out ++ out', p'')).
Proof.
  revert p. induction a as [|[k chunk] a IH]; intros p; simpl.
  - by destruct (pump_all b p) as [[]|].
  - destruct (pumps_step k chunk p) as [[kept p']|]; simpl; [|done]. rewrite IH.
    destruct (pump_all a p') as [[out p'']|]; simpl; [|done].
    by destruct (pump_all b p'') as [[]|].
Qed.

(** ** What the sampler reports *)

(** A number the sampler can note: nothing was read, a number of a file, or the microseconds of a
    number of nanoseconds. *)
Definition read_value `{PR : PyRuntime} (v : Z) : Prop :=
  v = 0 ∨ (∃ text, py_int text = Some v) ∨ ∃ text n, py_int text = Some n ∧ v = n / 1000.

(** The peak is a reading and not negative, the processor time is a reading. *)
Definition sample_ok `{PR : PyRuntime} (s : Sample) : Prop :=
  0 ≤ peak_bytes s ∧ read_value (peak_bytes s) ∧ read_value (cpu_usec s).

Section Readings.
Context {PR : PyRuntime} {JR : JsonRuntime} {E : Type} {HE : Handler E} (h : Host).

Lemma sample0_ok : sample_ok sample0.
Proof. split; [done|]. split; by left. Qed.

Lemma note_mem_ok v s : read_value v → sample_ok s → sample_ok (note_mem v s).
Proof.
  intros Hv (Hp & Hr & Hc). unfold note_mem. destruct (Z.ltb_spec (peak_bytes s) v); [|done].
  split_and!; [simpl; lia|done|done].
Qed.

Lemma note_cpu_ok v s : read_value v → sample_ok s → sample_ok (note_cpu v s).
Proof. intros Hv (Hp & Hr & Hc). unfold note_cpu. by destruct (v =? 0). Qed.

(** A reader of one file. *)
Definition reads (m : M E (option Z)) : Prop := ∀ s, returns m (λ o _, ∀ v, o = Some v → ∃ text, py_int text = Some v) s.

Lemma read_int_file_reads path : reads (_read_int_file (HE := HE) path).
Proof.
  intros s. apply wp_try. do 2 wp_step. destruct r as [text|x]; [|by destruct (_ || _); [intros ? [= <-]|]].
  do 2 wp_step. destruct (py_int (strip text)) as [n|] eqn:En; cbn [or_raise].
  - wp_step. intros ? [= <-] v [= <-]. eauto.
  - by intros ? [= <-].
Qed.

Lemma usage_of_lines_reads lines v : usage_of_lines lines = Ok (Some v) → ∃ text, py_int text = Some v.
Proof.
  induction lines as [|line lines IH]; cbn [usage_of_lines]; [done|].
  destruct (startswith line _); [|done]. destruct (split_ws line !! 1%nat) as [field|]; [|done]. simpl.
  destruct (py_int field) as [n|] eqn:En; [|done]. intros [= <-]. eauto.
Qed.

Lemma read_usage_usec_reads path : reads (_read_usage_usec (HE := HE) path).
Proof.
  intros s. apply wp_try. do 2 wp_step. destruct r as [text|x]; [|by destruct (_ || _ || _); [intros ? [= <-]|]].
  wp_step. destruct (usage_of_lines _) as [o|x] eqn:Eo.
  - intros ? [= <-] v ->. by eapply usage_of_lines_reads.
  - by destruct (_ || _ || _); [intros ? [= <-]|].
Qed.

Lemma first_value_reads rs : Forall reads rs → reads (first_value rs).
Proof.
  induction 1 as [|m rs Hm _ IH]; intros s; cbn [first_value]; [by ret_step|].
  ret_step. eapply returns_mono; [|apply Hm]. intros [z|] s' Hz; [by ret_step|apply IH].
Qed.

Lemma memory_reader_reads container s :
  returns (_default_memory_reader (HE := HE) h container) (λ v _, read_value v) s.
Proof.
  unfold _default_memory_reader. ret_step. intros cid _. destruct (cid =s []); [ret_step; by left|].
  ret_step. eapply returns_mono; [|apply first_value_reads, Forall_map, Forall_true; apply read_int_file_reads].
  intros [v|] s' Hv; ret_step; [right; left; by apply Hv|by left].
Qed.

Lemma cpu_reader_reads container s :
  returns (_default_cpu_reader (HE := HE) h container) (λ v _, read_value v) s.
Proof.
  unfold _default_cpu_reader. ret_step. intros cid _. destruct (cid =s []); [ret_step; by left|].
  ret_step. eapply returns_mono; [|apply first_value_reads; repeat apply Forall_cons_2; [apply read_usage_usec_reads..|apply Forall_nil_2]].
  intros [v|] s' Hv; [ret_step; right; left; by apply Hv|].
  ret_step. eapply returns_mono; [|apply read_int_file_reads].
  intros [n|] s'' Hn; ret_step; [|by left]. destruct (Hn n eq_refl) as [text Ht]. right; right. eauto.
Qed.
End Readings.

(** [run_inv fin limit sched rs]: unless a pump failed, the pumps are in the state the schedule [sched]
    of reads leads to; the sample is one the readers can give; when [fin] is set, both streams have ended without a
    failure. *)
Definition run_inv `{PR : PyRuntime} (fin : bool) (limit : Z) (sched : list (stream_kind * bytes)) (rs : RunSt) : Prop :=
  sample_ok (sample rs) ∧
  (gather_exc rs = None →
    (∀ k, pump_failed rs k = false) ∧ ∃ out, pump_all sched (new_pumps limit) = Ok (out, pumps rs)) ∧
  (fin = true → gather_exc rs = None ∧ ∀ k, dec k (pumps rs) = None).

Lemma run_inv_init `{PR : PyRuntime} limit : run_inv false limit [] (run0 limit).
Proof. split; [apply sample0_ok|]. split; [|done]. intros _. split; [done|]. by exists []. Qed.

Lemma run_inv_sampler `{PR : PyRuntime} fin limit sched pc o s rs :
  run_inv fin limit sched rs → sample_ok s → run_inv fin limit sched (with_sampler pc o s rs).
Proof. intros [_ H] Hs. by split. Qed.

(** ** The executor issues only local commands

    Everything [execute] does itself is a Docker, process, file or time command: the queue and the
    stores are reached only through the output callback. *)
Definition local_cmd (c : cmd) : bool :=
  match c with
  | RGet _ | RExists _ | RSet _ _ _ | RZrem _ _ | RPublish _ _ | RXgroupCreate _ _ _ _
  | RXreadgroup _ _ _ _ _ _ | RXpendingRange _ _ _ _ _ _ | RXclaim _ _ _ _ _ | RXack _ _ _
  | RXdel _ _ | RXadd _ _ _ _ | RXlen _ | RWatchCancel _ | RMulti _ | REvalRate _ _ _ _ _
  | REvalAcquire _ _ _ _ _ | RConnect _ | RClose
  | MClient _ _ _ _ | MBucketExists _ | MMakeBucket _ | MPutObject _ _ _ _ _ => false
  | _ => true
  end.

Section LocalCommands.
Context {PR : PyRuntime} {JR : JsonRuntime} {E : Type} {HE : Handler E} (h : Host).
Context (P : event → Prop) (HP : ∀ c r, local_cmd c = true → answer c r → P (Ev c r)).
Set Default Proof Using "Type*".

#[local] Hint Extern 1 (P (Ev _ _)) => by apply HP : sandbox.

Lemma resolve_cid_local container : emits P (_resolve_cid h container).
Proof. unfold _resolve_cid. emits_tac; by apply HP. Qed.

Lemma read_int_file_local path : emits P (_read_int_file path).
Proof. unfold _read_int_file. emits_tac; by apply HP. Qed.

Lemma first_value_local rs : Forall (λ m : M E (option Z), emits P m) rs → emits P (first_value rs).
Proof. induction 1; simpl; emits_tac. Qed.

Lemma memory_reader_local container : emits P (_default_memory_reader h container).
Proof.
  unfold _default_memory_reader. pose proof resolve_cid_local. emits_tac.
  apply first_value_local. apply Forall_map, Forall_true. apply read_int_file_local.
Qed.

Lemma cpu_reader_local container : emits P (_default_cpu_reader h container).
Proof.
  unfold _default_cpu_reader. pose proof resolve_cid_local. pose proof read_int_file_local. emits_tac.
  apply first_value_local. apply Forall_map, Forall_true. intros path. unfold _read_usage_usec.
  emits_tac; by apply HP.
Qed.

Lemma sample_final_local container rs : emits P (sample_final h container rs).
Proof. pose proof memory_reader_local. pose proof cpu_reader_local. unfold sample_final. emits_tac. Qed.

Lemma feed_step_local data rs : emits P (feed_step data rs).
Proof. unfold feed_step, _feed_stdin. emits_tac; by apply HP. Qed.

Context (on_output : option (stream_kind → pystr → M E unit)).
Context (Hout : ∀ f k text, on_output = Some f → emits P (f k text)).

Lemma pump_local k chunk rs : emits P (_pump on_output k chunk rs).
Proof. unfold _pump. emits_tac. Qed.

Lemma background_local container start data rs : emits P (background h on_output container start data rs).
Proof.
  unfold background. emits_tac; [by apply HP|]. revert rs.
  induction a as [|b bs IH]; intros rs; cbn [bg_steps]; [apply emits_ret|].
  apply emits_bind; [|done]. destruct b; cbn [bg_step]; [apply pump_local|apply feed_step_local|].
  pose proof resolve_cid_local. pose proof memory_reader_local. pose proof cpu_reader_local.
  unfold sample_step, sample_memory, sample_cpu, observe_startup. emits_tac; by apply HP.
Qed.

Lemma run_local rt request job_id workdir container cancellable :
  emits P (_run h on_output rt request job_id workdir container cancellable).
Proof.
  pose proof background_local. pose proof pump_local. pose proof feed_step_local. pose proof sample_final_local.
  unfold _run, _await_completion, _terminate, await_pumps.
  unfold _build_command, seccomp_profile_path, Seccomp.profile_path, Seccomp.write_profile.
  emits_tac; by apply HP.
Qed.

Lemma execute_local request job_id cancellable : emits P (execute h on_output request job_id cancellable).
Proof.
  pose proof run_local.
  unfold execute, _verify_image, _prepare_workdir, write_input, _write_file, _cleanup.
  emits_tac; by apply HP.
Qed.
End LocalCommands.

(** ** What the executor leaves alone *)

Definition same_gauge {E} (s s' : st E) : Prop :=
  jobs_in_flight (metrics (mem s')) = jobs_in_flight (metrics (mem s)).

#[export] Instance same_gauge_preorder {E} : PreOrder (same_gauge (E:=E)).
Proof. split; [done|]. unfold same_gauge. intros ??? H1 H2. congruence. Qed.

Section LocalEvolution.
Context {PR : PyRuntime} {JR : JsonRuntime} {E : Type} {HE : Handler E} (h : Host).

(** A relation that local commands and changes of the worker's memory keep, the gauge apart. *)
Context (R : st E → st E → Prop) {HR : PreOrder R}.
Context (Hcall : ∀ c s r e, local_cmd c = true → handle c (env s) = (r, e) → R s (St e (mem s) (Ev c r :: trace s))).
Context (Hmem : ∀ s m, jobs_in_flight (metrics m) = jobs_in_flight (metrics (mem s)) → R s (St (env s) m (trace s))).
Set Default Proof Using "Type*".

#[local] Hint Extern 1 (R _ (St _ (mem _) (_ :: _))) => by apply Hcall : sandbox.
#[local] Hint Extern 1 (R _ (St (env _) _ (trace _))) => by apply Hmem : sandbox.

Lemma resolve_cid_evolves container : evolves R (_resolve_cid (HE := HE) h container).
Proof. unfold _resolve_cid. evolves_tac; auto with sandbox. Qed.

Lemma read_int_file_evolves path : evolves R (_read_int_file (HE := HE) path).
Proof. unfold _read_int_file. evolves_tac; auto with sandbox. Qed.

Lemma first_value_evolves rs :
  Forall (λ m : M E (option Z), evolves R m) rs → evolves R (first_value rs).
Proof. induction 1; simpl; evolves_tac. Qed.

Lemma memory_reader_evolves container : evolves R (_default_memory_reader (HE := HE) h container).
Proof.
  unfold _default_memory_reader. pose proof resolve_cid_evolves. evolves_tac.
  apply first_value_evolves. apply Forall_map, Forall_true. apply read_int_file_evolves.
Qed.

Lemma cpu_reader_evolves container : evolves R (_default_cpu_reader (HE := HE) h container).
Proof.
  unfold _default_cpu_reader. pose proof resolve_cid_evolves. pose proof read_int_file_evolves. evolves_tac.
  apply first_value_evolves. apply Forall_map, Forall_true. intros path. unfold _read_usage_usec. evolves_tac; auto with sandbox.
Qed.

Context (on_output : option (stream_kind → pystr → M E unit)).
Context (Hout : ∀ f k text, on_output = Some f → evolves R (f k text)).

Lemma pump_evolves k chunk rs : evolves R (_pump on_output k chunk rs).
Proof. unfold _pump. evolves_tac. Qed.

Lemma feed_step_evolves data rs : evolves R (feed_step (HE := HE) data rs).
Proof. unfold feed_step, _feed_stdin. evolves_tac; auto with sandbox. Qed.

Lemma background_evolves container start data rs :
  evolves R (background h on_output container start data rs).
Proof.
  unfold background. evolves_tac; [auto with sandbox|]. revert rs.
  induction a as [|b bs IH]; intros rs; cbn [bg_steps]; [evolves_tac|].
  apply evolves_bind; [apply _| |done]. destruct b; cbn [bg_step]; [apply pump_evolves|apply feed_step_evolves|].
  pose proof resolve_cid_evolves. pose proof memory_reader_evolves. pose proof cpu_reader_evolves.
  unfold sample_step, sample_memory, sample_cpu, observe_startup. evolves_tac; auto with sandbox.
Qed.

Lemma execute_evolves request job_id cancellable :
  evolves R (execute h on_output request job_id cancellable).
Proof.
  pose proof background_evolves. pose proof pump_evolves. pose proof feed_step_evolves.
  pose proof memory_reader_evolves. pose proof cpu_reader_evolves.
  unfold execute, _verify_image, _prepare_workdir, write_input, _write_file, _cleanup.
  unfold _run, _await_completion, _terminate, await_pumps, sample_final.
  unfold _build_command, seccomp_profile_path, Seccomp.profile_path, Seccomp.write_profile.
  evolves_tac; auto with sandbox.
Qed.
End LocalEvolution.

(** Which combinations of status, exit code and flags a result can have. *)
Definition consistent_status (res : ExecutionResult) : Prop :=
  status res ∈ TERMINAL_STATUSES ∧
  (timed_out res = true ↔ status res = STATUS_TIMEOUT) ∧
  (oom_killed res = true ↔ status res = STATUS_FAILED) ∧
  (oom_killed res = true → exit_code res = Some _SIGKILL_EXIT) ∧
  (is_Some (exit_code res) → status res = STATUS_COMPLETED ∨ status res = STATUS_FAILED).

Lemma build_result_consistent jid rc o c smp wall : consistent_status (_build_result jid rc o c smp wall).
Proof.
  unfold consistent_status, _build_result, TERMINAL_STATUSES. cbn [status timed_out oom_killed exit_code].
  assert (∀ x : pystr, x ∈ [STATUS_COMPLETED; STATUS_FAILED; STATUS_TIMEOUT; STATUS_KILLED] → x ∈ TERMINAL_STATUSES)
    as Hin by (unfold TERMINAL_STATUSES; set_solver).
  destruct o; [case_bool_decide as Hrc| |]; split_and!;
    try (apply Hin; set_solver); try done; try naive_solver; intros [? ?]; done.
Qed.

(** What the operating system promises: pipes deliver bytes, exit codes and clock readings have the
    width of a machine word, a time stamp is text. *)
Class SaneWorld (E : Type) `{HE : Handler E} : Prop := {
  pipe_bytes bs : answer TBackground (Ok bs) → Forall (λ c, is_bytes c.2) (concat (map bg_chunk bs));
  returncode_width z : answer PReturncode (Ok (Some z)) → Z.abs z < 2 ^ 63;
  clock_width t : answer TMonotonic (Ok t) → 0 ≤ t < 2 ^ 63;
  now_text t : answer TNowIso (Ok t) → scalar_str t;
}.

(** No runtime has a negative output limit. *)
Definition host_limits (h : Host) : Prop :=
  ∀ language rt, get_runtime (h_registry h) language = Ok rt → 0 ≤ output_max_bytes (rt_limits rt).

Lemma small_int_width z : Z.abs z < 2 ^ 63 → small_int z.
Proof.
  intros H. apply small_int_iff. eapply Z.lt_le_trans; [exact H|].
  transitivity (10 ^ 19); [by vm_compute|]. apply Z.pow_le_mono_r; [done|]. unfold INT_MAX_STR_DIGITS. lia.
Qed.

Lemma div_abs z : Z.abs (z / 1000) ≤ Z.abs z.
Proof. pose proof (Z.div_mod z 1000). pose proof (Z.mod_pos_bound z 1000). lia. Qed.

Lemma quot_width z : Z.abs z < 2 ^ 63 → Z.abs (Z.quot z 1000) < 2 ^ 63.
Proof.
  intros H. rewrite <- Z.quot_abs by lia. apply Z.le_lt_trans with (Z.abs z); [|done].
  apply Z.quot_le_upper_bound; lia.
Qed.

Lemma read_value_small `{PL : PyRuntimeLaws} v : read_value v → small_int v.
Proof.
  intros [->|[(text & Ht)|(text & n & Ht & ->)]]; [by apply small_int_width|..]; apply py_int_bound in Ht.
  - by apply small_int_iff.
  - eapply small_int_mono; [apply div_abs|]. by apply small_int_iff.
Qed.

Section RunFacts.
Context {PR : PyRuntime} {JR : JsonRuntime} {E : Type} {HE : Handler E} (h : Host).
Context (on_output : option (stream_kind → pystr → M E unit)).

(** The output callback issues no control command and is not the main task. *)
Definition callback_ok : Prop := ∀ f k text, on_output = Some f → emits bg_event (f k text).
Context (Hcb : callback_ok).
Set Default Proof Using "Type*".

#[local] Hint Extern 1 (bg_event (Ev _ _)) => by split : sandbox.

Lemma resolve_cid_bg container : emits bg_event (_resolve_cid h container).
Proof using Type. unfold _resolve_cid. emits_tac; by split. Qed.

Lemma read_int_file_bg path : emits bg_event (_read_int_file path).
Proof using Type. unfold _read_int_file. emits_tac; by split. Qed.

Lemma read_usage_usec_bg path : emits bg_event (_read_usage_usec path).
Proof using Type. unfold _read_usage_usec. emits_tac; by split. Qed.

Lemma first_value_bg rs : Forall (λ m : M E (option Z), emits bg_event m) rs → emits bg_event (first_value rs).
Proof using Type. induction 1; simpl; emits_tac. Qed.

Lemma memory_reader_bg container : emits bg_event (_default_memory_reader h container).
Proof using Type.
  unfold _default_memory_reader. pose proof resolve_cid_bg. emits_tac.
  apply first_value_bg. apply Forall_map, Forall_true. apply read_int_file_bg.
Qed.

Lemma cpu_reader_bg container : emits bg_event (_default_cpu_reader h container).
Proof using Type.
  unfold _default_cpu_reader. pose proof resolve_cid_bg. pose proof read_int_file_bg. emits_tac.
  apply first_value_bg. apply Forall_map, Forall_true. apply read_usage_usec_bg.
Qed.

(** A computation of a background task: it never raises, issues only background commands, and ends
    in a state with [run_inv] for the schedule. *)
Definition bg_triple (fin : bool) (limit : Z) (sched' : list (stream_kind * bytes)) (m : M E RunSt) : Prop :=
  ∀ s, wp m (λ r s', ∃ rs' new, r = Ok rs' ∧ trace s' = new ++ trace s ∧ Forall bg_event new ∧
                       run_inv fin limit sched' rs') s.

Lemma bg_triple_ret fin limit sched rs : run_inv fin limit sched rs → bg_triple fin limit sched (mret rs).
Proof using Type. intros H s. apply wp_ret. by exists rs, []. Qed.

(** A task's turn, with its exception stored. *)
Lemma bg_triple_attempt_post fin limit sched' {A} (m : M E A) (Q : res A → Prop) (k : res A → M E RunSt) :
  emits bg_event m → (∀ s, wp m (λ r _, Q r) s) → (∀ r, Q r → bg_triple fin limit sched' (k r)) →
  bg_triple fin limit sched' (attempt m ≫= k).
Proof using Type.
  intros Hm HQ Hk s. apply wp_bind, wp_attempt. destruct (Hm s) as (n1 & Ht1 & Hn1).
  specialize (HQ s). unfold wp at 1. unfold wp in HQ.
  eapply wp_mono; [|apply Hk, HQ]. intros r' s' (rs' & n2 & Hr & Ht2 & Hn2 & Hi).
  exists rs', (n2 ++ n1). rewrite Ht2, Ht1, app_assoc. split_and!; [done..| |done]. by apply Forall_app.
Qed.

Lemma bg_triple_attempt fin limit sched' {A} (m : M E A) (k : res A → M E RunSt) :
  emits bg_event m → (∀ r, bg_triple fin limit sched' (k r)) → bg_triple fin limit sched' (attempt m ≫= k).
Proof using Type. intros Hm Hk. by apply (bg_triple_attempt_post _ _ _ _ (λ _, True)). Qed.

(** What a computation returns satisfies [Q], if it returns. *)
Lemma wp_returns {A B} (m : M E A) (f : A → M E B) (Q : res B → Prop) s :
  (∀ e, Q (Raise e)) → (∀ a s', wp (f a) (λ r _, Q r) s') → wp (m ≫= f) (λ r _, Q r) s.
Proof using Type. intros He Hf. apply wp_bind. unfold wp at 1. destruct (m s) as [[a|e] s']; [apply Hf|apply He]. Qed.

Lemma feed_step_bg fin limit sched data rs :
  run_inv fin limit sched rs → bg_triple fin limit sched (feed_step data rs).
Proof using Type.
  intros Hi. unfold feed_step. destruct (stdin_done rs); [by apply bg_triple_ret|].
  apply bg_triple_attempt; [unfold _feed_stdin; emits_tac; by split|]. intros r. by apply bg_triple_ret.
Qed.

Lemma sample_final_bg fin limit sched container rs :
  run_inv fin limit sched rs → bg_triple fin limit sched (sample_final h container rs).
Proof using Type.
  intros Hi. unfold sample_final. pose proof (proj1 Hi) as Hp.
  assert (∀ s, sample_ok s → bg_triple fin limit sched (mret (with_sampler Ended (observed rs) s rs))) as Hret.
  { intros s Hs. by apply bg_triple_ret, run_inv_sampler. }
  destruct (sampler rs); [..|by apply bg_triple_ret];
    (eapply bg_triple_attempt_post; [apply memory_reader_bg|apply (memory_reader_reads h container)|];
     intros [mem|x] Hm; [|by apply Hret];
     eapply bg_triple_attempt_post; [apply cpu_reader_bg|apply (cpu_reader_reads h container)|];
     intros [cpu|x] Hc; apply Hret; [apply note_cpu_ok; [by apply Hc|]|]; apply note_mem_ok; auto).
Qed.

Lemma sample_step_bg fin limit sched container start rs :
  run_inv fin limit sched rs → bg_triple fin limit sched (sample_step h container start rs).
Proof using Type.
  intros Hi. pose proof (proj1 Hi) as Hp. unfold sample_step.
  apply (bg_triple_attempt_post _ _ _ _ (λ r, ∀ rs', r = Ok rs' → run_inv fin limit sched rs')).
  - pose proof resolve_cid_bg. pose proof memory_reader_bg. pose proof cpu_reader_bg.
    unfold sample_memory, sample_cpu, observe_startup. destruct (sampler rs); emits_tac; by split.
  - intros s. destruct (sampler rs); [| |by apply wp_ret; intros ? [= <-]].
    + apply wp_returns; [done|]. intros seen s1.
      refine (returns_bind _ _ (λ rs' _, run_inv fin limit sched rs') s1 _).
      eapply returns_mono; [|apply memory_reader_reads]. intros v s2 Hv. ret_step.
      apply run_inv_sampler; [done|by apply note_mem_ok].
    + refine (returns_bind _ _ (λ rs' _, run_inv fin limit sched rs') s _).
      eapply returns_mono; [|apply cpu_reader_reads]. intros v s2 Hv. ret_step.
      apply run_inv_sampler; [done|by apply note_cpu_ok].
  - intros [rs'|x] H; apply bg_triple_ret; [by apply H|]. by apply run_inv_sampler.
Qed.

Lemma fail_pump_inv fin limit sched k x rs :
  sample_ok (sample rs) → fin = false → run_inv fin limit sched (fail_pump k x rs).
Proof using Type. intros H ->. split; [done|]. simpl. by destruct (gather_exc rs). Qed.

Lemma pump_bg fin limit sched k chunk rs :
  run_inv fin limit sched rs → bg_triple fin limit (sched ++ [(k, chunk)]) (_pump on_output k chunk rs).
Proof.
  intros (Hp & Hi & Hf). unfold _pump.
  assert (∀ rs', pump_failed rs' = pump_failed rs → gather_exc rs' = gather_exc rs → sample rs' = sample rs →
            (pump_failed rs k = false → ∃ kept, pumps_step k chunk (pumps rs) = Ok (kept, pumps rs')) →
            (pump_failed rs k = true → pumps rs' = pumps rs) →
            run_inv fin limit (sched ++ [(k, chunk)]) rs') as Hstep.
  { intros rs' Hpf Hg Hs Hpp Hpt. split; [by rewrite Hs|]. rewrite Hg, Hpf. split.
    - intros Hn. destruct (Hi Hn) as (Hnf & out & Ho). destruct (Hpp (Hnf k)) as (kept & Hk). split; [done|].
      rewrite pump_all_app, Ho. simpl. rewrite Hk. simpl. by eexists.
    - intros Hfin. destruct (Hf Hfin) as [Hn Hd]. split; [done|]. destruct (pump_failed rs k).
      + by rewrite Hpt.
      + destruct (Hpp eq_refl) as (kept & Hk). unfold pumps_step in Hk. rewrite Hd in Hk.
        injection Hk as _ <-. exact Hd. }
  destruct (pump_failed rs k) eqn:Ef; [|destruct (pumps_step k chunk (pumps rs)) as [[kept p]|x] eqn:Ep].
  - apply (bg_triple_ret _ _ _ rs). by apply Hstep.
  - destruct on_output as [f|] eqn:Eo; [destruct kept as [|c kept]|].
    + apply bg_triple_ret, Hstep; [done..| |done]. by eexists.
    + apply bg_triple_attempt; [by apply Hcb|]. intros [[]|x]; apply bg_triple_ret.
      * apply Hstep; [done..| |done]. by eexists.
      * apply fail_pump_inv; [done|]. destruct fin; [|done]. destruct (Hf eq_refl) as [_ Hd].
        unfold pumps_step in Ep. by rewrite Hd in Ep.
    + apply bg_triple_ret, Hstep; [done..| |done]. by eexists.
  - apply bg_triple_ret, fail_pump_inv; [done|]. destruct fin; [|done]. destruct (Hf eq_refl) as [_ Hd].
    unfold pumps_step in Ep. by rewrite Hd in Ep.
Qed.

Lemma bg_triple_bind fin limit sched sched' (m : M E RunSt) (f : RunSt → M E RunSt) :
  bg_triple fin limit sched m → (∀ rs, run_inv fin limit sched rs → bg_triple fin limit sched' (f rs)) →
  bg_triple fin limit sched' (m ≫= f).
Proof using Type.
  intros Hm Hf s. apply wp_bind. eapply wp_mono; [|apply Hm].
  intros r s' (rs & n1 & -> & Ht1 & Hn1 & Hi). eapply wp_mono; [|by apply Hf].
  intros r' s'' (rs' & n2 & -> & Ht2 & Hn2 & Hi'). exists rs', (n2 ++ n1).
  rewrite Ht2, Ht1, app_assoc. split_and!; [done..| |done]. by apply Forall_app.
Qed.

Section JobFacts.
Context (container : pystr) (start : Z) (data : bytes) (fin : bool) (limit : Z).

Lemma bg_steps_bg bs sched rs :
  run_inv fin limit sched rs →
  bg_triple fin limit (sched ++ concat (map bg_chunk bs)) (bg_steps h on_output container start data bs rs).
Proof.
  revert sched rs. induction bs as [|b bs IH]; intros sched rs Hi; simpl.
  - rewrite app_nil_r. by apply bg_triple_ret.
  - rewrite app_assoc. eapply bg_triple_bind; [|intros rs' Hi'; apply IH, Hi'].
    destruct b; simpl; rewrite ?app_nil_r; [by apply pump_bg|by apply feed_step_bg|by apply sample_step_bg].
Qed.

(** The control commands of a trace. *)
Definition ctl (tr : list event) : list event := filter (λ e, control (ev_cmd e) = true) tr.

Lemma ctl_bg tr : Forall bg_event tr → ctl tr = [].
Proof using Type.
  unfold ctl. induction 1 as [|e l [He _] _ IH]; [done|]. rewrite filter_cons_False by congruence. done.
Qed.

Lemma ctl_app tr tr' : ctl (tr ++ tr') = ctl tr ++ ctl tr'.
Proof using Type. apply filter_app. Qed.

(** [acc t0 sched0 L rs s]: since the trace was [t0] the control commands [L] were issued, and the
    local state is the one that the schedule [sched0], continued by the reads since then, leads to. *)
Definition acc (t0 : list event) (sched0 : list (stream_kind * bytes)) (L : list event) (rs : RunSt) (s : st E) : Prop :=
  ∃ new, trace s = new ++ t0 ∧ ctl new = L ∧ run_inv fin limit (sched0 ++ chunks new) rs.

Lemma acc_grow t0 sched0 L rs rs' s s' new :
  acc t0 sched0 L rs s → trace s' = new ++ trace s →
  (∀ sched, run_inv fin limit sched rs → run_inv fin limit (sched ++ chunks new) rs') →
  acc t0 sched0 (ctl new ++ L) rs' s'.
Proof using Type.
  intros (n0 & Ht & Hc & Hi) Ht' Hr. exists (new ++ n0). rewrite Ht', Ht, app_assoc, ctl_app, Hc.
  split_and!; [done..|]. rewrite chunks_app, app_assoc. auto.
Qed.

(** A command of the main task that is not a wait. *)
Lemma acc_call t0 sched0 L rs s c (Q : ans c → st E → Prop) :
  acc t0 sched0 L rs s → c ≠ TBackground →
  (∀ a s', acc t0 sched0 (ctl [Ev c (Ok a)] ++ L) rs s' → answer c (Ok a) → Q a s') → returns (call c) Q s.
Proof using Type.
  intros Ha Hc HQ. apply returns_call_eq. intros a e Heq. apply HQ; [|by exists (env s), e].
  eapply (acc_grow _ _ _ _ _ _ _ [Ev c (Ok a)]); [done|done|]. intros sched.
  by rewrite chunks_single, app_nil_r by done.
Qed.

#[local] Ltac use_call H :=
  lazymatch goal with
  | |- returns ?m _ _ => lazymatch m with call ?c => refine (acc_call _ _ _ _ _ c _ H _ _); [done|] end
  end.

Lemma acc_bg_triple t0 sched0 L rs s m :
  acc t0 sched0 L rs s → (∀ sched, run_inv fin limit sched rs → bg_triple fin limit sched m) →
  returns m (λ rs' s', acc t0 sched0 L rs' s') s.
Proof using Type.
  intros (n0 & Ht & Hc & Hi) Hm. eapply wp_mono; [|apply (Hm _ Hi)].
  intros r s' (rs' & new & -> & Ht' & Hb & Hi') ? [= <-]. exists (new ++ n0).
  rewrite Ht', Ht, app_assoc, ctl_app, (ctl_bg new), chunks_app, (chunks_bg new), app_nil_r by done. done.
Qed.

Lemma acc_background t0 sched0 L rs s :
  acc t0 sched0 L rs s →
  returns (background h on_output container start data rs) (λ rs' s', acc t0 sched0 L rs' s') s.
Proof.
  intros (n0 & Ht & Hc & Hi). unfold background. ret_step. ret_step.
  eapply wp_mono; [|apply (bg_steps_bg a _ _ Hi)].
  intros r s' (rs' & new & -> & Ht' & Hb & Hi') ? [= <-].
  exists (new ++ Ev TBackground (Ok a) :: n0). rewrite Ht'. simpl. rewrite Ht, <- app_assoc.
  split; [done|]. rewrite ctl_app, ctl_bg by done. simpl. split; [done|].
  change (Ev TBackground (Ok a) :: n0) with ([Ev TBackground (Ok a)] ++ n0).
  rewrite !chunks_app, (chunks_bg new), app_nil_r by done. unfold chunks at 2. simpl.
  by rewrite app_nil_r, app_assoc.
Qed.

Lemma acc_suppress t0 sched0 L rs s p (c : cmd) (m : M E unit) (Q : unit → st E → Prop) :
  (∀ s, ∃ a e, m s = (match a with Ok _ => Ok tt | Raise x => Raise x end, St e (mem s) (Ev c a :: trace s))) →
  acc t0 sched0 L rs s → c ≠ TBackground →
  (∀ a s', acc t0 sched0 (ctl [Ev c a] ++ L) rs s' → Q tt s') → returns (suppress p m) Q s.
Proof using Type.
  intros Hm Ha Hc HQ. apply wp_suppress. destruct (Hm s) as (a & e & Hs). unfold wp. rewrite Hs.
  assert (acc t0 sched0 (ctl [Ev c a] ++ L) rs (St e (mem s) (Ev c a :: trace s))) as Ha'.
  { eapply (acc_grow _ _ _ _ _ _ _ [Ev c a]); [done|done|]. intros sched.
    by rewrite chunks_single, app_nil_r by done. }
  destruct a as [a|x]; [|destruct (p x)]; intros [] [=]; by eapply HQ.
Qed.

(** The three ways the SIGTERM-SIGKILL ladder can go, oldest command first. *)
Definition ladder (evs : list event) : Prop :=
  (∃ a, evs = [Ev (DSimple (kill_argv h container (u "TERM"))) (Ok a);
               Ev (PWait (Some (sigterm_grace_seconds (config h)))) (Ok true)]) ∨
  (∃ a b, evs = [Ev (DSimple (kill_argv h container (u "TERM"))) (Ok a);
                 Ev (PWait (Some (sigterm_grace_seconds (config h)))) (Ok false);
                 Ev (DSimple (kill_argv h container (u "KILL"))) (Ok b);
                 Ev (PWait (Some _KILL_WAIT_SECONDS)) (Ok true)]) ∨
  (∃ a b c d e, evs = [Ev (DSimple (kill_argv h container (u "TERM"))) (Ok a);
                       Ev (PWait (Some (sigterm_grace_seconds (config h)))) (Ok false);
                       Ev (DSimple (kill_argv h container (u "KILL"))) (Ok b);
                       Ev (PWait (Some _KILL_WAIT_SECONDS)) (Ok false);
                       Ev (DSimple (rm_argv h container)) (Ok c); Ev PKill d; Ev (PWait None) (Ok e)]).

Lemma terminate_acc t0 sched0 L rs s :
  acc t0 sched0 L rs s →
  returns (_terminate h on_output container start data rs)
    (λ rs' s', ∃ K, acc t0 sched0 (K ++ L) rs' s' ∧ ladder (rev K)) s.
Proof.
  intros H0. unfold _terminate.
  ret_step. use_call H0. intros a s1 H1 _.
  ret_step. eapply returns_mono; [|by apply acc_background]. intros rs1 s2 H2.
  ret_step. use_call H2. intros [] s3 H3 _.
  { ret_step. eexists [_; _]. split; [exact H3|]. left. by eexists. }
  ret_step. use_call H3. intros b s4 H4 _.
  ret_step. eapply returns_mono; [|by apply acc_background]. intros rs2 s5 H5.
  ret_step. use_call H5. intros [] s6 H6 _.
  { ret_step. eexists [_; _; _; _]. split; [exact H6|]. right; left. by eexists _, _. }
  ret_step. use_call H6. intros c s7 H7 _.
  ret_step. eapply (acc_suppress _ _ _ _ _ _ PKill); [|exact H7|done|].
  { intros s'. unfold call. destruct (handle PKill (env s')) as [[[]|x] e]; [by exists (Ok tt), e|by exists (Raise x), e]. }
  intros d s8 H8.
  ret_step. eapply returns_mono; [|by apply acc_background]. intros rs3 s9 H9.
  ret_step. use_call H9. intros e s10 H10 _.
  ret_step. eexists [_; _; _; _; _; _; _]. split; [exact H10|]. right; right. by eexists _, _, _, _, _.
Qed.

(** The control commands of a run, oldest first, with the outcome they give. *)
Definition waited (timeout : Z) (cancellable : bool) (o : outcome) (evs : list event) : Prop :=
  ∃ exited cancelled kills,
    evs = Ev (PWaitAny timeout cancellable) (Ok (exited, cancelled)) :: kills ∧
    if (exited : bool) then o = Completed ∧ kills = []
    else o = (if cancellable && cancelled then Killed else TimedOut) ∧ ladder kills.

Lemma await_completion_acc t0 sched0 L rs s timeout cancellable :
  acc t0 sched0 L rs s →
  returns (_await_completion h on_output container start data timeout cancellable rs)
    (λ '(o, rs') s', ∃ K, acc t0 sched0 (K ++ L) rs' s' ∧ waited timeout cancellable o (rev K)) s.
Proof.
  intros H0. unfold _await_completion.
  ret_step. eapply returns_mono; [|by apply acc_background]. intros rs1 s1 H1.
  ret_step. use_call H1. intros [[] cancelled] s2 H2 _.
  { ret_step. eexists [_]. split; [exact H2|]. by eexists true, cancelled, []. }
  ret_step. eapply returns_mono; [|by apply terminate_acc]. intros rs2 s3 (K & H3 & Hl).
  ret_step. exists (K ++ [Ev (PWaitAny timeout cancellable) (Ok (false, cancelled))]).
  rewrite <- app_assoc. split; [exact H3|]. rewrite rev_app_distr. by eexists false, cancelled, (rev K).
Qed.

(** After the pumps were awaited, the schedule so far contains the ends of both streams. *)
Lemma await_pumps_acc t0 L rs s :
  acc t0 [] L rs s →
  returns (await_pumps h on_output container start data rs)
    (λ rs' s', ∃ new, trace s' = new ++ t0 ∧ ctl new = L ∧ run_inv true limit (chunks new) rs') s.
Proof.
  intros H0. unfold await_pumps.
  ret_step. eapply returns_mono; [|by apply acc_background]. intros rs1 s1 (n1 & Ht1 & Hc1 & Hp & Hi & _).
  destruct (gather_exc rs1) eqn:Hg; [ret_step|].
  destruct (pumps_ended (pumps rs1)) eqn:He; [|do 2 ret_step; ret_step].
  ret_step. exists n1. split; [done|]. split; [done|]. split; [done|]. split; [exact (λ _, Hi eq_refl)|]. intros _. split; [done|].
  apply andb_prop in He as [H1%bool_decide_eq_true_1 H2%bool_decide_eq_true_1]. by intros [].
Qed.

Lemma acc_emits t0 sched0 L rs s {A} (m : M E A) (Q : A → st E → Prop) :
  acc t0 sched0 L rs s → emits bg_event m →
  (∀ a s', acc t0 sched0 L rs s' → Q a s') → returns m Q s.
Proof using Type.
  intros (n0 & Ht & Hc & Hi) Hm HQ. eapply returns_mono; [|by apply emits_returns].
  intros a s' (new & Ht' & Hb). apply HQ. exists (new ++ n0).
  rewrite Ht', Ht, app_assoc, ctl_app, (ctl_bg new), chunks_app, (chunks_bg new), app_nil_r by done. done.
Qed.
End JobFacts.

#[local] Ltac use_call H :=
  lazymatch goal with
  | |- returns ?m _ _ => lazymatch m with call ?c => refine (acc_call _ _ _ _ _ _ _ c _ H _ _); [done|] end
  end.

Lemma build_command_bg rt request workdir container :
  emits bg_event (_build_command h rt request workdir container).
Proof using Type.
  unfold _build_command, seccomp_profile_path, Seccomp.profile_path, Seccomp.write_profile. emits_tac; by split.
Qed.

Lemma verify_image_bg rt : emits bg_event (_verify_image h rt).
Proof using Type. unfold _verify_image. emits_tac; by split. Qed.

Lemma write_file_bg workdir name content : emits bg_event (_write_file h workdir name content).
Proof using Type. unfold _write_file. emits_tac; by split. Qed.

Lemma write_input_bg workdir f : emits bg_event (write_input h workdir f).
Proof using Type. unfold write_input. pose proof write_file_bg. emits_tac. Qed.

Lemma prepare_workdir_bg rt request job_id : emits bg_event (_prepare_workdir h rt request job_id).
Proof using Type.
  unfold _prepare_workdir. pose proof write_file_bg. pose proof write_input_bg. emits_tac; by split.
Qed.

(** What the events [new] of a run (newest first) and its result have to do with each other: the
    control commands are the spawn, the wait, the ladder if the wait timed out or was cancelled, and
    the return code; both pipes were read to their end, and the output is the capture of all the
    chunks that were read; the result is assembled from these, a sample and two readings of the
    clock. *)
Definition run_report (rt : RuntimeConfig) (request : ExecutionRequest) (job_id container : pystr)
    (cancellable : bool) (new : list event) (res : ExecutionResult) : Prop :=
  ∃ argv spawned waits rc o out p smp start stop,
    rev (ctl new) = Ev (DSpawn argv) (Ok spawned) :: waits ++ [Ev PReturncode (Ok rc)] ∧
    waited container (clamp_timeout (rt_limits rt) (Some (req_timeout request))) cancellable o waits ∧
    (∀ k, ends k (chunks new) = true) ∧
    pump_all (chunks new) (new_pumps (output_max_bytes (rt_limits rt))) = Ok (out, p) ∧
    sample_ok smp ∧
    (answer PReturncode (Ok rc) ∧ answer TMonotonic (Ok start) ∧ answer TMonotonic (Ok stop)) ∧
    res = _build_result job_id rc o (capture p) smp (Z.quot (stop - start) 1000).

Lemma run_returns rt request job_id workdir container cancellable t0 s :
  (∃ pre, trace s = pre ++ t0 ∧ Forall bg_event pre) →
  returns (_run h on_output rt request job_id workdir container cancellable)
    (λ res s', ∃ new, trace s' = new ++ t0 ∧ run_report rt request job_id container cancellable new res) s.
Proof.
  intros (pre & Hpre & Hbg). unfold _run. set (limit := output_max_bytes (rt_limits rt)). cbv zeta.
  assert (acc false limit t0 [] [] (run0 limit) s) as H0.
  { exists pre. rewrite ctl_bg, chunks_bg by done. split_and!; [done..|apply run_inv_init]. }
  ret_step. use_call H0. intros start s1 H1 Hstart.
  ret_step. eapply acc_emits; [exact H1|apply build_command_bg|]. intros argv s2 H2.
  ret_step. use_call H2. intros spawned s3 H3 _.
  ret_step. ret_step. rename a into data.
  ret_step. eapply returns_mono; [|apply (await_completion_acc _ _ _ _ _ _ _ _ _ _ _ _ H3)].
  intros [o rs1] s4 (K & H4 & Hw).
  ret_step. eapply returns_mono; [|apply (await_pumps_acc _ _ _ _ _ _ _ _ _ H4)].
  intros rs2 s5 (n5 & Ht5 & Hc5 & Hi5).
  assert (acc true limit (trace s5) (chunks n5) [] rs2 s5) as H5.
  { exists []. split_and!; [done..|]. unfold chunks at 2. simpl. by rewrite app_nil_r. }
  ret_step. eapply returns_mono; [|apply (acc_background _ _ _ _ _ _ _ _ _ _ H5)]. intros rs3 s6 H6.
  ret_step. eapply returns_mono; [|apply (acc_bg_triple _ _ _ _ _ _ _ _ H6); intros; by apply feed_step_bg].
  intros rs4 s7 H7.
  ret_step. eapply returns_mono; [|apply (acc_bg_triple _ _ _ _ _ _ _ _ H7); intros; by apply sample_final_bg].
  intros rs5 s8 H8.
  ret_step. use_call H8. intros stop s9 H9 Hstop. ret_step. use_call H9. intros rc s10 H10 Hrc. ret_step.
  destruct H10 as (n10 & Ht & Hc & Hp & Hi & Hf). destruct (Hf eq_refl) as [Hg Hd].
  destruct (Hi Hg) as (_ & out & Ho). rewrite <- chunks_app in Ho.
  exists (n10 ++ n5). rewrite Ht, Ht5, app_assoc. split; [done|].
  exists argv, spawned, (rev K), rc, o, out, (pumps rs5), (sample rs5), start, stop.
  split_and!; [|exact Hw| |done..].
  - rewrite ctl_app, Hc, Hc5.
    transitivity (rev ([Ev PReturncode (Ok rc)] ++ K ++ [Ev (DSpawn argv) (Ok spawned)])); [reflexivity|].
    by rewrite !rev_app_distr.
  - intros k. apply bool_decide_eq_true_2. destruct (pump_all_ended _ _ _ _ k Ho (Hd k)) as [Hk|?]; [|done].
    by destruct k.
Qed.


(** ** The whole of [execute] *)

Lemma cleanup_spec container workdir s :
  wp (_cleanup h container workdir) (λ r s',
    cid_cache (mem s') !! container = None ∧
    ((∃ a b, trace s' = Ev (FRmtree workdir) a :: Ev (DSimple (rm_argv h container)) b :: trace s) ∨
     (∃ e, is_Exception e = false ∧ r = Raise e ∧
           trace s' = Ev (DSimple (rm_argv h container)) (Raise e) :: trace s))) s.
Proof using Type.
  unfold _cleanup. wp_step. wp_step. wp_step. wp_step. wp_step. wp_step.
  destruct r as [a|x].
  - wp_step. wp_step. wp_step. destruct r as [[]|x];
      (split; [apply lookup_delete_eq|]; left; by eexists _, _).
  - destruct (is_Exception x) eqn:Ex.
    + wp_step. wp_step. destruct r as [[]|y];
      (split; [apply lookup_delete_eq|]; left; by eexists _, _).
    + split; [apply lookup_delete_eq|]. right. by exists x.
Qed.

Lemma prepare_workdir_made rt request job_id s :
  returns (_prepare_workdir h rt request job_id)
    (λ w s', ∃ new, trace s' = new ++ trace s ∧ Forall bg_event new ∧
       Ev (FMkdtemp (job_id ++ u "-") (local_workdir (config h))) (Ok w) ∈ new) s.
Proof using Type.
  unfold _prepare_workdir. do 4 ret_step. rename a0 into w. do 2 ret_step.
  ret_step. eapply returns_mono; [|apply emits_returns, write_file_bg]. intros [] s1 (n1 & Ht1 & Hb1).
  ret_step. eapply returns_mono; [|apply emits_returns, emits_for_each, write_input_bg].
  intros [] s2 (n2 & Ht2 & Hb2). ret_step.
  exists (n2 ++ n1 ++ [Ev (FChmod w 493) (Ok a0);
    Ev (FMkdtemp (job_id ++ u "-") (local_workdir (config h))) (Ok w);
    Ev (FMakedirs (local_workdir (config h))) (Ok a)]).
  rewrite Ht2, Ht1, <- !app_assoc. split; [done|]. split; [|rewrite !elem_of_app; do 2 right; right; left].
  rewrite !Forall_app. split_and!; [done..|]. by repeat constructor.
Qed.

Lemma execute_returns request job_id cancellable s :
  returns (execute h on_output request job_id cancellable)
    (λ res s', ∃ rt w new a b,
       get_runtime (h_registry h) (req_language request) = Ok rt ∧
       trace s' = Ev (FRmtree w) a :: Ev (DSimple (rm_argv h (container_name job_id))) b :: new ++ trace s ∧
       run_report rt request job_id (container_name job_id) cancellable new res) s.
Proof.
  unfold execute. ret_step. ret_step. rename a into rt.
  ret_step. eapply returns_mono; [|apply emits_returns, verify_image_bg]. intros [] s1 (n1 & Ht1 & Hb1).
  ret_step. eapply returns_mono; [|apply emits_returns, prepare_workdir_bg]. intros w s2 (n2 & Ht2 & Hb2).
  ret_step. eapply returns_mono; [|apply (run_returns _ _ _ _ _ _ (trace s))].
  - intros res s3 (new & Ht & Hr). eapply wp_mono; [|apply cleanup_spec].
    intros r s4 (_ & [(a & b & Ht4)|(e & _ & -> & _)]) [] [=]. subst r. exists rt, w, new, a, b.
    split; [done|]. by rewrite Ht4, Ht.
  - exists (n2 ++ n1). rewrite Ht2, Ht1, app_assoc. split; [done|]. by apply Forall_app.
Qed.

(** C8: a job that was started is always cleaned up.  Whatever Docker, the file system and the
    output callback do, and whether [execute] returns or raises, either the container was never
    started and an exception is raised, or the last two commands are the forced removal of the
    container and the deletion of the directory that was created for the job, and its cached id is
    dropped; the deletion is skipped only when the removal itself is interrupted by a cancellation. *)
Theorem execute_cleans_up request job_id cancellable s :
  wp (execute h on_output request job_id cancellable) (λ r s',
    (∃ new, trace s' = new ++ trace s ∧ is_ok r = false ∧ ∀ e argv, e ∈ new → ev_cmd e ≠ DSpawn argv) ∨
    (cid_cache (mem s') !! container_name job_id = None ∧
     ∃ w t, Ev (FMkdtemp (job_id ++ u "-") (local_workdir (config h))) (Ok w) ∈ t ∧
       let rm := DSimple (rm_argv h (container_name job_id)) in
       ((∃ a b, trace s' = Ev (FRmtree w) a :: Ev rm b :: t) ∨
        (∃ x, is_Exception x = false ∧ r = Raise x ∧ trace s' = Ev rm (Raise x) :: t)))) s.
Proof.
  assert (∀ new, Forall bg_event new → ∀ e argv, e ∈ new → ev_cmd e ≠ DSpawn argv) as Hno.
  { intros new H e argv Hin Heq. rewrite Forall_forall in H. destruct (H e Hin) as [Hc _]. by rewrite Heq in Hc. }
  unfold execute. wp_step. wp_step. destruct (get_runtime _ _) as [rt|x]; [|left; exists []; split_and!; [done..|by apply Hno]].
  wp_step. destruct (verify_image_bg rt s) as (n1 & Ht1 & Hb1). unfold wp at 1.
  destruct (_verify_image h rt s) as [[[]|x] s1]; cbn [fst snd] in *; [|left; exists n1; split_and!; [done..|by apply Hno]].
  wp_step. destruct (prepare_workdir_bg rt request job_id s1) as (n2 & Ht2 & Hb2).
  pose proof (prepare_workdir_made rt request job_id s1) as Hmade. unfold returns in Hmade. unfold wp at 1. unfold wp at 1 in Hmade.
  destruct (_prepare_workdir h rt request job_id s1) as [[w|x] s2]; cbn [fst snd] in *.
  - destruct (Hmade w eq_refl) as (n2' & Ht2' & _ & Hin). apply wp_finally.
    assert (emits (λ _, True) (_run h on_output rt request job_id w (container_name job_id) cancellable)) as Hgrow.
    { apply run_local; [done|]. intros f k text Hf. eapply emits_weaken; [|by eapply Hcb]. done. }
    destruct (Hgrow s2) as (n3 & Ht3 & _). unfold wp at 1.
    eapply wp_mono; [|apply cleanup_spec]. intros rc s4 (Hcid & Hcase).
    assert (Ev (FMkdtemp (job_id ++ u "-") (local_workdir (config h))) (Ok w) ∈ n3 ++ n2' ++ trace s1) as Hw.
    { rewrite !elem_of_app. auto. }
    rewrite <- Ht2', <- Ht3 in Hw.
    destruct Hcase as [(a & b & Ht)|(x & Hx & -> & Ht)].
    + destruct rc; right; (split; [done|]); eexists w, _; (split; [exact Hw|]); left; by exists a, b.
    + right. split; [done|]. eexists w, _. split; [exact Hw|]. right. by exists x.
  - left. exists (n2 ++ n1). rewrite Ht2, Ht1, app_assoc. split_and!; [done..|]. apply Hno. by apply Forall_app.
Qed.

(** C11: the status of a result says how the run ended.  When [execute] returns, the commands it
    issued to control the container are: one spawn; one wait bounded by the clamped timeout; if the
    container did not exit by itself, the SIGTERM-SIGKILL ladder, and never otherwise; the return
    code.  The status is COMPLETED or, for an exit by SIGKILL nobody sent, FAILED with the
    out-of-memory flag, with the exit code; or else TIMEOUT or KILLED without an exit code. *)
Theorem execute_outcome request job_id cancellable s :
  returns (execute h on_output request job_id cancellable) (λ res s',
    ∃ rt new w a b argv spawned waits rc o,
      get_runtime (h_registry h) (req_language request) = Ok rt ∧
      trace s' = Ev (FRmtree w) a :: Ev (DSimple (rm_argv h (container_name job_id))) b :: new ++ trace s ∧
      rev (ctl new) = Ev (DSpawn argv) (Ok spawned) :: waits ++ [Ev PReturncode (Ok rc)] ∧
      waited (container_name job_id) (clamp_timeout (rt_limits rt) (Some (req_timeout request))) cancellable o waits ∧
      Types.job_id res = job_id ∧
      match o with
      | Completed =>
          exit_code res = rc ∧ timed_out res = false ∧
          if decide (rc = Some 137) then status res = STATUS_FAILED ∧ oom_killed res = true
          else status res = STATUS_COMPLETED ∧ oom_killed res = false
      | TimedOut => status res = STATUS_TIMEOUT ∧ exit_code res = None ∧ timed_out res = true ∧ oom_killed res = false
      | Killed => status res = STATUS_KILLED ∧ exit_code res = None ∧ timed_out res = false ∧ oom_killed res = false
      end) s.
Proof.
  eapply returns_mono; [|apply execute_returns].
  intros res s' (rt & w & new & a & b & Hrt & Ht & Hrep).
  destruct Hrep as (argv & spawned & waits & rc & o & out & p & smp & start & stop & Hctl & Hw & _ & _ & _ & _ & ->).
  exists rt, new, w, a, b, argv, spawned, waits, rc, o. split_and!; [done..|].
  unfold _build_result, _SIGKILL_EXIT. destruct o; [|done..]. simpl. split; [done|]. split; [done|].
  case_decide as Hd; [by rewrite bool_decide_eq_true_2|by rewrite bool_decide_eq_false_2].
Qed.

(** The capture a run ends with is a correct capture of what the pipes delivered up to their end. *)
Lemma capture_run limit sched out p :
  pump_all sched (new_pumps limit) = Ok (out, p) → (∀ k, ends k sched = true) →
  0 ≤ limit → Forall (λ e, is_bytes e.2) sched →
  ∃ ts, cap_inv limit ts (capture p) ∧ ∀ k, of_kind k ts = full_text sched k.
Proof using Type.
  intros Hp He Hlim Hb. destruct (capture_final limit sched) as (out' & p' & ts & Hr & Hc & Hts & _); [done..|].
  rewrite Hp in Hr. injection Hr as <- <-. by exists ts.
Qed.

Lemma capture_run_scalar limit ts c sched k :
  cap_inv limit ts c → (∀ k, of_kind k ts = full_text sched k) →
  Forall (λ e, is_bytes e.2) sched → scalar_str (cap_text k c).
Proof using Type.
  intros [_ Hc] Hts Hb.
  assert (scalar_str (of_kind k ts)) as Hs.
  { rewrite Hts. apply decode_buf_scalar; [apply replacement_scalar|by apply received_bytes]. }
  destruct (cap_truncated c); [|destruct Hc as (_ & _ & ->); exact Hs].
  destruct Hc as (_ & _ & Hpre & _). destruct (Hpre k) as [x Hx]. rewrite Hx in Hs. by apply Forall_app in Hs as [? _].
Qed.

(** C32: the output of a result.  When [execute] returns, both pipes were read to their end.  If they
    delivered bytes, the two texts of the result together encode to at most the runtime's output
    limit; each is a prefix of the UTF-8 decoding of everything its pipe delivered, and all of it
    unless the result is marked as truncated, which it is exactly when the decoded output exceeds
    the limit; and the reported peak memory is not negative. *)
Theorem execute_output request job_id cancellable s :
  returns (execute h on_output request job_id cancellable) (λ res s',
    ∃ rt w new a b,
      get_runtime (h_registry h) (req_language request) = Ok rt ∧
      trace s' = Ev (FRmtree w) a :: Ev (DSimple (rm_argv h (container_name job_id))) b :: new ++ trace s ∧
      (∀ k, ends k (chunks new) = true) ∧ 0 ≤ memory_bytes res ∧
      (0 ≤ output_max_bytes (rt_limits rt) → Forall (λ e, is_bytes e.2) (chunks new) →
       let limit := output_max_bytes (rt_limits rt) in
       let delivered := full_text (chunks new) in
       let text k := match k with Stdout => stdout res | Stderr => stderr res end in
       total text ≤ limit ∧
       (truncated res = true ↔ limit < total delivered) ∧
       ∀ k, text k `prefix_of` delivered k ∧ (truncated res = false → text k = delivered k))) s.
Proof.
  eapply returns_mono; [|apply execute_returns].
  intros res s' (rt & w & new & a & b & Hrt & Ht & Hrep).
  destruct Hrep as (argv & spawned & waits & rc & o & out & p & smp & start & stop & Hctl & Hw & He & Hp & (Hpk & _) & _ & ->).
  exists rt, w, new, a, b. split_and!; [done..|]. intros Hlim Hb. cbv zeta.
  set (limit := output_max_bytes (rt_limits rt)) in *.
  destruct (capture_run _ _ _ _ Hp He Hlim Hb) as (ts & [_ Hc] & Hfull).
  unfold _build_result. cbn [stdout stderr truncated].
  assert (total (λ k, of_kind k ts) = total (full_text (chunks new))) as Htot by (unfold total; by rewrite !Hfull).
  change (total (λ k, match k with Stdout => cap_stdout (capture p) | Stderr => cap_stderr (capture p) end))
    with (total (λ k, cap_text k (capture p))).
  split; [|split].
  - destruct (cap_truncated (capture p)); [by destruct Hc as (_ & _ & _ & _ & ?)|].
    destruct Hc as (Hu & Hle & Heq). unfold total in *. rewrite !Heq. lia.
  - rewrite <- Htot. destruct (cap_truncated (capture p)); [by destruct Hc as (_ & ? & _)|].
    split; [done|]. destruct Hc as (Hu & Hle & _). lia.
  - intros k. change (match k with Stdout => _ | Stderr => _ end) with (cap_text k (capture p)). rewrite <- Hfull.
    destruct (cap_truncated (capture p)); [by destruct Hc as (_ & _ & Hpre & _)|].
    destruct Hc as (_ & _ & ->). done.
Qed.

(** ** Results that text can carry *)

Context {PL : PyRuntimeLaws} {SW : SaneWorld E} (Hlimits : host_limits h).

Lemma execute_chunks request job_id cancellable :
  emits (λ e, Forall (λ c, is_bytes c.2) (event_chunks e)) (execute h on_output request job_id cancellable).
Proof using Hcb SW.
  apply execute_local.
  - intros c r _ Ha. destruct (decide (c = TBackground)) as [->|Hne]; [|by rewrite event_chunks_other].
    destruct r as [bs|x]; [by apply pipe_bytes|done].
  - intros f k text Hf. eapply emits_weaken; [|by eapply Hcb].
    intros e [_ He]. by rewrite event_chunks_other.
Qed.

Lemma chunks_bytes tr :
  Forall (λ e, Forall (λ c, is_bytes c.2) (event_chunks e)) tr → Forall (λ c, is_bytes c.2) (chunks tr).
Proof using Type. intros H. unfold chunks. by apply Forall_concat, Forall_map, Forall_rev. Qed.

Lemma execute_printable request job_id cancellable s :
  returns (execute h on_output request job_id cancellable) (λ res _, scalar_str job_id → wf_result res) s.
Proof.
  intros res Hres. destruct (execute_chunks request job_id cancellable s) as (all & Hall & Hbytes).
  destruct (execute_returns request job_id cancellable s res Hres) as (rt & w & new & a & b & Hrt & Ht & Hrep).
  destruct Hrep as (argv & spawned & waits & rc & o & out & p & smp & start & stop & _ & _ & He & Hp
    & (_ & Hpeak & Hcpu) & (Hrc & Hstart & Hstop) & ->).
  rewrite Ht in Hall. change (?x :: ?y :: new ++ trace s) with ((x :: y :: new) ++ trace s) in Hall.
  apply app_inv_tail in Hall as <-. apply chunks_bytes in Hbytes.
  change (?x :: ?y :: new) with ([x; y] ++ new) in Hbytes. rewrite chunks_app in Hbytes.
  apply Forall_app in Hbytes as [Hbytes _].
  destruct (capture_run _ _ _ _ Hp He (Hlimits _ _ Hrt) Hbytes) as (ts & Hc & Hfull).
  pose proof (λ k, capture_run_scalar _ _ _ _ k Hc Hfull Hbytes) as Hsc.
  intros Hj. unfold wf_result. split_and!; try done;
    [|apply (Hsc Stdout)|apply (Hsc Stderr)|..|by apply read_value_small]; cbn [status exit_code wall_time_ms cpu_time_ms _build_result].
  - destruct o; [case_bool_decide|..]; apply u_scalar.
  - destruct o, rc; try done. by apply small_int_width, returncode_width.
  - apply clock_width in Hstart, Hstop. apply small_int_width. apply quot_width. lia.
  - eapply small_int_mono; [apply div_abs|by apply read_value_small].
Qed.

(** C31: every result is well formed.  When [execute] returns, the result is of the requested job, has
    a terminal status, and its flags and exit code agree with it: timed out exactly for TIMEOUT, out
    of memory exactly for FAILED and then with exit code 137, an exit code only for COMPLETED and
    FAILED, no output files, no negative peak memory.  For a job id that is text, every field is
    printable, so the text the worker stores decodes to exactly the fields of the result. *)
Theorem execute_result_typed request job_id cancellable s :
  returns (execute h on_output request job_id cancellable) (λ res _,
    Types.job_id res = job_id ∧ consistent_status res ∧ 0 ≤ memory_bytes res ∧ out_files res = [] ∧
    (scalar_str job_id → wf_result res ∧ json_loads (json_dumps (to_dict res)) = Ok (to_dict res))) s.
Proof.
  intros res Hres. pose proof (execute_printable request job_id cancellable s res Hres) as Hwf.
  destruct (execute_returns request job_id cancellable s res Hres) as (rt & w & new & a & b & _ & _ & Hrep).
  destruct Hrep as (argv & spawned & waits & rc & o & out & p & smp & start & stop & _ & _ & _ & _
    & (Hpeak & _) & _ & ->).
  split_and!; [done|apply build_result_consistent|done|done|].
  intros Hj. split; [by apply Hwf|]. by apply loads_dumps, to_dict_wf, Hwf.
Qed.
End RunFacts.

(** ** A concrete run *)
Module ExampleRun.
#[local] Existing Instances AsciiRuntime.ascii_runtime AsciiRuntime.ascii_runtime_laws.
#[local] Existing Instance PlainJson.plain_json.

(** A container that prints a greeting, split inside a character, and exits. *)
Definition answers (c : cmd) : res (ans c) :=
  match c return res (ans c) with
  | FMkdtemp _ _ => Ok (u "/tmp/sandbox-work/j-1")
  | FRealpath p => Ok p
  | TBackground => Ok [BgRead Stdout [104; 0xC3]; BgSample; BgRead Stderr []; BgRead Stdout [0xA9]; BgRead Stdout []]
  | c => Ok (Scripted.default_ans c)
  end.

#[local] Instance world : Handler unit := Scripted.world answers.

Definition publish : option (stream_kind → pystr → M unit unit) :=
  Some (λ k text, _ ← call (RPublish (u "c") text); mret tt).

Lemma publish_ok : callback_ok publish.
Proof. intros f k text [= <-]. emits_tac. by split. Qed.

Definition request : ExecutionRequest :=
  {| req_language := u "python"; req_code := u "print('h')"; req_stdin := []; req_timeout := 5;
     req_env_vars := []; req_files := [] |}.

Definition outcome_of_run : res ExecutionResult * st unit :=
  execute ExampleHost.host publish request (u "j") true Scripted.start.

Definition result : ExecutionResult :=
  Eval vm_compute in (match outcome_of_run.1 with Ok r => r | Raise _ => bare_result [] [] end).

Lemma outcome_eq : fst (execute ExampleHost.host publish request (u "j") true Scripted.start) = Ok result.
Proof. vm_compute. reflexivity. Qed.

Example run_completes : status result = STATUS_COMPLETED ∧ stdout result = [104; 0xE9].
Proof. by vm_compute. Qed.

Lemma execute_cleans_up_witness :
  callback_ok publish ∧ cid_cache (mem outcome_of_run.2) !! container_name (u "j") = None.
Proof.
  split; [exact publish_ok|].
  pose proof (execute_cleans_up ExampleHost.host publish publish_ok request (u "j") true Scripted.start) as H.
  destruct H as [(new & _ & Hok & _)|[H _]]; [rewrite outcome_eq in Hok; discriminate Hok|exact H].
Defined.

Lemma execute_outcome_witness : callback_ok publish ∧ Types.job_id result = u "j".
Proof.
  split; [exact publish_ok|].
  pose proof (execute_outcome ExampleHost.host publish publish_ok request (u "j") true Scripted.start) as H.
  specialize (H result outcome_eq).
  destruct H as (rt & new & w & a & b & argv & spawned & waits & rc & o & _ & _ & _ & _ & H & _). exact H.
Defined.

#[local] Instance sane_world : SaneWorld unit.
Proof.
  split; intros a (e & e' & H); injection H as <-; [|by vm_compute..|by constructor].
  repeat constructor; simpl; lia.
Qed.

Lemma limits : host_limits ExampleHost.host.
Proof.
  intros language rt H. destruct (get_runtime_spec ∅ language) as (reg & Hreg & Hspec).
  assert (reg = h_registry ExampleHost.host) as ->.
  { assert (Ok reg = Ok (h_registry ExampleHost.host)) as He by (rewrite <- Hreg; reflexivity).
    exact (f_equal (λ r, match r with Ok x => x | Raise _ => reg end) He). }
  rewrite H in Hspec. destruct Hspec as (_ & _ & _ & Hs & _). unfold sound_config in Hs. lia.
Qed.

Lemma delivered_bytes : Forall (λ c, is_bytes c.2) (chunks (trace outcome_of_run.2)).
Proof.
  destruct (execute_chunks ExampleHost.host publish publish_ok request (u "j") true Scripted.start)
    as (new & Ht & Hb). fold outcome_of_run in Ht. rewrite Ht, app_nil_r. by apply chunks_bytes.
Qed.

Lemma execute_output_witness :
  callback_ok publish ∧ stdout result = [104; 0xE9] ∧
  full_text (chunks (trace outcome_of_run.2)) Stdout = stdout result.
Proof.
  split; [exact publish_ok|]. split; [reflexivity|].
  pose proof (execute_output ExampleHost.host publish publish_ok request (u "j") true Scripted.start) as H.
  specialize (H result outcome_eq). destruct H as (rt & w & new & a & b & Hrt & Ht & _ & _ & H).
  fold outcome_of_run in Ht. rewrite app_nil_r in Ht.
  assert (chunks (trace outcome_of_run.2) = chunks new) as Hc.
  { rewrite Ht. change (?x :: ?y :: new) with ([x; y] ++ new). rewrite chunks_app. apply app_nil_r. }
  rewrite Hc. symmetry. destruct H as (_ & _ & H); [exact (limits _ _ Hrt)| |by apply (H Stdout)].
  rewrite <- Hc. apply delivered_bytes.
Defined.

Lemma execute_result_typed_witness : scalar_str (u "j") ∧ consistent_status result ∧ wf_result result.
Proof.
  split; [apply u_scalar|].
  pose proof (execute_result_typed ExampleHost.host publish publish_ok limits request (u "j") true Scripted.start) as H.
  specialize (H result outcome_eq). destruct H as (_ & H & _ & _ & Hwf). split; [exact H|].
  apply Hwf. apply u_scalar.
Defined.
End ExampleRun.
