(* ===== verification/Store.v ===== *)
(** * Results, records and live output ([worker/storage/result_store.py], [worker/queue/publisher.py])

    The hot copy of a result in Redis, its cold copy in MinIO, the job record the API reads, and the
    messages of the per-job channel. *)
From S2P Require Import Prelude PyStr Utf8 Errors Json JsonText Effects Constants Types.
From stdpp Require Import options.

Section Store.
Context {JR : JsonRuntime} {E : Type} {HE : Handler E}.

(** Whether a MinIO client could be built, and the bucket. *)
Context (minio : bool) (bucket : pystr).

Definition ensure_bucket : M E unit :=
  if minio then
    suppress is_Exception
      (found ← call (MBucketExists bucket);
       if (found : bool) then mret tt else call (MMakeBucket bucket))
  else mret tt.

Definition is_JSONDecodeError (e : exc) : bool := match e with JSONDecodeError => true | _ => false end.

(** A decoded value as an optional one: [null] is Python's [None]. *)
Definition not_none (j : json) : option json := match j with JNull => None | j => Some j end.

Definition get_record (job_id : pystr) : M E (option json) :=
  raw ← call (RGet (job_record_key job_id));
  match raw with
  | None => mret None
  | Some text =>
      try_except (record ← lift (json_loads text); mret (not_none record))
        (λ e, if is_JSONDecodeError e then Some (mret None) else None)
  end.

Definition is_cancelled (job_id : pystr) : M E bool :=
  n ← call (RExists (cancel_key job_id)); mret (negb (n =? 0)).

(** The record with [fields] replaced and the time stamp set. *)
Definition patched (d fields : list (pystr * json)) (now : pystr) : list (pystr * json) :=
  dict_set (u "updated_at") (JStr now) (dict_update d fields).

Definition patch_record (job_id : pystr) (fields : list (pystr * json)) : M E (option json) :=
  record ← get_record job_id;
  match record with
  | None => mret None
  | Some record =>
      d ← lift (as_dict record);
      now ← call TNowIso;
      let record' := JDict (patched d fields now) in
      _ ← call (RSet (job_record_key job_id) (json_dumps record') SetKeepTtl);
      mret (Some record')
  end.

Definition release_slot (user_id job_id : pystr) : M E unit :=
  if user_id =s [] then mret tt
  else suppress is_Exception (_ ← call (RZrem (concurrency_key user_id) job_id); mret tt).

Definition set_running (job_id worker_id : pystr) : M E unit :=
  _ ← patch_record job_id [(u "status", JStr STATUS_RUNNING); (u "worker_id", JStr worker_id)];
  mret tt.

Definition result_text (r : ExecutionResult) : pystr := json_dumps (to_dict r).

Definition _archive (job_id : pystr) (r : ExecutionResult) : M E unit :=
  if minio then
    body ← lift (or_raise (utf8_encode (result_text r)) UnicodeEncodeError);
    suppress is_Exception
      (call (MPutObject bucket (u "results/" ++ job_id ++ u ".json") body (Z.of_nat (length body))
               (u "application/json")))
  else mret tt.

Definition store_terminal (job_id : pystr) (r : ExecutionResult) (worker_id : pystr) : M E unit :=
  _ ← _archive job_id r;
  _ ← call (RSet (result_key job_id) (result_text r) (SetEx RESULT_TTL_SECONDS));
  _ ← patch_record job_id [(u "status", JStr (status r)); (u "result", to_dict r); (u "worker_id", JStr worker_id)];
  mret tt.

(** ** Live output *)

Definition _publish (job_id : pystr) (message : json) : M E unit :=
  _ ← call (RPublish (stream_channel job_id) (json_dumps message)); mret tt.

Definition kind_str (k : stream_kind) : pystr := match k with Stdout => u "stdout" | Stderr => u "stderr" end.

Definition pub_output (job_id : pystr) (k : stream_kind) (data : pystr) : M E unit :=
  _publish job_id (JDict [(u "kind", JStr (kind_str k)); (u "data", JStr data)]).

Definition pub_status (job_id st : pystr) : M E unit :=
  _publish job_id (JDict [(u "kind", JStr (u "status")); (u "status", JStr st)]).

Definition pub_done (job_id : pystr) (r : ExecutionResult) : M E unit :=
  _publish job_id
    (JDict [(u "kind", JStr (u "done")); (u "exit_code", json_of_option (exit_code r));
            (u "status", JStr (status r)); (u "wall_time_ms", JInt (wall_time_ms r));
            (u "timed_out", JBool (timed_out r)); (u "oom_killed", JBool (oom_killed r))]).

(** ** Properties *)

Lemma patched_get d fields now k :
  dict_get k (patched d fields now) =
  if k =s u "updated_at" then Some (JStr now) else dict_get k (dict_update d fields).
Proof. unfold patched. rewrite dict_get_set. repeat case_bool_decide; congruence. Qed.

(** patching a record is a read-modify-write that keeps everything else.  When it returns a
    record, that record was read as a dictionary, has the given value for each field, the new time
    stamp, and the old value for every other key; its text was written back to the same key without
    touching the expiry time, as the only write.  When it returns none, nothing was written. *)
Theorem patch_record_spec job_id fields s :
  NoDup (map fst fields) → u "updated_at" ∉ map fst fields →
  returns (patch_record job_id fields) (λ r s',
    match r with
    | None => ∃ raw, trace s' = Ev (RGet (job_record_key job_id)) (Ok raw) :: trace s
    | Some record =>
        ∃ raw d d' now a, json_loads raw = Ok (JDict d) ∧ record = JDict d' ∧
        trace s' = Ev (RSet (job_record_key job_id) (json_dumps record) SetKeepTtl) (Ok a) ::
                   Ev TNowIso (Ok now) :: Ev (RGet (job_record_key job_id)) (Ok (Some raw)) :: trace s ∧
        dict_get (u "updated_at") d' = Some (JStr now) ∧
        (∀ k v, (k, v) ∈ fields → dict_get k d' = Some v) ∧
        (∀ k, k ∉ map fst fields → k ≠ u "updated_at" → dict_get k d' = dict_get k d)
    end) s.
Proof.
  intros Hnd Hup. unfold patch_record, get_record. do 3 ret_step. destruct a as [raw|]; [|by do 2 ret_step; eexists].
  eapply (returns_mono _ (λ r s', trace s' = Ev (RGet (job_record_key job_id)) (Ok (Some raw)) :: trace s ∧
            ∀ j, r = Some j → json_loads raw = Ok j)).
  - intros [j|] s1 [Ht Hj]; [|ret_step; by eexists]. specialize (Hj j eq_refl).
    ret_step. ret_step. destruct j as [| | | | | |d]; try done. rename H into Hd. injection Hd as <-.
    repeat ret_step.
    eexists raw, d, _, _, _. split; [done|]. split; [done|]. split; [by rewrite Ht|]. split_and!.
    + rewrite patched_get. by rewrite bool_decide_eq_true_2.
    + intros k v Hin. rewrite patched_get, bool_decide_eq_false_2.
      * by apply dict_update_get_in.
      * intros ->. apply Hup. apply list_elem_of_fmap. by exists (u "updated_at", v).
    + intros k Hk Hne. rewrite patched_get, bool_decide_eq_false_2 by done. by apply dict_update_get_out.
  - apply wp_try. do 2 wp_step. destruct (json_loads raw) as [j|x];
      [wp_step; intros ? [= <-]; split; [done|by destruct j; intros ? [= <-]]|].
    destruct (is_JSONDecodeError x); [|done]. by intros ? [= <-].
Qed.
End Store.

(** A record, patched. *)
Module ExampleStore.
#[local] Existing Instance PlainJson.plain_json.

Definition record : pystr := json_dumps (JDict [(u "status", JStr STATUS_PENDING); (u "owner", JInt 7)]).

Definition answers (c : cmd) : res (ans c) :=
  match c return res (ans c) with
  | RGet _ => Ok (Some record)
  | TNowIso => Ok (u "now")
  | c => Ok (Scripted.default_ans c)
  end.

#[local] Instance world : Handler unit := Scripted.world answers.

Definition fields : list (pystr * json) := [(u "status", JStr STATUS_RUNNING)].

Lemma patch_record_spec_witness :
  ∃ d', (patch_record (u "j") fields Scripted.start).1 = Ok (Some (JDict d')) ∧
        dict_get (u "status") d' = Some (JStr STATUS_RUNNING).
Proof.
  pose proof (patch_record_spec (u "j") fields Scripted.start) as H.
  assert (∀ k, k ≠ u "status" → k ∉ map fst fields) as Hk.
  { intros k Hne Hin. apply elem_of_cons in Hin as [Hin|Hin]; [done|by inversion Hin]. }
  specialize (H ltac:(apply NoDup_singleton) ltac:(by apply Hk) _ eq_refl). destruct H as (raw & d & d' & now & a & Hl & Hd & Ht & _ & Hin & Hout).
  exists d'. split; [by rewrite <- Hd|]. apply Hin. by left.
Defined.
End ExampleStore.
