(* ===== verification/Queue.v ===== *)
(** * The job queue ([worker/queue/consumer.py])

    The Redis Streams consumer: group creation, reading, reclaiming, acknowledging and
    dead-lettering of entries. *)
From S2P Require Import Prelude PyStr Errors Json JsonText Effects Constants.
From stdpp Require Import options.

Definition DEAD_LETTER_MAXLEN : Z := 1000.

Record QueueMessage := { msg_id : pystr; payload : json; delivery_count : Z }.

Section Queue.
Context {PR : PyRuntime} {JR : JsonRuntime} {E : Type} {HE : Handler E}.
Context (consumer_name : pystr).

(** [QueueMessage.job_id]: a payload that is not an object raises. *)
Definition msg_job_id (m : QueueMessage) : res pystr :=
  d ← as_dict (payload m); mret (py_str (default (JStr []) (dict_get (u "job_id") d))).

Definition set_group_ready (m : Mem) : Mem :=
  {| group_ready := true; cid_cache := cid_cache m; profile_cache := profile_cache m; metrics := metrics m; api := api m |}.

(** [str(exc)] of a [ResponseError]. *)
Definition response_text (e : exc) : option pystr := match e with ResponseError t => Some t | _ => None end.

Definition ensure_group : M E unit :=
  m ← get_mem;
  if group_ready m then mret tt
  else
    _ ← try_except (call (RXgroupCreate JOB_STREAM CONSUMER_GROUP (u "0") true))
          (λ e, match response_text e with
                | Some t => Some (if str_contains (u "BUSYGROUP") t then mret tt else raise e)
                | None => None
                end);
    modify_mem set_group_ready.

Definition is_decode_error (e : exc) : bool := match e with JSONDecodeError => true | _ => false end.

Definition _to_message (id : pystr) (fields : gmap pystr pystr) (count : Z) : res QueueMessage :=
  match json_loads (default (u "{}") (fields !! u "payload")) with
  | Ok p => Ok {| msg_id := id; payload := p; delivery_count := count |}
  | Raise e => if is_decode_error e then Ok {| msg_id := id; payload := JDict []; delivery_count := count |}
               else Raise e
  end.

Definition read (count block_ms : Z) : M E (list QueueMessage) :=
  _ ← ensure_group;
  response ← call (RXreadgroup CONSUMER_GROUP consumer_name JOB_STREAM (u ">") count block_ms);
  lift (res_map (λ e, _to_message e.1 e.2 1) (concat (map snd response))).

Definition claim_one (min_idle_ms : Z) (entry : pystr * Z) : M E (list QueueMessage) :=
  result ← call (RXclaim JOB_STREAM CONSUMER_GROUP consumer_name min_idle_ms [entry.1]);
  lift (res_map (λ e, _to_message e.1 e.2 entry.2) result).

Definition claim_stale (min_idle_ms count max_retries : Z) : M E (list QueueMessage) :=
  _ ← ensure_group;
  pending ← call (RXpendingRange JOB_STREAM CONSUMER_GROUP (u "-") (u "+") count min_idle_ms);
  claimed ← for_map pending (claim_one min_idle_ms);
  mret (concat claimed).

Definition ack (id : pystr) : M E unit :=
  _ ← call (RXack JOB_STREAM CONSUMER_GROUP id);
  _ ← call (RXdel JOB_STREAM id);
  mret tt.

Definition dead_letter (m : QueueMessage) (reason : pystr) : M E unit :=
  _ ← call (RXadd DEAD_LETTER_STREAM
              [(u "payload", json_dumps (payload m)); (u "reason", reason);
               (u "delivery_count", str_of_int (delivery_count m))] DEAD_LETTER_MAXLEN true);
  _ ← ack (msg_id m);
  (* the log line reads the job id again *)
  _ ← lift (msg_job_id m);
  mret tt.

Definition queue_depth : M E Z :=
  try_except (call (RXlen JOB_STREAM)) (λ e, if is_ResponseError e then Some (mret 0) else None).

(** ** Properties *)

(** creating the consumer group is idempotent and tolerant.  When [ensure_group] returns, the
    group is known to exist; it then issued no command if that was known before, and otherwise
    exactly one creation, which succeeded or was refused because the group exists already. *)
Theorem ensure_group_spec s :
  returns ensure_group (λ _ s',
    group_ready (mem s') = true ∧
    if group_ready (mem s) then s' = s
    else ∃ a, trace s' = Ev (RXgroupCreate JOB_STREAM CONSUMER_GROUP (u "0") true) a :: trace s ∧
              match a with
              | Ok _ => True
              | Raise e => ∃ t, e = ResponseError t ∧ str_contains (u "BUSYGROUP") t = true
              end) s.
Proof.
  apply returns_bind. apply wp_get_mem. intros m [= <-]. destruct (group_ready (mem s)) eqn:Eg.
  - by apply returns_ret.
  - apply returns_bind. apply wp_try.
    refine (wp_call (RXgroupCreate JOB_STREAM CONSUMER_GROUP (u "0") true) _ _ _). intros r e. cbv beta.
    assert (∀ a, (match a with Ok _ => True | Raise e => ∃ t, e = ResponseError t ∧ str_contains (u "BUSYGROUP") t = true end) →
      returns (E:=E) (modify_mem set_group_ready) (λ _ s', group_ready (mem s') = true ∧
        ∃ a, trace s' = Ev (RXgroupCreate JOB_STREAM CONSUMER_GROUP (u "0") true) a :: trace s ∧
          match a with Ok _ => True | Raise e => ∃ t, e = ResponseError t ∧ str_contains (u "BUSYGROUP") t = true end)
        (St e (mem s) (Ev (RXgroupCreate JOB_STREAM CONSUMER_GROUP (u "0") true) a :: trace s))) as Hend.
    { intros a Ha. apply wp_modify_mem. intros [] _. split; [done|]. by exists a. }
    destruct r as [[]|x]; [by intros [] _; apply Hend|].
    destruct (response_text x) as [t|] eqn:Et; [|by intros ? [=]].
    destruct (str_contains (u "BUSYGROUP") t) eqn:Eb; [|by intros ? [=]].
    apply wp_ret. intros [] _. apply Hend. exists t. destruct x; simplify_eq/=. done.
Qed.

Lemma ensure_group_grows : emits (λ _, True) ensure_group.
Proof.
  unfold ensure_group. emits_tac; try done. destruct (response_text _); simplify_eq. by case_match; emits_tac.
Qed.

Lemma to_message_ok id fields count m :
  _to_message id fields count = Ok m → msg_id m = id ∧ delivery_count m = count.
Proof. unfold _to_message. repeat case_match; intros; simplify_eq; done. Qed.

(** The claim of one pending entry, with its answer. *)
Definition claim_event (min_idle_ms : Z) (entry : pystr * Z) (claimed : list (pystr * gmap pystr pystr)) : event :=
  Ev (RXclaim JOB_STREAM CONSUMER_GROUP consumer_name min_idle_ms [entry.1]) (Ok claimed).

(** What the claims gave, each entry with the delivery count reported for it. *)
Definition claimed_entries (pending : list (pystr * Z)) (answers : list (list (pystr * gmap pystr pystr))) :
    list (Z * (pystr * gmap pystr pystr)) :=
  concat (zip_with (λ p a, map (pair p.2) a) pending answers).

Lemma claim_loop min_idle_ms todo s :
  returns (for_map todo (claim_one min_idle_ms)) (λ mss s', ∃ answers,
    length answers = length todo ∧
    trace s' = rev (zip_with (claim_event min_idle_ms) todo answers) ++ trace s ∧
    res_map (λ x, _to_message x.2.1 x.2.2 x.1) (claimed_entries todo answers) = Ok (concat mss)) s.
Proof.
  revert s. induction todo as [|[id n] todo IH]; intros s; cbn [for_map]; [ret_step; by exists []|].
  ret_step. unfold claim_one. do 3 ret_step. rename a0 into ms, H into Hms. simpl in Hms.
  ret_step. eapply returns_mono; [|apply IH]. intros mss s' (answers & Hlen & Ht & Hall). ret_step.
  exists (a :: answers). split; [simpl; by rewrite Hlen|]. split; [rewrite Ht; simpl; by rewrite <- app_assoc|].
  unfold claimed_entries in *. cbn [zip_with concat]. rewrite res_map_app, res_map_map. simpl.
  by rewrite Hms, Hall.
Qed.

(** C38: reclaiming neither invents nor drops work.  When [claim_stale] returns, it asked Redis which
    entries were idle for at least the given time, claimed exactly these, one by one in this order,
    and its messages are exactly the entries Redis then handed over, decoded, each with the delivery
    count Redis had reported for it, on which dead-lettering is decided. *)
Theorem claim_stale_spec min_idle_ms count max_retries s :
  returns (claim_stale min_idle_ms count max_retries) (λ ms s', ∃ pending answers old,
    length answers = length pending ∧
    trace s' = rev (zip_with (claim_event min_idle_ms) pending answers) ++
      Ev (RXpendingRange JOB_STREAM CONSUMER_GROUP (u "-") (u "+") count min_idle_ms) (Ok pending) :: old ++ trace s ∧
    res_map (λ x, _to_message x.2.1 x.2.2 x.1) (claimed_entries pending answers) = Ok ms) s.
Proof.
  unfold claim_stale. ret_step. eapply returns_mono; [|apply (emits_returns (λ _, True)), ensure_group_grows].
  intros [] s1 (old & Ht1 & _). do 2 ret_step. ret_step. rename a into pending.
  eapply returns_mono; [|by apply claim_loop]. intros mss s' (answers & Hlen & Ht & Hall). ret_step.
  exists pending, answers, old. split; [done|]. split; [|done]. rewrite Ht. simpl. by rewrite Ht1.
Qed.

(** an entry leaves the stream for the dead-letter stream in this order: it is copied, then
    acknowledged, then deleted; if the copy fails it is not acknowledged. *)
Theorem dead_letter_order m reason s :
  wp (dead_letter m reason) (λ r s',
    let copy := RXadd DEAD_LETTER_STREAM
                  [(u "payload", json_dumps (payload m)); (u "reason", reason);
                   (u "delivery_count", str_of_int (delivery_count m))] DEAD_LETTER_MAXLEN true in
    let ack := RXack JOB_STREAM CONSUMER_GROUP (msg_id m) in
    let del := RXdel JOB_STREAM (msg_id m) in
    (∃ e, r = Raise e ∧ trace s' = Ev copy (Raise e) :: trace s) ∨
    (∃ a e, r = Raise e ∧ trace s' = Ev ack (Raise e) :: Ev copy (Ok a) :: trace s) ∨
    (∃ a b c, trace s' = Ev del c :: Ev ack (Ok b) :: Ev copy (Ok a) :: trace s ∧
              (is_ok r = true → is_ok c = true))) s.
Proof.
  unfold dead_letter, ack. wp_go; destruct (msg_job_id m) eqn:?; wp_go;
    first [ left; eexists; split; reflexivity
          | right; left; eexists _, _; split; reflexivity
          | right; right; eexists _, _, _; split; [reflexivity|done] ].
Qed.
End Queue.
