(* ===== verification/Worker.v ===== *)
(** * Processing one job ([worker/worker.py]: [_process] and what it calls)

    The executor is used through the interface [SandboxExec]; [Run.v]'s [execute] implements it. *)
From S2P Require Import Prelude PyStr Utf8 Errors Json JsonText Effects Constants Types Config ImageRegistry Capture Executor Run Store Queue.
From stdpp Require Import options.

(** ** The executor, as the worker sees it *)

(** Run a request for a job, passing output to a callback; the job can be cancelled. *)
Class SandboxExec (E : Type) :=
  sandbox_execute : ExecutionRequest → pystr → (stream_kind → pystr → M E unit) → M E ExecutionResult.

(** What it promises: it reaches Redis and MinIO only through the callback, its result is of the job and
    has a terminal status its flags agree with, and whatever its local commands and the callback keep
    it keeps, the in-flight gauge of its caller included. *)
Class SandboxExecLaws (E : Type) `{HE : Handler E} `{X : SandboxExec E} : Prop := {
  exec_local (P : event → Prop) request job_id cb :
    (∀ c r, local_cmd c = true → answer c r → P (Ev c r)) → (∀ k text, emits P (cb k text)) →
    emits P (sandbox_execute request job_id cb);
  exec_result request job_id cb s :
    (∀ k text, emits bg_event (cb k text)) →
    returns (sandbox_execute request job_id cb) (λ res _, Types.job_id res = job_id ∧ consistent_status res) s;
  exec_evolves (R : st E → st E → Prop) `{!PreOrder R} request job_id cb :
    (∀ c s r e, local_cmd c = true → handle c (env s) = (r, e) → R s (St e (mem s) (Ev c r :: trace s))) →
    (∀ s m, jobs_in_flight (metrics m) = jobs_in_flight (metrics (mem s)) → R s (St (env s) m (trace s))) →
    (∀ k text, evolves R (cb k text)) → evolves R (sandbox_execute request job_id cb);
}.

(** The results of a job whose id is text can be stored as text. *)
Class PrintableExec (E : Type) `{HE : Handler E} `{X : SandboxExec E} : Prop :=
  exec_printable request job_id cb s :
    (∀ k text, emits bg_event (cb k text)) → scalar_str job_id →
    returns (sandbox_execute request job_id cb) (λ res _, wf_result res) s.

Section Implementation.
Context {PR : PyRuntime} {JR : JsonRuntime} {E : Type} {HE : Handler E} (h : Host).

#[export] Instance execute_impl : SandboxExec E := λ request job_id cb, execute h (Some cb) request job_id true.

(** The executor of [Run.v] keeps the promises. *)
#[export] Instance execute_laws : SandboxExecLaws E.
Proof.
  split.
  - intros P request job_id cb HP Hcb. refine (execute_local h P HP (Some cb) _ request job_id true).
    intros f k text [= <-]. apply Hcb.
  - intros request job_id cb s Hcb.
    assert (callback_ok (Some cb)) as Hok by (intros f k text [= <-]; apply Hcb).
    eapply returns_mono; [|exact (execute_returns h (Some cb) Hok request job_id true s)].
    intros res s' (rt & w & new & a & b & _ & _ & Hrep).
    destruct Hrep as (argv & spawned & waits & rc & o & out & p & smp & start & stop & _ & _ & _ & _ & _ & _ & ->).
    split; [done|apply build_result_consistent].
  - intros R HR request job_id cb Hcall Hmem Hcb. apply (execute_evolves h R Hcall Hmem (Some cb)).
    intros f k text [= <-]. apply Hcb.
Qed.

#[export] Instance execute_printable_exec {PL : PyRuntimeLaws} {SW : SaneWorld E} (Hl : host_limits h) : PrintableExec E.
Proof.
  intros request job_id cb s Hcb Hj.
  assert (callback_ok (Some cb)) as Hok by (intros f k text [= <-]; apply Hcb).
  eapply returns_mono; [|exact (execute_printable h (Some cb) Hok Hl request job_id true s)].
  intros res s' Hres. by apply Hres.
Qed.
End Implementation.

Section Worker.
Context {PR : PyRuntime} {JR : JsonRuntime} {E : Type} {HE : Handler E} {X : SandboxExec E}.
Context (cfg : WorkerConfig) (minio : bool).

(** ** Metrics *)

Definition set_metrics (mx : Metrics) (total : gmap (pystr * pystr) Z) (dur : list (pystr * Z))
    (oom tmo inflight dead : Z) : Metrics :=
  {| executions_total := total; execution_duration := dur; container_startup := container_startup mx;
     queue_depth_gauge := queue_depth_gauge mx; oom_kills := oom; timeout_kills := tmo;
     jobs_in_flight := inflight; reclaimed_jobs := reclaimed_jobs mx; dead_lettered := dead |}.

Definition add_in_flight (n : Z) (mx : Metrics) : Metrics :=
  set_metrics mx (executions_total mx) (execution_duration mx) (oom_kills mx) (timeout_kills mx)
    (jobs_in_flight mx + n) (dead_lettered mx).

Definition inc_dead_lettered (mx : Metrics) : Metrics :=
  set_metrics mx (executions_total mx) (execution_duration mx) (oom_kills mx) (timeout_kills mx)
    (jobs_in_flight mx) (dead_lettered mx + 1).

(** [_record_metrics]; durations are kept in milliseconds. *)
Definition recorded (language : pystr) (r : ExecutionResult) (mx : Metrics) : Metrics :=
  set_metrics mx
    (<[(language, status r) := default 0 (executions_total mx !! (language, status r)) + 1]> (executions_total mx))
    ((language, wall_time_ms r) :: execution_duration mx)
    (oom_kills mx + if oom_killed r then 1 else 0) (timeout_kills mx + if timed_out r then 1 else 0)
    (jobs_in_flight mx) (dead_lettered mx).

Definition _record_metrics (language : pystr) (r : ExecutionResult) : M E unit :=
  modify_metrics (recorded language r).

(** ** Finalisation *)

Definition finalize (job_id language : pystr) (r : ExecutionResult) : M E unit :=
  _ ← store_terminal minio (minio_bucket cfg) job_id r (worker_id cfg);
  _ ← pub_done job_id r;
  _record_metrics language r.

Definition _finalize_cancelled (job_id language : pystr) : M E unit :=
  finalize job_id language (bare_result job_id STATUS_KILLED).

(** The message a failure is reported with: never the text of the exception. *)
Definition failure_detail (e : exc) : pystr :=
  if is_UnknownLanguageError e then u "unsupported language"
  else if is_SandboxError e && bool_decide (exc_code e = Some (u "max_retries")) then
    u "job abandoned after repeated delivery failures"
  else if is_SandboxError e then u "sandbox failure"
  else u "internal execution error".

Definition failed_result (job_id : pystr) (e : exc) : ExecutionResult :=
  {| Types.job_id := job_id; status := STATUS_FAILED; stdout := []; stderr := failure_detail e; exit_code := None;
     wall_time_ms := 0; cpu_time_ms := 0; memory_bytes := 0; oom_killed := false; timed_out := false;
     truncated := false; out_files := [] |}.

Definition _finalize_failed (job_id language : pystr) (e : exc) : M E unit :=
  finalize job_id language (failed_result job_id e).

(** ** Running a job *)

Definition is_CancelledError (e : exc) : bool := match e with CancelledError => true | _ => false end.

(** The [finally] clause: the watcher is awaited, and its exception, if any, is raised before the
    gauge is lowered. *)
Definition end_watch (job_id : pystr) : M E unit :=
  _ ← suppress is_CancelledError (call (RWatchCancel (cancel_key job_id)));
  modify_metrics (add_in_flight (-1)).

Definition _run_job (job_id : pystr) (request : ExecutionRequest) : M E unit :=
  _ ← modify_metrics (add_in_flight 1);
  _ ← set_running job_id (worker_id cfg);
  _ ← pub_status job_id STATUS_RUNNING;
  result ← try_finally (sandbox_execute request job_id (pub_output job_id)) (end_watch job_id);
  _ ← store_terminal minio (minio_bucket cfg) job_id result (worker_id cfg);
  _ ← pub_done job_id result;
  _record_metrics (req_language request) result.

Definition _CANCEL_POLL_USEC : Z := 500000.

(** The watcher's loop, for at most [polls] polls: [true] when it has set the event.  Only the
    watcher sets the event, so the loop's test holds until then. *)
Fixpoint _watch_cancel (job_id : pystr) (polls : nat) : M E bool :=
  match polls with
  | O => mret false
  | S polls' =>
      cancelled ← is_cancelled job_id;
      if (cancelled : bool) then mret true
      else _ ← call (TSleep _CANCEL_POLL_USEC); _watch_cancel job_id polls'
  end.

(** [str(d.get(k) or default)] *)
Definition get_text (k : pystr) (d : list (pystr * json)) (default : pystr) : pystr :=
  py_str (get_or k d (JStr default)).

Definition is_malformed (e : exc) : bool :=
  match e with KeyError _ | TypeError | ValueError | JSONDecodeError | UnicodeEncodeError | AttributeError => true
  | _ => false end.

Definition abandon (m : QueueMessage) (user_id job_id reason : pystr) : M E unit :=
  _ ← release_slot user_id job_id;
  _ ← dead_letter m reason;
  modify_metrics inc_dead_lettered.

Definition run_and_ack (m : QueueMessage) (user_id job_id : pystr) (request : ExecutionRequest) : M E unit :=
  try_except
    (_ ← _run_job job_id request;
     _ ← release_slot user_id job_id;
     ack (msg_id m))
    (λ e,
      if is_DockerUnavailableError e then Some (mret tt)
      else if is_Exception e then
        Some (_ ← _finalize_failed job_id (req_language request) e;
              _ ← release_slot user_id job_id;
              ack (msg_id m))
      else None).

(** [ExecutionRequest.from_dict(message.payload["request"])] *)
Definition request_of (m : QueueMessage) : res ExecutionRequest :=
  r ← subscript (payload m) (u "request"); from_dict r.

Definition _process (m : QueueMessage) : M E unit :=
  job_id ← lift (msg_job_id m);
  d ← lift (as_dict (payload m));
  let user_id := get_text (u "user_id") d [] in
  if max_retries cfg <? delivery_count m then
    let language := get_text (u "language") d (u "unknown") in
    _ ← _finalize_failed job_id language (SandboxError (u "max retries exceeded") (u "max_retries"));
    abandon m user_id job_id (u "max_retries_exceeded")
  else
    match request_of m with
    | Raise e =>
        if is_malformed e then
          _ ← when (negb (job_id =s []))
                (_finalize_failed job_id (u "unknown") (SandboxError (u "malformed payload") (u "malformed_payload")));
          abandon m user_id job_id (u "malformed_payload")
        else raise e
    | Ok request =>
        cancelled ← is_cancelled job_id;
        if (cancelled : bool) then
          _ ← _finalize_cancelled job_id (req_language request);
          _ ← release_slot user_id job_id;
          ack (msg_id m)
        else run_and_ack m user_id job_id request
    end.
End Worker.

(** ** Acknowledgement comes last *)

(** The stream entry is acknowledged or deleted. *)
Definition is_ack (c : cmd) : bool := match c with RXack _ _ _ | RXdel _ _ => true | _ => false end.

(** The entry a command acknowledges or deletes. *)
Definition acked (c : cmd) : option pystr := match c with RXack _ _ id | RXdel _ id => Some id | _ => None end.

(** A result of the job with a terminal status. *)
Definition terminal_result (job_id : pystr) (r : ExecutionResult) : Prop :=
  Types.job_id r = job_id ∧ status r ∈ TERMINAL_STATUSES.

Section Settled.
Context {JR : JsonRuntime}.

(** The text of a terminal result of the job was stored under its key, for as long as results live. *)
Definition stored_result (job_id : pystr) (e : event) : Prop :=
  ∃ r a, terminal_result job_id r ∧
    e = Ev (RSet (result_key job_id) (json_dumps (to_dict r)) (SetEx RESULT_TTL_SECONDS)) (Ok a).

(** The payload of the entry was added to the dead-letter stream. *)
Definition copied (m : QueueMessage) (e : event) : Prop :=
  ∃ fields maxlen approx a, (u "payload", json_dumps (payload m)) ∈ fields ∧
    e = Ev (RXadd DEAD_LETTER_STREAM fields maxlen approx) (Ok a).

(** What must have happened before an entry may go: its job has a terminal result, or, for an entry
    without a job id, its payload is in the dead-letter stream. *)
Definition settled (m : QueueMessage) (job_id : pystr) (tr : list event) : Prop :=
  Exists (stored_result job_id) tr ∨ job_id = [] ∧ Exists (copied m) tr.

(** Newest first: every acknowledgement and deletion is of this entry and comes after that. *)
Fixpoint ack_safe (m : QueueMessage) (job_id : pystr) (tr : list event) : Prop :=
  match tr with
  | [] => True
  | e :: old =>
      ack_safe m job_id old ∧
      (is_ack (ev_cmd e) = true → acked (ev_cmd e) = Some (msg_id m) ∧ settled m job_id old)
  end.

(** What has happened stays in a longer history. *)
Lemma settled_mono m job_id tr tr' : (∀ e, e ∈ tr → e ∈ tr') → settled m job_id tr → settled m job_id tr'.
Proof.
  intros Hsub. unfold settled. rewrite !Exists_exists. naive_solver.
Qed.

Lemma settled_app m job_id new old : settled m job_id old → settled m job_id (new ++ old).
Proof. apply settled_mono. set_solver. Qed.

Lemma stored_here job_id r a old :
  terminal_result job_id r →
  Exists (stored_result job_id)
    (Ev (RSet (result_key job_id) (result_text r) (SetEx RESULT_TTL_SECONDS)) (Ok a) :: old).
Proof. intros Hr. left. by exists r, a. Qed.

Lemma ack_safe_no_ack m job_id new old :
  Forall (λ e, is_ack (ev_cmd e) = false) new → ack_safe m job_id old → ack_safe m job_id (new ++ old).
Proof.
  induction 1 as [|e new He _ IH]; intros H; simpl; [done|]. split; [by apply IH|]. by rewrite He.
Qed.
End Settled.

Definition no_ack (e : event) : Prop := is_ack (ev_cmd e) = false.

(** The failure messages; none depends on the text of the exception. *)
Definition failure_messages : list pystr :=
  map u ["unsupported language"; "job abandoned after repeated delivery failures"; "sandbox failure";
         "internal execution error"]%string.

Lemma failure_detail_fixed e : failure_detail e ∈ failure_messages.
Proof.
  unfold failure_detail, failure_messages. repeat (case_match; [set_solver|]). set_solver.
Qed.

Section Acks.
Context {PR : PyRuntime} {JR : JsonRuntime} {E : Type} {HE : Handler E} {X : SandboxExec E} {XL : SandboxExecLaws E}.
Context (cfg : WorkerConfig) (minio : bool).

(** [safe t0 m job done s]: since [t0], acknowledgements came last, and if [done] the job is settled. *)
Definition safe (t0 : list event) (m : QueueMessage) (job_id : pystr) (done : bool) (s : st E) : Prop :=
  ∃ new, trace s = new ++ t0 ∧ ack_safe m job_id new ∧ (done = true → settled m job_id new).

Lemma safe_weaken t0 m job_id d s : safe t0 m job_id d s → safe t0 m job_id false s.
Proof. intros (new & Ht & Ha & _). by exists new. Qed.

Lemma safe_emits t0 m job_id d s {A} (k : M E A) :
  emits no_ack k → safe t0 m job_id d s → wp k (λ _ s', safe t0 m job_id d s') s.
Proof.
  intros Hm (new & Ht & Ha & Hd). destruct (Hm s) as (n & Hn & Hall). exists (n ++ new).
  rewrite Hn, Ht, app_assoc. split_and!; [done|by apply ack_safe_no_ack|]. intros Hdone. by apply settled_app, Hd.
Qed.

Lemma safe_ack t0 m job_id s :
  safe t0 m job_id true s → wp (ack (msg_id m)) (λ _ s', safe t0 m job_id true s') s.
Proof.
  intros (new & Ht & Ha & Hd). specialize (Hd eq_refl). unfold ack.
  assert (∀ n c r, acked c = Some (msg_id m) → ack_safe m job_id n → settled m job_id n →
            ack_safe m job_id (Ev c r :: n) ∧ settled m job_id (Ev c r :: n)) as Hstep.
  { intros n c r Hc H1 H2. split; [by split|]. by apply (settled_app _ _ [Ev c r]). }
  wp_step. wp_step.
  destruct (Hstep _ (RXack JOB_STREAM CONSUMER_GROUP (msg_id m)) r eq_refl Ha Hd) as [Ha1 Hd1].
  destruct r as [a|x]; [|eexists (_ :: new); simpl; rewrite Ht; by split_and!].
  wp_step. wp_step. destruct (Hstep _ (RXdel JOB_STREAM (msg_id m)) r eq_refl Ha1 Hd1) as [Ha2 Hd2].
  destruct r as [b|y]; [wp_step|]; (eexists (_ :: _ :: new); simpl; rewrite Ht; by split_and!).
Qed.

Lemma archive_no_ack job_id r : emits no_ack (_archive (HE := HE) minio (minio_bucket cfg) job_id r).
Proof. unfold _archive. by emits_tac. Qed.

Lemma get_record_no_ack job_id : emits no_ack (get_record (HE := HE) job_id).
Proof. unfold get_record. by emits_tac. Qed.

Lemma patch_record_no_ack job_id fields : emits no_ack (patch_record (HE := HE) job_id fields).
Proof. unfold patch_record. pose proof get_record_no_ack. by emits_tac. Qed.

Lemma publish_no_ack job_id m : emits no_ack (_publish (HE := HE) job_id m).
Proof. unfold _publish. by emits_tac. Qed.

Lemma release_slot_no_ack user_id job_id : emits no_ack (release_slot (HE := HE) user_id job_id).
Proof. unfold release_slot. by emits_tac. Qed.

(** A stored result settles the job. *)
Lemma safe_store t0 m job_id d r s :
  terminal_result job_id r → safe t0 m job_id d s →
  wp (store_terminal minio (minio_bucket cfg) job_id r (worker_id cfg))
    (λ o s', safe t0 m job_id (d || is_ok o) s') s.
Proof.
  intros Hr Hs. unfold store_terminal. wp_step.
  eapply wp_mono; [|apply safe_emits; [apply archive_no_ack|exact Hs]].
  intros [[]|x] s1 H1; [|by rewrite orb_false_r].
  wp_step. wp_step. destruct H1 as (new & Ht & Ha & Hd).
  destruct r0 as [a|x]; [|rewrite orb_false_r; eexists (_ :: new); simpl; rewrite Ht;
    split_and!; [done..|]; intros Hdone; by apply (settled_app _ _ [_]), Hd].
  assert (safe t0 m job_id true (St e (mem s1) (Ev (RSet (result_key job_id) (result_text r) (SetEx RESULT_TTL_SECONDS)) (Ok a) :: trace s1))) as H2.
  { eexists (_ :: new). cbn [trace app]. rewrite Ht. split_and!; [done| |intros _; left; by apply stored_here].
    split; [done|]. discriminate. }
  wp_step. eapply wp_mono; [|apply safe_emits; [apply patch_record_no_ack|exact H2]].
  intros [o|x] s2 H3; [wp_step; by rewrite orb_true_r|].
  rewrite orb_false_r. destruct d; [done|by eapply safe_weaken].
Qed.

Lemma safe_finalize t0 m job_id language d r s :
  terminal_result job_id r → safe t0 m job_id d s →
  wp (finalize cfg minio job_id language r) (λ o s', safe t0 m job_id (d || is_ok o) s') s.
Proof.
  intros Hr Hs. unfold finalize. wp_step. eapply wp_mono; [|by apply safe_store].
  intros [[]|x] s1 H1; [|done]. rewrite orb_true_r in H1.
  wp_step. eapply wp_mono; [|apply safe_emits; [unfold pub_done; apply publish_no_ack|exact H1]].
  intros [[]|x] s2 H2; [|destruct d; [done|by eapply safe_weaken]].
  unfold _record_metrics. wp_step. by rewrite orb_true_r.
Qed.

Lemma failed_terminal job_id e : terminal_result job_id (failed_result job_id e).
Proof. split; [done|apply terminal_failed]. Qed.

(** Releasing the slot and acknowledging, once settled. *)
Lemma safe_release_ack t0 m job_id user_id s :
  safe t0 m job_id true s →
  wp (_ ← release_slot user_id job_id; ack (msg_id m)) (λ _ s', safe t0 m job_id true s') s.
Proof.
  intros Hs. wp_step. eapply wp_mono; [|apply safe_emits; [apply release_slot_no_ack|exact Hs]].
  intros [[]|x] s1 H1; [|done]. by apply safe_ack.
Qed.

Lemma safe_abandon t0 m user_id job_id reason d s :
  safe t0 m job_id d s → (d = true ∨ job_id = []) →
  wp (abandon m user_id job_id reason) (λ _ s', safe t0 m job_id false s') s.
Proof.
  intros Hs Hd. unfold abandon. wp_step.
  eapply wp_mono; [|apply safe_emits; [apply release_slot_no_ack|exact Hs]].
  intros [[]|x] s1 H1; [|by eapply safe_weaken].
  unfold dead_letter. wp_step. wp_step. wp_step. destruct H1 as (new & Ht & Ha & Hset).
  destruct r as [a|x]; [|eexists (_ :: new); simpl; rewrite Ht; by split_and!].
  match goal with |- wp _ _ ?s0 => assert (safe t0 m job_id true s0) as H2 end.
  { eexists (_ :: new). cbn [trace app]. rewrite Ht. split_and!; [done|by split|]. intros _.
    destruct Hd as [-> | ->]; [by apply (settled_app _ _ [_]), Hset|]. right. split; [done|]. left.
    eexists _, _, _, a. split; [|done]. by left. }
  wp_step. eapply wp_mono; [|by apply safe_ack]. intros [[]|x] s2 H3; [|by eapply safe_weaken].
  wp_step. wp_step. destruct (msg_job_id m); [|by eapply safe_weaken].
  wp_step. wp_step. by eapply safe_weaken.
Qed.

Lemma run_job_no_ack job_id request : emits no_ack (_run_job cfg minio job_id request).
Proof using XL.
  pose proof publish_no_ack. pose proof patch_record_no_ack. pose proof archive_no_ack.
  assert (emits no_ack (sandbox_execute request job_id (pub_output job_id))) as Hx.
  { apply exec_local; [|intros; apply publish_no_ack]. intros [] r Hl _; done. }
  unfold _run_job, set_running, pub_status, end_watch, store_terminal, pub_done, _record_metrics. by emits_tac.
Qed.

Lemma set_running_no_ack job_id : emits no_ack (set_running (HE := HE) job_id (worker_id cfg)).
Proof. unfold set_running. pose proof patch_record_no_ack. by emits_tac. Qed.

Lemma exec_no_ack job_id request :
  emits no_ack (try_finally (sandbox_execute request job_id (pub_output job_id)) (end_watch job_id)).
Proof using XL.
  apply emits_finally.
  - apply exec_local; [|intros; apply publish_no_ack]. intros [] r Hl _; done.
  - unfold end_watch. by emits_tac.
Qed.

Lemma pub_output_bg job_id k text : emits bg_event (pub_output (HE := HE) job_id k text).
Proof. unfold pub_output, _publish. emits_tac. by split. Qed.

(** What the executor returns is a terminal result of the job. *)
Lemma exec_terminal job_id request s :
  returns (try_finally (sandbox_execute request job_id (pub_output job_id)) (end_watch job_id))
    (λ r _, terminal_result job_id r) s.
Proof using XL.
  apply returns_finally. eapply returns_mono; [|apply exec_result, pub_output_bg].
  intros r s1 [Hj Hc] [] _. split; [done|apply Hc].
Qed.

Lemma safe_run_job t0 m job_id request s :
  safe t0 m job_id false s → wp (_run_job cfg minio job_id request) (λ o s', safe t0 m job_id (is_ok o) s') s.
Proof using XL.
  intros Hs. unfold _run_job. wp_step. wp_step.
  wp_step. eapply wp_mono; [|apply safe_emits; [apply set_running_no_ack|exact Hs]]. intros [[]|x] s1 H1; [|done].
  wp_step. eapply wp_mono; [|apply safe_emits; [unfold pub_status; apply publish_no_ack|exact H1]].
  intros [[]|x] s2 H2; [|done].
  wp_step. eapply wp_mono; [|apply wp_and; [apply safe_emits; [apply exec_no_ack|exact H2]|apply exec_terminal]].
  intros [result|x] s3 [H3 Hr]; [|done].
  wp_step. eapply wp_mono; [|apply safe_store; [by apply Hr|exact H3]]. intros [[]|x] s4 H4; [|done].
  wp_step. eapply wp_mono; [|apply safe_emits; [unfold pub_done; apply publish_no_ack|exact H4]].
  intros [[]|x] s5 H5; [|by eapply safe_weaken]. unfold _record_metrics. by wp_step.
Qed.

Lemma safe_run_and_ack t0 m user_id job_id request s :
  safe t0 m job_id false s →
  wp (run_and_ack cfg minio m user_id job_id request) (λ _ s', safe t0 m job_id false s') s.
Proof using XL.
  intros Hs. unfold run_and_ack. apply wp_try. apply wp_bind.
  eapply wp_mono; [|by apply safe_run_job]. cbv beta. intros r s1 H1.
  assert (∀ e s, safe t0 m job_id false s →
    match (if is_DockerUnavailableError e then Some (mret tt)
           else if is_Exception e then
             Some (_ ← _finalize_failed cfg minio job_id (req_language request) e;
                   _ ← release_slot user_id job_id; ack (msg_id m))
           else None) with
    | Some h => wp h (λ (_ : res unit) s', safe t0 m job_id false s') s
    | None => safe t0 m job_id false s
    end) as Hexc.
  { intros e s' Hs'. destruct (is_DockerUnavailableError e); [by wp_step|].
    destruct (is_Exception e); [|done]. wp_step. unfold _finalize_failed.
    eapply wp_mono; [|apply safe_finalize; [apply failed_terminal|done]]. intros [[]|x] s2 H2; [|done].
    eapply wp_mono; [|by apply safe_release_ack]. intros ? s3 H3. exact (safe_weaken _ _ _ _ _ H3). }
  destruct r as [[]|x]; [|by apply Hexc].
  eapply wp_mono; [|by apply safe_release_ack]. cbv beta. intros [[]|x] s2 H2.
  - by eapply safe_weaken.
  - apply Hexc. by eapply safe_weaken.
Qed.

Lemma process_safe m job_id s :
  msg_job_id m = Ok job_id → wp (_process cfg minio m) (λ _ s', safe (trace s) m job_id false s') s.
Proof using XL.
  intros Hj. assert (safe (trace s) m job_id false s) as H0 by by exists [].
  unfold _process. do 2 wp_step. rewrite Hj. do 2 wp_step.
  destruct (as_dict (payload m)) as [d|x]; [|done]. cbv zeta.
  destruct (max_retries cfg <? delivery_count m).
  { wp_step. unfold _finalize_failed. eapply wp_mono; [|apply safe_finalize; [apply failed_terminal|exact H0]].
    intros [[]|x] s1 H1; [|done]. eapply safe_abandon; [exact H1|by left]. }
  destruct (request_of m) as [request|x].
  - wp_step. eapply wp_mono; [|apply safe_emits; [|exact H0]; unfold is_cancelled; by emits_tac].
    intros [[]|x] s1 H1; [..|done].
    + wp_step. unfold _finalize_cancelled.
      eapply wp_mono; [|apply safe_finalize; [split; [done|apply terminal_killed]|exact H1]].
      intros [[]|x] s2 H2; [|done]. eapply wp_mono; [|by apply safe_release_ack].
      intros ? s' H'. exact (safe_weaken _ _ _ _ _ H').
    + by apply safe_run_and_ack.
  - destruct (is_malformed x); [|by wp_step]. wp_step. unfold when.
    destruct (job_id =s []) eqn:Ej; cbn [negb]; cbv iota.
    + apply bool_decide_eq_true in Ej. wp_step. eapply safe_abandon; [exact H0|by right].
    + unfold _finalize_failed. eapply wp_mono; [|apply safe_finalize; [apply failed_terminal|exact H0]]. intros [[]|y] s1 H1; [|done].
      eapply safe_abandon; [exact H1|by left].
Qed.

(** C2: no job is lost: at-least-once processing.  Whatever Redis, MinIO and Docker answer, and wherever
    an exception strikes, [_process] acknowledges and deletes no entry but its own, and that only after
    the text of a result of its job with a terminal status was successfully written to the job's
    result key (or, for an entry that names no job, after its payload was added to the dead-letter
    stream); otherwise the entry stays pending.  Of the executor it needs only what [SandboxExecLaws]
    says, which [Run.v]'s [execute] is shown to keep. *)
Theorem process_acks_last m job_id s :
  msg_job_id m = Ok job_id →
  wp (_process cfg minio m) (λ _ s', ∃ new, trace s' = new ++ trace s ∧ ack_safe m job_id new) s.
Proof using XL.
  intros Hj. eapply wp_mono; [|by apply process_safe]. intros _ s' (new & Ht & Ha & _). by exists new.
Qed.

(** ** The cancellation watcher *)

(** The answer to a poll: the key exists. *)
Definition reports_cancel (job_id : pystr) (e : event) : bool :=
  match e with
  | Ev c r =>
      match c return res (ans c) → bool with
      | RExists key => λ r, (key =s cancel_key job_id) && match r with Ok n => negb (n =? 0) | Raise _ => false end
      | _ => λ _, false
      end r
  end.

Definition poll_event (job_id : pystr) (e : event) : Prop :=
  ev_cmd e = RExists (cancel_key job_id) ∨ ev_cmd e = TSleep _CANCEL_POLL_USEC.

(** A kill is never made up: the watcher sets the event only on a poll that found the API's
    cancellation key of this very job, at once, and until then only polls that key and sleeps. *)
Theorem watch_cancel_spec job_id polls s :
  returns (_watch_cancel job_id polls) (λ set s',
    ∃ new, trace s' = new ++ trace s ∧ Forall (poll_event job_id) new ∧
      (if set then ∃ e old, new = e :: old ∧ reports_cancel job_id e = true ∧
                            existsb (reports_cancel job_id) old = false
       else existsb (reports_cancel job_id) new = false)) s.
Proof.
  revert s. induction polls as [|polls IH]; intros s; cbn [_watch_cancel]; [ret_step; by exists []|].
  ret_step. unfold is_cancelled. do 2 ret_step. ret_step. cbn in a. destruct (a =? 0) eqn:Ea; cbn [negb].
  - do 2 ret_step. eapply returns_mono; [|apply IH]. intros set s' (new & Ht & Hp & Hset).
    set (turn := [Ev (TSleep _CANCEL_POLL_USEC) (Ok a0); Ev (RExists (cancel_key job_id)) (Ok a)]).
    assert (existsb (reports_cancel job_id) turn = false) as Hturn by (cbn; by rewrite Ea, andb_false_r).
    exists (new ++ turn). rewrite <- app_assoc.
    split_and!; [done|apply Forall_app; split; [done|apply Forall_cons; split; [by right|apply Forall_singleton; by left]]|].
    destruct set; [|by rewrite existsb_app, Hset, Hturn]. destruct Hset as (e' & old & -> & He & Hold).
    exists e', (old ++ turn). split_and!; [done..|]. by rewrite existsb_app, Hold, Hturn.
  - ret_step. eexists [_]. split_and!; [done|apply Forall_singleton; by left|].
    eexists _, []. split_and!; [done| |done]. cbn. by rewrite Ea, bool_decide_eq_true_2.
Qed.

(** ** The paths of [_process] *)

Lemma process_unfold m d job_id s :
  payload m = JDict d → msg_job_id m = Ok job_id →
  let user_id := get_text (u "user_id") d [] in
  _process cfg minio m s =
  (if max_retries cfg <? delivery_count m then
     _ ← _finalize_failed cfg minio job_id (get_text (u "language") d (u "unknown"))
           (SandboxError (u "max retries exceeded") (u "max_retries"));
     abandon m user_id job_id (u "max_retries_exceeded")
   else
     match request_of m with
     | Raise e =>
         if is_malformed e then
           _ ← when (negb (job_id =s []))
                 (_finalize_failed cfg minio job_id (u "unknown")
                    (SandboxError (u "malformed payload") (u "malformed_payload")));
           abandon m user_id job_id (u "malformed_payload")
         else raise e
     | Ok request =>
         cancelled ← is_cancelled job_id;
         if (cancelled : bool) then
           _ ← _finalize_cancelled cfg minio job_id (req_language request);
           _ ← release_slot user_id job_id;
           ack (msg_id m)
         else run_and_ack cfg minio m user_id job_id request
     end) s.
Proof. intros Hp Hj. unfold _process. by rewrite Hj, Hp. Qed.

(** A payload without a job id to read stops processing before its first command. *)
Lemma process_no_job m e s : msg_job_id m = Raise e → (_process cfg minio m s).2 = s.
Proof. intros H. unfold _process, lift, mbind, M_bind. by rewrite H. Qed.

(** The request of a message that is neither over its retries nor malformed. *)
Definition runnable (m : QueueMessage) (job_id user_id : pystr) (request : ExecutionRequest) : Prop :=
  ∃ d, payload m = JDict d ∧ msg_job_id m = Ok job_id ∧ user_id = get_text (u "user_id") d [] ∧
       delivery_count m ≤ max_retries cfg ∧ request_of m = Ok request.

Lemma process_runnable m job_id user_id request s :
  runnable m job_id user_id request →
  _process cfg minio m s =
  (cancelled ← is_cancelled job_id;
   if (cancelled : bool) then
     _ ← _finalize_cancelled cfg minio job_id (req_language request);
     _ ← release_slot user_id job_id;
     ack (msg_id m)
   else run_and_ack cfg minio m user_id job_id request) s.
Proof.
  intros (d & Hp & Hj & -> & Hc & Hr). rewrite (process_unfold m d job_id) by done. rewrite Hr.
  destruct (Z.ltb_spec (max_retries cfg) (delivery_count m)); [lia|done].
Qed.

(** C34: an unreachable Docker daemon does not lose the job.  When running the job fails because the
    daemon is unavailable, [_process] returns normally without acknowledging the entry, which
    therefore stays pending for another attempt, and issues no command after the failure. *)
Theorem docker_down_keeps_entry m job_id user_id request s s1 s2 detail :
  runnable m job_id user_id request →
  is_cancelled job_id s = (Ok false, s1) →
  _run_job cfg minio job_id request s1 = (Raise (DockerUnavailableError detail), s2) →
  _process cfg minio m s = (Ok tt, s2) ∧ ∃ new, trace s2 = new ++ trace s ∧ Forall no_ack new.
Proof using XL.
  intros Hrun Hc Hr. split.
  - rewrite (process_runnable _ _ _ _ _ Hrun). unfold mbind, M_bind. rewrite Hc.
    unfold run_and_ack, try_except, mbind, M_bind. by rewrite Hr.
  - assert (emits no_ack (is_cancelled (HE := HE) job_id)) as H1 by (unfold is_cancelled; by emits_tac).
    destruct (H1 s) as (n1 & Ht1 & Hn1). rewrite Hc in Ht1. simpl in Ht1.
    destruct (run_job_no_ack job_id request s1) as (n2 & Ht2 & Hn2). rewrite Hr in Ht2. simpl in Ht2.
    exists (n2 ++ n1). rewrite Ht2, Ht1, app_assoc. split; [done|]. by apply Forall_app.
Qed.

(** The container is never started. *)
Definition not_spawn (e : event) : Prop := match ev_cmd e with DSpawn _ => False | _ => True end.

Lemma finalize_not_spawn job_id language r : emits not_spawn (finalize cfg minio job_id language r).
Proof.
  unfold finalize, store_terminal, _archive, patch_record, get_record, pub_done, _publish, _record_metrics.
  by emits_tac.
Qed.

Lemma abandon_not_spawn m user_id job_id reason : emits not_spawn (abandon (HE := HE) m user_id job_id reason).
Proof. unfold abandon, release_slot, dead_letter, ack. by emits_tac. Qed.

Lemma release_ack_not_spawn user_id job_id id :
  emits not_spawn (_ ← release_slot (HE := HE) user_id job_id; ack id).
Proof. unfold release_slot, ack. by emits_tac. Qed.

(** C35: a poison message is not run again.  An entry delivered more often than the retry limit, one
    whose request cannot be decoded, and one whose job was cancelled before pickup never start a
    container, whatever the outcome. *)
Theorem unrunnable_not_started m d job_id s :
  payload m = JDict d → msg_job_id m = Ok job_id →
  max_retries cfg < delivery_count m ∨
  (∃ e, request_of m = Raise e) ∨
  (∃ s1, is_cancelled (HE := HE) job_id s = (Ok true, s1)) →
  ∃ new, trace (_process cfg minio m s).2 = new ++ trace s ∧ Forall not_spawn new.
Proof.
  intros Hp Hj Hcase. rewrite (process_unfold m d job_id) by done. cbv zeta.
  destruct (Z.ltb_spec (max_retries cfg) (delivery_count m)) as [Hlt|Hle].
  { refine (emits_bind _ _ _ _ _ s); [apply finalize_not_spawn|intros; apply abandon_not_spawn]. }
  destruct (request_of m) as [request|x].
  - destruct Hcase as [?|[[e He]|[s1 Hc]]]; [lia|congruence|].
    assert (emits not_spawn (is_cancelled (HE := HE) job_id)) as H1 by (unfold is_cancelled; by emits_tac).
    specialize (H1 s). rewrite Hc in H1. unfold mbind at 1, M_bind at 1. rewrite Hc.
    refine (emits_seq _ _ _ _ H1 _).
    refine (emits_bind _ _ _ _ _ s1); [apply finalize_not_spawn|intros; apply release_ack_not_spawn].
  - destruct (is_malformed x); [|by exists []].
    refine (emits_bind _ _ _ _ _ s); [apply emits_when, finalize_not_spawn|intros; apply abandon_not_spawn].
Qed.

Lemma store_gauge job_id r : evolves same_gauge (store_terminal (HE := HE) minio (minio_bucket cfg) job_id r (worker_id cfg)).
Proof. unfold store_terminal, _archive, patch_record, get_record. by evolves_tac. Qed.

Lemma set_running_gauge job_id : evolves same_gauge (set_running (HE := HE) job_id (worker_id cfg)).
Proof. unfold set_running, patch_record, get_record. by evolves_tac. Qed.

Lemma publish_gauge job_id msg : evolves same_gauge (_publish (HE := HE) job_id msg).
Proof. unfold _publish. by evolves_tac. Qed.

Lemma gauge_step {A} (m : M E A) (g : Z) (Q : A → st E → Prop) s :
  evolves same_gauge m → jobs_in_flight (metrics (mem s)) = g →
  (∀ a s', jobs_in_flight (metrics (mem s')) = g → Q a s') → returns m Q s.
Proof. intros Hm Hg HQ a _. apply HQ. rewrite <- Hg. apply Hm. Qed.

(** the in-flight gauge is balanced: a job that runs to the end leaves it as it was. *)
Theorem run_job_gauge job_id request s :
  returns (_run_job cfg minio job_id request)
    (λ _ s', jobs_in_flight (metrics (mem s')) = jobs_in_flight (metrics (mem s))) s.
Proof using XL.
  set (g := jobs_in_flight (metrics (mem s))). unfold _run_job. ret_step. apply wp_modify_mem. intros [] _.
  ret_step. eapply (gauge_step _ (g + 1)); [apply set_running_gauge|done|]. intros [] s1 H1.
  ret_step. eapply (gauge_step _ (g + 1)); [apply publish_gauge|done|]. intros [] s2 H2.
  ret_step. ret_step. eapply (gauge_step _ (g + 1)); [|done|].
  { apply exec_evolves; [apply _|done..|]. intros. apply publish_gauge. }
  intros result s3 H3. unfold end_watch. ret_step.
  eapply (gauge_step _ (g + 1)); [by evolves_tac|done|]. intros [] s4 H4. apply wp_modify_mem. intros [] _.
  ret_step. eapply (gauge_step _ g); [apply store_gauge|cbn; lia|]. intros [] s5 H5.
  ret_step. eapply (gauge_step _ g); [apply publish_gauge|done|]. intros [] s6 H6.
  apply wp_modify_mem. intros [] _. exact H6.
Qed.

(** a payload that is not a JSON object is never settled.  [_process] then raises before it
    compares the delivery count with the retry limit and before it issues any command, so the entry
    is neither acknowledged nor dead-lettered, however often it has been delivered. *)
Theorem non_object_never_settled m s :
  (∀ d, payload m ≠ JDict d) → _process cfg minio m s = (Raise AttributeError, s).
Proof.
  intros Hp. unfold _process, msg_job_id, lift, mbind, M_bind, as_dict, res_bind.
  destruct (payload m); try done. by destruct (Hp d).
Qed.

(** A finaliser that returns has stored its result and announced it. *)
Lemma finalize_reports job_id language r s :
  returns (finalize cfg minio job_id language r) (λ _ s',
    ∃ new done_text a b, trace s' = new ++ trace s ∧
      Ev (RSet (result_key job_id) (result_text r) (SetEx RESULT_TTL_SECONDS)) (Ok a) ∈ new ∧
      Ev (RPublish (stream_channel job_id) done_text) (Ok b) ∈ new) s.
Proof.
  unfold finalize, store_terminal, pub_done, _publish, _record_metrics.
  assert (∀ {A} (m : M E A), emits no_ack m → ∀ s, returns m (λ _ s', ∃ n, trace s' = n ++ trace s) s) as Hgrow.
  { intros A m Hm s0. eapply returns_mono; [|by apply emits_returns]. intros a s' (n & Hn & _). by exists n. }
  do 2 ret_step. eapply returns_mono; [|apply Hgrow, archive_no_ack]. intros [] s1 (n1 & Ht1).
  do 2 ret_step. ret_step. rename a into a1.
  eapply returns_mono; [|apply Hgrow, patch_record_no_ack]. intros o s2 (n2 & Ht2).
  do 5 ret_step. apply wp_modify_mem. intros [] _.
  eexists (_ :: n2 ++ _ :: n1), _, a1, _. split.
  { cbn [trace]. rewrite Ht2. cbn [trace]. rewrite Ht1. cbn [app]. by rewrite <- app_assoc. }
  split; [right; apply elem_of_app; right; by left|by left].
Qed.

(** a failed job is reported, without details.  When recording a failure returns, exactly this
    result was written to the job's result key with its time to live: status FAILED, no output but
    one of four fixed messages, no exit code; and it was announced on the job's channel. *)
Theorem finalize_failed_reports job_id language e s :
  returns (_finalize_failed cfg minio job_id language e) (λ _ s',
    ∃ new text done_text a b, trace s' = new ++ trace s ∧
      Ev (RSet (result_key job_id) text (SetEx RESULT_TTL_SECONDS)) (Ok a) ∈ new ∧
      Ev (RPublish (stream_channel job_id) done_text) (Ok b) ∈ new ∧
      ∃ r, text = result_text r ∧ status r = STATUS_FAILED ∧ exit_code r = None ∧ stdout r = [] ∧
           stderr r ∈ failure_messages) s.
Proof.
  eapply returns_mono; [|apply finalize_reports]. intros _ s' (new & done_text & a & b & Ht & Hset & Hpub).
  exists new, (result_text (failed_result job_id e)), done_text, a, b. split_and!; [done..|].
  exists (failed_result job_id e). split_and!; try done. apply failure_detail_fixed.
Qed.
End Acks.

(** ** Concrete jobs *)
Module ExampleWorker.
#[local] Existing Instance AsciiRuntime.ascii_runtime.
#[local] Existing Instance PlainJson.plain_json.
#[local] Existing Instance ExampleRun.world.

Definition cfg : WorkerConfig := config ExampleHost.host.

#[local] Instance exec : SandboxExec unit := execute_impl ExampleHost.host.
#[local] Instance exec_laws : SandboxExecLaws unit := execute_laws ExampleHost.host.

Definition message (deliveries : Z) : QueueMessage :=
  {| msg_id := u "1-0";
     payload := JDict [(u "job_id", JStr (u "j")); (u "user_id", JStr (u "alice"));
                       (u "request", request_json ExampleRun.request)];
     delivery_count := deliveries |}.

Lemma process_acks_last_witness :
  msg_job_id (message 1) = Ok (u "j") ∧
  ∃ new, trace (_process cfg true (message 1) Scripted.start).2 = new ++ [] ∧ ack_safe (message 1) (u "j") new.
Proof.
  split; [reflexivity|]. exact (process_acks_last cfg true (message 1) (u "j") Scripted.start eq_refl).
Defined.

Lemma unrunnable_not_started_witness :
  ∃ new, trace (_process cfg true (message 4) Scripted.start).2 = new ++ [] ∧ Forall not_spawn new.
Proof.
  refine (unrunnable_not_started cfg true (message 4) _ (u "j") Scripted.start eq_refl eq_refl (or_introl _)).
  by vm_compute.
Defined.

Lemma non_object_never_settled_witness :
  _process cfg true {| msg_id := u "1-0"; payload := JList []; delivery_count := 99 |} Scripted.start
  = (Raise AttributeError, Scripted.start).
Proof. apply (non_object_never_settled cfg true). intros d. discriminate. Defined.

(** A run that completes. *)
Lemma run_job_completes : (_run_job cfg true (u "j") ExampleRun.request Scripted.start).1 = Ok tt.
Proof. vm_compute. reflexivity. Qed.

Lemma run_job_gauge_witness :
  jobs_in_flight (metrics (mem (_run_job cfg true (u "j") ExampleRun.request Scripted.start).2)) = 0.
Proof.
  exact (run_job_gauge cfg true (u "j") ExampleRun.request Scripted.start tt run_job_completes).
Defined.
End ExampleWorker.

(** Docker cannot be reached. *)
Module ExampleDockerDown.
#[local] Existing Instance AsciiRuntime.ascii_runtime.
#[local] Existing Instance PlainJson.plain_json.

Definition answers (c : cmd) : res (ans c) :=
  match c return res (ans c) with
  | DSimple _ => Ok (1, [], u "Cannot connect to the Docker daemon")
  | c => ExampleRun.answers c
  end.

#[local] Instance world : Handler unit := Scripted.world answers.
#[local] Instance exec : SandboxExec unit := execute_impl ExampleHost.host.
#[local] Instance exec_laws : SandboxExecLaws unit := execute_laws ExampleHost.host.

Definition s1 : st unit := Eval vm_compute in (is_cancelled (u "j") Scripted.start).2.
Definition s2 : st unit :=
  Eval vm_compute in (_run_job ExampleWorker.cfg true (u "j") ExampleRun.request s1).2.

Lemma docker_down_keeps_entry_witness :
  _process ExampleWorker.cfg true (ExampleWorker.message 1) Scripted.start = (Ok tt, s2) ∧
  ∃ new, trace s2 = new ++ [] ∧ Forall no_ack new.
Proof.
  refine (docker_down_keeps_entry ExampleWorker.cfg true (ExampleWorker.message 1) (u "j") (u "alice")
    ExampleRun.request Scripted.start s1 s2 (u "Cannot connect to the Docker daemon") _ _ _).
  - eexists. split_and!; [reflexivity|reflexivity|reflexivity|by vm_compute|vm_compute; reflexivity].
  - reflexivity.
  - vm_compute. reflexivity.
Defined.
End ExampleDockerDown.
