(* ===== verification/Records.v ===== *)
(** * What the API sees of a job ([worker/storage/result_store.py] composed with [worker/worker.py])

    The API reads two keys of a job: its record and its result.  Here Redis is seen through the two
    keys only ([JobStore]): a successful [SET] is what later reads return, and nobody but the worker
    writes them while it processes the job.  The theorem is that [_process] leaves the two keys
    telling the same story. *)
From S2P Require Import Prelude PyStr Utf8 Errors Json JsonText Effects Constants Types Config Capture Executor Run Store Queue Worker.
From stdpp Require Import options.

(** ** The two keys *)

Definition job_key (job_id k : pystr) : Prop := k = job_record_key job_id ∨ k = result_key job_id.

(** Whether a command sets a key. *)
Definition tx_sets (k : pystr) (t : tx) : bool := match t with TxSet k' _ _ => k' =s k | _ => false end.

Definition sets (k : pystr) (c : cmd) : bool :=
  match c with
  | RSet k' _ _ => k' =s k
  | RMulti txs => existsb (tx_sets k) txs
  | _ => false
  end.

(** Redis as a store of these keys: what it documents of [GET] and [SET]; a [SET] whose reply is lost
    may or may not have happened; other commands leave the keys alone, and they do not expire.  This
    is Redis as one worker sees it while no other client writes these keys and their time to live has
    not run out; a cancellation by the API is such a write, and what it can do is shown at
    [cancel_overwrites_completed] of [Cancellation.v]. *)
Class JobStore (E : Type) `{HE : Handler E} (job_id : pystr) := {
  stored : E → pystr → option pystr;
  get_stored k e v e' : job_key job_id k → handle (RGet k) e = (Ok v, e') → v = stored e k;
  set_stored k v ttl e a e' : job_key job_id k → handle (RSet k v ttl) e = (Ok a, e') → stored e' k = Some v;
  set_lost k v ttl e x e' : job_key job_id k → handle (RSet k v ttl) e = (Raise x, e') →
    stored e' k = stored e k ∨ stored e' k = Some v;
  other_stored c k e r e' : job_key job_id k → sets k c = false → handle c e = (r, e') →
    stored e' k = stored e k;
}.

(** ** The story *)

(** The fields the worker sets; the API's own fields are all others. *)
Definition worker_fields : list pystr := [u "status"; u "result"; u "worker_id"; u "updated_at"].

(** The record still has every field of the API. *)
Definition keeps (d0 d : list (pystr * json)) : Prop :=
  ∀ k, k ∉ worker_fields → dict_get k d = dict_get k d0.

Section Story.
Context {PR : PyRuntime} {JR : JsonRuntime} {E : Type} {HE : Handler E} (job_id : pystr) {JS : JobStore E job_id}.

(** The record key holds a printable object grown from [d0]; it is absent if it was absent. *)
Definition record_from (d0 : option (list (pystr * json))) (e : E) : Prop :=
  match d0 with
  | None => stored e (job_record_key job_id) = None
  | Some d0 => ∃ raw d, stored e (job_record_key job_id) = Some raw ∧ json_loads raw = Ok (JDict d) ∧
                        wf_json (JDict d) = true ∧ keeps d0 d
  end.

(** Both keys report the result [r]: the result key holds its text, and the record, if there is one,
    has its status, its fields and the worker, and everything else the API had put there. *)
Definition settled_as (d0 : option (list (pystr * json))) (worker : pystr) (r : ExecutionResult) (e : E) : Prop :=
  stored e (result_key job_id) = Some (result_text r) ∧
  match d0 with
  | None => stored e (job_record_key job_id) = None
  | Some d0 => ∃ d, stored e (job_record_key job_id) = Some (json_dumps (JDict d)) ∧
      json_loads (json_dumps (JDict d)) = Ok (JDict d) ∧ wf_json (JDict d) = true ∧ keeps d0 d ∧
      dict_get (u "status") d = Some (JStr (status r)) ∧ dict_get (u "result") d = Some (to_dict r) ∧
      dict_get (u "worker_id") d = Some (JStr worker)
  end.

Lemma settled_record d0 worker r e : settled_as d0 worker r e → record_from d0 e.
Proof.
  intros [_ H]. destruct d0; [|done]. destruct H as (d & Hs & Hl & Hw & Hk & _).
  by exists (json_dumps (JDict d)), d.
Qed.

(** ** Commands that leave the keys alone *)

Definition same_keys (s s' : st E) : Prop :=
  ∀ k, job_key job_id k → stored (env s') k = stored (env s) k.

#[export] Instance same_keys_preorder : PreOrder same_keys.
Proof. split; [done|]. intros s1 s2 s3 H1 H2 k Hk. by rewrite H2, H1. Qed.

Lemma same_keys_call c s r e :
  (∀ k, job_key job_id k → sets k c = false) → handle c (env s) = (r, e) →
  same_keys s (St e (mem s) (Ev c r :: trace s)).
Proof. intros Hc He k Hk. apply (other_stored c k _ r); auto. Qed.

Lemma record_from_same d0 s s' : same_keys s s' → record_from d0 (env s) → record_from d0 (env s').
Proof. intros H. unfold record_from. by rewrite (H (job_record_key job_id)) by by left. Qed.

Lemma settled_as_same d0 worker r s s' :
  same_keys s s' → settled_as d0 worker r (env s) → settled_as d0 worker r (env s').
Proof.
  intros H. unfold settled_as. rewrite (H (result_key job_id)) by by right.
  by rewrite (H (job_record_key job_id)) by by left.
Qed.
End Story.

(** A command that is not a [SET]. *)
#[local] Ltac not_set := apply same_keys_call; [done|eassumption].

(** A computation that issues no [SET]. *)
#[local] Ltac keys_tac := evolves_tac; first [not_set | by intros ? ?].

(** ** Patching the record *)

Section Patch.
Context {PR : PyRuntime} {JR : JsonRuntime} {E : Type} {HE : Handler E} {SW : SaneWorld E}.
Context (job_id : pystr) {JS : JobStore E job_id}.

(** Fields the worker may set, printable. *)
Definition own_fields (fields : list (pystr * json)) : Prop :=
  Forall (λ kv, kv.1 ∈ worker_fields ∧ wf_attr kv) fields.

Lemma patched_wf d fields now :
  wf_json (JDict d) = true → own_fields fields → scalar_str now → wf_json (JDict (patched d fields now)) = true.
Proof.
  intros [Hn Hd]%wf_dict_inv Hf Hnow. unfold patched. apply wf_dict.
  - by apply dict_set_NoDup, dict_update_NoDup.
  - apply dict_set_wf; [apply dict_update_wf; [done|]|by split; [apply u_scalar|apply bool_decide_eq_true]].
    eapply Forall_impl; [exact Hf|]. by intros kv [_ ?].
Qed.

Lemma patched_keeps d0 d fields now : keeps d0 d → own_fields fields → keeps d0 (patched d fields now).
Proof.
  intros Hk Hf k Hout. rewrite patched_get. rewrite bool_decide_eq_false_2; [|intros ->; apply Hout; by_compute].
  rewrite dict_update_get_out; [by apply Hk|]. intros ([k' v] & -> & Hin)%list_elem_of_fmap.
  apply Hout. unfold own_fields in Hf. rewrite Forall_forall in Hf. by apply (Hf (k', v)).
Qed.

Lemma record_written d0 d e : wf_json (JDict d) = true → keeps d0 d →
  stored e (job_record_key job_id) = Some (json_dumps (JDict d)) → record_from job_id (Some d0) e.
Proof. intros Hw Hk Hs. exists (json_dumps (JDict d)), d. split_and!; [done|by apply loads_dumps|done|done]. Qed.

(** Reading the record finds what is stored. *)
Lemma get_record_story d0 s :
  record_from job_id d0 (env s) →
  wp (get_record job_id) (λ r s', same_keys job_id s s' ∧ ∀ o, r = Ok o →
    match d0 with
    | None => o = None
    | Some d1 => ∃ d, o = Some (JDict d) ∧ wf_json (JDict d) = true ∧ keeps d1 d
    end) s.
Proof.
  intros H0. unfold get_record. wp_step. call_eq. intros r e He.
  assert (same_keys job_id s (St e (mem s) (Ev (RGet (job_record_key job_id)) r :: trace s))) as Hs by not_set.
  destruct r as [raw|x]; [|by split]. apply get_stored in He as ->; [|by left].
  destruct d0 as [d1|]; cbn [record_from] in H0.
  - destruct H0 as (raw & d & -> & Hl & Hw & Hk). do 3 wp_step. rewrite Hl. wp_step. idtac. split; [done|].
    intros o [= <-]. by exists d.
  - rewrite H0. wp_step. split; [done|]. by intros o [= <-].
Qed.

(** Whatever happens, the record stays grown from [d0], and the result key is not touched; on return
    the record has been patched. *)
Lemma patch_record_story d0 fields s :
  own_fields fields → record_from job_id d0 (env s) →
  wp (patch_record job_id fields) (λ r s',
    record_from job_id d0 (env s') ∧ stored (env s') (result_key job_id) = stored (env s) (result_key job_id) ∧
    (is_ok r = true → ∀ d1, d0 = Some d1 → ∃ d now,
      stored (env s') (job_record_key job_id) = Some (json_dumps (JDict (patched d fields now))) ∧
      wf_json (JDict (patched d fields now)) = true ∧ keeps d1 d)) s.
Proof using SW.
  intros Hf H0. unfold patch_record. wp_step. eapply wp_mono; [|by apply get_record_story].
  intros r s1 [Hs1 Hr]. pose proof (record_from_same _ _ _ _ Hs1 H0) as H1.
  rewrite <- (Hs1 (result_key job_id)) by by right.
  destruct r as [o|x]; [|by split_and!]. specialize (Hr o eq_refl).
  destruct d0 as [d1|]; [|subst o; wp_step; by split_and!]. destruct Hr as (d & -> & Hw & Hk). do 2 wp_step. cbn [as_dict]. wp_step.
  call_eq. intros now e He.
  assert (same_keys job_id s1 (St e (mem s1) (Ev TNowIso now :: trace s1))) as Hs2 by not_set.
  pose proof (record_from_same _ _ _ _ Hs2 H1) as H2. rewrite <- (Hs2 (result_key job_id)) by by right.
  destruct now as [now|x]; [|by split_and!].
  assert (wf_json (JDict (patched d fields now)) = true) as Hw'.
  { apply patched_wf; [done..|]. apply now_text. by exists (env s1), e. }
  pose proof (patched_keeps d1 d fields now Hk Hf) as Hk'. wp_step. call_eq. intros a e' He'.
  assert (stored e' (result_key job_id) = stored e (result_key job_id)) as Hres.
  { eapply other_stored; [by right| |exact He']. by apply bool_decide_eq_false_2. }
  destruct a as [a|x].
  - apply set_stored in He'; [|by left]. wp_step. split_and!; [by eapply record_written|done|].
    intros _ ? [= <-]. by exists d, now.
  - apply set_lost in He'; [|by left]. split_and!; [|done|done]. cbn [env] in *.
    destruct He' as [He'|He']; [|by eapply record_written]. unfold record_from. by rewrite He'.
Qed.
End Patch.

(** ** Processing a job *)

Section Process.
Context {PR : PyRuntime} {JR : JsonRuntime} {E : Type} {HE : Handler E} {SW : SaneWorld E}.
Context {X : SandboxExec E} {XL : SandboxExecLaws E} {PX : PrintableExec E}.
Context (cfg : WorkerConfig) (minio : bool) (Hworker : scalar_str (worker_id cfg)).
Context (job_id : pystr) (Hjob : scalar_str job_id) {JS : JobStore E job_id}.
Context (d0 : option (list (pystr * json))).

(** The job is settled, with a result of its own and a terminal status. *)
Definition told (e : E) : Prop :=
  ∃ r, settled_as job_id d0 (worker_id cfg) r e ∧ Types.job_id r = job_id ∧ status r ∈ TERMINAL_STATUSES.

Definition open_or_told (told_now : bool) (e : E) : Prop :=
  record_from job_id d0 e ∧ (told_now = true → told e).

Lemma told_record e : told e → record_from job_id d0 e.
Proof using Type. intros (r & H & _). by eapply settled_record. Qed.

Lemma open_or_told_same b s s' : same_keys job_id s s' → open_or_told b (env s) → open_or_told b (env s').
Proof using Type.
  intros Hs [H1 H2]. split; [by eapply record_from_same|]. intros Hb. destruct (H2 Hb) as (r & Hr & Hrest).
  exists r. split; [by eapply settled_as_same|done].
Qed.

(** A computation that leaves the keys alone. *)
Lemma story_same {A} b (m : M E A) s :
  evolves (same_keys job_id) m → open_or_told b (env s) → wp m (λ _ s', open_or_told b (env s')) s.
Proof using Type. intros Hm H. by apply (open_or_told_same b s _ (Hm s)). Qed.

Lemma publish_same msg : evolves (same_keys job_id) (_publish job_id msg).
Proof using Type. unfold _publish. keys_tac. Qed.

Lemma archive_same bucket r : evolves (same_keys job_id) (_archive minio bucket job_id r).
Proof using Type. unfold _archive. keys_tac. Qed.

Lemma release_ack_same user_id id : evolves (same_keys job_id) (_ ← release_slot user_id job_id; ack id).
Proof using Type. unfold release_slot, ack. keys_tac. Qed.

Lemma abandon_same m user_id reason : evolves (same_keys job_id) (abandon m user_id job_id reason).
Proof using Type. unfold abandon, release_slot, dead_letter, ack. keys_tac. Qed.

(** The fields of a result are the worker's and printable. *)
Lemma result_fields_own r :
  wf_result r → own_fields [(u "status", JStr (status r)); (u "result", to_dict r); (u "worker_id", JStr (worker_id cfg))].
Proof using Hworker.
  intros Hr. pose proof (to_dict_wf r Hr) as Hd. destruct Hr as (_ & Hs & _).
  repeat apply Forall_cons_2; [..|apply Forall_nil_2]; (split; [by_compute|]); (split; [apply u_scalar|]); try done;
    by apply bool_decide_eq_true.
Qed.

(** Storing a printable terminal result settles the job; if it fails, the record is still the API's. *)
Lemma store_terminal_story b r s :
  wf_result r → Types.job_id r = job_id → status r ∈ TERMINAL_STATUSES → open_or_told b (env s) →
  wp (store_terminal minio (minio_bucket cfg) job_id r (worker_id cfg))
    (λ o s', open_or_told (is_ok o) (env s')) s.
Proof using Hworker SW.
  intros Hr Hj Hst Hs. unfold store_terminal. wp_step. eapply wp_mono; [|apply story_same; [apply archive_same|exact Hs]].
  intros [[]|x] s1 [H1 _]; [|by split]. wp_step. call_eq. intros a e He.
  assert (stored e (job_record_key job_id) = stored (env s1) (job_record_key job_id)) as Hrec.
  { eapply other_stored; [by left| |exact He]. by apply bool_decide_eq_false_2. }
  assert (record_from job_id d0 e) as H2 by (unfold record_from; by rewrite Hrec).
  destruct a as [a|x]; [|by split]. apply set_stored in He; [|by right].
  wp_step. eapply wp_mono; [|apply (patch_record_story job_id d0); [by apply result_fields_own|exact H2]].
  cbn [env]. intros [o|x] s2 (H3 & Hres & Hp); [|by split]. wp_step. split; [done|]. intros _.
  exists r. split; [|done]. split; [by rewrite Hres|]. destruct d0 as [d1|]; [|exact H3].
  destruct (Hp eq_refl d1 eq_refl) as (d & now & Hst' & Hw & Hk).
  eexists. split_and!; [exact Hst'|by apply loads_dumps|done|by apply patched_keeps, result_fields_own|..];
    (rewrite patched_get, bool_decide_eq_false_2 by done; apply dict_update_get_in; [by_compute|by repeat first [left; reflexivity|right]]).
Qed.

Lemma finalize_story b language r s :
  wf_result r → Types.job_id r = job_id → status r ∈ TERMINAL_STATUSES → open_or_told b (env s) →
  wp (finalize cfg minio job_id language r) (λ o s', open_or_told (is_ok o) (env s')) s.
Proof using Hworker SW.
  intros Hr Hj Hst Hs. unfold finalize. wp_step. eapply wp_mono; [|by eapply store_terminal_story].
  intros [[]|x] s1 H1; [|done]. wp_step. eapply wp_mono; [|apply story_same; [apply publish_same|exact H1]].
  intros [[]|x] s2 H2; [|by split; [apply H2|]]. unfold _record_metrics. by wp_step.
Qed.

Lemma plain_result_wf r :
  Types.job_id r = job_id → status r ∈ [STATUS_FAILED; STATUS_KILLED] → stdout r = [] → scalar_str (stderr r) →
  exit_code r = None → wall_time_ms r = 0 → cpu_time_ms r = 0 → memory_bytes r = 0 → out_files r = [] → wf_result r.
Proof using Hjob.
  intros Hj Hs Ho He Hx Hw Hc Hm Hf. unfold wf_result. rewrite Hj, Ho, Hx, Hw, Hc, Hm, Hf.
  assert (small_int 0) by by apply small_int_width. split_and!; try done; [|by constructor..].
  apply elem_of_cons in Hs as [->|Hs]; [apply u_scalar|]. apply list_elem_of_singleton in Hs as ->. apply u_scalar.
Qed.

Lemma failed_result_wf e : wf_result (failed_result job_id e).
Proof using Hjob.
  apply plain_result_wf; try done; [by left|]. cbn [stderr failed_result].
  unfold failure_detail. repeat (case_match; [apply u_scalar|]). apply u_scalar.
Qed.

Lemma bare_result_wf : wf_result (bare_result job_id STATUS_KILLED).
Proof using Hjob. apply plain_result_wf; try done; [by right; left|by constructor]. Qed.

Lemma finalize_failed_story b language e s :
  open_or_told b (env s) →
  wp (_finalize_failed cfg minio job_id language e) (λ o s', open_or_told (is_ok o) (env s')) s.
Proof using Hworker Hjob SW. apply finalize_story; [apply failed_result_wf|done|apply terminal_failed]. Qed.

Lemma finalize_cancelled_story b language s :
  open_or_told b (env s) →
  wp (_finalize_cancelled cfg minio job_id language) (λ o s', open_or_told (is_ok o) (env s')) s.
Proof using Hworker Hjob SW. apply finalize_story; [apply bare_result_wf|done|apply terminal_killed]. Qed.

(** The run itself leaves the keys alone and returns a printable terminal result. *)
Lemma execute_story request b s :
  open_or_told b (env s) →
  wp (sandbox_execute request job_id (pub_output job_id)) (λ r s', open_or_told b (env s') ∧
    ∀ res, r = Ok res → wf_result res ∧ Types.job_id res = job_id ∧ status res ∈ TERMINAL_STATUSES) s.
Proof using XL PX Hjob.
  intros Hs. split.
  - apply (open_or_told_same b s); [|done]. apply exec_evolves; [apply _|..].
    + intros c s' r e Hl He. apply same_keys_call; [|exact He]. intros k _. by destruct c.
    + by intros s' m _ k _.
    + intros k text. apply publish_same.
  - intros res Hres. destruct (exec_result request job_id (pub_output job_id) s (pub_output_bg job_id) res Hres) as [Hj Hc].
    split_and!; [|done|apply Hc]. exact (exec_printable request job_id (pub_output job_id) s (pub_output_bg job_id) Hjob res Hres).
Qed.

Lemma running_fields_own : own_fields [(u "status", JStr STATUS_RUNNING); (u "worker_id", JStr (worker_id cfg))].
Proof using Hworker.
  repeat apply Forall_cons_2; [..|apply Forall_nil_2]; (split; [by_compute|]); (split; [apply u_scalar|]);
    apply bool_decide_eq_true; [apply u_scalar|done].
Qed.

Lemma set_running_story b s :
  open_or_told b (env s) →
  wp (set_running job_id (worker_id cfg)) (λ _ s', open_or_told false (env s')) s.
Proof using Hworker SW.
  intros [Hs _]. unfold set_running. wp_step.
  eapply wp_mono; [|apply (patch_record_story job_id d0); [apply running_fields_own|exact Hs]].
  intros [o|x] s1 [H1 _]; [wp_step|]; by split.
Qed.

Lemma end_watch_same : evolves (same_keys job_id) (end_watch job_id).
Proof using Type. unfold end_watch. keys_tac. Qed.

Lemma run_job_story b request s :
  open_or_told b (env s) →
  wp (_run_job cfg minio job_id request) (λ o s', open_or_told (is_ok o) (env s')) s.
Proof using Hworker Hjob SW XL PX.
  intros Hs. unfold _run_job. do 3 wp_step. eapply wp_mono; [|by eapply set_running_story].
  intros [[]|x] s1 H1; [|done]. wp_step. eapply wp_mono; [|apply story_same; [apply publish_same|exact H1]].
  intros [[]|x] s2 H2; [|done]. do 2 wp_step. eapply wp_mono; [|by apply execute_story].
  intros r s3 [H3 Hr]. eapply wp_mono; [|apply story_same; [apply end_watch_same|exact H3]].
  intros [[]|y] s4 H4; [|done]. destruct r as [result|x]; [|done]. destruct (Hr result eq_refl) as (Hw & Hj & Hst).
  wp_step. eapply wp_mono; [|by eapply store_terminal_story]. intros [[]|x] s5 H5; [|done].
  wp_step. eapply wp_mono; [|apply story_same; [apply publish_same|exact H5]].
  intros [[]|x] s6 H6; [|by split; [apply H6|]]. unfold _record_metrics. by wp_step.
Qed.

(** How processing an entry may leave the job: told, or untouched but for its progress and with the
    entry still pending. *)
Definition left_as (t0 : list event) (s : st E) : Prop :=
  told (env s) ∨ record_from job_id d0 (env s) ∧ ∃ new, trace s = new ++ t0 ∧ Forall no_ack new.

Lemma told_release_ack user_id id s (Q : res unit → st E → Prop) :
  open_or_told true (env s) → (∀ r s', told (env s') → Q r s') → wp (_ ← release_slot user_id job_id; ack id) Q s.
Proof using Type.
  intros Hs HQ. eapply wp_mono; [|apply story_same; [apply release_ack_same|exact Hs]].
  intros r s' [_ H]. by apply HQ, H.
Qed.

Lemma run_and_ack_story m user_id request s :
  record_from job_id d0 (env s) →
  returns (run_and_ack cfg minio m user_id job_id request) (λ _ s', left_as (trace s) s') s.
Proof using Hworker Hjob SW XL PX.
  intros Hs. unfold run_and_ack. apply wp_try, wp_bind.
  assert (∀ e s', left_as (trace s) s' →
    match (if is_DockerUnavailableError e then Some (mret tt)
           else if is_Exception e then
             Some (_ ← _finalize_failed cfg minio job_id (req_language request) e;
                   _ ← release_slot user_id job_id; ack (msg_id m))
           else None) with
    | Some h => wp h (λ (r : res unit) s', ∀ a, r = Ok a → left_as (trace s) s') s'
    | None => ∀ a : unit, Raise e = Ok a → left_as (trace s) s'
    end) as Hexc.
  { intros e s' Hs'. destruct (is_DockerUnavailableError e); [by wp_step|].
    destruct (is_Exception e); [|done]. wp_step.
    assert (open_or_told false (env s')) as Ho by (split; [destruct Hs' as [?%told_record|[? _]]|]; done).
    eapply wp_mono; [|by eapply finalize_failed_story]. intros [[]|x] s2 H2; [|done].
    apply told_release_ack; [done|]. intros r s3 H3 a _. by left. }
  destruct (run_job_no_ack cfg minio job_id request s) as (new & Ht & Hn).
  assert (open_or_told false (env s)) as Ho by done.
  pose proof (run_job_story false request s Ho) as Hrun. unfold wp at 1 in Hrun. unfold wp at 1.
  destruct (_run_job cfg minio job_id request s) as [[[]|x] s1]; cbn [fst snd] in *.
  - apply told_release_ack; [done|]. intros [[]|x] s2 H2; [by left|]. apply Hexc. by left.
  - apply Hexc. right. split; [apply Hrun|]. by exists new.
Qed.

Lemma process_story m s :
  msg_job_id m = Ok job_id → job_id ≠ [] → record_from job_id d0 (env s) →
  returns (_process cfg minio m) (λ _ s', left_as (trace s) s') s.
Proof using Hworker Hjob SW XL PX.
  intros Hj Hne Hs. assert (open_or_told false (env s)) as Ho by done.
  unfold _process. do 2 ret_step. rewrite Hj in H. injection H as <-. do 2 ret_step. cbv zeta.
  assert (∀ user_id reason language e, returns (_ ← _finalize_failed cfg minio job_id language e;
            abandon m user_id job_id reason) (λ _ s', left_as (trace s) s') s) as Habandon.
  { intros user_id reason language e. apply wp_bind. eapply wp_mono; [|by eapply finalize_failed_story].
    intros [[]|x] s1 H1; [|done]. eapply wp_mono; [|apply story_same; [apply abandon_same|exact H1]].
    intros r s2 [_ H2] a' _. left. by apply H2. }
  destruct (max_retries cfg <? delivery_count m); [apply Habandon|].
  destruct (request_of m) as [request|x].
  - apply wp_bind. unfold is_cancelled. wp_step. call_eq. intros n e He.
    assert (same_keys job_id s (St e (mem s) (Ev (RExists (cancel_key job_id)) n :: trace s))) as Hsame by not_set.
    pose proof (open_or_told_same false _ _ Hsame Ho) as [H1 _].
    destruct n as [n|x]; [|done]. wp_step. destruct (negb (n =? 0)).
    + wp_step. eapply wp_mono; [|by eapply (finalize_cancelled_story false)]. intros [[]|x] s2 H2; [|done].
      apply told_release_ack; [done|]. intros r s3 H3 a' _. by left.
    + eapply wp_mono; [|by apply run_and_ack_story]. intros r s2 H2 a' Ha. destruct (H2 a' Ha) as [?|(Hr & new & Ht & Hn)]; [by left|].
      right. split; [done|]. exists (new ++ [Ev (RExists (cancel_key job_id)) (Ok n)]). rewrite Ht, <- app_assoc.
      split; [done|]. apply Forall_app. split; [done|]. by apply Forall_singleton.
  - destruct (is_malformed x); [|by ret_step]. rewrite bool_decide_eq_false_2 by done. apply Habandon.
Qed.
End Process.

(** C5: the record and the result of a job tell one story.  While nobody else writes a job's two keys
    (a concurrent cancellation by the API does) and neither key expires, when [_process] returns, either both keys report the same terminal result of that job (the result
    key its text; the record, if the job has one, its status, all its fields and the worker, with
    every field of the API's as it was), or the entry was not acknowledged and the record still has
    every field of the API's, so the job can be tried again.  This covers runs, cancelled jobs, jobs
    over their retries, malformed requests and failures at any point. *)
Theorem process_tells_one_story {PR : PyRuntime} {JR : JsonRuntime} {E} {HE : Handler E} {SW : SaneWorld E}
    {X : SandboxExec E} {XL : SandboxExecLaws E} {PX : PrintableExec E} cfg minio job_id {JS : JobStore E job_id}
    d0 m s :
  scalar_str (worker_id cfg) → scalar_str job_id → msg_job_id m = Ok job_id → job_id ≠ [] →
  record_from job_id d0 (env s) →
  returns (_process cfg minio m) (λ _ s',
    (∃ r, settled_as job_id d0 (worker_id cfg) r (env s') ∧ Types.job_id r = job_id ∧ status r ∈ TERMINAL_STATUSES) ∨
    (record_from job_id d0 (env s') ∧ ∃ new, trace s' = new ++ trace s ∧ Forall no_ack new)) s.
Proof. intros Hw Hj Hm Hne Hs. by apply process_story. Qed.

(** ** A concrete job *)
Module ExampleRecords.
#[local] Existing Instances AsciiRuntime.ascii_runtime AsciiRuntime.ascii_runtime_laws.
#[local] Existing Instance PlainJson.plain_json.

(** A Redis that keeps its keys, beside the example's Docker. *)
#[local] Instance world : Handler (gmap pystr pystr) := λ c e,
  match c return res (ans c) * gmap pystr pystr with
  | RGet k => (Ok (e !! k), e)
  | RSet k v _ => (Ok tt, <[k := v]> e)
  | TNowIso => (Ok (u "2024-01-01T00:00:00+00:00"), e)
  | c => (ExampleRun.answers c, e)
  end.

#[local] Instance exec : SandboxExec (gmap pystr pystr) := execute_impl ExampleHost.host.
#[local] Instance exec_laws : SandboxExecLaws (gmap pystr pystr) := execute_laws ExampleHost.host.

#[local] Instance sane_world : SaneWorld (gmap pystr pystr).
Proof.
  split; intros a (e & e' & H); injection H as <- _; [|by vm_compute..|apply u_scalar].
  repeat constructor; simpl; lia.
Qed.

#[local] Instance printable : PrintableExec (gmap pystr pystr) := execute_printable_exec ExampleHost.host ExampleRun.limits.

#[local] Instance job_store : JobStore (gmap pystr pystr) (u "j").
Proof.
  refine {| stored e k := e !! k |}.
  - intros k e v e' _ H. by injection H as <- _.
  - intros k v ttl e a e' _ H. injection H as _ <-. apply lookup_insert_eq.
  - intros k v ttl e x e' _ H. discriminate H.
  - intros c k e r e' _ Hc H. destruct c; injection H as _ <-; try done. apply lookup_insert_ne.
    intros ->. cbn in Hc. by rewrite bool_decide_eq_true_2 in Hc.
Defined.

Definition record : list (pystr * json) :=
  [(u "job_id", JStr (u "j")); (u "status", JStr STATUS_PENDING); (u "retries", JInt 0)].

Definition start : st (gmap pystr pystr) :=
  St {[ job_record_key (u "j") := json_dumps (JDict record) ]} mem0 [].

Definition final : st (gmap pystr pystr) := (_process ExampleWorker.cfg true (ExampleWorker.message 1) start).2.

Lemma returned : (_process ExampleWorker.cfg true (ExampleWorker.message 1) start).1 = Ok tt.
Proof. vm_compute. reflexivity. Qed.

Lemma acked_here : existsb (λ e, is_ack (ev_cmd e)) (trace final) = true.
Proof. vm_compute. reflexivity. Qed.

Lemma process_tells_one_story_witness :
  ∃ r, settled_as (u "j") (Some record) (worker_id ExampleWorker.cfg) r (env final) ∧
       Types.job_id r = u "j" ∧ status r ∈ TERMINAL_STATUSES.
Proof.
  pose proof (process_tells_one_story ExampleWorker.cfg true (u "j") (Some record) (ExampleWorker.message 1) start) as H.
  assert (wf_json (JDict record) = true) as Hwf by reflexivity.
  destruct (H ltac:(by_compute) ltac:(apply u_scalar) eq_refl ltac:(done)
              ltac:(exists (json_dumps (JDict record)), record; split_and!;
                    [apply lookup_insert_eq|by apply loads_dumps|exact Hwf|by intros k _]) tt returned) as [Hr|[_ (new & Ht & Hn)]];
    [exact Hr|exfalso].
  pose proof acked_here as Ha. unfold final in Ha. rewrite Ht, app_nil_r in Ha.
  apply existsb_exists in Ha as (e & He%list_elem_of_In & Hack).
  rewrite Forall_forall in Hn. specialize (Hn e He). unfold no_ack in Hn. by rewrite Hn in Hack.
Defined.
End ExampleRecords.
