(* ===== verification/Defects.v ===== *)
(** * Behaviours the code does not intend

    Concrete runs of the model in which the worker departs from what its comments promise.  Each is a
    world (a function from commands to answers) with one failing service. *)
From S2P Require Import Prelude PyStr Utf8 Errors Json JsonText Effects Constants Types Config ImageRegistry Capture Executor Run Store Queue Worker Records.
From stdpp Require Import options.

#[local] Existing Instance AsciiRuntime.ascii_runtime.
#[local] Existing Instance PlainJson.plain_json.

(** The texts stored under a job's result key, oldest first. *)
Definition stored_text (job_id : pystr) (e : event) : option pystr :=
  match e with
  | Ev c r => match c with
              | RSet k text _ => if (k =s result_key job_id) && is_ok r then Some text else None
              | _ => None
              end
  end.

Definition stored_texts (job_id : pystr) (tr : list event) : list pystr := rev (omap (stored_text job_id) tr).

(** The statuses of the results stored for a job, oldest first. *)
Definition stored_statuses (job_id : pystr) (tr : list event) : list (option json) :=
  map (λ t, match json_loads t with Ok (JDict d) => dict_get (u "status") d | _ => None end)
    (stored_texts job_id tr).

(** A world in which one command fails with a Redis error and the rest goes well. *)
Definition failing (bad : cmd → bool) (c : cmd) : res (ans c) :=
  if bad c then Raise (RedisError (u "connection lost")) else ExampleRun.answers c.

Section Run.
Context (bad : cmd → bool).
#[local] Instance world : Handler unit := Scripted.world (failing bad).
#[local] Instance exec : SandboxExec unit := execute_impl ExampleHost.host.

(** The job of the example, processed once in this world. *)
Definition processed : res unit * st unit :=
  _process ExampleWorker.cfg true (ExampleWorker.message 1) Scripted.start.
End Run.

Definition fails_ack (c : cmd) : bool := match c with RXack _ _ _ => true | _ => false end.
Definition fails_get (c : cmd) : bool := match c with RGet _ => true | _ => false end.
Definition fails_watch (c : cmd) : bool := match c with RWatchCancel _ => true | _ => false end.

(** a stored result can be replaced by a failure.  When the acknowledgement of a completed job
    fails, the handler of the exception stores a FAILED result over the COMPLETED one. *)
Theorem completed_result_overwritten :
  stored_statuses (u "j") (trace (processed fails_ack).2) =
  [Some (JStr STATUS_COMPLETED); Some (JStr STATUS_FAILED)].
Proof. vm_compute. reflexivity. Qed.

(** the in-flight gauge can leak.  When marking the job as running fails, [_process] ends with the
    gauge raised for a job that is not running. *)
Theorem gauge_leaks :
  is_ok (processed fails_get).1 = false ∧ jobs_in_flight (metrics (mem (processed fails_get).2)) = 1.
Proof. split; vm_compute; reflexivity. Qed.

(** a failed poll of the cancellation key discards a finished run.  The container completed, but
    the exception of the watcher task replaces its result: FAILED is stored, and the gauge leaks. *)
Theorem watcher_failure_discards_result :
  stored_statuses (u "j") (trace (processed fails_watch).2) = [Some (JStr STATUS_FAILED)] ∧
  jobs_in_flight (metrics (mem (processed fails_watch).2)) = 1.
Proof. split; vm_compute; reflexivity. Qed.

(** ** A cancelled job *)

(** The API has cancelled the job: its record says KILLED, but the cancellation key, which the API sets
    for two minutes, is gone when the entry is read. *)
Definition cancelled_start : st (gmap pystr pystr) :=
  St {[ job_record_key (u "j") := json_dumps (JDict [(u "job_id", JStr (u "j")); (u "status", JStr STATUS_KILLED)]) ]}
    mem0 [].

Definition status_of (job_id : pystr) (e : gmap pystr pystr) : option json :=
  match e !! job_record_key job_id with
  | Some raw => match json_loads raw with Ok (JDict d) => dict_get (u "status") d | _ => None end
  | None => None
  end.

#[local] Existing Instances ExampleRecords.world ExampleRecords.exec.

(** a cancelled job can be run after all.  The worker looks at the cancellation key only, never at the
    status of the record: the record goes from KILLED to COMPLETED. *)
Theorem killed_record_revived :
  status_of (u "j") (env cancelled_start) = Some (JStr STATUS_KILLED) ∧
  status_of (u "j") (env (_process ExampleWorker.cfg true (ExampleWorker.message 1) cancelled_start).2) =
    Some (JStr STATUS_COMPLETED).
Proof. split; vm_compute; reflexivity. Qed.
