(* ===== verification/Cleanup.v ===== *)
(** * The reaper ([worker/sandbox/cleanup.py])

    Parsing of Docker's relative ages, the decision whether a container is removed, and the reap
    cycle over containers and work directories. *)
From S2P Require Import Prelude PyStr Utf8 Errors Effects Config.
From stdpp Require Import options.

Definition ORPHAN_AGE_SECONDS : Z := 300.

Definition _UNIT_SECONDS : list (pystr * Z) :=
  [(u "second", 1); (u "minute", 60); (u "hour", 3600); (u "day", 86400); (u "week", 604800)].

Section Ages.
Context {PR : PyRuntime}.

Definition _safe_int (value : pystr) : option Z := py_int value.

(** The loop over the units: the first one some word starts with. *)
Fixpoint unit_age (quantity : Z) (words : list pystr) (units : list (pystr * Z)) : option Z :=
  match units with
  | [] => None
  | (unit, seconds) :: units' =>
      if existsb (λ p, startswith p unit) words then Some (quantity * seconds)
      else unit_age quantity words units'
  end.

Definition _parse_relative_age (text : pystr) : option Z :=
  let text := strip (removesuffix (str_lower (strip text)) (u " ago")) in
  if startswith text (u "less than") then Some 0
  else
    let text := if startswith text (u "about ") then drop (length (u "about ")) text else text in
    match split_ws text with
    | [] => None
    | qty_word :: rest =>
        quantity ← (if bool_decide (qty_word ∈ [u "a"; u "an"]) then Some 1 else _safe_int qty_word);
        unit_age quantity rest _UNIT_SECONDS
    end.

Definition _parse_up_age (status : pystr) : option Z := _parse_relative_age (drop (length (u "Up ")) status).

(** [age is not None and age >= ORPHAN_AGE_SECONDS] *)
Definition is_orphan (age : option Z) : bool :=
  match age with Some a => ORPHAN_AGE_SECONDS <=? a | None => false end.

Definition should_reap (status running_for : pystr) : bool :=
  let stripped := strip status in
  if startswith stripped (u "Created") then
    is_orphan (if running_for =s [] then None else _parse_relative_age running_for)
  else if startswith stripped (u "Exited") || startswith stripped (u "Dead") || startswith stripped (u "Removal")
  then true
  else if startswith stripped (u "Up") then is_orphan (_parse_up_age stripped)
  else false.

End Ages.

Section Reaper.
Context {PR : PyRuntime} {E : Type} {HE : Handler E} (cfg : WorkerConfig).

Definition ps_argv : list pystr :=
  [docker_path cfg; u "ps"; u "-a"; u "--filter"; u "label=sandbox-managed=1"; u "--format";
   u "{{.ID}}" ++ [9] ++ u "{{.Status}}" ++ [9] ++ u "{{.RunningFor}}"; u "--no-trunc"].

Definition rm_container (id : pystr) : list pystr := [docker_path cfg; u "rm"; u "-f"; id].

(** The container a line of the listing names, if it is to be removed. *)
Definition reapable (line : pystr) : option pystr :=
  if bool_decide (9 ∈ line) then
    match split_char 9 line with
    | container_id :: status :: rest =>
        if should_reap status (default [] (head rest)) then Some container_id else None
    | _ => None
    end
  else None.

(** The loop over the lines, with the count so far. *)
Fixpoint reap_lines (lines : list pystr) (reaped : Z) : M E Z :=
  match lines with
  | [] => mret reaped
  | line :: lines' =>
      match reapable line with
      | Some container_id => _ ← call (DSimple (rm_container container_id)); reap_lines lines' (reaped + 1)
      | None => reap_lines lines' reaped
      end
  end.

Definition _reap_containers : M E Z :=
  r ← call (DSimple ps_argv);
  let '(rc, out, _) := r in
  if negb (rc =? 0) then mret 0 else reap_lines (splitlines (decode_replace out)) 0.

(** One entry of the work directory; times are in microseconds. *)
Definition reap_entry (base : pystr) (now : Z) (entry : pystr) : M E unit :=
  let path := path_join base entry in
  age ← try_except (mtime ← call (FGetmtime path); mret (Some (now - mtime)))
          (λ e, if is_OSError e then Some (mret None) else None);
  match age with
  | Some a => when (ORPHAN_AGE_SECONDS * 1000000 <? a) (suppress is_OSError (call (FRmtree path)))
  | None => mret tt
  end.

Definition _reap_workdirs : M E unit :=
  let base := local_workdir cfg in
  isdir ← call (FIsdir base);
  if negb isdir then mret tt
  else
    now ← call TTime;
    entries ← call (FListdir base);
    for_each entries (reap_entry base now).

Definition reap_once : M E Z :=
  reaped ← _reap_containers;
  _ ← _reap_workdirs;
  mret reaped.

(** The loop of [run_forever], for at most [cycles] cycles: [true] when it has seen the stop event. *)
Fixpoint run_forever (interval_seconds : Z) (cycles : nat) : M E bool :=
  match cycles with
  | O => mret false
  | S cycles' =>
      stop ← call TStopSet;
      if (stop : bool) then mret true
      else
        _ ← reap_once;
        _ ← call (TWaitStop interval_seconds);
        run_forever interval_seconds cycles'
  end.

End Reaper.

(** ** Ages as Docker writes them *)

(** A word of lower-case ASCII letters. *)
Definition lower_word (w : pystr) : Prop := Forall (λ c, 97 ≤ c ≤ 122) w.

Section AgeFacts.
Context {PR : PyRuntime} {PL : PyRuntimeLaws}.

Lemma lower_word_no_space w : lower_word w → no_space w.
Proof.
  intros H. eapply Forall_impl; [done|]. intros c Hc. cbv beta in Hc. unfold isspace.
  rewrite !orb_false_iff, !andb_false_iff, !Z.leb_gt, !Z.eqb_neq. lia.
Qed.

(** Characters [lower()] leaves alone. *)
Definition stays_lower (c : Z) : Prop := 0 ≤ c < 65 ∨ 90 < c < 128.

Lemma str_lower_id s : Forall stays_lower s → str_lower s = s.
Proof using PL.
  intros H. rewrite str_lower_ascii by (eapply Forall_impl; [done|]; unfold stays_lower; intros; lia).
  rewrite <- (map_id s) at 2. apply map_ext_in. intros c Hc%list_elem_of_In.
  rewrite Forall_forall in H. specialize (H c Hc). unfold stays_lower, ascii_lower in *.
  destruct (_ && _) eqn:Ec; [|done]. rewrite andb_true_iff, !Z.leb_le in Ec. lia.
Qed.

Lemma digits_stay n : 0 ≤ n → Forall stays_lower (digits n).
Proof.
  intros H. eapply Forall_impl; [by apply digits_digit|]. intros c Hc.
  unfold is_digit in Hc. rewrite andb_true_iff, !Z.leb_le in Hc. left. lia.
Qed.

Lemma lower_word_stays w : lower_word w → Forall stays_lower w.
Proof. intros H. eapply Forall_impl; [done|]. intros c Hc. cbv beta in Hc. right. lia. Qed.

(** "N word", before the units are looked up. *)
Lemma age_words n w c :
  0 ≤ n → (length (digits n) ≤ INT_MAX_STR_DIGITS)%nat → lower_word (w ++ [c]) →
  let t := digits n ++ 32 :: w ++ [c] in
  strip t = t ∧ str_lower t = t ∧ startswith t (u "less than") = false ∧
  startswith t (u "about ") = false ∧ split_ws t = [digits n; w ++ [c]].
Proof using PL.
  intros Hn Hlen Hw t. pose proof (digits_digit n Hn) as Hd. pose proof (digits_nonempty n) as Hne.
  assert (isspace c = false) as Hc.
  { apply lower_word_no_space in Hw. apply Forall_app in Hw as [_ Hw]. by inversion Hw. }
  assert (split_ws t = [digits n; w ++ [c]]) as Hsplit.
  { unfold t. rewrite split_ws_word by (done || by apply digits_no_space).
    rewrite split_ws_last; [done|by apply lower_word_no_space|]. intros H. by apply (app_cons_not_nil w [] c). }
  assert (str_lower t = t) as Hlow.
  { apply str_lower_id, Forall_app. split; [by apply digits_stay|].
    constructor; [left; lia|by apply lower_word_stays]. }
  split_and!; try done; subst t; destruct (digits n) as [|d ds]; try done; inversion Hd as [|? ? Hdig _]; subst.
  - eapply (strip_id d c _ ((d :: ds) ++ 32 :: w)); [by rewrite <- app_assoc|by apply digit_no_space|done].
  - apply startswith_head. intros ->. by vm_compute in Hdig.
  - apply startswith_head. intros ->. by vm_compute in Hdig.
Qed.

Lemma digits_not_article n : 0 ≤ n → bool_decide (digits n ∈ [u "a"; u "an"]) = false.
Proof.
  intros Hn. apply bool_decide_eq_false_2. intros H. pose proof (digits_digit n Hn) as Hd.
  repeat (apply elem_of_cons in H as [H|H]); [rewrite H in Hd; by inversion Hd..|by inversion H].
Qed.

(** "N word" and "N word ago" *)
Lemma relative_age n w c ago :
  0 ≤ n → (length (digits n) ≤ INT_MAX_STR_DIGITS)%nat → lower_word (w ++ [c]) → c ≠ 111 →
  ago ∈ [[]; u " ago"] →
  _parse_relative_age (digits n ++ 32 :: w ++ [c] ++ ago) = unit_age n [w ++ [c]] _UNIT_SECONDS.
Proof using PL.
  intros Hn Hlen Hw Hc Hago. destruct (age_words n w c Hn Hlen Hw) as (Hs & Hl & H1 & H2 & Hsp).
  set (t := digits n ++ 32 :: w ++ [c]) in *.
  assert (removesuffix (str_lower (strip (digits n ++ 32 :: w ++ [c] ++ ago))) (u " ago") = t) as Ht.
  { assert (digits n ++ 32 :: w ++ [c] ++ ago = t ++ ago) as ->
      by (unfold t; by rewrite <- app_assoc; cbn; rewrite <- app_assoc).
    apply elem_of_cons in Hago as [->|Hago].
    - rewrite app_nil_r, Hs, Hl. unfold t. change (u " ago") with (u " ag" ++ [111]).
      change (digits n ++ 32 :: w ++ [c]) with (digits n ++ (32 :: w) ++ [c]). rewrite app_assoc.
      by apply removesuffix_last.
    - apply elem_of_cons in Hago as [->|Hago]; [|by inversion Hago].
      assert (strip (t ++ u " ago") = t ++ u " ago") as ->.
      { pose proof (digits_digit n Hn) as Hd. pose proof (digits_nonempty n). unfold t.
        destruct (digits n) as [|d ds]; [done|]. inversion Hd; subst. cbn [app].
        eapply (strip_id d 111 _ ((d :: ds ++ 32 :: w ++ [c]) ++ u " ag"));
          [by rewrite <- (app_assoc (d :: _))|by apply digit_no_space|done]. }
      rewrite str_lower_id; [apply removesuffix_app|]. apply Forall_app. split.
      + unfold t. apply Forall_app. split; [by apply digits_stay|].
        constructor; [left; lia|by apply lower_word_stays].
      + repeat constructor; vm_compute; intuition congruence. }
  unfold _parse_relative_age. rewrite Ht, Hs, H1, H2, Hsp, digits_not_article by done.
  unfold _safe_int. by rewrite py_int_digits.
Qed.

(** The unit words: singular and plural. *)
Lemma unit_words n unit secs plural :
  (unit, secs) ∈ _UNIT_SECONDS → plural ∈ [[]; u "s"] →
  ∃ w c, unit ++ plural = w ++ [c] ∧ lower_word (w ++ [c]) ∧ c ≠ 111 ∧
         unit_age n [w ++ [c]] _UNIT_SECONDS = Some (n * secs).
Proof.
  intros Hu Hp. unfold _UNIT_SECONDS in Hu.
  assert (∀ x : pystr, bool_decide (x ≠ [] ∧ lower_word x ∧ List.last x 0 ≠ 111) = true →
            ∃ w c, x = w ++ [c] ∧ lower_word (w ++ [c]) ∧ c ≠ 111) as Hx.
  { intros x (Hne & Hl & Hc)%bool_decide_eq_true. exists (removelast x), (List.last x 0).
    by rewrite <- app_removelast_last. }
  repeat (apply elem_of_cons in Hu as [[= -> ->]|Hu]); [..|by inversion Hu];
    repeat (apply elem_of_cons in Hp as [->|Hp]); try (by inversion Hp);
    match goal with |- ∃ w c, ?x = _ ∧ _ => destruct (Hx x ltac:(by vm_compute)) as (w & c & Hwc & Hl & Hc) end;
    exists w, c; split_and!; try done; rewrite <- Hwc; reflexivity.
Qed.

(** The ages Docker writes, with their seconds: a count of a unit, an article and a unit after
    "About", and the age of a container that has just started. *)
Inductive docker_age : pystr → Z → Prop :=
| age_count n unit secs plural :
    (unit, secs) ∈ _UNIT_SECONDS → plural ∈ [[]; u "s"] →
    0 ≤ n → (length (digits n) ≤ INT_MAX_STR_DIGITS)%nat →
    docker_age (digits n ++ u " " ++ unit ++ plural) (n * secs)
| age_about article unit secs :
    article ∈ [u "a"; u "an"] → (unit, secs) ∈ _UNIT_SECONDS →
    docker_age (u "About " ++ article ++ u " " ++ unit) secs
| age_less : docker_age (u "Less than a second") 0.

(** A text without capitals behind the point where [lower()] is applied. *)
Lemma parse_lowered text :
  Forall (λ c, 0 ≤ c < 128) (strip text) →
  _parse_relative_age text =
  (let text := strip (removesuffix (map ascii_lower (strip text)) (u " ago")) in
   if startswith text (u "less than") then Some 0
   else
     let text := if startswith text (u "about ") then drop (length (u "about ")) text else text in
     match split_ws text with
     | [] => None
     | qty_word :: rest =>
         quantity ← (if bool_decide (qty_word ∈ [u "a"; u "an"]) then Some 1 else _safe_int qty_word);
         unit_age quantity rest _UNIT_SECONDS
     end).
Proof using PL. intros H. unfold _parse_relative_age. by rewrite str_lower_ascii. Qed.

#[local] Ltac members :=
  repeat match goal with
  | H : _ ∈ _ :: _ |- _ => apply elem_of_cons in H as [?|H]
  | H : _ ∈ [] |- _ => by inversion H
  end; simplify_eq.

Lemma docker_age_parse text secs ago :
  docker_age text secs → ago ∈ [[]; u " ago"] → _parse_relative_age (text ++ ago) = Some secs.
Proof using PL.
  intros [n unit secs' plural Hu Hp Hn Hlen|article unit secs' Ha Hu|] Hago.
  - destruct (unit_words n unit secs' plural Hu Hp) as (w & c & Hwc & Hl & Hc & Hage).
    rewrite Hwc, <- Hage, <- (relative_age n w c ago) by done. f_equal. by rewrite <- !app_assoc.
  - unfold _UNIT_SECONDS in Hu. members;
      (rewrite parse_lowered; [vm_compute; reflexivity|by apply (bool_decide_eq_true_1 _); vm_compute]).
  - members; (rewrite parse_lowered; [vm_compute; reflexivity|by apply (bool_decide_eq_true_1 _); vm_compute]).
Qed.

(** Such a text neither starts nor ends with white space. *)
Lemma docker_age_ends text secs : docker_age text secs → text ≠ [] ∧ ∃ w c, text = w ++ [c] ∧ isspace c = false.
Proof using PL.
  assert (∀ x, bool_decide (x ≠ [] ∧ isspace (List.last x 0) = false) = true →
            x ≠ [] ∧ ∃ w c, x = w ++ [c] ∧ isspace c = false) as Hx.
  { intros x [Hne Hc]%bool_decide_eq_true. split; [done|]. exists (removelast x), (List.last x 0).
    by rewrite <- app_removelast_last. }
  intros [n unit secs' plural Hu Hp Hn Hlen|article unit secs' Ha Hu|].
  - destruct (unit_words n unit secs' plural Hu Hp) as (w & c & Hwc & Hl & _ & _). split.
    { pose proof (digits_nonempty n). by destruct (digits n). }
    exists (digits n ++ u " " ++ w), c. rewrite Hwc, <- !app_assoc. split; [done|].
    apply lower_word_no_space in Hl. apply Forall_app in Hl as [_ Hl]. by inversion Hl.
  - unfold _UNIT_SECONDS in Hu. members; apply Hx; by vm_compute.
  - apply Hx. by vm_compute.
Qed.

(** C30: the age decision is exact on the ages Docker writes: "N second(s)" and the other units of the
    table, "About a minute", "About an hour", "Less than a second".  A running container is removed
    exactly when the age in its status is at least 300 seconds, and a created one exactly when the
    time since its creation is: a young container, that is an active job of this or another worker,
    is never removed. *)
Theorem should_reap_age text secs running_for :
  docker_age text secs →
  should_reap (u "Up " ++ text) running_for = (ORPHAN_AGE_SECONDS <=? secs) ∧
  should_reap (u "Created") (text ++ u " ago") = (ORPHAN_AGE_SECONDS <=? secs).
Proof using PL.
  intros Ha. destruct (docker_age_ends _ _ Ha) as (Hne & w & c & Hwc & Hc).
  pose proof (λ ago, docker_age_parse text secs ago Ha) as Hparse. split.
  - assert (strip (u "Up " ++ text) = u "Up " ++ text) as Hs.
    { rewrite Hwc. change (u "Up " ++ ?x) with (85 :: [112; 32] ++ x).
      eapply (strip_id 85 c _ (85 :: [112; 32] ++ w)); [|done|done]. reflexivity. }
    unfold should_reap. rewrite Hs. unfold _parse_up_age. change (u "Up " ++ text) with (85 :: 112 :: 32 :: text).
    rewrite (startswith_heads _ (u "Created") 67), (startswith_heads _ (u "Exited") 69),
      (startswith_heads _ (u "Dead") 68), (startswith_heads _ (u "Removal") 82) by done. cbn [orb].
    assert (startswith (85 :: 112 :: 32 :: text) (u "Up") = true) as ->
      by (apply bool_decide_eq_true_2; by exists (32 :: text)).
    cbn [drop length u]. change (drop _ _) with text. rewrite <- (app_nil_r text), Hparse by (by left). done.
  - unfold should_reap. change (startswith (strip (u "Created")) (u "Created")) with true. cbn iota.
    rewrite bool_decide_eq_false_2 by by destruct text. rewrite Hparse by (right; by left). done.
Qed.
End AgeFacts.

(** ** The reap cycle *)

Section ReaperFacts.
Context {PR : PyRuntime} {E : Type} {HE : Handler E} (cfg : WorkerConfig).

Definition rm_cmds (ids : list pystr) : list cmd := map (λ id, DSimple (rm_container cfg id)) ids.

(** The removals of [lines]: all of them, or a first part that ends with the one that raised. *)
Lemma reap_lines_spec lines n s :
  wp (reap_lines cfg lines n) (λ r s',
    ∃ rms, trace s' = rms ++ trace s ∧
      match r with
      | Ok k => k = n + Z.of_nat (length rms) ∧ map ev_cmd (rev rms) = rm_cmds (omap reapable lines)
      | Raise e => ∃ id rest, rms = Ev (DSimple (rm_container cfg id)) (Raise e) :: rest ∧
                   map ev_cmd (rev rms) `prefix_of` rm_cmds (omap reapable lines)
      end) s.
Proof.
  revert n s. induction lines as [|line lines IH]; intros n s; cbn [reap_lines].
  { wp_step. exists []. split; [done|]. split; [simpl; lia|done]. }
  change (omap reapable (line :: lines)) with
    (match reapable line with Some id => id :: omap reapable lines | None => omap reapable lines end).
  destruct (reapable line) as [id|]; [|apply IH].
  do 2 wp_step. destruct r as [a|x].
  - eapply wp_mono; [|apply IH]. intros r s' (rms & Ht & Hr). cbn [trace] in Ht.
    exists (rms ++ [Ev (DSimple (rm_container cfg id)) (Ok a)]).
    split; [by rewrite <- app_assoc|]. rewrite rev_app_distr. destruct r as [k|x].
    + destruct Hr as [-> Hr]. rewrite length_app. split; [simpl; lia|].
      cbn [rev app map ev_cmd]. by rewrite Hr.
    + destruct Hr as (id' & rest & -> & Hr). exists id', (rest ++ [Ev (DSimple (rm_container cfg id)) (Ok a)]).
      split; [done|]. cbn [rev app map ev_cmd]. by apply prefix_cons.
  - exists [Ev (DSimple (rm_container cfg id)) (Raise x)]. split; [done|].
    exists id, []. split; [done|]. by eexists.
Qed.

(** A reap cycle removes exactly the containers it should.  When it returns, the containers
    of the listing whose line says they are to be removed were removed, each once and in the order
    of the listing, and the count is their number; a failing listing removes nothing, and an
    exception of one removal ends the cycle after a first part of them. *)
Theorem reap_containers_spec s :
  wp (_reap_containers cfg) (λ r s',
    ∃ rms listing, trace s' = rms ++ Ev (DSimple (ps_argv cfg)) listing :: trace s ∧
      match listing with
      | Raise e => r = Raise e ∧ rms = []
      | Ok (rc, out, _) =>
          if negb (rc =? 0) then r = Ok 0 ∧ rms = []
          else
            let doomed := rm_cmds (omap reapable (splitlines (decode_replace out))) in
            match r with
            | Ok n => n = Z.of_nat (length doomed) ∧ map ev_cmd (rev rms) = doomed
            | Raise e => (∃ c rest, rms = Ev c (Raise e) :: rest) ∧ map ev_cmd (rev rms) `prefix_of` doomed
            end
      end) s.
Proof.
  unfold _reap_containers. do 2 wp_step. destruct r as [[[rc out] err]|x].
  - destruct (negb (rc =? 0)) eqn:Erc; [wp_step; exists [], (Ok (rc, out, err)); by rewrite Erc|].
    eapply wp_mono; [|apply reap_lines_spec]. intros r s' (rms & Ht & Hr).
    exists rms, (Ok (rc, out, err)). split; [done|]. rewrite Erc. destruct r as [k|x].
    + destruct Hr as [-> Hr]. split; [|done]. rewrite <- Hr, length_map, length_rev. lia.
    + destruct Hr as (id & rest & -> & Hr). split; [by eexists _, _|done].
  - by exists [], (Raise x).
Qed.

(** Every removal of a directory in [tr] is of an entry of the work directory whose recorded
    modification time is more than 300 seconds before [now]. *)
Definition only_old (entries : list pystr) (now : Z) (tr : list event) : Prop :=
  ∀ path r, Ev (FRmtree path) r ∈ tr →
    ∃ entry mtime, entry ∈ entries ∧ path = path_join (local_workdir cfg) entry ∧
      Ev (FGetmtime path) (Ok mtime) ∈ tr ∧ ORPHAN_AGE_SECONDS * 1000000 < now - mtime.

Lemma only_old_cons entries now e tr :
  only_old entries now tr → (∀ p, ev_cmd e ≠ FRmtree p) → only_old entries now (e :: tr).
Proof.
  intros H He path r Hin. apply elem_of_cons in Hin as [<-|Hin]; [by destruct (He path)|].
  destruct (H path r Hin) as (entry & mtime & H1 & H2 & H3 & H4). exists entry, mtime.
  split_and!; try done. by right.
Qed.

Lemma reap_entry_old entries now entry t0 s :
  entry ∈ entries → (∃ new, trace s = new ++ t0 ∧ only_old entries now new) →
  wp (reap_entry (local_workdir cfg) now entry) (λ _ s', ∃ new, trace s' = new ++ t0 ∧ only_old entries now new) s.
Proof.
  intros He (new & Ht & Hn). unfold reap_entry.
  set (path := path_join (local_workdir cfg) entry).
  do 4 wp_step. destruct r as [mtime|x].
  - wp_step. set (ev := Ev (FGetmtime path) (Ok mtime)).
    assert (only_old entries now (ev :: new)) as Hn' by (by apply only_old_cons).
    destruct (ORPHAN_AGE_SECONDS * 1000000 <? now - mtime) eqn:Ea; cbn [when].
    + do 2 wp_step. apply Z.ltb_lt in Ea.
      assert (∃ new0, Ev (FRmtree path) r :: ev :: trace s = new0 ++ t0 ∧ only_old entries now new0) as Hr.
      { exists (Ev (FRmtree path) r :: ev :: new). split; [by rewrite Ht|].
        intros p r' Hin. apply elem_of_cons in Hin as [Hin|Hin].
        - injection Hin as -> _. exists entry, mtime. split_and!; try done. right. by left.
        - destruct (Hn' p r' Hin) as (e' & m' & ? & ? & ? & ?). exists e', m'. split_and!; try done. by right. }
      by destruct r.
    + wp_step. exists (ev :: new). split; [by cbn; rewrite Ht|done].
  - assert (∃ new0, Ev (FGetmtime path) (Raise x) :: trace s = new0 ++ t0 ∧ only_old entries now new0) as Hr.
    { exists (Ev (FGetmtime path) (Raise x) :: new). split; [by rewrite Ht|by apply only_old_cons]. }
    destruct (is_OSError x); [by do 2 wp_step|done].
Qed.

(** Only stale work directories are removed.  Whatever the file system answers, and whether
    the pass returns or raises, every directory it removes is an entry of the listing of the
    worker's own work directory whose modification time, read in this pass, is more than 300 seconds
    before the time the pass read at its start. *)
Theorem reap_workdirs_spec s :
  wp (_reap_workdirs cfg) (λ _ s',
    ∃ new, trace s' = new ++ trace s ∧
      ((∀ p r, Ev (FRmtree p) r ∉ new) ∨
       ∃ entries now, Ev (FListdir (local_workdir cfg)) (Ok entries) ∈ new ∧ Ev TTime (Ok now) ∈ new ∧
         only_old entries now new)) s.
Proof.
  assert (∀ (new : list event), Forall (λ e, ∀ p, ev_cmd e ≠ FRmtree p) new →
            ∀ p r, Ev (FRmtree p) r ∉ new) as Hnone.
  { intros new Hn p r Hin. rewrite Forall_forall in Hn. by apply (Hn _ Hin p). }
  unfold _reap_workdirs. do 2 wp_step.
  destruct r as [isdir|x]; [|eexists [_]; split; [done|]; left; apply Hnone; by repeat constructor].
  destruct isdir; cbn [negb]; [|wp_step; eexists [_]; split; [done|]; left; apply Hnone; by repeat constructor].
  do 2 wp_step.
  destruct r as [now|x]; [|eexists [_; _]; split; [done|]; left; apply Hnone; by repeat constructor].
  do 2 wp_step.
  destruct r as [entries|x]; [|eexists [_; _; _]; split; [done|]; left; apply Hnone; by repeat constructor].
  set (evs := [Ev (FListdir (local_workdir cfg)) (Ok entries); Ev TTime (Ok now);
               Ev (FIsdir (local_workdir cfg)) (Ok true)]).
  eapply wp_mono; [|apply (wp_for_each entries _ (λ s', ∃ new, trace s' = new ++ evs ++ trace s ∧
    only_old entries now new))].
  - intros _ s' (new & Ht & Hold). exists (new ++ evs). split; [by rewrite Ht, <- app_assoc|]. right.
    exists entries, now. split_and!; [apply elem_of_app; right; left|apply elem_of_app; right; right; left|].
    intros p r Hin. apply elem_of_app in Hin as [Hin|Hin].
    + destruct (Hold p r Hin) as (e' & m' & ? & ? & ? & ?). exists e', m'. split_and!; try done.
      apply elem_of_app. by left.
    + exfalso. eapply (Hnone evs); [|exact Hin]. by repeat constructor.
  - intros entry s' Hin Hs'. by apply reap_entry_old.
  - exists []. split; [done|]. intros p r Hin. inversion Hin.
Qed.

(** [k] reap cycles that succeed, each after a check that found the stop event unset. *)
Inductive reap_cycles (interval : Z) : nat → st E → st E → Prop :=
| cycles_none s : reap_cycles interval 0 s s
| cycles_more k s s1 s2 s3 s4 n b :
    call TStopSet s = (Ok false, s1) → reap_once cfg s1 = (Ok n, s2) →
    call (TWaitStop interval) s2 = (Ok b, s3) → reap_cycles interval k s3 s4 →
    reap_cycles interval (S k) s s4.

Lemma run_forever_cycles interval k s s' n :
  reap_cycles interval k s s' → run_forever cfg interval (k + n) s = run_forever cfg interval n s'.
Proof.
  induction 1 as [|k s s1 s2 s3 s4 m b H1 H2 H3 _ IH]; [done|].
  cbn [run_forever Nat.add]. unfold mbind, M_bind. rewrite H1. cbn iota. by rewrite H2, H3.
Qed.

(** The reaper runs until it is stopped, or until a cycle fails.  After any number of successful
    cycles, the loop returns at the first check that finds the stop event set; but an exception of a
    cycle (Docker cannot be executed, the work directory cannot be listed) ends it for good, however
    many cycles were to follow. *)
Theorem reaper_run interval k s s' s1 stop n :
  reap_cycles interval k s s' → call TStopSet s' = (Ok stop, s1) →
  (stop = true → run_forever cfg interval (k + S n) s = (Ok true, s1)) ∧
  (stop = false → ∀ e s2, reap_once cfg s1 = (Raise e, s2) →
     run_forever cfg interval (k + S n) s = (Raise e, s2)).
Proof.
  intros Hk Hs. rewrite (run_forever_cycles interval k s s' (S n) Hk).
  cbn [run_forever]. unfold mbind, M_bind. rewrite Hs. split; [by intros ->|].
  intros -> e s2 He. cbn iota. by rewrite He.
Qed.
End ReaperFacts.

(** ** Concrete runs *)
Module ExampleReaper.
#[local] Existing Instance AsciiRuntime.ascii_runtime.

Definition cfg : WorkerConfig := get_ok example_config.

Definition listing : bytes :=
  u "c1" ++ [9] ++ u "Up 7 seconds" ++ [9] ++ u "8 seconds ago" ++ [10] ++
  u "c2" ++ [9] ++ u "Exited (0) 2 minutes ago" ++ [9] ++ u "3 minutes ago" ++ [10] ++
  u "c3" ++ [9] ++ u "Up About an hour" ++ [9] ++ u "About an hour ago" ++ [10] ++
  u "c4" ++ [9] ++ u "Created" ++ [9] ++ u "2 seconds ago" ++ [10].

(** The listing is read by the code's own rules: the active containers c1 and c4 stay. *)
Example listing_reaped : omap reapable (splitlines (decode_replace listing)) = [u "c2"; u "c3"].
Proof. vm_compute. reflexivity. Qed.

(** Ages in months are not understood: such a container is left alone. *)
Example months_not_reaped : should_reap (u "Up 3 months") (u "3 months ago") = false.
Proof. vm_compute. reflexivity. Qed.

Lemma should_reap_age_witness :
  (should_reap (u "Up 299 seconds") [] = false ∧ should_reap (u "Created") (u "299 seconds ago") = false) ∧
  (should_reap (u "Up About a minute") [] = false ∧ should_reap (u "Created") (u "About a minute ago") = false) ∧
  (should_reap (u "Up About an hour") [] = true ∧ should_reap (u "Created") (u "About an hour ago") = true).
Proof.
  pose proof (λ text secs, should_reap_age (PL := AsciiRuntime.ascii_runtime_laws) text secs []) as H.
  split; [|split].
  - apply (H _ _ (age_count 299 (u "second") 1 (u "s") ltac:(left) ltac:(right; left) ltac:(lia) ltac:(vm_compute; lia))).
  - apply (H _ _ (age_about (u "a") (u "minute") 60 ltac:(left) ltac:(right; left))).
  - apply (H _ _ (age_about (u "an") (u "hour") 3600 ltac:(right; left) ltac:(right; right; left))).
Defined.

Definition answers (c : cmd) : res (ans c) :=
  match c return res (ans c) with
  | TStopSet => Ok false
  | FListdir _ => Raise OSError
  | c => Ok (Scripted.default_ans c)
  end.

#[local] Instance world : Handler unit := Scripted.world answers.

Definition checked : st unit := (call TStopSet Scripted.start).2.

(** The work directory cannot be listed: the first cycle is the last. *)
Lemma reaper_run_witness :
  ∃ s2, run_forever cfg 60 1000 Scripted.start = (Raise OSError, s2).
Proof.
  eexists. refine (proj2 (reaper_run cfg 60 0 Scripted.start Scripted.start checked false 999 _ _) eq_refl OSError _ _).
  - constructor.
  - reflexivity.
  - vm_compute. reflexivity.
Defined.
End ExampleReaper.
