(* ===== verification/Daemon.v ===== *)
(** * The worker daemon ([worker/worker.py]: [run], [_consume_loop], [_dispatch], [_drain], [_backoff])

    A step system.  The consume loop is one coroutine that gives way at its [await]s; [pc] says at
    which.  Between two of its steps a job task may finish (its done-callbacks then discard it from the
    in-flight set and release its slot) and a signal may request the stop.  A job task is a run of
    [_process]; its commands are recorded when it finishes.  What Redis and the other tasks do
    meanwhile is the environment of the commands, which is arbitrary. *)
From S2P Require Import Prelude PyStr Errors Json JsonText Effects Constants Types Config Executor Run Store Queue Worker.
From stdpp Require Import options.

Definition _SLOT_WAIT_USEC : Z := 50000.

(** Where the consume loop stands. *)
Inductive pc :=
(* the test of the while loop *)
| AtTop
(* [await asyncio.sleep(_SLOT_WAIT_SECONDS)]: every slot is busy *)
| SlotWait
(* [await self.consumer.queue_depth()] *)
| Measuring (batch : Z)
(* [await self.consumer.claim_stale(...)] *)
| Claiming (batch : Z)
(* in [for message in stale] *)
| Stale (todo : list QueueMessage)
(* [await self.consumer.read(...)] *)
| Reading (count : Z)
(* in [for message in new] *)
| New (todo : list QueueMessage)
(* [await self._backoff("redis", exc)] *)
| BackingOff
(* the [finally] clause of [run]: the in-flight jobs are awaited; with the exception that ended the loop *)
| Draining (failure : option exc)
(* [run] is over *)
| Stopped (failure : option exc).

Section Daemon.
Context {PR : PyRuntime} {JR : JsonRuntime} {E : Type} {HE : Handler E} {X : SandboxExec E}.
Context (cfg : WorkerConfig) (minio : bool).

Record Daemon := {
  loop : pc;
  (* _inflight: the jobs of the running tasks *)
  inflight : list QueueMessage;
  (* the value of the semaphore *)
  semaphore : Z;
  (* _stopping.is_set() *)
  stopping : bool;
  (* the jobs whose tasks have ended, a record of what has happened *)
  ended : list QueueMessage;
  world : st E;
}.

Definition goto (p : pc) (s : st E) (d : Daemon) : Daemon :=
  {| loop := p; inflight := inflight d; semaphore := semaphore d; stopping := stopping d; ended := ended d;
     world := s |}.

(** ** Startup and shutdown *)

Definition startup : M E unit :=
  _ ← ensure_bucket minio (minio_bucket cfg);
  ensure_group.

(** [__init__] and the entry of the loop. *)
Definition launched (s : st E) : Daemon :=
  {| loop := AtTop; inflight := []; semaphore := worker_concurrency cfg; stopping := false; ended := [];
     world := s |}.

(** The end of the [finally] clause, after the drain: the reaper is cancelled and awaited, and then
    the connection is closed.  [suppress(Exception)] does not suppress a [CancelledError]. *)
Definition shutdown : M E unit :=
  _ ← suppress is_Exception (call TJoinReaper);
  call RClose.

Definition request_stop (d : Daemon) : Daemon :=
  {| loop := loop d; inflight := inflight d; semaphore := semaphore d; stopping := true; ended := ended d;
     world := world d |}.

(** ** Backing off *)

(** Delays in microseconds. *)
Definition backoff_delay (exponent jitter : Z) : Z := Z.min 5000000 (500000 * 2 ^ exponent) + jitter.

Definition _backoff : M E unit :=
  exponent ← call (TRandint 0 3);
  jitter ← call (TUniform 0 250000);
  call (TSleep (backoff_delay exponent jitter)).

(** ** The consume loop *)

Definition capacity (d : Daemon) : Z := worker_concurrency cfg - Z.of_nat (length (inflight d)).

Definition set_queue_depth (n : Z) (mx : Metrics) : Metrics :=
  {| executions_total := executions_total mx; execution_duration := execution_duration mx;
     container_startup := container_startup mx; queue_depth_gauge := n; oom_kills := oom_kills mx;
     timeout_kills := timeout_kills mx; jobs_in_flight := jobs_in_flight mx;
     reclaimed_jobs := reclaimed_jobs mx; dead_lettered := dead_lettered mx |}.

Definition inc_reclaimed (mx : Metrics) : Metrics :=
  {| executions_total := executions_total mx; execution_duration := execution_duration mx;
     container_startup := container_startup mx; queue_depth_gauge := queue_depth_gauge mx; oom_kills := oom_kills mx;
     timeout_kills := timeout_kills mx; jobs_in_flight := jobs_in_flight mx;
     reclaimed_jobs := reclaimed_jobs mx + 1; dead_lettered := dead_lettered mx |}.

(** An awaited call of the loop's [try] block: a [RedisError] leads to the backoff, another exception
    leaves the loop. *)
Definition await {A} (m : M E A) (next : A → pc) (d : Daemon) : Daemon :=
  match m (world d) with
  | (Ok a, s) => goto (next a) s d
  | (Raise e, s) => goto (if is_RedisError e then BackingOff else Draining (Some e)) s d
  end.

(** An await of the handler itself: its exception leaves the loop. *)
Definition await_handler (m : M E unit) (d : Daemon) : Daemon :=
  match m (world d) with
  | (Ok _, s) => goto AtTop s d
  | (Raise e, s) => goto (Draining (Some e)) s d
  end.

(** [_dispatch], when a slot is free: the semaphore is taken and the task is in flight.  [None] is a
    loop that waits for the semaphore. *)
Definition _dispatch (m : QueueMessage) (next : pc) (d : Daemon) : option Daemon :=
  if 0 <? semaphore d then
    Some {| loop := next; inflight := inflight d ++ [m]; semaphore := semaphore d - 1;
            stopping := stopping d; ended := ended d; world := world d |}
  else None.

(** The loop's own next step; [None] when it waits for the semaphore or is over. *)
Definition _consume_loop (d : Daemon) : option Daemon :=
  match loop d with
  | AtTop =>
      Some (if stopping d then goto (Draining None) (world d) d
            else if capacity d <=? 0 then goto SlotWait (world d) d
            else goto (Measuring (Z.min (read_count cfg) (capacity d))) (world d) d)
  | SlotWait => Some (await (call (TSleep _SLOT_WAIT_USEC)) (λ _, AtTop) d)
  | Measuring batch =>
      Some (await (n ← queue_depth; modify_metrics (set_queue_depth n)) (λ _, Claiming batch) d)
  | Claiming batch =>
      Some (await (claim_stale (worker_id cfg) (claim_min_idle_ms cfg) batch (max_retries cfg)) Stale d)
  | Stale (m :: todo) =>
      d' ← _dispatch m (Stale todo) d;
      Some (goto (Stale todo) (modify_metrics inc_reclaimed (world d)).2 d')
  | Stale [] =>
      Some (if capacity d <=? 0 then goto AtTop (world d) d
            else goto (Reading (Z.min (read_count cfg) (capacity d))) (world d) d)
  | Reading count => Some (await (read (worker_id cfg) count (block_ms cfg)) New d)
  | New (m :: todo) => _dispatch m (New todo) d
  | New [] => Some (goto AtTop (world d) d)
  | BackingOff => Some (await_handler _backoff d)
  | Draining _ | Stopped _ => None
  end.

(** The [finally] clause of [run]: [None] while in-flight jobs are awaited. *)
Definition _drain (failure : option exc) (d : Daemon) : option Daemon :=
  match inflight d with
  | [] =>
      Some (match shutdown (world d) with
            | (Ok _, s) => goto (Stopped failure) s d
            | (Raise e, s) => goto (Stopped (Some e)) s d
            end)
  | _ => None
  end.

(** The next step of the coroutine [run]. *)
Definition run (d : Daemon) : option Daemon :=
  match loop d with
  | Draining failure => _drain failure d
  | _ => _consume_loop d
  end.

(** The task of [m] ends, with or without an exception: its slot is released. *)
Definition finished (m : QueueMessage) (rest : list QueueMessage) (s : st E) (d : Daemon) : Daemon :=
  {| loop := loop d; inflight := rest; semaphore := semaphore d + 1; stopping := stopping d; ended := m :: ended d;
     world := s |}.

(** [run] has not returned yet; what is left of the tasks then is cancelled by [asyncio.run]. *)
Definition running (d : Daemon) : Prop := ∀ failure, loop d ≠ Stopped failure.

Inductive step : Daemon → Daemon → Prop :=
| step_loop d d' : run d = Some d' → step d d'
| step_stop d : stopping d = false → step d (request_stop d)
| step_finish d before m after r s :
    running d → inflight d = before ++ m :: after → _process cfg minio m (world d) = (r, s) →
    step d (finished m (before ++ after) s d).

(** The states of a daemon whose startup succeeded. *)
Definition reachable (s0 : st E) (d : Daemon) : Prop :=
  ∃ s, startup s0 = (Ok tt, s) ∧ rtc step (launched s) d.
End Daemon.

Arguments Daemon E : clear implicits.

(** ** What Redis promises

    The [COUNT] arguments bound the answers (the client refuses a count below one for [XREADGROUP],
    and [XPENDING] answers nothing to one), and [XCLAIM] transfers only entries it was asked for. *)
Class RedisCounts (E : Type) `{HE : Handler E} : Prop := {
  pending_bounded stream group lo hi count idle e l e' :
    handle (RXpendingRange stream group lo hi count idle) e = (Ok l, e') → Z.of_nat (length l) ≤ Z.max 0 count;
  claim_bounded stream group consumer idle ids e l e' :
    handle (RXclaim stream group consumer idle ids) e = (Ok l, e') → (length l ≤ length ids)%nat;
  read_bounded group consumer stream id count block e l e' :
    handle (RXreadgroup group consumer stream id count block) e = (Ok l, e') →
    Z.of_nat (length (concat (map snd l))) ≤ Z.max 0 count;
}.

Section Counts.
Context {PR : PyRuntime} {JR : JsonRuntime} {E : Type} {HE : Handler E} {RC : RedisCounts E}.
Context (name : pystr).

Lemma res_map_length {A B} (f : A → res B) l ys : res_map f l = Ok ys → length ys = length l.
Proof. intros H%res_map_ok. symmetry. by eapply Forall2_length. Qed.

Lemma claim_loop_length idle todo s :
  returns (for_map todo (claim_one name idle)) (λ mss _, (length (concat mss) ≤ length todo)%nat) s.
Proof using RC.
  revert s. induction todo as [|[id n] todo IH]; intros s; cbn [for_map]; [by ret_step|].
  ret_step. unfold claim_one. ret_step. call_eq. intros l e Hl%claim_bounded. cbv beta.
  ret_step. ret_step. eapply returns_mono; [|apply IH]. intros mss s' Hlen. ret_step.
  apply res_map_length in H. cbn [concat length] in *. rewrite length_app. lia.
Qed.

Lemma claim_stale_length idle count retries s :
  returns (claim_stale name idle count retries) (λ ms _, Z.of_nat (length ms) ≤ Z.max 0 count) s.
Proof using RC.
  unfold claim_stale. ret_step. eapply returns_mono; [|apply (emits_returns (λ _, True)), ensure_group_grows].
  intros [] s1 _. ret_step. call_eq. intros l e Hl%pending_bounded. cbv beta. ret_step.
  eapply returns_mono; [|apply claim_loop_length]. intros mss s' Hlen. ret_step.
  etransitivity; [apply inj_le, Hlen|exact Hl].
Qed.

Lemma read_length count block s :
  returns (read name count block) (λ ms _, Z.of_nat (length ms) ≤ Z.max 0 count) s.
Proof using RC.
  unfold read. ret_step. eapply returns_mono; [|apply (emits_returns (λ _, True)), ensure_group_grows].
  intros [] s1 _. ret_step. call_eq. intros l e Hl%read_bounded. cbv beta. ret_step.
  apply res_map_length in H. rewrite H. exact Hl.
Qed.
End Counts.

(** ** The pool *)

Section Pool.
Context {PR : PyRuntime} {JR : JsonRuntime} {E : Type} {HE : Handler E} {X : SandboxExec E}.
Context (cfg : WorkerConfig) (minio : bool).
Implicit Types (d : Daemon E).

(** Every slot is free or holds a job. *)
Definition slots_ok d : Prop :=
  0 ≤ semaphore d ∧ semaphore d + Z.of_nat (length (inflight d)) = worker_concurrency cfg.

(** The steps of the loop that do not dispatch leave the pool alone. *)
Lemma await_pool {A} (m : M E A) next d :
  inflight (await m next d) = inflight d ∧ semaphore (await m next d) = semaphore d ∧
  stopping (await m next d) = stopping d.
Proof. unfold await. by destruct (m (world d)) as [[]]. Qed.

Lemma await_handler_pool (m : M E unit) d :
  inflight (await_handler m d) = inflight d ∧ semaphore (await_handler m d) = semaphore d ∧
  stopping (await_handler m d) = stopping d.
Proof. unfold await_handler. by destruct (m (world d)) as [[]]. Qed.

Lemma dispatch_some m next d d' :
  _dispatch m next d = Some d' →
  0 < semaphore d ∧ loop d' = next ∧ inflight d' = inflight d ++ [m] ∧ semaphore d' = semaphore d - 1 ∧
  stopping d' = stopping d ∧ world d' = world d.
Proof. unfold _dispatch. destruct (0 <? semaphore d) eqn:Es; [|done]. intros [= <-]. py_simpl. done. Qed.

(** What one step of the loop does to the pool. *)
Lemma loop_pool d d' :
  run cfg d = Some d' →
  stopping d' = stopping d ∧
  ((inflight d' = inflight d ∧ semaphore d' = semaphore d) ∨
   ∃ m todo, (loop d = Stale (m :: todo) ∧ loop d' = Stale todo ∨ loop d = New (m :: todo) ∧ loop d' = New todo) ∧
     0 < semaphore d ∧ inflight d' = inflight d ++ [m] ∧ semaphore d' = semaphore d - 1).
Proof.
  unfold run, _consume_loop, _drain. intros H.
  destruct (loop d) as [| |b|b|[|m todo]|b|[|m todo]| |f|f] eqn:El;
    try (injection H as <-; match goal with
      | |- context [await ?m ?n ?d] => destruct (await_pool m n d) as (? & ? & ?); auto
      | |- context [await_handler ?m ?d] => destruct (await_handler_pool m d) as (? & ? & ?); auto
      | _ => repeat case_match; auto
      end; fail).
  - destruct (_dispatch m (Stale todo) d) as [d1|] eqn:Ed; simplify_eq/=.
    apply dispatch_some in Ed as (? & ? & ? & ? & ? & ?). split; [done|]. right. exists m, todo. auto 10.
  - apply dispatch_some in H as (? & ? & ? & ? & ? & ?). split; [done|]. right. exists m, todo. auto 10.
  - destruct (inflight d) eqn:Ei; [|done]. injection H as <-. destruct (shutdown (world d)) as [[]]; cbn; auto.
  - done.
Qed.

Lemma loop_ended d d' : run cfg d = Some d' → ended d' = ended d.
Proof.
  unfold run, _consume_loop, _drain, _dispatch, await, await_handler. intros H.
  repeat (case_match; simplify_eq/=; try done).
Qed.

Lemma slots_step d d' : slots_ok d → step cfg minio d d' → slots_ok d'.
Proof.
  intros [Hs Hc] Hstep. destruct Hstep as [d d' H|d H|d before m after r s Hn Hi Hp]; unfold slots_ok.
  - destruct (loop_pool d d' H) as [_ [[-> ->]|(m & todo & _ & Hpos & -> & ->)]]; [done|].
    rewrite length_app. cbn. lia.
  - done.
  - cbn. rewrite Hi in Hc. rewrite length_app in *. cbn in Hc. lia.
Qed.

Lemma slots_reachable s0 d :
  0 ≤ worker_concurrency cfg → reachable cfg minio s0 d → slots_ok d.
Proof.
  intros H0 (s & _ & Hr). assert (slots_ok (launched cfg s)) as Hi by (split; cbn; lia).
  induction Hr as [|d d1 d2 Hstep _ IH]; [done|]. apply IH. by eapply slots_step.
Qed.

(** C14: The pool is bounded.  In every state the daemon reaches, under every interleaving of the
    loop with finishing jobs and stop requests, each of the [worker_concurrency] slots is either free
    or held by exactly one job: no more jobs run than configured, and no slot is ever lost. *)
Theorem pool_bounded s0 d :
  0 ≤ worker_concurrency cfg → reachable cfg minio s0 d →
  Z.of_nat (length (inflight d)) ≤ worker_concurrency cfg ∧
  semaphore d = worker_concurrency cfg - Z.of_nat (length (inflight d)).
Proof. intros H0 Hr. destruct (slots_reachable s0 d H0 Hr). lia. Qed.

(** ** Fetched messages fit *)

Context {RC : RedisCounts E}.

(** What was fetched, or is being fetched, has free slots waiting for it; and a stopped daemon has no
    job left. *)
Definition fits d : Prop :=
  match loop d with
  | Stale todo | New todo => Z.of_nat (length todo) ≤ semaphore d
  | Measuring n | Claiming n | Reading n => Z.max 0 n ≤ semaphore d
  | Stopped _ => inflight d = []
  | _ => True
  end.

Definition pool_ok d : Prop := slots_ok d ∧ fits d.

Lemma await_fits {A} (m : M E A) next d (P : A → Prop) :
  returns m (λ a _, P a) (world d) →
  (∀ a s, P a → fits (goto (next a) s d)) → fits (await m next d).
Proof.
  intros Hm Hn. unfold await, returns, wp in *. destruct (m (world d)) as [[a|e] s].
  - apply Hn, (Hm a eq_refl).
  - by destruct (is_RedisError e).
Qed.

Lemma fits_loop d d' : slots_ok d → fits d → run cfg d = Some d' → fits d'.
Proof using RC.
  intros [Hs Hc] Hf H. unfold run, _consume_loop, _drain in H. unfold fits in Hf.
  assert (capacity cfg d = semaphore d) as Hcap by (unfold capacity; lia).
  destruct (loop d) as [| |b|b|[|m todo]|b|[|m todo]| |f|f] eqn:El; simplify_eq/=.
  - destruct (stopping d); [done|]. destruct (capacity cfg d <=? 0) eqn:Eq; [done|]. py_simpl. cbn. lia.
  - by apply (await_fits _ _ _ (λ _, True)).
  - by apply (await_fits _ _ _ (λ _, True)).
  - apply (await_fits _ _ _ (λ ms, Z.of_nat (length ms) ≤ Z.max 0 b)); [apply claim_stale_length|].
    intros ms s Hlen. cbn. lia.
  - destruct (capacity cfg d <=? 0) eqn:Eq; [done|]. py_simpl. cbn. lia.
  - destruct (_dispatch m (Stale todo) d) as [d1|] eqn:Ed; simplify_eq/=.
    apply dispatch_some in Ed as (? & ? & ? & Hsem & ? & ?). cbn. rewrite Hsem. lia.
  - apply (await_fits _ _ _ (λ ms, Z.of_nat (length ms) ≤ Z.max 0 b)); [apply read_length|].
    intros ms s Hlen. cbn. lia.
  - done.
  - apply dispatch_some in H as (? & Hl & ? & Hsem & ? & ?). unfold fits. rewrite Hl, Hsem. lia.
  - unfold await_handler. by destruct (_backoff (world d)) as [[]].
  - destruct (inflight d) eqn:Ei; simplify_eq. by destruct (shutdown (world d)) as [[]].
Qed.

Lemma pool_step d d' : pool_ok d → step cfg minio d d' → pool_ok d'.
Proof using RC.
  intros [Hs Hf] Hstep. split; [by eapply slots_step|].
  destruct Hstep as [d d' H|d H|d before m after r s Hn Hi Hp].
  - by eapply fits_loop.
  - done.
  - unfold fits, running in *. cbn. destruct (loop d) as [| | | | | | | | |f]; try lia; try done. by destruct (Hn f).
Qed.

Lemma pool_steps d d' : pool_ok d → rtc (step cfg minio) d d' → pool_ok d'.
Proof using RC. intros H Hr. induction Hr; [done|]. eauto using pool_step. Qed.

Lemma pool_reachable s0 d : 0 ≤ worker_concurrency cfg → reachable cfg minio s0 d → pool_ok d.
Proof using RC.
  intros H0 (s & _ & Hr). eapply pool_steps; [|exact Hr]. split; [split; cbn; lia|done].
Qed.

(** C13: Only what can be started is fetched.  Whenever the loop is about to dispatch messages, there
    is a free slot for every one of them, so it never waits for the semaphore with delivered entries
    in hand, which another worker could then claim and run a second time. *)
Theorem dispatch_never_waits s0 d todo :
  0 ≤ worker_concurrency cfg → reachable cfg minio s0 d → loop d = Stale todo ∨ loop d = New todo →
  Z.of_nat (length todo) ≤ worker_concurrency cfg - Z.of_nat (length (inflight d)) ∧
  is_Some (run cfg d).
Proof using RC.
  intros H0 Hr Hl. destruct (pool_reachable s0 d H0 Hr) as [[Hs Hc] Hf].
  unfold fits, run, _consume_loop, _dispatch in *.
  destruct Hl as [El|El]; rewrite El in *; (split; [lia|]); destruct todo as [|m todo]; try (by eexists);
    cbn [length] in Hf; rewrite (proj2 (Z.ltb_lt 0 (semaphore d))) by lia; by eexists.
Qed.

(** ** Shutdown *)

(** A bound on the steps left once the stop is requested. *)
Definition pc_rank (p : pc) : Z :=
  let c := worker_concurrency cfg in
  match p with
  | Stopped _ => 0
  | Draining _ => 1
  | AtTop => 2
  | BackingOff => 3
  | SlotWait => 4
  | New todo => 3 + 2 * Z.of_nat (length todo)
  | Reading _ => 4 + 2 * c
  | Stale todo => 5 + 2 * c + 2 * Z.of_nat (length todo)
  | Claiming _ => 6 + 4 * c
  | Measuring _ => 7 + 4 * c
  end.

Definition steps_left d : Z := pc_rank (loop d) + Z.of_nat (length (inflight d)).

Lemma await_rank {A} (m : M E A) next d (P : A → Prop) (bound : Z) :
  returns m (λ a _, P a) (world d) → 3 ≤ bound → (∀ a, P a → pc_rank (next a) ≤ bound) →
  pc_rank (loop (await m next d)) ≤ bound.
Proof.
  intros Hm Hb Hn. unfold await, returns, wp in *. destruct (m (world d)) as [[a|e] s]; cbn.
  - apply Hn, (Hm a eq_refl).
  - destruct (is_RedisError e); cbn; lia.
Qed.

Lemma loop_rank d d' :
  pool_ok d → stopping d = true → run cfg d = Some d' →
  pc_rank (loop d') + Z.of_nat (length (inflight d')) < pc_rank (loop d) + Z.of_nat (length (inflight d)).
Proof using RC.
  intros [[Hs Hc] Hf] Hst H.
  destruct (loop_pool d d' H) as [_ [[-> _]|(m & todo & Hl & _ & -> & _)]].
  - apply Z.add_lt_mono_r. unfold run, _consume_loop, _drain in H. unfold fits in Hf.
    destruct (loop d) as [| |b|b|[|m todo]|b|[|m todo]| |f|f] eqn:El; simplify_eq/=.
    + rewrite Hst. cbn. lia.
    + eapply Z.le_lt_trans; [apply (await_rank _ _ _ (λ _, True) 3); cbn; done|lia].
    + eapply Z.le_lt_trans;
        [apply (await_rank _ _ _ (λ _, True) (6 + 4 * worker_concurrency cfg)); cbn; done || lia|lia].
    + eapply Z.le_lt_trans; [apply (await_rank _ _ _ (λ ms, Z.of_nat (length ms) ≤ Z.max 0 b) (5 + 4 * worker_concurrency cfg));
        [apply claim_stale_length|lia|intros ms Hlen; cbn; lia]|lia].
    + destruct (capacity cfg d <=? 0); cbn; lia.
    + destruct (_dispatch m (Stale todo) d) as [d1|] eqn:Ed; simplify_eq/=. lia.
    + eapply Z.le_lt_trans; [apply (await_rank _ _ _ (λ ms, Z.of_nat (length ms) ≤ Z.max 0 b) (3 + 2 * worker_concurrency cfg));
        [apply read_length|lia|intros ms Hlen; cbn; lia]|lia].
    + lia.
    + apply dispatch_some in H as (_ & -> & _). cbn. lia.
    + unfold await_handler. destruct (_backoff (world d)) as [[]]; cbn; lia.
    + destruct (inflight d) eqn:Ei; simplify_eq. destruct (shutdown (world d)) as [[]]; cbn; lia.
  - rewrite length_app. cbn [length]. destruct Hl as [[-> ->]|[-> ->]]; cbn [pc_rank length]; lia.
Qed.

Lemma stop_decreases d d' :
  pool_ok d → stopping d = true → step cfg minio d d' →
  stopping d' = true ∧ 0 ≤ steps_left d' < steps_left d.
Proof using RC.
  intros Hok Hst Hstep. pose proof (pool_step d d' Hok Hstep) as [[Hs' Hc'] _].
  assert (0 ≤ steps_left d') as Hpos.
  { unfold steps_left. destruct (loop d'); cbn; lia. }
  assert (stopping d' = true ∧ steps_left d' < steps_left d) as [? ?]; [|done].
  destruct Hstep as [d d' H|d H|d before m after r s Hn Hi Hp].
  - split; [by destruct (loop_pool d d' H) as [-> _]|]. by apply loop_rank.
  - congruence.
  - split; [done|]. unfold steps_left. cbn. rewrite Hi, !length_app. cbn. lia.
Qed.

(** Some step is possible until the daemon has stopped. *)
Lemma progress d : pool_ok d → (∀ f, loop d ≠ Stopped f) → ∃ d', step cfg minio d d'.
Proof using Type.
  intros [[Hs Hc] Hf] Hn. unfold fits in Hf.
  assert (is_Some (run cfg d) ∨ ∃ f m rest, loop d = Draining f ∧ inflight d = m :: rest) as Hcase.
  { unfold run, _consume_loop, _drain, _dispatch.
    destruct (loop d) as [| |b|b|[|m todo]|b|[|m todo]| |f|f] eqn:El; try (left; by eexists).
    - left. cbn [length] in Hf. rewrite (proj2 (Z.ltb_lt 0 (semaphore d))) by lia. by eexists.
    - left. cbn [length] in Hf. rewrite (proj2 (Z.ltb_lt 0 (semaphore d))) by lia. by eexists.
    - destruct (inflight d) as [|m rest]; [left; by eexists|right; by eexists _, _, _].
    - by destruct (Hn f). }
  destruct Hcase as [[d' Hd']|(f & m & rest & _ & Hi)]; [exists d'; by constructor|].
  destruct (_process cfg minio m (world d)) as [r s] eqn:Ep.
  eexists. by eapply (step_finish cfg minio d [] m rest _ _ Hn).
Qed.

(** A job in flight stays there until its task has ended. *)
Lemma step_accounts d d' m :
  step cfg minio d d' → m ∈ inflight d ++ ended d → m ∈ inflight d' ++ ended d'.
Proof.
  intros Hstep. rewrite !elem_of_app. destruct Hstep as [d d' H|d H|d before x after r s Hn Hi Hp]; [|done|].
  - rewrite (loop_ended d d' H). destruct (loop_pool d d' H) as [_ [[-> _]|(x & todo & _ & _ & -> & _)]]; [done|].
    rewrite elem_of_app. tauto.
  - cbn. rewrite Hi, !elem_of_app, !elem_of_cons. tauto.
Qed.

Lemma steps_account d d' m :
  rtc (step cfg minio) d d' → m ∈ inflight d ++ ended d → m ∈ inflight d' ++ ended d'.
Proof. induction 1; [done|]. eauto using step_accounts. Qed.

(** C12: Shutdown is graceful and certain.  Once the stop is requested there is no infinite run: the
    daemon makes only finitely many steps more, in whatever order the loop and the jobs take them;
    it is never stuck before it has stopped; and in every state in which it has stopped no job is in
    flight and every job that was in flight at the request has been run to its end. *)
Theorem graceful_shutdown s0 d :
  0 ≤ worker_concurrency cfg → reachable cfg minio s0 d → stopping d = true →
  Acc (λ after before, step cfg minio before after) d ∧
  ∀ d', rtc (step cfg minio) d d' →
    (running d' → ∃ d'', step cfg minio d' d'') ∧
    (∀ failure, loop d' = Stopped failure → inflight d' = [] ∧ ∀ m, m ∈ inflight d → m ∈ ended d').
Proof using RC.
  intros H0 Hr Hst. pose proof (pool_reachable s0 d H0 Hr) as Hok. split.
  - remember (steps_left d) as n eqn:Hn. clear Hr. revert d Hok Hst Hn.
    induction (Z.lt_wf 0 n) as [n _ IH]. intros d Hok Hst ->. constructor. intros d' Hstep.
    destruct (stop_decreases d d' Hok Hst Hstep) as [Hst' Hlt].
    eapply IH; [exact Hlt|by eapply pool_step|done|done].
  - intros d' Hr'. pose proof (pool_steps d d' Hok Hr') as Hok'. split; [by apply progress|].
    intros f Hf. destruct Hok' as [_ Hfit]. unfold fits in Hfit. rewrite Hf in Hfit. split; [done|].
    intros m Hm. assert (m ∈ inflight d' ++ ended d') as Hin.
    { eapply steps_account; [exact Hr'|]. apply elem_of_app. by left. }
    by rewrite Hfit in Hin.
Qed.
End Pool.

(** ** The whole history *)

(** The event in which Redis delivered a message: the answer of a read or of a claim holds its entry. *)
Definition delivers `{JR : JsonRuntime} (m : QueueMessage) (e : event) : Prop :=
  match e with
  | Ev c r =>
      match c return res (ans c) → Prop with
      | RXreadgroup _ _ _ _ _ _ => λ r, ∃ l fields, r = Ok l ∧ (msg_id m, fields) ∈ concat (map snd l) ∧
          _to_message (msg_id m) fields (delivery_count m) = Ok m
      | RXclaim _ _ _ _ _ => λ r, ∃ l fields, r = Ok l ∧ (msg_id m, fields) ∈ l ∧
          _to_message (msg_id m) fields (delivery_count m) = Ok m
      | _ => λ _, False
      end r
  end.

(** Newest first: every acknowledgement and deletion is of an entry that was delivered before, and
    comes after the job of that entry was settled. *)
Fixpoint history_safe `{PR : PyRuntime} `{JR : JsonRuntime} (tr : list event) : Prop :=
  match tr with
  | [] => True
  | e :: old =>
      history_safe old ∧
      (is_ack (ev_cmd e) = true →
       ∃ m job_id, acked (ev_cmd e) = Some (msg_id m) ∧ Exists (delivers m) old ∧
         msg_job_id m = Ok job_id ∧ settled m job_id old)
  end.

Section History.
Context {PR : PyRuntime} {JR : JsonRuntime} {E : Type} {HE : Handler E} {X : SandboxExec E} {XL : SandboxExecLaws E}.
Context (cfg : WorkerConfig) (minio : bool).
Implicit Types (d : Daemon E).

Lemma history_no_ack new old : Forall no_ack new → history_safe old → history_safe (new ++ old).
Proof.
  induction 1 as [|e new He _ IH]; intros H; cbn; [done|]. split; [by apply IH|].
  unfold no_ack in He. by rewrite He.
Qed.

Lemma history_job m job_id new old :
  msg_job_id m = Ok job_id → Exists (delivers m) old → ack_safe m job_id new →
  history_safe old → history_safe (new ++ old).
Proof.
  intros Hj Hd Hn Ho. induction new as [|e new IH]; [done|]. destruct Hn as [Hn He]. cbn.
  split; [by apply IH|]. intros Ha. destruct (He Ha) as [Hid Hset]. exists m, job_id.
  split_and!; [done| |done|]; [apply Exists_app; by right|].
  eapply settled_mono; [|exact Hset]. intros x Hx. apply elem_of_app. by left.
Qed.

(** The messages the daemon holds: being dispatched, or in flight. *)
Definition todo_of (p : pc) : list QueueMessage := match p with Stale l | New l => l | _ => [] end.

Definition history_ok (t0 : list event) d : Prop :=
  ∃ new, trace (world d) = new ++ t0 ∧ history_safe new ∧
    ∀ m, m ∈ inflight d ∨ m ∈ todo_of (loop d) → Exists (delivers m) new.

Lemma to_message_id id fields count m :
  _to_message id fields count = Ok m → _to_message (msg_id m) fields (delivery_count m) = Ok m.
Proof. intros H. by destruct (to_message_ok id fields count m H) as [-> ->]. Qed.

Lemma res_map_elem {A B} (f : A → res B) l ys y : res_map f l = Ok ys → y ∈ ys → ∃ x, x ∈ l ∧ f x = Ok y.
Proof.
  intros H%res_map_ok [i Hi]%list_elem_of_lookup_1. destruct (Forall2_lookup_r _ _ _ _ _ H Hi) as (x & Hx & Hf).
  exists x. split; [by eapply list_elem_of_lookup_2|done].
Qed.

(** What a fetch adds: commands that are not acknowledgements, among them the deliveries. *)
Definition fetches (s : st E) (ms : list QueueMessage) (s' : st E) : Prop :=
  ∃ new, trace s' = new ++ trace s ∧ Forall no_ack new ∧ ∀ m, m ∈ ms → Exists (delivers m) new.

Lemma ensure_group_no_ack : emits no_ack ensure_group.
Proof.
  unfold ensure_group. emits_tac; try done. destruct (response_text _); simplify_eq. by case_match; emits_tac.
Qed.

Lemma fetches_after (s s1 s' : st E) ms :
  (∃ new, trace s1 = new ++ trace s ∧ Forall no_ack new) → fetches s1 ms s' → fetches s ms s'.
Proof.
  intros (n1 & H1 & Hn1) (n2 & H2 & Hn2 & Hm). exists (n2 ++ n1). rewrite H2, H1, app_assoc.
  split_and!; [done|by apply Forall_app|]. intros m Hin. apply Exists_app. left. auto.
Qed.

Lemma read_fetches name count block s : returns (read name count block) (fetches s) s.
Proof.
  unfold read. ret_step. eapply returns_mono; [|apply (emits_returns no_ack), ensure_group_no_ack].
  intros [] s1 Hs1. do 3 ret_step. eapply fetches_after; [exact Hs1|].
  eexists [_]. split_and!; [done|by apply Forall_singleton|]. intros m Hm.
  destruct (res_map_elem _ _ _ _ H Hm) as ([id fields] & Hin & Hto). apply Exists_cons_hd.
  exists a, fields. split_and!; [done| |by eapply to_message_id].
  cbn in Hto. by destruct (to_message_ok _ _ _ _ Hto) as [-> _].
Qed.

Lemma claim_loop_fetches name idle todo s :
  returns (for_map todo (claim_one name idle)) (λ mss s', fetches s (concat mss) s') s.
Proof.
  revert s. induction todo as [|[id n] todo IH]; intros s; cbn [for_map].
  { ret_step. exists []. split_and!; [done..|]. intros m Hm. by inversion Hm. }
  ret_step. unfold claim_one. do 3 ret_step. rename H into Hms. cbn in Hms.
  ret_step. eapply returns_mono; [|apply IH]. intros mss s' (new & Ht & Hn & Hall). ret_step.
  exists (new ++ [Ev (RXclaim JOB_STREAM CONSUMER_GROUP name idle [id]) (Ok a)]).
  rewrite <- app_assoc. split_and!; [done|apply Forall_app; split; [done|by apply Forall_singleton]|].
  intros m Hm. cbn [concat] in Hm. apply elem_of_app in Hm as [Hm|Hm]; apply Exists_app; [right|left; auto].
  destruct (res_map_elem _ _ _ _ Hms Hm) as ([mid fields] & Hin & Hto). apply Exists_cons_hd.
  exists a, fields. split_and!; [done| |by eapply to_message_id].
  cbn in Hto. by destruct (to_message_ok _ _ _ _ Hto) as [-> _].
Qed.

Lemma claim_stale_fetches name idle count retries s :
  returns (claim_stale name idle count retries) (fetches s) s.
Proof.
  unfold claim_stale. ret_step. eapply returns_mono; [|apply (emits_returns no_ack), ensure_group_no_ack].
  intros [] s1 Hs1. do 2 ret_step. ret_step. eapply returns_mono; [|apply claim_loop_fetches].
  intros mss s' Hf. ret_step. eapply fetches_after; [exact Hs1|].
  eapply fetches_after; [|exact Hf]. eexists [_]. split; [done|by apply Forall_singleton].
Qed.

Lemma read_no_ack name count block : emits no_ack (read name count block).
Proof. unfold read. pose proof ensure_group_no_ack. by emits_tac. Qed.

Lemma claim_stale_no_ack name idle count retries : emits no_ack (claim_stale name idle count retries).
Proof. unfold claim_stale, claim_one. pose proof ensure_group_no_ack. by emits_tac. Qed.

(** Commands that are not acknowledgements keep the history; the messages held may only shrink. *)
Lemma history_emits t0 d d' new :
  history_ok t0 d → trace (world d') = new ++ trace (world d) → Forall no_ack new →
  (∀ m, m ∈ inflight d' ∨ m ∈ todo_of (loop d') →
        m ∈ inflight d ∨ m ∈ todo_of (loop d) ∨ Exists (delivers m) new) →
  history_ok t0 d'.
Proof.
  intros (old & Ht & Hs & Hd) Hn Hall Hm. exists (new ++ old). rewrite Hn, Ht, app_assoc.
  split_and!; [done|by apply history_no_ack|]. intros m Hin. apply Exists_app.
  destruct (Hm m Hin) as [H|[H|H]]; auto.
Qed.

Lemma await_history {A} t0 (m : M E A) next d (held : A → list QueueMessage) :
  emits no_ack m → returns m (λ a s', fetches (world d) (held a) s') (world d) →
  (∀ a, todo_of (next a) = held a) → history_ok t0 d → history_ok t0 (await m next d).
Proof.
  intros Hm Hret Hnext Hok. destruct (Hm (world d)) as (new & Ht & Hn).
  unfold await, returns, wp in *. destruct (m (world d)) as [[a|e] s].
  - destruct (Hret a eq_refl) as (new' & Ht' & Hn' & Hd').
    eapply (history_emits t0 d _ new'); [done..|]. cbn. rewrite Hnext. intros x [Hx|Hx]; auto.
  - eapply (history_emits t0 d _ new); [done..|]. cbn. intros x [Hx|Hx]; [by left|].
    destruct (is_RedisError e); by inversion Hx.
Qed.

Lemma plain_await_history {A} t0 (m : M E A) next d :
  emits no_ack m → (∀ a, todo_of (next a) = []) → history_ok t0 d → history_ok t0 (await m next d).
Proof.
  intros Hm Hnext. apply (await_history t0 m next d (λ _, [])); [done| |done].
  intros a _. destruct (Hm (world d)) as (new & Ht & Hn). exists new. split_and!; [done..|].
  intros x Hx. by inversion Hx.
Qed.

Lemma history_same t0 d p :
  history_ok t0 d → (∀ m, m ∈ todo_of p → m ∈ todo_of (loop d)) → history_ok t0 (goto p (world d) d).
Proof.
  intros Hok Hp. eapply (history_emits t0 d _ []); [done..|]. cbn. intros m [Hm|Hm]; auto.
Qed.

Lemma shutdown_no_ack : emits no_ack shutdown.
Proof. unfold shutdown. by emits_tac. Qed.

Lemma backoff_no_ack : emits no_ack _backoff.
Proof. unfold _backoff. by emits_tac. Qed.

Lemma history_dispatch t0 d d' m todo next :
  history_ok t0 d → todo_of (loop d) = m :: todo → todo_of next = todo →
  _dispatch m next d = Some d' → history_ok t0 d'.
Proof.
  intros Hok Hl Hnext (_ & Hl' & Hi & _ & _ & Hw)%dispatch_some.
  eapply (history_emits t0 d _ []); [done|by rewrite Hw|done|]. rewrite Hl', Hi, Hnext, Hl.
  intros x [[Hx|Hx]%elem_of_app|Hx]; [by left| |].
  - apply list_elem_of_singleton in Hx as ->. right. left. left.
  - right. left. by right.
Qed.

Lemma history_loop t0 d d' : history_ok t0 d → run cfg d = Some d' → history_ok t0 d'.
Proof.
  intros Hok H. unfold run, _consume_loop, _drain in H.
  destruct (loop d) as [| |b|b|[|m todo]|b|[|m todo]| |f|f] eqn:El; simplify_eq.
  - assert (∀ p, todo_of p = [] → history_ok t0 (goto p (world d) d)) as Hp.
    { intros p Hp. apply history_same; [done|]. rewrite Hp. intros m Hm. by inversion Hm. }
    repeat case_match; by apply Hp.
  - apply plain_await_history; [by emits_tac|done..].
  - apply plain_await_history; [unfold queue_depth; by emits_tac|done..].
  - apply (await_history t0 _ _ _ (λ ms, ms)); [apply claim_stale_no_ack|apply claim_stale_fetches|done..].
  - repeat case_match; (apply history_same; [done|]); intros m Hm; by inversion Hm.
  - destruct (_dispatch m (Stale todo) d) as [d1|] eqn:Ed; simplify_eq/=.
    pose proof (history_dispatch t0 d d1 m todo (Stale todo) Hok ltac:(by rewrite El) eq_refl Ed) as (new & Ht & Hs & Hd).
    apply dispatch_some in Ed as (_ & Hl & _ & _ & _ & Hw). exists new.
    split_and!; [by rewrite <- Ht, Hw|done|]. intros x Hx. apply Hd. by rewrite Hl.
  - apply (await_history t0 _ _ _ (λ ms, ms)); [apply read_no_ack|apply read_fetches|done..].
  - apply history_same; [done|]. intros m Hm. by inversion Hm.
  - by eapply (history_dispatch t0 d d' m todo (New todo)); [|rewrite El| |].
  - unfold await_handler. destruct (backoff_no_ack (world d)) as (new & Ht & Hn).
    destruct (_backoff (world d)) as [[]]; (eapply (history_emits t0 d _ new); [done..|]; cbn;
      intros m [Hm|Hm]; [by left|by inversion Hm]).
  - destruct (inflight d) eqn:Ei; simplify_eq. destruct (shutdown_no_ack (world d)) as (new & Ht & Hn).
    destruct (shutdown (world d)) as [[]]; (eapply (history_emits t0 d _ new); [done..|]; cbn;
      intros m [Hm|Hm]; [by left|by inversion Hm]).
Qed.

(** A message that names no job because its payload is not an object issues no command. *)
Lemma history_step t0 d d' : history_ok t0 d → step cfg minio d d' → history_ok t0 d'.
Proof using XL.
  intros Hok Hstep. destruct Hstep as [d d' H|d H|d before m after r s Hn Hi Hp].
  - by eapply history_loop.
  - destruct Hok as (new & Hok). by exists new.
  - destruct Hok as (old & Ht & Hs & Hd).
    assert (Exists (delivers m) old) as Hm by (apply Hd; left; rewrite Hi; apply elem_of_app; right; left).
    assert (∀ x, x ∈ before ++ after ∨ x ∈ todo_of (loop d) → Exists (delivers x) old) as Hd'.
    { intros x Hx. apply Hd. rewrite Hi. rewrite !elem_of_app, elem_of_cons in *. tauto. }
    destruct (msg_job_id m) as [job_id|e] eqn:Hj.
    + pose proof (process_safe cfg minio m job_id (world d) Hj) as Hsafe. unfold wp in Hsafe.
      rewrite Hp in Hsafe. destruct Hsafe as (new & Hnew & Ha & _). exists (new ++ old). cbn in *.
      rewrite Hnew, Ht, app_assoc. split_and!; [done|by eapply history_job|].
      intros x Hx. apply Exists_app. right. auto.
    + pose proof (process_no_job cfg minio m e (world d) Hj) as Hsame. rewrite Hp in Hsame. cbn in Hsame. subst s.
      exists old. by split_and!.
Qed.

Lemma ensure_bucket_no_ack bucket : emits no_ack (ensure_bucket minio bucket).
Proof. unfold ensure_bucket. by emits_tac. Qed.

Lemma startup_no_ack : emits no_ack (startup cfg minio).
Proof. unfold startup. pose proof ensure_bucket_no_ack. pose proof ensure_group_no_ack. by emits_tac. Qed.

(** C3: No job is lost by the daemon.  In the whole history of a daemon, from its start through any
    number of jobs in any interleaving of their completions, every stream entry that is acknowledged
    or deleted was delivered to this daemon before, and by then the text of a result of the job it names,
    with a terminal status, was in the job's result key (or, for an entry naming no job, its payload in
    the dead-letter stream). *)
Theorem daemon_loses_no_job s0 d :
  reachable cfg minio s0 d →
  ∃ new, trace (world d) = new ++ trace s0 ∧ history_safe new.
Proof using XL.
  intros (s & Hs & Hr).
  assert (history_ok (trace s0) (launched cfg s)) as H0.
  { destruct (startup_no_ack s0) as (new & Ht & Hn). rewrite Hs in Ht. exists new.
    split_and!; [done| |by intros m [Hm|Hm]; inversion Hm].
    rewrite <- (app_nil_r new). by apply history_no_ack. }
  assert (history_ok (trace s0) d) as (new & Ht & Hsafe & _); [|by exists new].
  induction Hr as [|d d1 d2 Hstep _ IH]; [done|]. apply IH. by eapply history_step.
Qed.
End History.

(** ** Backing off *)

(** What the [random] module documents. *)
Class RandomLaws (E : Type) `{HE : Handler E} : Prop := {
  randint_range lo hi e a e' : handle (TRandint lo hi) e = (Ok a, e') → lo ≤ a ≤ hi;
  uniform_range lo hi e a e' : handle (TUniform lo hi) e = (Ok a, e') → lo ≤ a ≤ hi;
}.

Section Backoff.
Context {E : Type} {HE : Handler E} {RL : RandomLaws E}.

(** The backoff is bounded: when it returns, the loop has slept between half a second and 4.25
    seconds. *)
Theorem backoff_bounds s :
  returns _backoff (λ _ s', ∃ delay old, trace s' = Ev (TSleep delay) (Ok tt) :: old ∧
    500000 ≤ delay ≤ 4250000) s.
Proof using RL.
  unfold _backoff. apply returns_bind. refine (returns_call_eq (TRandint 0 3) _ _ _).
  intros k e Hk%randint_range. cbv beta. cbn in k. apply returns_bind. refine (returns_call_eq (TUniform 0 250000) _ _ _).
  intros j e' Hj%uniform_range. cbv beta. cbn in j. refine (returns_call_eq (TSleep _) _ _ _).
  intros [] e'' _. eexists _, _. split; [reflexivity|]. unfold backoff_delay.
  assert (k = 0 ∨ k = 1 ∨ k = 2 ∨ k = 3) as [->|[->|[->| ->]]] by lia; cbn; lia.
Qed.
End Backoff.

(** ** Shutdown with an idle reaper *)

(** A cancelled reaper aborts the shutdown.  When the reaper task is still waiting at the
    end of [run], awaiting it after its cancellation raises [CancelledError], which is not an
    [Exception]: it is not suppressed, the Redis connection is not closed, and [run] raises. *)
Theorem cancelled_reaper_aborts_shutdown {E} `{HE : Handler E} (s : st E) e :
  handle TJoinReaper (env s) = (Raise CancelledError, e) →
  shutdown s = (Raise CancelledError, St e (mem s) (Ev TJoinReaper (Raise CancelledError) :: trace s)).
Proof.
  intros H. unfold shutdown, suppress, try_except, mbind, M_bind, call. by rewrite H.
Qed.

(** ** A concrete daemon *)
Module ExampleDaemon.
#[local] Existing Instance AsciiRuntime.ascii_runtime.
#[local] Existing Instance PlainJson.plain_json.

Definition entry : pystr * gmap pystr pystr :=
  (u "1-0", {[u "payload" := json_dumps (payload (ExampleWorker.message 1))]}).

(** Every read delivers one entry; Docker runs it to completion; the reaper is idle when it is joined. *)
Definition answers (c : cmd) : res (ans c) :=
  match c return res (ans c) with
  | RXreadgroup _ _ _ _ count _ => Ok (if 1 <=? count then [(JOB_STREAM, [entry])] else [])
  | RXpendingRange _ _ _ _ _ _ => Ok []
  | RXclaim _ _ _ _ _ => Ok []
  | TRandint lo _ => Ok lo
  | TUniform lo _ => Ok lo
  | TJoinReaper => Raise CancelledError
  | c => ExampleRun.answers c
  end.

#[local] Instance world : Handler unit := Scripted.world answers.
#[local] Instance exec : SandboxExec unit := execute_impl ExampleHost.host.
#[local] Instance exec_laws : SandboxExecLaws unit := execute_laws ExampleHost.host.

#[local] Instance redis_counts : RedisCounts unit.
Proof.
  split; intros; match goal with H : _ = (Ok _, _) |- _ => injection H as <- _ end;
    try (case_match; py_simpl); cbn; lia.
Qed.


Definition cfg : WorkerConfig := ExampleWorker.cfg.

(** The loop runs alone for some steps. *)
Fixpoint run_loop (n : nat) (d : Daemon unit) : Daemon unit :=
  match n with
  | O => d
  | S n => match run cfg d with Some d' => run_loop n d' | None => d end
  end.

Lemma run_loop_steps n d : rtc (step cfg true) d (run_loop n d).
Proof.
  revert d. induction n as [|n IH]; intros d; cbn [run_loop]; [apply rtc_refl|].
  destruct (run cfg d) as [d'|] eqn:E; [|apply rtc_refl].
  eapply rtc_l; [by constructor|apply IH].
Qed.

Definition d0 : Daemon unit := launched cfg (startup cfg true Scripted.start).2.

Lemma run_loop_reachable n : reachable cfg true Scripted.start (run_loop n d0).
Proof. eexists. split; [|apply run_loop_steps]. vm_compute. reflexivity. Qed.

(** After five steps an entry is read, after the sixth its job is in flight. *)
Definition at_read : Daemon unit := run_loop 5 d0.
Definition at_job : Daemon unit := run_loop 6 d0.

Lemma at_read_new : loop at_read = New [ExampleWorker.message 1].
Proof. vm_compute. reflexivity. Qed.

Lemma at_job_inflight : inflight at_job = [ExampleWorker.message 1].
Proof. vm_compute. reflexivity. Qed.

Lemma at_job_running : running at_job.
Proof. assert (loop at_job = New []) as H by (vm_compute; reflexivity). intros f. rewrite H. discriminate. Qed.

Lemma pool_bounded_witness : 1 ≤ worker_concurrency cfg ∧ semaphore at_job = worker_concurrency cfg - 1.
Proof.
  pose proof (pool_bounded cfg true Scripted.start at_job ltac:(vm_compute; discriminate) (run_loop_reachable 6)) as [H1 H2].
  rewrite at_job_inflight in H1, H2. exact (conj H1 H2).
Defined.

Lemma dispatch_never_waits_witness : is_Some (run cfg at_read).
Proof.
  refine (proj2 (dispatch_never_waits cfg true Scripted.start at_read [ExampleWorker.message 1] _ _ _)).
  - vm_compute. discriminate.
  - apply run_loop_reachable.
  - right. exact at_read_new.
Defined.

Definition stopping_now : Daemon unit := request_stop at_job.

Lemma graceful_shutdown_witness :
  inflight stopping_now = [ExampleWorker.message 1] ∧ Acc (λ after before, step cfg true before after) stopping_now.
Proof.
  split; [exact at_job_inflight|].
  refine (proj1 (graceful_shutdown cfg true Scripted.start stopping_now _ _ _)).
  - vm_compute. discriminate.
  - destruct (run_loop_reachable 6) as (s & Hs & Hr). exists s. split; [exact Hs|].
    eapply rtc_r; [exact Hr|]. exact (step_stop cfg true at_job eq_refl).
  - reflexivity.
Defined.

(** The job in flight finishes. *)
Definition after_job : Daemon unit :=
  finished (ExampleWorker.message 1) [] (_process cfg true (ExampleWorker.message 1) (Daemon.world at_job)).2 at_job.

Lemma daemon_loses_no_job_witness : ∃ new, trace (Daemon.world after_job) = new ++ [] ∧ history_safe new.
Proof.
  refine (daemon_loses_no_job cfg true Scripted.start after_job _).
  destruct (run_loop_reachable 6) as (s & Hs & Hr). exists s. split; [exact Hs|].
  eapply rtc_r; [exact Hr|]. unfold after_job.
  refine (step_finish cfg true at_job [] (ExampleWorker.message 1) [] _ _ at_job_running at_job_inflight _).
  apply surjective_pairing.
Defined.

(** Draws at the lower end of their range. *)
Module LowDraws.
Definition draw (c : cmd) : res (ans c) :=
  match c return res (ans c) with
  | TRandint lo hi => if lo <=? hi then Ok lo else Raise ValueError
  | TUniform lo hi => if lo <=? hi then Ok lo else Raise ValueError
  | c => Ok (Scripted.default_ans c)
  end.

#[local] Instance low : Handler unit := Scripted.world draw.

#[local] Instance low_laws : RandomLaws unit.
Proof.
  split; intros lo hi e a e' H; unfold handle, low, Scripted.world, draw in H;
    (destruct (lo <=? hi) eqn:El; [|done]); injection H as <- _; apply Z.leb_le in El; lia.
Qed.

Lemma backoff_bounds_witness :
  ∃ delay old, trace (_backoff Scripted.start).2 = Ev (TSleep delay) (Ok tt) :: old ∧ 500000 ≤ delay ≤ 4250000.
Proof. exact (backoff_bounds Scripted.start tt eq_refl). Defined.
End LowDraws.

Lemma cancelled_reaper_aborts_shutdown_witness :
  shutdown Scripted.start =
  (Raise CancelledError, St tt mem0 [Ev TJoinReaper (Raise CancelledError)]).
Proof. exact (cancelled_reaper_aborts_shutdown Scripted.start tt eq_refl). Defined.
End ExampleDaemon.
