(* ===== verification/Fleet.v ===== *)
(** * Many workers on one stream

    Any number of workers share the stream, each processing several jobs at once.  What happens is a
    history of commands, each issued by a thread; every processed entry is a thread of its own, so
    commands of different jobs and workers interleave freely.  A thread that is cut short (its worker
    crashed, or has not come further yet) has issued the older part of its commands only.  Redis is
    seen through the set of entries it still holds ([StreamLaws]). *)
From S2P Require Import Prelude PyStr Errors Json JsonText Effects Constants Types ResourceLimits Config ImageRegistry Capture Executor Run Store Queue Worker.
From stdpp Require Import options.

(** Newest first. *)
Abbreviation history := (list (nat * event)).

(** The commands of one thread. *)
Definition issued (t : nat) (h : history) : list event := map snd (filter (λ e, e.1 = t) h).

Section Fleet.
Context {PR : PyRuntime} {JR : JsonRuntime}.

(** The entries the API has added to the stream; Redis never changes the fields of an entry. *)
Context (entries : gmap pystr (gmap pystr pystr)).

(** A message made of an entry of the stream. *)
Definition from_stream (m : QueueMessage) : Prop :=
  ∃ fields, entries !! msg_id m = Some fields ∧ _to_message (msg_id m) fields (delivery_count m) = Ok m.

(** [processes m tr]: [tr] is what some worker, with its own configuration, executor and answers from
    the outside world, has issued so far to process [m]. *)
Inductive processes (m : QueueMessage) (tr : list event) : Prop :=
| Processes (E : Type) (HE : Handler E) (X : SandboxExec E) (XL : SandboxExecLaws E)
    (cfg : WorkerConfig) (minio : bool) (s : st E) :
    trace s = [] → tr `suffix_of` trace (_process cfg minio m s).2 → processes m tr.

(** The threads of a fleet: entries being processed, and everything else the workers and the API do
    (fetching, reaping, submitting), which acknowledges nothing. *)
Definition thread_ok (tr : list event) : Prop :=
  (∃ m, from_stream m ∧ processes m tr) ∨ Forall no_ack tr.

Definition fleet_history (h : history) : Prop := ∀ t, thread_ok (issued t h).

(** What Redis documents of the stream: an entry stays until it is acknowledged or deleted. *)
Class StreamLaws (live : history → gset pystr) : Prop := {
  live_start id : is_Some (entries !! id) → id ∈ live [];
  live_kept h t e id : id ∈ live h → acked (ev_cmd e) ≠ Some id → id ∈ live ((t, e) :: h);
}.

(** The job the entry names has a stored result, or, if it names none, is in the dead-letter stream. *)
Definition entry_settled (id : pystr) (h : history) : Prop :=
  ∃ m job_id, from_stream m ∧ msg_id m = id ∧ msg_job_id m = Ok job_id ∧ settled m job_id (map snd h).

Lemma issued_cons t t' e h : issued t ((t', e) :: h) = (if decide (t' = t) then [e] else []) ++ issued t h.
Proof. unfold issued. rewrite filter_cons. cbn [fst]. by destruct (decide (t' = t)). Qed.

Lemma thread_ok_suffix tr tr' : tr `suffix_of` tr' → thread_ok tr' → thread_ok tr.
Proof.
  intros Hs [(m & Hm & [E HE X XL cfg minio s Ht Hp])|Hn].
  - left. exists m. split; [done|]. apply (Processes m tr E HE X XL cfg minio s); [done|]. by etransitivity.
  - right. destruct Hs as [k ->]. by apply Forall_app in Hn as [_ ?].
Qed.

Lemma fleet_older t e h : fleet_history ((t, e) :: h) → fleet_history h.
Proof.
  intros H t'. eapply thread_ok_suffix; [|apply (H t')]. rewrite issued_cons. by eexists.
Qed.

Lemma issued_elem t h e : e ∈ issued t h → e ∈ map snd h.
Proof.
  unfold issued. rewrite !list_elem_of_fmap. intros (x & -> & [_ Hx]%list_elem_of_filter). by exists x.
Qed.

Lemma ack_safe_suffix m job_id tr tr' : tr `suffix_of` tr' → ack_safe m job_id tr' → ack_safe m job_id tr.
Proof. intros [k ->] H. induction k as [|e k IH]; [done|]. apply IH, H. Qed.

(** An acknowledgement of a thread is of the entry it processes, whose job is settled by then. *)
Lemma thread_ack tr e :
  thread_ok (e :: tr) → is_ack (ev_cmd e) = true →
  ∃ m job_id, from_stream m ∧ acked (ev_cmd e) = Some (msg_id m) ∧ msg_job_id m = Ok job_id ∧ settled m job_id tr.
Proof.
  intros [(m & Hm & [E HE X XL cfg minio s Ht Hp])|Hn] Ha.
  - destruct (msg_job_id m) as [job_id|x] eqn:Hj.
    + destruct (process_safe cfg minio m job_id s Hj) as (new & Hnew & Hsafe & _).
      rewrite Ht, app_nil_r in Hnew. rewrite Hnew in Hp.
      destruct (ack_safe_suffix _ _ _ _ Hp Hsafe) as [_ He]. destruct (He Ha) as [Hid Hset].
      by exists m, job_id.
    + rewrite (process_no_job cfg minio m x s Hj), Ht in Hp. destruct Hp as [k Hk]. by destruct k.
  - apply Forall_cons in Hn as [Hn _]. unfold no_ack in Hn. congruence.
Qed.

(** C4: No job is lost by a fleet.  Whatever the number of workers, however their commands interleave,
    whatever Redis, Docker and MinIO answer each of them, and wherever workers crash: every entry ever
    added to the stream is still in it, to be read or reclaimed, or the text of a result of its job with
    a terminal status was written to the job's result key (or, if it names no job, its payload was
    added to the dead-letter stream). *)
Theorem fleet_loses_no_job live h id :
  StreamLaws live → fleet_history h → is_Some (entries !! id) → id ∈ live h ∨ entry_settled id h.
Proof.
  intros HL Hh Hid. induction h as [|[t e] h IH]; [left; by apply live_start|].
  destruct (decide (acked (ev_cmd e) = Some id)) as [Ha|Hna].
  - right. pose proof (Hh t) as Ht. rewrite issued_cons, decide_True in Ht by done. cbn [app] in Ht.
    destruct (thread_ack _ _ Ht) as (m & job_id & Hm & He & Hj & Hset); [by destruct (ev_cmd e)|].
    exists m, job_id. split_and!; [done|congruence|done|]. apply (settled_app _ _ [e]).
    eapply settled_mono; [|exact Hset]. intros x. apply issued_elem.
  - destruct (IH (fleet_older _ _ _ Hh)) as [Hl|(m & job_id & Hm & He & Hj & Hset)]; [left; by apply live_kept|].
    right. exists m, job_id. split_and!; [done..|]. by apply (settled_app _ _ [e]).
Qed.
End Fleet.

(** ** A run ends before its entry can be taken over *)

(** The seconds a command waits at most, if it says so. *)
Definition wait_seconds (c : cmd) : Z :=
  match c with PWaitAny t _ | PWait (Some t) => t | _ => 0 end.

Definition waiting (tr : list event) : Z := foldr (λ e n, wait_seconds (ev_cmd e) + n) 0 tr.

Lemma waiting_app tr tr' : waiting (tr ++ tr') = waiting tr + waiting tr'.
Proof. induction tr as [|e tr IH]; simpl; lia. Qed.

Lemma waiting_rev tr : waiting (rev tr) = waiting tr.
Proof. induction tr as [|e tr IH]; simpl; [done|]. rewrite waiting_app, IH. simpl. lia. Qed.

(** Only the main task of a run waits with a limit. *)
Lemma waiting_ctl tr : waiting (ctl tr) = waiting tr.
Proof.
  induction tr as [|e tr IH]; [done|]. unfold ctl in *. rewrite filter_cons. cbn [waiting foldr].
  fold (waiting tr). destruct (decide (control (ev_cmd e) = true)) as [Hc|Hc]; cbn [waiting foldr].
  - fold (waiting (filter (λ e, control (ev_cmd e) = true) tr)). lia.
  - replace (wait_seconds (ev_cmd e)) with 0; [lia|]. by destruct (ev_cmd e).
Qed.

Lemma timeout_ceiling language c : get_resource_config language = Ok c → timeout_seconds c ≤ 25.
Proof.
  unfold get_resource_config. destruct (assoc language _DEFAULTS) as [c'|] eqn:E; simpl; [|done].
  intros [= <-]. assert (Forall (λ kv, timeout_seconds kv.2 ≤ 25) _DEFAULTS) as H by by_compute.
  rewrite Forall_forall in H. exact (H _ (assoc_elem _ _ _ E)).
Qed.

Section Takeover.
Context {PR : PyRuntime} {JR : JsonRuntime} {E : Type} {HE : Handler E} (h : Host).

Lemma ladder_waiting container kills :
  0 ≤ sigterm_grace_seconds (config h) → ladder h container kills →
  waiting kills ≤ sigterm_grace_seconds (config h) + _KILL_WAIT_SECONDS.
Proof.
  intros Hg [(a & ->)|[(a & b & ->)|(a & b & c & d & e & ->)]];
    unfold _KILL_WAIT_SECONDS; cbn [waiting foldr ev_cmd wait_seconds kill_argv rm_argv]; lia.
Qed.

(** C39: with the default settings a running job is not taken over.  When [execute] returns, the waits it
    limited (for the container, for the reaction to SIGTERM and to SIGKILL) add up to less than the
    idle time after which another worker may claim the entry, whatever the language, the requested
    timeout and the course of the run. *)
Theorem run_ends_before_takeover on_output environ tempdir default_id request job_id cancellable s :
  callback_ok on_output → load_worker_config ∅ tempdir default_id = Ok (config h) →
  _build environ = Ok (h_registry h) →
  returns (execute h on_output request job_id cancellable) (λ _ s',
    ∃ new, trace s' = new ++ trace s ∧ 1000 * waiting new < claim_min_idle_ms (config h)) s.
Proof.
  intros Hcb Hcfg Hreg. eapply returns_mono; [|by apply execute_returns].
  intros res s' (rt & w & new & a & b & Hrt & Ht & Hrep).
  destruct Hrep as (argv & spawned & waits & rc & o & out & p & smp & start & stop & Hctl & Hw & _).
  exists (Ev (FRmtree w) a :: Ev (DSimple (rm_argv h (container_name job_id))) b :: new). split; [done|].
  destruct (get_runtime_spec environ (req_language request)) as (reg & Hreg' & Hspec).
  rewrite Hreg in Hreg'. injection Hreg' as <-. rewrite Hrt in Hspec. destruct Hspec as (_ & _ & Hlim & Hs & _).
  apply timeout_ceiling in Hlim. unfold sound_config in Hs.
  pose proof (clamp_timeout_ceiling (rt_limits rt) (Some (req_timeout request)) ltac:(lia)) as Hclamp.
  assert (sigterm_grace_seconds (config h) = 2 ∧ claim_min_idle_ms (config h) = 60000) as [Hg Hi].
  { unfold load_worker_config, _int in Hcfg. rewrite !lookup_empty in Hcfg. cbn in Hcfg. by injection Hcfg as <-. }
  rewrite Hi. cbn [waiting foldr ev_cmd wait_seconds]. fold (waiting new).
  rewrite <- waiting_ctl, <- waiting_rev, Hctl. cbn [waiting foldr ev_cmd wait_seconds].
  fold (waiting (waits ++ [Ev PReturncode (Ok rc)])). rewrite waiting_app. cbn [waiting foldr ev_cmd wait_seconds].
  destruct Hw as (exited & cancelled & kills & -> & Hk). cbn [waiting foldr ev_cmd wait_seconds]. fold (waiting kills).
  destruct exited; [destruct Hk as [_ ->]; cbn [waiting foldr]; lia|]. destruct Hk as [_ Hl%ladder_waiting]; [|lia].
  unfold _KILL_WAIT_SECONDS in Hl. lia.
Qed.
End Takeover.

(** ** A concrete fleet: one worker crashes in the middle of the job, another one runs it again *)
Module ExampleFleet.
#[local] Existing Instance AsciiRuntime.ascii_runtime.
#[local] Existing Instance PlainJson.plain_json.
#[local] Existing Instance ExampleRun.world.

#[local] Instance exec : SandboxExec unit := execute_impl ExampleHost.host.
#[local] Instance exec_laws : SandboxExecLaws unit := execute_laws ExampleHost.host.

Definition message : QueueMessage := ExampleWorker.message 1.

Definition entries : gmap pystr (gmap pystr pystr) :=
  {[ u "1-0" := {[ u "payload" := json_dumps (payload message) ]} ]}.

(** The entries nobody has acknowledged or deleted. *)
Definition live (h : history) : gset pystr :=
  filter (λ id, Forall (λ e, acked (ev_cmd e.2) ≠ Some id) h) (dom entries).

#[local] Instance stream_laws : StreamLaws entries live.
Proof.
  split; unfold live.
  - intros id Hid. rewrite elem_of_filter, elem_of_dom. split; [constructor|exact Hid].
  - intros h t e id. rewrite !elem_of_filter. intros [Hl Hd] Ha. split; [|exact Hd]. constructor; [exact Ha|exact Hl].
Qed.

Definition commands : list event := trace (_process ExampleWorker.cfg true message Scripted.start).2.

(** Thread 0 issued all but the last ten commands, then thread 1 all of them. *)
Definition crash_and_retry : history := map (pair 1%nat) commands ++ map (pair 0%nat) (drop 10 commands).

Lemma issued_app t h h' : issued t (h ++ h') = issued t h ++ issued t h'.
Proof. unfold issued. by rewrite filter_app, map_app. Qed.

Lemma issued_thread t t' l : issued t (map (pair t') l) = if decide (t' = t) then l else [].
Proof.
  induction l as [|e l IH]; cbn [map]; [by destruct (decide (t' = t))|]. rewrite issued_cons, IH.
  by destruct (decide (t' = t)).
Qed.

Lemma retry_fleet : fleet_history entries crash_and_retry.
Proof.
  assert (from_stream entries message) as Hm.
  { exists {[ u "payload" := json_dumps (payload message) ]}. split; [apply lookup_singleton_eq|vm_compute; reflexivity]. }
  assert (∀ tr, tr `suffix_of` commands → thread_ok entries tr) as Hc.
  { intros tr Htr. left. exists message. split; [exact Hm|].
    by apply (Processes message tr unit _ _ exec_laws ExampleWorker.cfg true Scripted.start). }
  intros t. unfold crash_and_retry. rewrite issued_app, !issued_thread. apply Hc.
  destruct (decide (1%nat = t)); [subst t; cbn|destruct (decide (0%nat = t)); cbn].
  - by rewrite app_nil_r.
  - exists (take 10 commands). symmetry. apply take_drop.
  - apply suffix_nil.
Qed.

(** The second worker has finished: the entry is gone. *)
Lemma entry_gone : u "1-0" ∉ live crash_and_retry.
Proof. apply (bool_decide_unpack _). vm_compute. exact I. Qed.

(** So its job has a result. *)
Lemma fleet_loses_no_job_witness : entry_settled entries (u "1-0") crash_and_retry.
Proof.
  destruct (fleet_loses_no_job entries live crash_and_retry (u "1-0")) as [Hlive|Hset];
    [exact stream_laws|exact retry_fleet|apply lookup_singleton_is_Some; reflexivity|destruct (entry_gone Hlive)|exact Hset].
Defined.

Lemma run_ends_before_takeover_witness :
  callback_ok ExampleRun.publish ∧ ∃ new, trace ExampleRun.outcome_of_run.2 = new ++ [] ∧ 1000 * waiting new < 60000.
Proof.
  split; [exact ExampleRun.publish_ok|].
  exact (run_ends_before_takeover ExampleHost.host ExampleRun.publish ∅ (u "/tmp") (u "w1") ExampleRun.request (u "j")
           true Scripted.start ExampleRun.publish_ok eq_refl eq_refl ExampleRun.result ExampleRun.outcome_eq).
Defined.
End ExampleFleet.
