(* ===== verification/Main.v ===== *)
(** * The process ([worker/worker.py]: [WorkerDaemon.__init__], [_build_minio], [_amain], [main])

    From the environment of the process to the running daemon: the configuration, the metrics server,
    the clients, the signal handlers, and the start of [run]. *)
From S2P Require Import Prelude PyStr Errors Json JsonText Effects Constants Types Telemetry Config ImageRegistry Capture Executor Run Store Queue Worker Daemon.
From stdpp Require Import options.

Section Main.
Context {PR : PyRuntime} {JR : JsonRuntime} {E : Type} {HE : Handler E} {X : SandboxExec E}.

(** Whether there is a MinIO client. *)
Definition _build_minio (cfg : WorkerConfig) : M E bool :=
  try_except
    (_ ← call (MClient (minio_endpoint cfg) (minio_access_key cfg) (minio_secret_key cfg) (minio_secure cfg));
     mret true)
    (λ e, if is_Exception e then Some (mret false) else None).

(** [asyncio.Semaphore(value)] *)
Definition new_semaphore (value : Z) : res Z := if value <? 0 then Raise ValueError else Ok value.

(** [WorkerDaemon.__init__]: the clients and the pool; what else it builds has no effect. *)
Definition init (cfg : WorkerConfig) (root : RootLogger) : M E (bool * RootLogger) :=
  let '(logger, root) := configure_logging (log_level cfg) root in
  _ ← lift logger;
  _ ← call (RConnect (redis_url cfg));
  minio ← _build_minio cfg;
  _ ← lift (new_semaphore (worker_concurrency cfg));
  mret (minio, root).

Definition start_metrics_server (port : Z) : M E unit := call (SMetricsServer port).

Definition is_NotImplementedError (e : exc) : bool := match e with NotImplementedError => true | _ => false end.

Definition add_signal_handlers : M E unit :=
  for_each [u "SIGTERM"; u "SIGINT"] (λ sig, suppress is_NotImplementedError (call (SAddSignal sig))).

(** [_amain] up to the loop of [daemon.run()]: the configuration, whether there is a MinIO client, and
    the root logger. *)
Definition _amain (environ : gmap pystr pystr) (tempdir default_id : pystr) (root : RootLogger) :
    M E (WorkerConfig * bool * RootLogger) :=
  cfg ← lift (load_worker_config environ tempdir default_id);
  _ ← start_metrics_server (metrics_port cfg);
  r ← init cfg root;
  let '(minio, root) := (r : bool * RootLogger) in
  _ ← add_signal_handlers;
  _ ← startup cfg minio;
  mret (cfg, minio, root).

(** ** Properties *)

(** The commands of a start, oldest first, before the daemon's own. *)
Definition boot_commands (cfg : WorkerConfig) : list cmd :=
  [SMetricsServer (metrics_port cfg); RConnect (redis_url cfg);
   MClient (minio_endpoint cfg) (minio_access_key cfg) (minio_secret_key cfg) (minio_secure cfg);
   SAddSignal (u "SIGTERM"); SAddSignal (u "SIGINT")].

Lemma build_minio_spec cfg s :
  returns (_build_minio cfg) (λ minio s', ∃ a,
    trace s' = Ev (MClient (minio_endpoint cfg) (minio_access_key cfg) (minio_secret_key cfg) (minio_secure cfg)) a :: trace s ∧
    minio = is_ok a) s.
Proof.
  unfold _build_minio. apply wp_try. do 2 wp_step. destruct r as [a|x]; [wp_step; intros ? [= <-]; by exists (Ok a)|].
  destruct (is_Exception x); [|done]. wp_step. intros ? [= <-]. by exists (Raise x).
Qed.

Lemma add_signal_handlers_spec s :
  returns add_signal_handlers (λ _ s', ∃ a b,
    trace s' = Ev (SAddSignal (u "SIGINT")) a :: Ev (SAddSignal (u "SIGTERM")) b :: trace s) s.
Proof.
  unfold add_signal_handlers. cbn [for_each].
  assert (∀ sig s, returns (suppress is_NotImplementedError (call (SAddSignal sig)))
            (λ _ s', ∃ a, trace s' = Ev (SAddSignal sig) a :: trace s) s) as Hone.
  { intros sig s0. apply wp_suppress. wp_step. destruct r as [[]|x]; [intros ? _; by exists (Ok tt)|].
    destruct (is_NotImplementedError x); intros ? [=]; by exists (Raise x). }
  ret_step. eapply returns_mono; [|apply Hone]. intros [] s1 (b & Hb).
  ret_step. eapply returns_mono; [|apply Hone]. intros [] s2 (a & Ha). ret_step.
  exists a, b. by rewrite Ha, Hb.
Qed.

(** C40: the start of the process.  With a malformed integer setting it ends with [ValueError] before any
    command is issued.  When it comes up, the configuration is the one of the environment, the pool
    size is not negative, records are logged once, and the commands were: the metrics server on the
    configured port, the two clients, the two signal handlers, and only then the first commands to
    Redis; the result is the initial state of a daemon, without MinIO exactly if the client could not
    be built. *)
Theorem amain_starts environ tempdir default_id root s :
  default_id ≠ [] →
  (existsb (malformed environ) int_settings = true →
   _amain environ tempdir default_id root s = (Raise ValueError, s)) ∧
  returns (_amain environ tempdir default_id root) (λ '(cfg, minio, root') s',
    load_worker_config environ tempdir default_id = Ok cfg ∧ 0 ≤ worker_concurrency cfg ∧
    handlers root' = [StdoutJson] ∧
    ∃ s1 boot, trace s1 = boot ++ trace s ∧ rev (map ev_cmd boot) = boot_commands cfg ∧
      reachable cfg minio s1 (launched cfg s') ∧
      ∃ e, boot !! 2%nat = Some e ∧ minio = ev_ok e) s.
Proof.
  intros Hid. split.
  - intros Hm. pose proof (load_worker_config_outcome environ tempdir default_id Hid) as Ho. rewrite Hm in Ho.
    unfold _amain, lift, mbind, M_bind. by rewrite Ho.
  - unfold _amain, start_metrics_server. ret_step. ret_step. rename a into cfg, H into Hcfg. do 2 ret_step.
    unfold init. pose proof (proj1 (configure_logging_once (log_level cfg) (log_level cfg) root)) as Hlog.
    destruct (configure_logging (log_level cfg) root) as [logger root']. cbn [snd] in Hlog.
    do 6 ret_step. eapply returns_mono; [|apply build_minio_spec]. intros minio s2 (c & Hc & ->).
    ret_step. ret_step. unfold new_semaphore in H0. destruct (Z.ltb_spec (worker_concurrency cfg) 0); [done|].
    ret_step. ret_step. eapply returns_mono; [|apply add_signal_handlers_spec]. intros [] s3 (x & y & Ht).
    ret_step. intros [] Hs. ret_step. split_and!; [done|lia|done|].
    exists s3, [Ev (SAddSignal (u "SIGINT")) x; Ev (SAddSignal (u "SIGTERM")) y;
      Ev (MClient (minio_endpoint cfg) (minio_access_key cfg) (minio_secret_key cfg) (minio_secure cfg)) c;
      Ev (RConnect (redis_url cfg)) (Ok a1); Ev (SMetricsServer (metrics_port cfg)) (Ok a)].
    split; [by rewrite Ht, Hc|]. split; [done|]. split; [|by eexists].
    exists (startup cfg (is_ok c) s3).2. split; [|apply rtc_refl].
    destruct (startup cfg (is_ok c) s3) as [r s4]. cbn in *. by subst r.
Qed.
End Main.

(** ** Concrete starts *)
Module ExampleMain.
#[local] Existing Instance AsciiRuntime.ascii_runtime.
#[local] Existing Instance PlainJson.plain_json.
#[local] Instance world : Handler unit := Scripted.quiet.
#[local] Instance exec : SandboxExec unit := execute_impl ExampleHost.host.

Definition root : RootLogger := {| handlers := [OtherHandler]; root_level := 30 |}.

Definition up : res (WorkerConfig * bool * RootLogger) * st unit :=
  _amain ∅ (u "/tmp") (u "w1") root Scripted.start.

Definition started : WorkerConfig * bool * RootLogger :=
  Eval vm_compute in (match up.1 with Ok x => x | Raise _ => (ExampleWorker.cfg, false, root) end).

Lemma up_eq : fst (_amain ∅ (u "/tmp") (u "w1") root Scripted.start) = Ok started.
Proof. vm_compute. reflexivity. Qed.

Lemma amain_starts_witness :
  _amain {[ u "QUEUE_BLOCK_MS" := u "5s" ]} (u "/tmp") (u "w1") root Scripted.start = (Raise ValueError, Scripted.start) ∧
  handlers started.2 = [StdoutJson] ∧ ∃ s1, reachable started.1.1 started.1.2 s1 (launched started.1.1 up.2).
Proof.
  split.
  - apply (amain_starts {[ u "QUEUE_BLOCK_MS" := u "5s" ]} (u "/tmp") (u "w1") root Scripted.start); [done|].
    vm_compute. reflexivity.
  - destruct (amain_starts ∅ (u "/tmp") (u "w1") root Scripted.start ltac:(done)) as [_ H].
    specialize (H started up_eq). destruct H as (_ & _ & Hh & s1 & boot & _ & _ & Hr & _).
    split; [exact Hh|]. exists s1. exact Hr.
Defined.
End ExampleMain.
