(* ===== verification/ApiRequest.v ===== *)
(** * What the API sends ([api/src/middleware/validator.ts], [JobPayload] and [JobRecord] of
    [api/src/services/jobQueue.ts])

    Validation of a request body and the encoding of the stream entry, and the agreement of both with
    the worker: what the API accepts and enqueues is exactly what the worker decodes, and the worker's
    own checks of names do not reject it.  Text is a list of code points, so a surrogate pair of a
    JavaScript string is one element. *)
From S2P Require Import Prelude PyStr Paths Utf8 Errors Json JsonText Constants Types ResourceLimits ImageRegistry Executor Queue Worker.
From stdpp Require Import options.

(** ** Configuration *)

(** The settings the validator and the routes read. *)
Record ApiConfig := {
  MAX_CODE_SIZE_BYTES : Z;
  MAX_STDIN_BYTES : Z;
  MAX_FILES : Z;
  MAX_FILE_SIZE_BYTES : Z;
  MAX_ENV_VARS : Z;
  MAX_ENV_VALUE_LENGTH : Z;
  DEFAULT_TIMEOUT_SECONDS : Z;
  MAX_TIMEOUT_SECONDS : Z;
  SYNC_EXECUTION_TIMEOUT_SECONDS : Z;
  MAX_CONCURRENT_JOBS : Z;
  MAX_CONCURRENT_JOBS_PREMIUM : Z;
  RATE_LIMIT_REQUESTS_PER_MINUTE : Z;
  RATE_LIMIT_ANON_PER_MINUTE : Z;
  RATE_LIMIT_PREMIUM_PER_MINUTE : Z;
}.

(** What [loadConfig] has checked of the timeouts (positive, the default not above the maximum) for
    numbers JavaScript represents exactly. *)
Definition config_ok (c : ApiConfig) : Prop :=
  0 < DEFAULT_TIMEOUT_SECONDS c ≤ MAX_TIMEOUT_SECONDS c ∧ MAX_TIMEOUT_SECONDS c < 2 ^ 53.

(** ** The validator *)

Definition DISALLOWED_ENV_NAMES : gset pystr := list_to_set (map u
  ["PATH"; "LD_PRELOAD"; "LD_LIBRARY_PATH"; "LD_AUDIT"; "NODE_OPTIONS"; "PYTHONPATH"; "PYTHONSTARTUP";
   "BASH_ENV"; "ENV"; "IFS"; "SHELLOPTS"; "RUBYOPT"; "PERL5LIB"; "GEM_PATH"; "CLASSPATH";
   "JAVA_TOOL_OPTIONS"; "HOME"; "SANDBOX"]%string).

Definition is_letter (c : Z) : bool := in_range 65 90 c || in_range 97 122 c.

(** [/^[A-Za-z_][A-Za-z0-9_]*$/] *)
Definition ENV_NAME_RE (name : pystr) : bool :=
  match name with
  | [] => false
  | c :: rest => (is_letter c || (c =? 95)) && all_of (λ c, is_letter c || is_digit c || (c =? 95)) rest
  end.

(** [/^[A-Za-z0-9._-]+$/] *)
Definition name_char (c : Z) : bool := is_letter c || is_digit c || (c =? 46) || (c =? 95) || (c =? 45).
Definition FILE_NAME_RE (name : pystr) : bool := negb (name =s []) && all_of name_char name.

Definition sanitizeFilename (name : pystr) : option pystr :=
  if bool_decide (0 ∈ name) then None
  else
    let base := default [] (last (filter (λ p, p ≠ []) (split_char slash (replace_char backslash slash name)))) in
    if (base =s []) || (base =s dot) || (base =s dotdot) then None
    else if negb (FILE_NAME_RE base) then None
    else if 255 <? Z.of_nat (length base) then None
    else Some base.

(** [obj[name] = value] on a plain object: a text assigned to [__proto__] is dropped. *)
Fixpoint obj_put (name value : pystr) (obj : list (pystr * pystr)) : list (pystr * pystr) :=
  match obj with
  | [] => [(name, value)]
  | (k, v) :: obj => if k =s name then (k, value) :: obj else (k, v) :: obj_put name value obj
  end.

Definition obj_assign (name value : pystr) (obj : list (pystr * pystr)) : list (pystr * pystr) :=
  if name =s u "__proto__" then obj else obj_put name value obj.

(** The loop of the transform of [envSchema] over the entries of the record that the schema library
    hands to it; [ENV_NAME_RE] has been passed, so the name is ASCII when it
    is upper-cased. *)
Fixpoint clean_env (max count : Z) (entries cleaned : list (pystr * pystr)) : list (pystr * pystr) :=
  match entries with
  | [] => cleaned
  | (name, value) :: rest =>
      if max <=? count then cleaned
      else if negb (ENV_NAME_RE name) then clean_env max count rest cleaned
      else if in_set (map ascii_upper name) DISALLOWED_ENV_NAMES then clean_env max count rest cleaned
      else clean_env max (count + 1) rest (obj_assign name value cleaned)
  end.

Definition clamp_api_timeout (c : ApiConfig) (t : option Z) : Z :=
  match t with None => DEFAULT_TIMEOUT_SECONDS c | Some t => Z.min t (MAX_TIMEOUT_SECONDS c) end.

(** [Buffer.byteLength(s, 'utf8')]; a lone surrogate is written as the replacement character. *)
Definition utf8_length (s : pystr) : Z :=
  foldr Z.add 0 (map (λ c, if c <? 0x80 then 1 else if c <? 0x800 then 2 else if c <? 0x10000 then 3 else 4) s).

(** [s.length], in UTF-16 code units. *)
Definition utf16_length (s : pystr) : Z := foldr Z.add 0 (map (λ c, if c <? 0x10000 then 1 else 2) s).

Definition LANGUAGES : list pystr :=
  map u ["python"; "javascript"; "typescript"; "java"; "go"; "ruby"; "rust"; "bash"]%string.

(** A body with fields of the declared types, which is what the checks below see: [raw_env] are the
    entries the library's record parser has kept, in order. *)
Record RawRequest := {
  raw_language : pystr;
  raw_code : pystr;
  raw_stdin : option pystr;
  raw_timeout : option Z;
  raw_env : option (list (pystr * pystr));
  raw_files : option (list InputFile);
}.

(** The API's [ExecutionRequest]. *)
Record ApiRequest := {
  api_language : pystr;
  api_code : pystr;
  api_stdin : option pystr;
  api_timeout : Z;
  api_env : option (list (pystr * pystr));
  api_files : option (list InputFile);
}.

(** The checks of the schema; all of them must pass. *)
Definition schema_ok (c : ApiConfig) (r : RawRequest) : bool :=
  bool_decide (raw_language r ∈ LANGUAGES) &&
  negb (raw_code r =s []) && (utf8_length (raw_code r) <=? MAX_CODE_SIZE_BYTES c) &&
  match raw_stdin r with Some s => utf8_length s <=? MAX_STDIN_BYTES c | None => true end &&
  match raw_timeout r with Some t => 0 <? t | None => true end &&
  match raw_env r with Some env => all_of (λ kv, utf16_length kv.2 <=? MAX_ENV_VALUE_LENGTH c) env | None => true end &&
  match raw_files r with
  | Some files =>
      (Z.of_nat (length files) <=? MAX_FILES c) &&
      all_of (λ f, negb (file_name f =s []) && bool_decide (is_Some (sanitizeFilename (file_name f))) &&
                   (utf8_length (file_content f) <=? MAX_FILE_SIZE_BYTES c)) files
  | None => true
  end.

(** The transform of [filesSchema]; the checks have found a safe name. *)
Definition sanitize_file (f : InputFile) : InputFile :=
  {| file_name := default [] (sanitizeFilename (file_name f)); file_content := file_content f |}.

(** [validateExecutionRequest]: the normalised request, or nothing when there are issues. *)
Definition validateExecutionRequest (c : ApiConfig) (r : RawRequest) : option ApiRequest :=
  if schema_ok c r then
    Some {| api_language := raw_language r; api_code := raw_code r; api_stdin := raw_stdin r;
            api_timeout := clamp_api_timeout c (raw_timeout r);
            api_env := option_map (λ env, clean_env (MAX_ENV_VARS c) 0 env []) (raw_env r);
            api_files := option_map (map sanitize_file) (raw_files r) |}
  else None.

(** ** The entry *)

(** A member of an object that [JSON.stringify] leaves out when it is undefined. *)
Definition opt_member (k : pystr) (v : option json) : list (pystr * json) :=
  match v with Some v => [(k, v)] | None => [] end.

Definition env_object (env : list (pystr * pystr)) : json := JDict (map (λ kv, (kv.1, JStr kv.2)) env).

Definition files_array (files : list InputFile) : json :=
  JList (map (λ f, JDict [(u "name", JStr (file_name f)); (u "content", JStr (file_content f))]) files).

Definition api_request_json (r : ApiRequest) : json :=
  JDict ([(u "language", JStr (api_language r)); (u "code", JStr (api_code r))] ++
         opt_member (u "stdin") (JStr <$> api_stdin r) ++
         [(u "timeout_seconds", JInt (api_timeout r))] ++
         opt_member (u "env_vars") (env_object <$> api_env r) ++
         opt_member (u "files") (files_array <$> api_files r)).

(** [JobPayload] *)
Definition job_payload (job_id user_id : pystr) (r : ApiRequest) (traceparent now : pystr) : json :=
  JDict [(u "job_id", JStr job_id); (u "user_id", JStr user_id); (u "language", JStr (api_language r));
         (u "request", api_request_json r); (u "traceparent", JStr traceparent); (u "submitted_at", JStr now)].

(** The initial [JobRecord] *)
Definition job_record (job_id user_id : pystr) (r : ApiRequest) (now : pystr) : json :=
  JDict [(u "job_id", JStr job_id); (u "user_id", JStr user_id); (u "language", JStr (api_language r));
         (u "status", JStr STATUS_PENDING); (u "request", api_request_json r); (u "created_at", JStr now);
         (u "updated_at", JStr now); (u "retries", JInt 0)].

(** The request the worker makes of it. *)
Definition worker_view (r : ApiRequest) : ExecutionRequest :=
  {| req_language := api_language r; req_code := api_code r; req_stdin := default [] (api_stdin r);
     req_timeout := api_timeout r; req_env_vars := default [] (api_env r); req_files := default [] (api_files r) |}.

(** ** The entry is decoded to the same job *)

Section Entry.
Context {PR : PyRuntime} {JR : JsonRuntime}.

(** Text that UTF-8 can carry. *)
Record request_text (r : ApiRequest) : Prop := {
  text_language : scalar_str (api_language r);
  text_code : scalar_str (api_code r);
  text_stdin s : api_stdin r = Some s → scalar_str s;
  text_env env : api_env r = Some env → Forall (λ kv, scalar_str kv.1 ∧ scalar_str kv.2) env ∧ NoDup env.*1;
  text_files fs : api_files r = Some fs → Forall (λ f, scalar_str (file_name f) ∧ scalar_str (file_content f)) fs;
}.

Lemma wf_env_object env :
  Forall (λ kv, scalar_str kv.1 ∧ scalar_str kv.2) env → NoDup env.*1 → wf_json (env_object env) = true.
Proof.
  intros He Hn. apply wf_dict; [by rewrite map_map|]. apply Forall_map. eapply Forall_impl; [exact He|].
  intros kv [Hk Hv]. split; [done|by apply wf_str].
Qed.

Lemma wf_files_array fs :
  Forall (λ f, scalar_str (file_name f) ∧ scalar_str (file_content f)) fs → wf_json (files_array fs) = true.
Proof.
  intros H. cbn [files_array wf_json]. apply forallb_forall. intros j (f & <- & Hin)%in_map_iff.
  rewrite Forall_forall in H. destruct (H f ltac:(by apply list_elem_of_In)) as [Hn Hc].
  apply wf_dict; [by_compute|]. repeat apply Forall_cons_2; [..|apply Forall_nil_2]; (split; [apply u_scalar|by apply wf_str]).
Qed.

Lemma wf_request_json r : request_text r → small_int (api_timeout r) → wf_json (api_request_json r) = true.
Proof.
  intros [Hl Hc Hs He Hf] Ht. unfold api_request_json. apply wf_dict.
  - destruct (api_stdin r), (api_env r), (api_files r); by_compute.
  - repeat apply Forall_app_2; repeat apply Forall_cons_2; try apply Forall_nil_2;
      try (split; [apply u_scalar|by apply wf_str || by apply Nat.leb_le]);
      cbn [opt_member]; [destruct (api_stdin r)|destruct (api_env r)|destruct (api_files r)]; try apply Forall_nil_2;
      apply Forall_singleton; (split; [apply u_scalar|]).
    + by apply wf_str, Hs.
    + destruct (He _ eq_refl). by apply wf_env_object.
    + by apply wf_files_array, Hf.
Qed.

Lemma from_dict_api r : api_timeout r ≠ 0 → from_dict (api_request_json r) = Ok (worker_view r).
Proof.
  intros Ht. unfold api_request_json, worker_view.
  apply from_dict_fields; [..|done| | |]; destruct (api_stdin r), (api_env r), (api_files r); by dict_eval.
Qed.

Lemma entry_decodes id fields count job_id user_id r traceparent now :
  request_text r → 0 < api_timeout r < 2 ^ 53 →
  scalar_str job_id → scalar_str user_id → scalar_str traceparent → scalar_str now →
  fields !! u "payload" = Some (js_stringify (job_payload job_id user_id r traceparent now)) →
  ∃ m d, _to_message id fields count = Ok m ∧ msg_id m = id ∧ delivery_count m = count ∧
    msg_job_id m = Ok job_id ∧ as_dict (payload m) = Ok d ∧ get_text (u "user_id") d [] = user_id ∧
    request_of m = Ok (worker_view r).
Proof.
  intros Hr Ht Hj Hu Htp Hn Hf. unfold _to_message. rewrite Hf. change (default ?a (Some ?x)) with x.
  assert (small_int (api_timeout r)) as Hsm.
  { apply (small_int_mono _ (2 ^ 53)); [lia|]. apply small_int_iff. by vm_compute. }
  rewrite loads_stringify.
  2: { apply wf_dict; [by_compute|]. repeat apply Forall_cons_2; [..|apply Forall_nil_2]; (split; [apply u_scalar|]);
       try (by apply wf_str); [by apply wf_str, Hr|by apply wf_request_json]. }
  eexists _, _. split_and!; [done..| |].
  - unfold get_text, get_or. dict_eval. cbn. by case_bool_decide; subst.
  - unfold request_of, job_payload. cbn [payload subscript]. dict_eval. cbn [or_raise mbind res_bind].
    apply from_dict_api. lia.
Qed.
End Entry.

(** ** The worker accepts what the validator lets through *)

(** What the loop keeps of every variable. *)
Definition clean_name (name : pystr) : Prop :=
  ENV_NAME_RE name = true ∧ map ascii_upper name ∉ DISALLOWED_ENV_NAMES.

Lemma obj_put_keys name value obj :
  (obj_put name value obj).*1 = if bool_decide (name ∈ obj.*1) then obj.*1 else obj.*1 ++ [name].
Proof.
  induction obj as [|[k v] obj IH]; cbn [obj_put fmap list_fmap fst]; [done|].
  destruct (decide (k = name)) as [->|Hne].
  - rewrite bool_decide_eq_true_2 by done. cbn. by rewrite bool_decide_eq_true_2 by by left.
  - rewrite bool_decide_eq_false_2 by done. cbn. rewrite IH. repeat case_bool_decide; set_solver.
Qed.

Lemma obj_put_elem name value obj kv : kv ∈ obj_put name value obj → kv ∈ obj ∨ kv = (name, value).
Proof.
  induction obj as [|[k v] obj IH]; cbn [obj_put]; [set_solver|]. case_bool_decide; subst; set_solver.
Qed.

(** The invariant of the loop: distinct clean names, no more than were counted, values of the input. *)
Record cleaned_ok (entries : list (pystr * pystr)) (count : Z) (obj : list (pystr * pystr)) : Prop := {
  cleaned_names : NoDup obj.*1;
  cleaned_count : Z.of_nat (length obj) ≤ count;
  cleaned_from kv : kv ∈ obj → kv ∈ entries ∧ clean_name kv.1;
}.

Lemma obj_assign_ok entries count name value obj :
  cleaned_ok entries count obj → (name, value) ∈ entries → clean_name name →
  cleaned_ok entries (count + 1) (obj_assign name value obj).
Proof.
  intros [Hn Hc Hf] Hin Hname. unfold obj_assign. case_bool_decide; [split; [done|lia|done]|]. split.
  - rewrite obj_put_keys. case_bool_decide as Hk; [done|]. apply NoDup_app. split; [done|].
    split; [set_solver|apply NoDup_singleton].
  - rewrite <- (length_fmap fst), obj_put_keys. case_bool_decide; rewrite ?length_app, length_fmap; cbn; lia.
  - intros kv [Hkv| ->]%obj_put_elem; [by apply Hf|by split].
Qed.

Lemma clean_env_ok all max entries count obj :
  (∀ kv, kv ∈ entries → kv ∈ all) → 0 ≤ count ≤ max → cleaned_ok all count obj →
  cleaned_ok all max (clean_env max count entries obj).
Proof.
  revert count obj. induction entries as [|[name value] entries IH]; intros count obj Hsub Hc Hobj; cbn [clean_env].
  { destruct Hobj. split; [done|lia|done]. }
  assert (∀ kv, kv ∈ entries → kv ∈ all) as Hsub' by set_solver.
  destruct (Z.leb_spec max count); [destruct Hobj; split; [done|lia|done]|].
  destruct (ENV_NAME_RE name) eqn:Ere; cbn [negb]; [|by apply IH].
  destruct (in_set _ _) eqn:Es; [by apply IH|]. apply in_set_false in Es.
  apply IH; [done|lia|]. apply obj_assign_ok; [done| |done]. apply Hsub. by left.
Qed.

Section Agreement.
Context {PR : PyRuntime} {PL : PyRuntimeLaws}.
Set Default Proof Using "Type*".

Lemma name_char_ascii c : name_char c = true → 0 ≤ c < 128 ∧ (c ∉ [0; slash; backslash]) ∧ safe_char c = true.
Proof.
  intros H. assert (0 ≤ c < 128) as Hc
    by (unfold name_char, is_letter, in_range, is_digit in H; repeat rewrite ?orb_true_iff, ?andb_true_iff, ?Z.leb_le, ?Z.eqb_eq in H; lia).
  split; [done|]. split.
  - intros Hin. repeat (apply elem_of_cons in Hin as [->|Hin]; [by vm_compute in H|]). by inversion Hin.
  - unfold safe_char. rewrite isalnum_ascii by done. unfold name_char, is_letter, ascii_isalnum, in_range in *.
    destruct (is_digit c), ((65 <=? c) && (c <=? 90)), ((97 <=? c) && (c <=? 122)), (c =? 46), (c =? 95), (c =? 45); done.
Qed.

(** A sanitised name passes the worker's own check unchanged. *)
Lemma sanitized_safe name b :
  sanitizeFilename name = Some b → _safe_basename b = Some b ∧ scalar_str b.
Proof.
  unfold sanitizeFilename. case_bool_decide; [done|]. cbv zeta.
  generalize (default [] (last (filter (λ p : pystr, p ≠ []) (split_char slash (replace_char backslash slash name))))) as base.
  intros base. destruct (base =s []) eqn:E1; [done|]. destruct (base =s dot) eqn:E2; [done|].
  destruct (base =s dotdot) eqn:E3; [done|]. apply bool_decide_eq_false in E1, E2, E3. cbn [orb].
  destruct (FILE_NAME_RE base) eqn:Ere; cbn [negb]; [|done]. destruct (Z.ltb_spec 255 (Z.of_nat (length base))) as [|Hlen]; [done|].
  intros [= <-]. apply andb_true_iff in Ere as [_ Hall]. rewrite all_of_true in Hall.
  assert (∀ c, c ∈ base → 0 ≤ c < 128 ∧ (c ∉ [0; slash; backslash]) ∧ safe_char c = true) as Hch
    by (intros c Hin; by apply name_char_ascii, Hall).
  assert (∀ c, c ∈ [0; slash; backslash] → c ∉ base) as Hx by (intros c Hc Hin; by apply Hch in Hin as (_ & ? & _)).
  split.
  - unfold _safe_basename. cbv zeta. rewrite bool_decide_eq_false_2 by (apply Hx; set_solver).
    rewrite replace_char_id, basename_id by (apply Hx; set_solver).
    rewrite bool_decide_eq_false_2 by set_solver.
    assert (all_of safe_char base = true) as -> by (apply all_of_true; intros c Hin; by apply Hch).
    cbn [negb]. by rewrite (proj2 (Z.ltb_ge _ _)) by done.
  - apply Forall_forall. intros c Hin. left. apply Hch in Hin as (? & _). lia.
Qed.

Lemma env_name_ascii name : ENV_NAME_RE name = true → is_ascii name ∧ (61 ∉ name) ∧ name ≠ [].
Proof.
  destruct name as [|c name]; [done|]. cbn [ENV_NAME_RE]. intros [Hc Hn]%andb_true_iff.
  assert (∀ x, x ∈ c :: name → is_letter x || is_digit x || (x =? 95) = true) as H.
  { intros x [->|Hx]%elem_of_cons; [|by rewrite all_of_true in Hn; apply Hn].
    destruct (is_letter c), (c =? 95), (is_digit c); done. }
  split_and!; [|intros Hx%H; by vm_compute in Hx|done].
  apply Forall_forall. intros x Hx%H. unfold is_letter, in_range, is_digit in Hx.
  repeat rewrite ?orb_true_iff, ?andb_true_iff, ?Z.leb_le, ?Z.eqb_eq in Hx. lia.
Qed.

(** The worker's list and the API's differ in one name the API does not know. *)
Lemma forbidden_disallowed : _FORBIDDEN_ENV ⊆ DISALLOWED_ENV_NAMES ∪ {[u "TMPDIR"]}.
Proof. by_compute. Qed.

Lemma clean_env_rejected name :
  clean_name name → env_rejected name = bool_decide (map ascii_upper name = u "TMPDIR").
Proof.
  intros [Hre Hd]. destruct (env_name_ascii name Hre) as (Ha & He & Hn). unfold env_rejected.
  rewrite str_upper_ascii by done. rewrite (bool_decide_eq_false_2 (61 ∈ name)), (bool_decide_eq_false_2 (name = [])) by done.
  rewrite !orb_false_r. unfold in_set. apply bool_decide_ext. split; [|intros ->; by_compute].
  intros [?|?%elem_of_singleton]%forbidden_disallowed%elem_of_union; done.
Qed.

Lemma user_vars_clean env :
  Forall (λ kv, clean_name kv.1) env → user_vars env = filter (λ kv, map ascii_upper kv.1 ≠ u "TMPDIR") env.
Proof.
  induction 1 as [|kv env Hkv _ IH]; [done|]. unfold user_vars in *. rewrite !filter_cons, IH.
  rewrite (clean_env_rejected kv.1 Hkv). repeat case_decide; try done; case_bool_decide; done.
Qed.
End Agreement.

(** The environment the validator hands on. *)
Lemma validated_env c raw r env :
  validateExecutionRequest c raw = Some r → api_env r = Some env → 0 ≤ MAX_ENV_VARS c →
  ∃ entries, raw_env raw = Some entries ∧ cleaned_ok entries (MAX_ENV_VARS c) env.
Proof.
  unfold validateExecutionRequest. destruct (schema_ok c raw); [|done]. intros [= <-]. cbn.
  destruct (raw_env raw) as [entries|]; [|done]. intros [= <-] Hm. exists entries. split; [done|].
  apply clean_env_ok; [done|lia|]. split; [constructor|done|]. intros kv Hin. by apply elem_of_nil in Hin.
Qed.

Lemma validated_files {PR : PyRuntime} {PL : PyRuntimeLaws} c raw r fs :
  validateExecutionRequest c raw = Some r → api_files r = Some fs →
  ∃ files, raw_files raw = Some files ∧ fs = map sanitize_file files ∧
    Forall (λ f, _safe_basename (file_name f) = Some (file_name f) ∧ scalar_str (file_name f)) fs.
Proof.
  unfold validateExecutionRequest. destruct (schema_ok c raw) eqn:Es; [|done]. intros [= <-]. cbn.
  unfold schema_ok in Es. destruct (raw_files raw) as [files|]; [|done]. intros [= <-]. exists files.
  split_and!; [done..|]. apply andb_true_iff in Es as [_ [_ Hall]%andb_true_iff]. rewrite all_of_true in Hall.
  apply Forall_map, Forall_forall. intros f Hin. specialize (Hall f Hin).
  apply andb_true_iff in Hall as [[_ Hs]%andb_true_iff _]. apply bool_decide_eq_true in Hs as [b Hb].
  cbn [sanitize_file file_name]. rewrite Hb. by apply (sanitized_safe (file_name f)).
Qed.

Lemma validated_timeout c raw r :
  config_ok c → validateExecutionRequest c raw = Some r → 0 < api_timeout r ≤ MAX_TIMEOUT_SECONDS c.
Proof.
  intros [Hd Hm]. unfold validateExecutionRequest. destruct (schema_ok c raw) eqn:Es; [|done]. intros [= <-]. cbn.
  unfold clamp_api_timeout. destruct (raw_timeout raw) as [t|] eqn:Et; [|lia]. unfold schema_ok in Es. rewrite Et in Es.
  rewrite !andb_true_iff, Z.ltb_lt in Es. lia.
Qed.

Lemma validated_language c raw r : validateExecutionRequest c raw = Some r → api_language r ∈ LANGUAGES.
Proof.
  unfold validateExecutionRequest. destruct (schema_ok c raw) eqn:Es; [|done]. intros [= <-]. cbn.
  unfold schema_ok in Es. rewrite !andb_true_iff, bool_decide_eq_true in Es. tauto.
Qed.

(** C15: the worker's own checks do not contradict the API's.  For a request the validator lets through,
    the worker's registry knows the language, its timeout is positive and within the maximum, every
    input file name is accepted by the worker as it is, the variables are within the limit, and the
    worker passes on every variable except TMPDIR (in any case), which only the worker reserves. *)
Theorem validated_request_accepted {PR : PyRuntime} {PL : PyRuntimeLaws} environ c raw r :
  config_ok c → 0 ≤ MAX_ENV_VARS c → validateExecutionRequest c raw = Some r →
  (∃ reg rt, _build environ = Ok reg ∧ get_runtime reg (api_language r) = Ok rt) ∧
  0 < api_timeout r ≤ MAX_TIMEOUT_SECONDS c ∧
  Forall (λ f, _safe_basename (file_name f) = Some (file_name f)) (req_files (worker_view r)) ∧
  Z.of_nat (length (req_env_vars (worker_view r))) ≤ MAX_ENV_VARS c ∧
  user_vars (req_env_vars (worker_view r)) =
    filter (λ kv, map ascii_upper kv.1 ≠ u "TMPDIR") (req_env_vars (worker_view r)).
Proof.
  intros Hc Hm Hv. split_and!; [|by eapply validated_timeout..| | |].
  - destruct (get_runtime_spec environ (api_language r)) as (reg & Hreg & Hrt). exists reg.
    destruct (get_runtime reg (api_language r)) as [rt|e]; [by exists rt|]. exfalso. destruct Hrt as [_ Hno].
    assert (∀ l, l ∈ LANGUAGES → has_resource_config l = true) as Hall
      by (apply Forall_forall; by_compute).
    by rewrite (Hall _ (validated_language _ _ _ Hv)) in Hno.
  - cbn. destruct (api_files r) as [fs|] eqn:Ef; [|constructor].
    destruct (validated_files _ _ _ _ Hv Ef) as (files & _ & _ & Hfs). eapply Forall_impl; [exact Hfs|]. by intros f [? _].
  - cbn. destruct (api_env r) as [env|] eqn:Ee; [|done]. destruct (validated_env _ _ _ _ Hv Ee Hm) as (entries & _ & Hok). apply Hok.
  - cbn. destruct (api_env r) as [env|] eqn:Ee; [|done]. destruct (validated_env _ _ _ _ Hv Ee Hm) as (entries & _ & Hok).
    apply user_vars_clean, Forall_forall. intros kv Hin. by apply (cleaned_from _ _ _ Hok).
Qed.

(** Bodies whose text UTF-8 can carry. *)
Record raw_text (r : RawRequest) : Prop := {
  raw_text_code : scalar_str (raw_code r);
  raw_text_stdin s : raw_stdin r = Some s → scalar_str s;
  raw_text_env env kv : raw_env r = Some env → kv ∈ env → scalar_str kv.2;
  raw_text_files fs f : raw_files r = Some fs → f ∈ fs → scalar_str (file_content f);
}.

Lemma validated_text {PR : PyRuntime} {PL : PyRuntimeLaws} c raw r :
  0 ≤ MAX_ENV_VARS c → raw_text raw → validateExecutionRequest c raw = Some r → request_text r.
Proof.
  intros Hm [Hc Hs He Hf] Hv. split.
  - pose proof (validated_language _ _ _ Hv) as Hl. revert Hl. generalize (api_language r). apply Forall_forall. by_compute.
  - unfold validateExecutionRequest in Hv. destruct (schema_ok c raw); [|done]. by injection Hv as <-.
  - unfold validateExecutionRequest in Hv. destruct (schema_ok c raw); [|done]. by injection Hv as <-.
  - intros env Henv. destruct (validated_env _ _ _ _ Hv Henv Hm) as (entries & Hraw & [Hn _ Hfrom]). split; [|done].
    apply Forall_forall. intros kv Hin. destruct (Hfrom kv Hin) as [Hin' [Hre _]]. split; [|by eapply He].
    apply env_name_ascii in Hre as [Ha _]. eapply Forall_impl; [exact Ha|]. intros x Hx. cbn in Hx. left. lia.
  - intros fs Hfs. destruct (validated_files _ _ _ _ Hv Hfs) as (files & Hraw & -> & Hall).
    rewrite Forall_forall in Hall |- *. intros f Hin. split; [by apply Hall|].
    apply list_elem_of_fmap in Hin as (f0 & -> & Hin). cbn. by eapply Hf.
Qed.

(** C7: the queue is a faithful channel.  When the API accepts a body with well-formed text, the entry it
    writes is read by the worker as one message of that job and user, whose request has the language,
    code, input, timeout, variables and files the API validated, absent fields filled in. *)
Theorem enqueued_entry_decodes {PR : PyRuntime} {PL : PyRuntimeLaws} {JR : JsonRuntime}
    c raw r id fields count job_id user_id traceparent now :
  config_ok c → 0 ≤ MAX_ENV_VARS c → raw_text raw → validateExecutionRequest c raw = Some r →
  scalar_str job_id → scalar_str user_id → scalar_str traceparent → scalar_str now →
  fields !! u "payload" = Some (js_stringify (job_payload job_id user_id r traceparent now)) →
  ∃ m d, _to_message id fields count = Ok m ∧ msg_id m = id ∧ delivery_count m = count ∧
    msg_job_id m = Ok job_id ∧ as_dict (payload m) = Ok d ∧ get_text (u "user_id") d [] = user_id ∧
    request_of m = Ok (worker_view r).
Proof.
  intros Hc Hm Ht Hv ?????. pose proof (validated_timeout _ _ _ Hc Hv). destruct Hc as [_ Hmax].
  apply (entry_decodes _ _ _ _ _ _ traceparent now); [by eapply validated_text|lia|done..].
Qed.

(** ** A concrete body *)
Module ExampleApi.
#[local] Existing Instances AsciiRuntime.ascii_runtime AsciiRuntime.ascii_runtime_laws.
#[local] Existing Instance PlainJson.plain_json.

(** The defaults of the schema in [api/src/config.ts]. *)
Definition cfg : ApiConfig :=
  {| MAX_CODE_SIZE_BYTES := 256 * 1024; MAX_STDIN_BYTES := 256 * 1024; MAX_FILES := 8;
     MAX_FILE_SIZE_BYTES := 256 * 1024; MAX_ENV_VARS := 32; MAX_ENV_VALUE_LENGTH := 4096;
     DEFAULT_TIMEOUT_SECONDS := 10; MAX_TIMEOUT_SECONDS := 30; SYNC_EXECUTION_TIMEOUT_SECONDS := 30;
     MAX_CONCURRENT_JOBS := 5; MAX_CONCURRENT_JOBS_PREMIUM := 25; RATE_LIMIT_REQUESTS_PER_MINUTE := 60;
     RATE_LIMIT_ANON_PER_MINUTE := 10; RATE_LIMIT_PREMIUM_PER_MINUTE := 600 |}.

Definition body : RawRequest :=
  {| raw_language := u "python"; raw_code := u "print(1)"; raw_stdin := None; raw_timeout := Some 60;
     raw_env := Some [(u "MODE", u "x"); (u "Path", u "/evil"); (u "tmpdir", u "/t"); (u "1x", u "y"); (u "__proto__", u "z")];
     raw_files := Some [{| file_name := u "dir\sub/data.csv/"; file_content := u "1,2" |}] |}.

Definition request : ApiRequest :=
  {| api_language := u "python"; api_code := u "print(1)"; api_stdin := None; api_timeout := 30;
     api_env := Some [(u "MODE", u "x"); (u "tmpdir", u "/t")];
     api_files := Some [{| file_name := u "data.csv"; file_content := u "1,2" |}] |}.

Lemma validated : validateExecutionRequest cfg body = Some request.
Proof. vm_compute. reflexivity. Qed.

Lemma cfg_ok : config_ok cfg.
Proof. unfold config_ok. cbn. lia. Qed.

Lemma body_text : raw_text body.
Proof.
  split; cbn; [apply u_scalar|done|..].
  - intros env kv [= <-] Hin. revert kv Hin. apply Forall_forall. by_compute.
  - intros fs f [= <-] ->%list_elem_of_singleton. apply u_scalar.
Qed.

Lemma validated_request_accepted_witness :
  user_vars (req_env_vars (worker_view request)) = [(u "MODE", u "x")].
Proof.
  destruct (validated_request_accepted ∅ cfg body request cfg_ok ltac:(cbn; lia) validated) as (_ & _ & _ & _ & H).
  exact H.
Defined.

Lemma enqueued_entry_decodes_witness :
  ∃ m d, _to_message (u "1-0") {[ u "payload" := js_stringify (job_payload (u "j") (u "key:1") request (u "00-1-2-01") (u "now")) ]} 1 = Ok m ∧
    msg_id m = u "1-0" ∧ delivery_count m = 1 ∧ msg_job_id m = Ok (u "j") ∧ as_dict (payload m) = Ok d ∧
    get_text (u "user_id") d [] = u "key:1" ∧ request_of m = Ok (worker_view request).
Proof.
  apply (enqueued_entry_decodes cfg body request (u "1-0") _ 1 (u "j") (u "key:1") (u "00-1-2-01") (u "now"));
    [exact cfg_ok|cbn; lia|exact body_text|exact validated|apply u_scalar..|apply lookup_singleton_eq].
Defined.
End ExampleApi.
