(* ===== verification/ApiServer.v ===== *)
(** * The API server ([api/src/services/jobQueue.ts], [resultStore.ts], [quota.ts],
    [middleware/rateLimiter.ts], [routes/execute.ts], [routes/jobs.ts])

    The producer of jobs, the readers of their records and the handlers of the routes, over the same
    Redis as the worker. *)
From S2P Require Import Prelude PyStr Utf8 Errors ApiLimits Json JsonText Effects Constants Types ApiRequest.
From stdpp Require Import options.

(** ** JSON.parse

    A parameter: what it does with text outside the standard is not needed.  It reads back what
    [JSON.stringify] and [json.dumps] print, as long as the integers are exact in a double. *)
Class JsRuntime := js_parse : pystr → option json.

Fixpoint js_exact (j : json) : bool :=
  match j with
  | JInt z => Z.abs z <? 2 ^ 53
  | JFloat _ => false
  | JList l => forallb js_exact l
  | JDict d => forallb (λ kv, js_exact kv.2) d
  | _ => true
  end.

Class JsRuntimeLaws `{!JsRuntime, !JsonRuntime} : Prop := {
  js_parse_dumps j : wf_json j = true → js_exact j = true → js_parse (json_dumps j) = Some j;
  js_parse_stringify j : wf_json j = true → js_exact j = true → js_parse (js_stringify j) = Some j;
}.

(** The decoder of [JsonText.v] is one. *)
Module PlainJs.
Section PlainJs.
Context {JR : JsonRuntime}.
#[export] Instance plain_js : JsRuntime := λ s, match json_loads s with Ok j => Some j | Raise _ => None end.
#[export] Instance plain_js_laws : JsRuntimeLaws.
Proof. split; intros j Hw _; unfold js_parse, plain_js; by rewrite ?loads_dumps, ?loads_stringify. Qed.
End PlainJs.
End PlainJs.

(** ** Principals and replies *)

Inductive UserTier := Anonymous | Authenticated | Premium.

Record Principal := { user_id : pystr; tier : UserTier }.

(** A reply: a problem document (its instance is the path of the request) or a JSON body. *)
Inductive reply :=
| Problem (status : Z) (title detail : pystr) (extra : list (pystr * json))
| Reply (status : Z) (body : json).

Definition reply_status (r : reply) : Z := match r with Problem s _ _ _ | Reply s _ => s end.

(** [err.message] *)
Definition err_message (e : exc) : pystr :=
  match e with
  | RedisError t | ResponseError t | JsError t => t
  | CircuitOpenError name => u "circuit '" ++ name ++ u "' is open"
  | _ => []
  end.

Section Server.
Context {JS : JsRuntime} {JR : JsonRuntime} {E : Type} {HE : Handler E}.
Context (cfg : ApiConfig).

(** ** The circuit breaker *)

Definition BREAKER_THRESHOLD : Z := 5.
Definition BREAKER_COOLDOWN_MS : Z := 5000.

Definition set_breaker (b : Breaker) (a : ApiMem) : ApiMem :=
  {| groupEnsured := groupEnsured a; inFlight := inFlight a; redisBreaker := b |}.

Definition get_breaker : M E Breaker := m ← get_mem; mret (redisBreaker (api m)).

(** [onFailure] reads the clock only when it opens the breaker. *)
Definition note_failure : M E unit :=
  b ← get_breaker;
  if BREAKER_THRESHOLD <=? failures b + 1 then
    now ← call JDateNow; modify_api (set_breaker (onFailure BREAKER_THRESHOLD now b))
  else modify_api (set_breaker (onFailure BREAKER_THRESHOLD 0 b)).

Definition breaker_run {A} (fn : M E A) : M E A :=
  b ← get_breaker;
  _ ← match breaker_state b with
      | Open =>
          now ← call JDateNow;
          let '(ok, b') := breaker_enter BREAKER_COOLDOWN_MS now b in
          if (ok : bool) then modify_api (set_breaker b') else raise (CircuitOpenError (u "redis"))
      | _ => mret tt
      end;
  r ← attempt fn;
  match r with
  | Ok a => b ← get_breaker; _ ← modify_api (set_breaker (onSuccess b)); mret a
  | Raise e => _ ← note_failure; raise e
  end.

(** ** The producer *)

Definition set_group_ensured (a : ApiMem) : ApiMem :=
  {| groupEnsured := true; inFlight := inFlight a; redisBreaker := redisBreaker a |}.

Definition ensureConsumerGroup : M E unit :=
  m ← get_mem;
  if groupEnsured (api m) then mret tt
  else
    _ ← try_except (call (RXgroupCreate JOB_STREAM CONSUMER_GROUP (u "0") true))
          (λ e, Some (if str_contains (u "BUSYGROUP") (err_message e) then mret tt else raise e));
    modify_api set_group_ensured.

Definition with_in_flight (f : gset pystr → gset pystr) (a : ApiMem) : ApiMem :=
  {| groupEnsured := groupEnsured a; inFlight := f (inFlight a); redisBreaker := redisBreaker a |}.

(** The first error among the results of a transaction is thrown. *)
Fixpoint throw_first (results : list (option exc)) : M E unit :=
  match results with
  | [] => mret tt
  | Some e :: _ => raise e
  | None :: rest => throw_first rest
  end.

Definition API_RECORD_TTL : Z := 60 * 60 * 2.

(** The entry and the record, written in one transaction. *)
Definition enqueue_txs (job_id uid : pystr) (request : ApiRequest) (traceparent now : pystr) : list tx :=
  [TxXadd JOB_STREAM [(u "payload", js_stringify (job_payload job_id uid request traceparent now))];
   TxSet (job_record_key job_id) (js_stringify (job_record job_id uid request now)) (SetEx API_RECORD_TTL)].

Definition enqueueJob (job_id uid : pystr) (request : ApiRequest) (traceparent now : pystr) : M E pystr :=
  _ ← modify_api (with_in_flight (λ s, {[job_id]} ∪ s));
  try_finally
    (_ ← breaker_run
           (_ ← ensureConsumerGroup;
            results ← call (RMulti (enqueue_txs job_id uid request traceparent now));
            match results with
            | None => raise (JsError (u "redis transaction aborted"))
            | Some l => throw_first l
            end);
     mret job_id)
    (modify_api (with_in_flight (λ s, s ∖ {[job_id]}))).

Definition getQueueDepth : M E Z := try_except (call (RXlen JOB_STREAM)) (λ _, Some (mret 0)).

(** ** Records *)

(** [!value] *)
Definition js_falsy (j : json) : bool :=
  match j with
  | JNull => true
  | JBool b => negb b
  | JInt z => z =? 0
  | JFloat FNan => true
  | JFloat (FFin m _) => m =? 0
  | JStr s => s =s []
  | _ => false
  end.

(** [value.key], for a value that is not null. *)
Definition js_field (k : pystr) (j : json) : option json := match j with JDict d => dict_get k d | _ => None end.

Definition getJobRecord (job_id : pystr) : M E (option json) :=
  raw ← breaker_run (call (RGet (job_record_key job_id)));
  match raw with
  | None | Some [] => mret None
  | Some text => mret (js_parse text)
  end.

Definition is_terminal (record : json) : bool :=
  match js_field (u "status") record with
  | Some (JStr s) => bool_decide (s ∈ TERMINAL_STATUSES)
  | _ => false
  end.

(** [waitForTerminal], for at most [polls] polls: [None] when they are used up. *)
Fixpoint poll_terminal (job_id : pystr) (deadline poll_ms : Z) (polls : nat) : M E (option (option json)) :=
  match polls with
  | O => mret None
  | S polls' =>
      record ← getJobRecord job_id;
      if match record with Some r => is_terminal r | None => false end then mret (Some record)
      else
        now ← call JDateNow;
        if deadline <=? now then mret (Some record)
        else _ ← call (TSleep (poll_ms * 1000)); poll_terminal job_id deadline poll_ms polls'
  end.

Definition waitForTerminal (job_id : pystr) (timeout_ms poll_ms : Z) (polls : nat) : M E (option (option json)) :=
  now ← call JDateNow; poll_terminal job_id (now + timeout_ms) poll_ms polls.

(** ** Quota and rate limit *)

Definition concurrencyLimitForTier (t : UserTier) : Z :=
  match t with Premium => MAX_CONCURRENT_JOBS_PREMIUM cfg | _ => MAX_CONCURRENT_JOBS cfg end.

Definition slot_ttl_ms : Z := (MAX_TIMEOUT_SECONDS cfg + 10) * 1000.

Definition acquireSlot (uid job_id : pystr) (t : UserTier) : M E bool :=
  try_except
    (now ← call JDateNow;
     granted ← call (REvalAcquire (concurrency_key uid) now slot_ttl_ms (concurrencyLimitForTier t) job_id);
     mret (granted =? 1))
    (λ _, Some (mret true)).

Definition releaseSlot (uid job_id : pystr) : M E unit :=
  try_except (_ ← call (RZrem (concurrency_key uid) job_id); mret tt) (λ _, Some (mret tt)).

Record RateLimitOutcome := { allowed : bool; remaining : Z; retryAfterMs : Z }.

(** [SlidingWindowRateLimiter.check], failing open. *)
Definition rate_check (key : pystr) (limit window : Z) : M E RateLimitOutcome :=
  if limit <=? 0 then mret {| allowed := false; remaining := 0; retryAfterMs := window |}
  else
    try_except
      (now ← call JDateNow;
       member ← call JUlid;
       r ← call (REvalRate key now window limit member);
       mret {| allowed := r.1.1 =? 1; remaining := r.1.2; retryAfterMs := r.2 |})
      (λ _, Some (mret {| allowed := true; remaining := limit; retryAfterMs := 0 |})).

Definition limitForTier (t : UserTier) : Z :=
  match t with
  | Premium => RATE_LIMIT_PREMIUM_PER_MINUTE cfg
  | Authenticated => RATE_LIMIT_REQUESTS_PER_MINUTE cfg
  | Anonymous => RATE_LIMIT_ANON_PER_MINUTE cfg
  end.

Definition WINDOW_MS : Z := 60000.

Definition rate_key (scope id : pystr) : pystr := u "sandbox:ratelimit:" ++ scope ++ u ":" ++ id.

Record RateVerdict := { blocked : bool; v_remaining : Z; v_retryAfterMs : Z; userLimit : Z }.

(** The two checks are started together; the scripts run one after the other. *)
Definition evaluateRateLimit (p : Principal) (ip : pystr) : M E RateVerdict :=
  let limit := limitForTier (tier p) in
  let ip_limit := Z.max limit (RATE_LIMIT_PREMIUM_PER_MINUTE cfg) in
  user ← rate_check (rate_key (u "user") (user_id p)) limit WINDOW_MS;
  ip ← rate_check (rate_key (u "ip") ip) ip_limit WINDOW_MS;
  mret {| blocked := negb (allowed user) || negb (allowed ip);
          v_remaining := Z.min (remaining user) (remaining ip);
          v_retryAfterMs := Z.max (retryAfterMs user) (retryAfterMs ip);
          userLimit := limit |}.

(** ** Routes *)

(** [submit]: the job id, or the reply that refuses the request.  [traceparent] is that of
    [newTraceContext], which is random. *)
Definition submit (p : Principal) (request : ApiRequest) (traceparent : pystr) : M E (pystr + reply) :=
  job_id ← call JUlid;
  granted ← acquireSlot (user_id p) job_id (tier p);
  if (granted : bool) then
    now ← call TNowIso;
    _ ← enqueueJob job_id (user_id p) request traceparent now;
    mret (inl job_id)
  else
    mret (inr (Problem 429 (u "Concurrency Limit")
                 (u "You may run at most " ++ str_of_int (concurrencyLimitForTier (tier p)) ++ u " concurrent jobs.")
                 [(u "code", JStr (u "concurrency-limit"))])).

(** POST /v1/execute/async *)
Definition execute_async (p : Principal) (request : ApiRequest) (traceparent : pystr) : M E reply :=
  r ← submit p request traceparent;
  match r with
  | inr refusal => mret refusal
  | inl job_id =>
      mret (Reply 202 (JDict [(u "job_id", JStr job_id); (u "status", JStr STATUS_PENDING);
                              (u "poll_url", JStr (u "/v1/jobs/" ++ job_id))]))
  end.

Definition fallbackResult (record : json) : json :=
  JDict (opt_member (u "job_id") (js_field (u "job_id") record) ++ opt_member (u "status") (js_field (u "status") record) ++
         [(u "stdout", JStr []); (u "stderr", JStr []); (u "exit_code", JNull); (u "wall_time_ms", JInt 0);
          (u "cpu_time_ms", JInt 0); (u "memory_bytes", JInt 0); (u "oom_killed", JBool false);
          (u "timed_out", JBool (bool_decide (js_field (u "status") record = Some (JStr STATUS_TIMEOUT))));
          (u "truncated", JBool false); (u "files", JList [])]).

Definition sync_window_ms (request : ApiRequest) : Z :=
  Z.min (SYNC_EXECUTION_TIMEOUT_SECONDS cfg) (api_timeout request + 5) * 1000.

Definition POLL_INTERVAL_MS : Z := 100.

(** A record the synchronous route answers with. *)
Definition sync_answer (record : option json) : option json :=
  match record with
  | Some r => if js_falsy r || bool_decide (js_field (u "status") r = Some (JStr STATUS_PENDING))
                 || bool_decide (js_field (u "status") r = Some (JStr STATUS_RUNNING))
              then None else Some r
  | None => None
  end.

(** [record.result ?? fallbackResult(record)] *)
Definition result_or_fallback (record : json) : json :=
  match js_field (u "result") record with
  | None | Some JNull => fallbackResult record
  | Some r => r
  end.

(** POST /v1/execute; [None] when the polls are used up. *)
Definition execute_sync (p : Principal) (request : ApiRequest) (traceparent : pystr) (polls : nat) : M E (option reply) :=
  r ← submit p request traceparent;
  match r with
  | inr refusal => mret (Some refusal)
  | inl job_id =>
      waited ← waitForTerminal job_id (sync_window_ms request) POLL_INTERVAL_MS polls;
      match waited with
      | None => mret None
      | Some record =>
          _ ← releaseSlot (user_id p) job_id;
          mret (Some (match sync_answer record with
                      | None =>
                          Problem 408 (u "Execution Timeout")
                            (u "The execution did not complete within the synchronous window. Use /v1/execute/async and poll /v1/jobs/{id} for long-running jobs.")
                            [(u "code", JStr (u "sync-timeout")); (u "job_id", JStr job_id)]
                      | Some record => Reply 200 (result_or_fallback record)
                      end))
      end
  end.

(** [/^[0-9A-HJKMNP-TV-Z]{26}$/i] *)
Definition ulid_char (c : Z) : bool :=
  let c := ascii_upper c in
  is_digit c || in_range 65 72 c || (c =? 74) || (c =? 75) || (c =? 77) || (c =? 78) || in_range 80 84 c || in_range 86 90 c.

Definition ULID_RE (s : pystr) : bool := (length s =? 26)%nat && all_of ulid_char s.

(** What both routes do first: the record, if it is the caller's. *)
Definition owned_record (p : Principal) (job_id : pystr) : M E (json + reply) :=
  if negb (ULID_RE job_id) then
    mret (inr (Problem 400 (u "Invalid job id") (u "The job id is not a valid ULID.") []))
  else
    record ← getJobRecord job_id;
    match record with
    | None => mret (inr (Problem 404 (u "Not Found") (u "No job with id " ++ job_id ++ u ".") []))
    | Some r =>
        if js_falsy r then mret (inr (Problem 404 (u "Not Found") (u "No job with id " ++ job_id ++ u ".") []))
        else if negb (bool_decide (js_field (u "user_id") r = Some (JStr (user_id p)))) then
          mret (inr (Problem 403 (u "Forbidden") (u "This job belongs to another user.") []))
        else mret (inl r)
    end.

(** GET /v1/jobs/:id *)
Definition get_job (p : Principal) (job_id : pystr) : M E reply :=
  r ← owned_record p job_id;
  match r with
  | inr refusal => mret refusal
  | inl record => mret (Reply 200 record)
  end.

Definition CANCEL_TTL : Z := 120.

(** [{...record, status: 'KILLED', updated_at: now}] *)
Definition killed_record (d : list (pystr * json)) (now : pystr) : list (pystr * json) :=
  dict_set (u "updated_at") (JStr now) (dict_set (u "status") (JStr STATUS_KILLED) d).

Definition cancel_txs (job_id : pystr) (d : list (pystr * json)) (now : pystr) : list tx :=
  [TxSet (cancel_key job_id) (u "1") (SetEx CANCEL_TTL);
   TxSet (job_record_key job_id) (js_stringify (JDict (killed_record d now))) SetKeepTtl].

(** [record.user_id]: the owner check lets only a record through that has a text there. *)
Definition record_user (record : json) : pystr :=
  match js_field (u "user_id") record with Some (JStr uid) => uid | _ => [] end.

(** The rest of DELETE /v1/jobs/:id, with the record that was read.  The results of the transaction
    are not looked at. *)
Definition cancel_record (job_id : pystr) (record : json) : M E reply :=
  if is_terminal record then
    mret (Problem 409 (u "Conflict")
            (u "Job is already " ++ match js_field (u "status") record with Some (JStr s) => s | _ => [] end ++ u ".")
            [(u "code", JStr (u "already-terminal"))])
  else
    now ← call TNowIso;
    _ ← call (RMulti (cancel_txs job_id (match record with JDict d => d | _ => [] end) now));
    _ ← releaseSlot (record_user record) job_id;
    mret (Reply 200 (JDict [(u "job_id", JStr job_id); (u "status", JStr STATUS_KILLED)])).

(** DELETE /v1/jobs/:id *)
Definition delete_job (p : Principal) (job_id : pystr) : M E reply :=
  r ← owned_record p job_id;
  match r with
  | inr refusal => mret refusal
  | inl record => cancel_record job_id record
  end.
End Server.

(** ** The breaker as a combinator *)

Section BreakerRun.
Context {E : Type} {HE : Handler E} (R : st E → st E → Prop) {HR : PreOrder R}.
Context (Hclock : ∀ s r e, handle JDateNow (env s) = (r, e) → R s (St e (mem s) (Ev JDateNow r :: trace s))).
Context (Hapi : ∀ s b, R s (modify_api (set_breaker b) s).2).

Lemma note_failure_evolves : evolves R note_failure.
Proof using HR Hclock Hapi.
  unfold note_failure, get_breaker. evolves_tac; try (by apply Hclock); try (intros s; apply Hapi).
Qed.

(** Either the call is rejected, or it runs once, between reads of the clock and updates of the breaker. *)
Definition through_breaker {A} (fn : M E A) (s : st E) (r : res A) (s' : st E) : Prop :=
  ((∀ a, r ≠ Ok a) ∧ R s s') ∨ ∃ s1, R s s1 ∧ R (fn s1).2 s' ∧ ∀ a, r = Ok a ↔ (fn s1).1 = Ok a.

Lemma breaker_run_spec {A} (fn : M E A) s : wp (breaker_run fn) (through_breaker fn s) s.
Proof using HR Hclock Hapi.
  unfold breaker_run. wp_step. unfold get_breaker. do 3 wp_step. fold (get_breaker (E := E)). wp_step.
  assert (∀ s1, R s s1 → wp (r ← attempt fn; match r with
      | Ok a => b ← get_breaker; _ ← modify_api (set_breaker (onSuccess b)); mret a
      | Raise e => _ ← note_failure; raise e end) (through_breaker fn s) s1) as Hrest.
  { intros s1 H1. do 2 wp_step. unfold wp at 1. destruct (fn s1) as [[a|e] s2] eqn:Ef; cbn [fst snd].
    - unfold get_breaker. do 7 wp_step. right. exists s1. rewrite Ef. split_and!; [done|apply (Hapi s2)|done].
    - wp_step. unfold wp. pose proof (note_failure_evolves s2) as Hn.
      destruct (note_failure s2) as [[]]; cbn in *; right; exists s1; rewrite Ef; by split_and!. }
  destruct (breaker_state (redisBreaker (api (mem s)))); [wp_step; by apply Hrest| |wp_step; by apply Hrest].
  wp_step. call_eq. intros [now|e] e' He; [|left; split; [done|by apply Hclock]].
  pose proof (Hclock s _ _ He) as Hc. destruct (breaker_enter _ _ _) as [[] b'].
  - wp_step. apply Hrest. etransitivity; [exact Hc|apply (Hapi (St _ _ _))].
  - wp_step. by left.
Qed.
End BreakerRun.

(** ** Jobs belong to their users *)

Definition api_read (c : cmd) : bool := match c with JDateNow | RGet _ => true | _ => false end.

Definition is_read (e : event) : Prop := api_read (ev_cmd e) = true.

(** Only reads were added to the trace. *)
Definition only_reads {E} (s s' : st E) : Prop := ∃ new, trace s' = new ++ trace s ∧ Forall is_read new.

#[export] Instance only_reads_preorder {E} : PreOrder (only_reads (E := E)).
Proof. split; [by exists []|]. intros s1 s2 s3 H1 H2. exact (emits_seq _ _ _ _ H1 H2). Qed.

Section Owner.
Context {JS : JsRuntime} {JR : JsonRuntime} {E : Type} {HE : Handler E}.

(** Among the commands [new], the record of the job was read as the object [d]. *)
Definition record_read (job_id : pystr) (d : list (pystr * json)) (new : list event) : Prop :=
  ∃ text, Ev (RGet (job_record_key job_id)) (Ok (Some text)) ∈ new ∧ js_parse text = Some (JDict d).

Definition owned_by (p : Principal) (d : list (pystr * json)) : Prop :=
  dict_get (u "user_id") d = Some (JStr (user_id p)).

Lemma only_reads_clock (s : st E) r e :
  handle JDateNow (env s) = (r, e) → only_reads s (St e (mem s) (Ev JDateNow r :: trace s)).
Proof. intros _. exists [Ev JDateNow r]. split; [done|]. by apply Forall_singleton. Qed.

Lemma only_reads_api (s : st E) b : only_reads s (modify_api (set_breaker b) s).2.
Proof. by exists []. Qed.

Lemma getJobRecord_reads job_id s :
  wp (getJobRecord job_id) (λ r s', ∃ new, trace s' = new ++ trace s ∧ Forall is_read new ∧
    ∀ d, r = Ok (Some (JDict d)) → record_read job_id d new) s.
Proof.
  unfold getJobRecord. wp_step. eapply wp_mono; [|apply (breaker_run_spec only_reads only_reads_clock only_reads_api)].
  intros r s' [[Hr (new & Ht & Hn)]|(s1 & (n1 & H1 & Hn1) & H2 & Hr)].
  { destruct r as [a|e]; [by destruct (Hr a)|]. by exists new. }
  unfold call in H2, Hr. destruct (handle _ (env s1)) as [r1 e1]. cbn [fst snd] in *. destruct H2 as (n2 & H2 & Hn2).
  assert (trace s' = (n2 ++ Ev (RGet (job_record_key job_id)) r1 :: n1) ++ trace s) as Ht.
  { rewrite H2. cbn [trace]. rewrite H1. by rewrite <- app_assoc. }
  assert (Forall is_read (n2 ++ Ev (RGet (job_record_key job_id)) r1 :: n1)) as Hall by (apply Forall_app; split; [done|by constructor]).
  destruct r as [raw|e]; [|by eexists]. pose proof (proj1 (Hr raw) eq_refl) as ->.
  destruct raw as [[|c text]|]; wp_step; eexists; (split_and!; [exact Ht|exact Hall|]); try done.
  intros d Hd. exists (c :: text). split; [|by injection Hd]. apply elem_of_app. right. by left.
Qed.

Lemma owned_record_reads p job_id s :
  wp (owned_record p job_id) (λ r s', ∃ new, trace s' = new ++ trace s ∧ Forall is_read new ∧
    (∀ reply, r = Ok (inr reply) → reply_status reply ∈ [400; 403; 404]) ∧
    ∀ record, r = Ok (inl record) → ULID_RE job_id = true ∧ ∃ d, record = JDict d ∧ record_read job_id d new ∧ owned_by p d) s.
Proof.
  unfold owned_record. destruct (ULID_RE job_id) eqn:Eu; cbn [negb].
  2: { wp_step. exists []. split_and!; [done..|by intros reply [= <-]; set_solver|done]. }
  wp_step. eapply wp_mono; [|apply getJobRecord_reads]. intros r s' (new & Ht & Hn & Hr).
  destruct r as [[j|]|e]; [|wp_step; exists new; split_and!; [done..|by intros reply [= <-]; set_solver|done]|by exists new].
  destruct (js_falsy j); [wp_step; exists new; split_and!; [done..|by intros reply [= <-]; set_solver|done]|].
  case_bool_decide as Hown; cbn [negb]; wp_step; exists new; (split_and!; [done..| |]); try done.
  - intros record [= <-]. split; [done|]. destruct j as [| | | | | |d]; try done. exists d. split_and!; [done|by apply Hr|done].
  - intros reply [= <-]. set_solver.
Qed.

(** The commands of a cancellation. *)
Definition cancel_write (p : Principal) (job_id : pystr) (d : list (pystr * json)) (e : event) : Prop :=
  ev_cmd e = TNowIso ∨ (∃ now, ev_cmd e = RMulti (cancel_txs job_id d now)) ∨
  ev_cmd e = RZrem (concurrency_key (user_id p)) job_id.

Lemma cancel_record_writes p job_id d :
  owned_by p d → is_terminal (JDict d) = false →
  emits (cancel_write p job_id d) (cancel_record (HE := HE) job_id (JDict d)).
Proof.
  intros Ho Et. unfold cancel_record, record_user. cbn [js_field]. rewrite Et, Ho. unfold releaseSlot. emits_tac; unfold cancel_write; cbn; eauto.
Qed.

(** C21: jobs are scoped to their owners.  A caller gets a job's record only if the record it was read
    from names the caller as its user; and a cancellation writes nothing at all unless the record
    names the caller and is not terminal, and then only that job's cancellation key and record (as
    one transaction) and the caller's own slot of that job. *)
Theorem job_routes_owner_scoped p job_id s :
  returns (get_job p job_id) (λ r s', ∃ new, trace s' = new ++ trace s ∧ Forall is_read new ∧
    (reply_status r = 200 → ∃ d, r = Reply 200 (JDict d) ∧ record_read job_id d new ∧ owned_by p d)) s ∧
  wp (delete_job p job_id) (λ _ s', ∃ writes reads, trace s' = writes ++ reads ++ trace s ∧ Forall is_read reads ∧
    (writes ≠ [] → ∃ d, record_read job_id d reads ∧ owned_by p d ∧ is_terminal (JDict d) = false ∧
      Forall (cancel_write p job_id d) writes)) s.
Proof.
  split.
  - unfold get_job, returns. wp_step. eapply wp_mono; [|apply owned_record_reads].
    intros [[record|reply]|e] s' (new & Ht & Hn & Hrep & Hrec); [wp_step|wp_step|done]; intros a [= <-]; exists new; (split_and!; [done..|]).
    + intros _. destruct (Hrec _ eq_refl) as (_ & d & -> & Hd & Ho). by exists d.
    + intros H200. specialize (Hrep _ eq_refl). rewrite H200 in Hrep. set_solver.
  - unfold delete_job. wp_step. eapply wp_mono; [|apply owned_record_reads].
    intros [[record|reply]|e] s' (new & Ht & Hn & Hrep & Hrec); [|wp_step; by exists [], new|by exists [], new].
    destruct (Hrec _ eq_refl) as (_ & d & -> & Hd & Ho). destruct (is_terminal (JDict d)) eqn:Et.
    { unfold cancel_record. rewrite Et. wp_step. by exists [], new. }
    destruct (cancel_record_writes p job_id d Ho Et s') as (writes & Hw & Hall). exists writes, new.
    split_and!; [by rewrite Hw, Ht|done|]. intros _. by exists d.
Qed.
End Owner.

(** ** Enqueueing *)

Definition same_in_flight {E} (s s' : st E) : Prop := inFlight (api (mem s')) = inFlight (api (mem s)).

#[export] Instance same_in_flight_preorder {E} : PreOrder (same_in_flight (E := E)).
Proof. split; [done|]. unfold same_in_flight. intros s1 s2 s3 H1 H2. congruence. Qed.

(** The transaction an event is the execution of, when none of its commands had an error. *)
Definition no_error (r : option exc) : bool := match r with None => true | Some _ => false end.

Definition commits (e : event) : option (list tx) :=
  match e with
  | Ev c r =>
      match c return res (ans c) → option (list tx) with
      | RMulti txs => λ r, match r with
                           | Ok (Some results) => if forallb no_error results then Some txs else None
                           | _ => None
                           end
      | _ => λ _, None
      end r
  end.

(** The transactions among the commands of a trace. *)
Definition is_multi (e : event) : bool := match ev_cmd e with RMulti _ => true | _ => false end.

Definition multis (tr : list event) : list event := filter (λ e, is_multi e = true) tr.

(** One transaction was sent, [txs], and Redis confirmed its commands or did not. *)
Definition sent (txs : list tx) (confirmed : bool) (tr : list event) : Prop :=
  ∃ e, multis tr = [e] ∧ ev_cmd e = RMulti txs ∧ commits e = if confirmed then Some txs else None.

Lemma multis_app tr tr' : multis (tr ++ tr') = multis tr ++ multis tr'.
Proof. apply filter_app. Qed.

Lemma multis_none tr : Forall (λ e, is_multi e = false) tr → multis tr = [].
Proof. unfold multis. induction 1; [done|]. by rewrite filter_cons_False by congruence. Qed.

(** Commands other than transactions were added to the trace. *)
Definition no_multi {E} (s s' : st E) : Prop := ∃ new, trace s' = new ++ trace s ∧ multis new = [].

#[export] Instance no_multi_preorder {E} : PreOrder (no_multi (E := E)).
Proof.
  split; [by exists []|]. intros s1 s2 s3 (n1 & H1 & Hm1) (n2 & H2 & Hm2). exists (n2 ++ n1).
  by rewrite H2, H1, app_assoc, multis_app, Hm1, Hm2.
Qed.

Section Enqueue.
Context {JS : JsRuntime} {JR : JsonRuntime} {E : Type} {HE : Handler E} (cfg : ApiConfig).

Lemma throw_first_ok l (s : st E) : wp (throw_first l) (λ r s', s' = s ∧ is_ok r = forallb no_error l) s.
Proof. induction l as [|[e|] l IH]; cbn [throw_first]; [by wp_step..|exact IH]. Qed.

Lemma ensureConsumerGroup_no_multi : emits (λ e : event, is_multi e = false) (ensureConsumerGroup (E := E)).
Proof. unfold ensureConsumerGroup. by emits_tac. Qed.

(** The body of [enqueueJob]: it returns when the transaction was executed without an error. *)
Lemma enqueue_body_sends txs (s : st E) :
  wp (_ ← ensureConsumerGroup; results ← call (RMulti txs);
      match results with None => raise (JsError (u "redis transaction aborted")) | Some l => throw_first l end)
    (λ r s', ∃ new, trace s' = new ++ trace s ∧
       if is_ok r then sent txs true new else multis new = [] ∨ sent txs false new) s.
Proof.
  wp_step. destruct (ensureConsumerGroup_no_multi s) as (n1 & H1 & Hn1%multis_none). unfold wp at 1.
  destruct (ensureConsumerGroup s) as [[[]|x] s1]; cbn [fst snd] in *; [|exists n1; split; [done|by left]].
  wp_step. wp_step. assert (∀ e' ok, ev_cmd e' = RMulti txs → commits e' = (if (ok : bool) then Some txs else None) →
    sent txs ok (e' :: n1)) as Hsent.
  { intros e' ok He Hc. exists e'. split_and!; [|done..]. unfold multis in *. rewrite filter_cons_True, Hn1; [done|].
    unfold is_multi. by rewrite He. }
  rewrite H1, app_comm_cons. destruct r as [[l|]|x].
  - eapply wp_mono; [|apply throw_first_ok]. intros r s2 [-> Hr]. eexists. split; [reflexivity|]. rewrite Hr.
    destruct (forallb no_error l) eqn:El; [|right]; apply Hsent; try done; cbn; by rewrite El.
  - wp_step. eexists. split; [reflexivity|]. right. by apply Hsent.
  - eexists. split; [reflexivity|]. right. by apply Hsent.
Qed.

(** When [enqueueJob] returns, its transaction was executed; when it throws, none was sent or the one
    that was sent was not confirmed. *)
Lemma enqueueJob_sends job_id uid request tp now s :
  let txs := enqueue_txs job_id uid request tp now in
  wp (enqueueJob job_id uid request tp now) (λ r s', ∃ new, trace s' = new ++ trace s ∧
    match r with
    | Ok id => id = job_id ∧ sent txs true new
    | Raise _ => multis new = [] ∨ sent txs false new
    end) s.
Proof.
  intros txs. unfold enqueueJob. do 2 wp_step. apply wp_finally. wp_step.
  eapply wp_mono; [|apply (breaker_run_spec no_multi)];
    [|intros s0 r e _; by exists [Ev JDateNow r]|intros s0 b; by exists []].
  intros r s' Hr.
  assert (∃ new, trace s' = new ++ trace s ∧ if is_ok r then sent txs true new else multis new = [] ∨ sent txs false new)
    as (new & Ht & Hs).
  { destruct Hr as [[Hr (new & Ht & Hn)]|(s1 & (n1 & H1 & Hn1) & (n3 & H3 & Hn3) & Hok)].
    { exists new. split; [done|]. destruct r as [a|]; [by destruct (Hr a)|by left]. }
    fold txs in H3, Hok. destruct (enqueue_body_sends txs s1) as (n2 & H2 & Hn2). rewrite H2, H1 in H3. exists (n3 ++ n2 ++ n1).
    split; [by rewrite H3, <- !app_assoc|].
    match type of Hok with ∀ a, _ = Ok a ↔ ?x = Ok a => assert (is_ok r = is_ok x) as -> end.
    { destruct r as [a|e]; [by rewrite (proj1 (Hok a) eq_refl)|].
      match type of Hok with ∀ a, _ ↔ ?x = _ => destruct x as [a|] end; [by destruct (proj2 (Hok a) eq_refl)|done]. }
    unfold sent in *. rewrite !multis_app, Hn1, Hn3, app_nil_r. done. }
  destruct r as [[]|x]; repeat wp_step; exists new; (split; [done|]); try done.
Qed.

Lemma throw_first_evolves (R : st E → st E → Prop) `{!PreOrder R} l : evolves R (throw_first l).
Proof. induction l as [|[x|] l IH]; cbn [throw_first]; evolves_tac; exact IH. Qed.

Lemma enqueue_body_in_flight txs :
  evolves (same_in_flight (E := E))
    (_ ← ensureConsumerGroup; results ← call (RMulti txs);
     match results with None => raise (JsError (u "redis transaction aborted")) | Some l => throw_first l end).
Proof.
  unfold ensureConsumerGroup. evolves_tac; try (by apply throw_first_evolves, _); by intros.
Qed.

(** Whatever happens, the job is no longer in flight afterwards. *)
Lemma enqueueJob_in_flight job_id uid request tp now s :
  wp (enqueueJob job_id uid request tp now) (λ _ s',
    inFlight (api (mem s')) = inFlight (api (mem s)) ∖ {[job_id]}) s.
Proof.
  unfold enqueueJob. do 3 wp_step. set (s0 := St _ _ _).
  assert (∀ s', same_in_flight s0 s' →
    inFlight (with_in_flight (λ s : gset pystr, s ∖ {[job_id]}) (api (mem s'))) = inFlight (api (mem s)) ∖ {[job_id]}) as Hend.
  { intros s' Hs'. cbn. rewrite Hs'. cbn. apply leibniz_equiv. set_solver. }
  wp_step. eapply wp_mono; [|apply (breaker_run_spec same_in_flight); [by intros s1 r e _|done]].
  intros r s' Hr. assert (same_in_flight s0 s') as Hs.
  { destruct Hr as [[_ H]|(s1 & H1 & H2 & _)]; [done|]. etransitivity; [exact H1|]. etransitivity; [|exact H2].
    apply enqueue_body_in_flight. }
  destruct r as [[]|x]; repeat wp_step; by apply Hend.
Qed.

(** C22: an accepted job is in the queue.  When the asynchronous route answers 202, it sent one
    transaction, which writes the stream entry and the PENDING record of the job id in the answer, and
    Redis confirmed every command of it; when it answers anything else, it sent no transaction; and
    when it throws, which becomes a 5xx answer, it sent none, or one that was not confirmed: it was
    aborted, a command of it had an error, or there was no answer to it. *)
Theorem accepted_is_enqueued p request tp s :
  wp (execute_async cfg p request tp) (λ r s', ∃ new, trace s' = new ++ trace s ∧
    match r with
    | Ok answer =>
        if reply_status answer =? 202
        then ∃ job_id now, sent (enqueue_txs job_id (user_id p) request tp now) true new ∧
               answer = Reply 202 (JDict [(u "job_id", JStr job_id); (u "status", JStr STATUS_PENDING);
                                          (u "poll_url", JStr (u "/v1/jobs/" ++ job_id))])
        else multis new = []
    | Raise _ => multis new = [] ∨ ∃ job_id now, sent (enqueue_txs job_id (user_id p) request tp now) false new
    end) s.
Proof.
  unfold execute_async, submit. wp_step. wp_step. wp_step.
  destruct r as [job_id|x]; [|exists [Ev JUlid (Raise x)]; split; [done|by left]]. wp_step.
  assert (emits (λ e, is_multi e = false) (acquireSlot cfg (user_id p) job_id (tier p))) as Ha
    by (unfold acquireSlot; by emits_tac).
  set (s1 := St _ _ _). destruct (Ha s1) as (n1 & H1 & Hn1%multis_none). unfold wp at 1.
  set (j := Ev JUlid (Ok job_id)) in *. change (trace s1) with ([j] ++ trace s) in H1. rewrite app_assoc in H1.
  assert (multis (n1 ++ [j]) = []) as Hn by by rewrite multis_app, Hn1.
  destruct (acquireSlot _ _ _ _ s1) as [[[]|x] s2]; cbn [fst snd] in *;
    [| |exists (n1 ++ [j]); split; [done|by left]].
  - wp_step. wp_step. set (s3 := St _ _ _). destruct r as [now|x]; [|exists (Ev TNowIso (Raise x) :: n1 ++ [j]); cbn; rewrite H1; split; [done|by left]].
    wp_step. eapply wp_mono; [|apply enqueueJob_sends]. intros r s4 (n2 & H2 & Hr).
    assert (trace s4 = (n2 ++ Ev TNowIso (Ok now) :: n1 ++ [j]) ++ trace s) as Ht
      by (rewrite H2; cbn [trace s3]; rewrite H1, <- (app_assoc n2); done).
    assert (multis (n2 ++ Ev TNowIso (Ok now) :: n1 ++ [j]) = multis n2) as Hm.
    { rewrite multis_app. change (multis (?x :: n1 ++ [j])) with (multis (n1 ++ [j])). by rewrite Hn, app_nil_r. }
    destruct r as [id|x].
    + destruct Hr as [-> Hs]. do 2 wp_step. eexists. split; [exact Ht|]. cbn [reply_status Z.eqb Pos.eqb].
      exists job_id, now. split; [|done]. unfold sent in *. by rewrite Hm.
    + eexists. split; [exact Ht|]. unfold sent in *. rewrite Hm. destruct Hr as [Hr|Hr]; [by left|right]. by exists job_id, now.
  - do 2 wp_step. exists (n1 ++ [j]). by split.
Qed.
End Enqueue.

(** ** The long poll ends *)

(** The clock in milliseconds: [Date.now()] reads it, a sleep lasts at least as long as asked, and it
    does not go back. *)
Class ApiClock (E : Type) `{HE : Handler E} := {
  clock : E → Z;
  clock_now e v e' : handle JDateNow e = (Ok v, e') → clock e ≤ v ≤ clock e';
  clock_sleep usec e a e' : handle (TSleep usec) e = (Ok a, e') → clock e + usec / 1000 ≤ clock e';
  clock_mono c e r e' : handle c e = (r, e') → clock e ≤ clock e';
}.

Section LongPoll.
Context {JS : JsRuntime} {E : Type} {HE : Handler E} {CK : ApiClock E}.

Definition no_earlier (s s' : st E) : Prop := clock (env s) ≤ clock (env s').

#[export] Instance no_earlier_preorder : PreOrder no_earlier.
Proof. split; [intros s; unfold no_earlier; lia|]. unfold no_earlier. intros s1 s2 s3. lia. Qed.

Lemma no_earlier_call c (s : st E) r e tr : handle c (env s) = (r, e) → no_earlier s (St e (mem s) tr).
Proof. apply clock_mono. Qed.

Lemma getJobRecord_no_earlier job_id : evolves no_earlier (getJobRecord job_id).
Proof.
  apply evolves_bind; [apply _| |intros [[|]|]; apply evolves_ret, _]. intros s.
  pose proof (breaker_run_spec no_earlier (λ s r e, no_earlier_call JDateNow s r e _)
    (λ s b, Z.le_refl _) (call (RGet (job_record_key job_id))) s) as H. unfold wp in H.
  destruct H as [[_ H]|(s1 & H1 & H2 & _)]; [done|]. etransitivity; [exact H1|]. etransitivity; [|exact H2].
  unfold call. destruct (handle _ (env s1)) eqn:Eh. by eapply no_earlier_call.
Qed.

Lemma poll_terminal_ends job_id deadline poll_ms polls s :
  0 < poll_ms → (0 < polls)%nat → deadline - clock (env s) ≤ (Z.of_nat polls - 1) * poll_ms →
  returns (poll_terminal job_id deadline poll_ms polls) (λ r s', ∃ record, r = Some record ∧
    (match record with Some j => is_terminal j | None => false end = true ∨ deadline ≤ clock (env s'))) s.
Proof.
  intros Hp. revert s. induction polls as [|polls IH]; intros s H0 Hd; [lia|]. cbn [poll_terminal]. ret_step.
  eapply (returns_mono _ (λ _ s1, no_earlier s s1)); [|intros ? _; apply getJobRecord_no_earlier].
  intros record s1 H1. unfold no_earlier in H1. destruct (match record with Some r => is_terminal r | None => false end) eqn:Et.
  { ret_step. exists record. by split; [|left]. }
  ret_step. call_eq. intros now e He. apply clock_now in He. destruct (Z.leb_spec deadline now) as [Hle|Hlt].
  { ret_step. exists record. split; [done|]. right. cbn. lia. }
  ret_step. call_eq. intros [] e2 He2. apply clock_sleep in He2. cbn [env] in He2. rewrite Z.div_mul in He2 by lia.
  assert (0 < polls)%nat by (destruct polls; [cbn in Hd; lia|lia]). apply IH; [done|]. cbn [env]. nia.
Qed.
End LongPoll.

(** C33: the long poll of the synchronous route ends.  With two polls more than the window has intervals, waiting
    for a job never runs out of polls: when it returns, the record is terminal or the whole window has
    passed; nothing but an error of Redis can end it earlier. *)
Theorem waitForTerminal_ends {JS : JsRuntime} {E} {HE : Handler E} {CK : ApiClock E} job_id timeout_ms poll_ms polls s :
  0 < poll_ms → 0 ≤ timeout_ms → timeout_ms / poll_ms + 2 ≤ Z.of_nat polls →
  returns (waitForTerminal job_id timeout_ms poll_ms polls) (λ r s', ∃ record, r = Some record ∧
    (match record with Some j => is_terminal j | None => false end = true ∨
     clock (env s) + timeout_ms ≤ clock (env s'))) s.
Proof.
  intros Hp Ht Hn. unfold waitForTerminal. ret_step. call_eq. intros now e He. apply clock_now in He.
  eapply returns_mono; [|apply poll_terminal_ends; [done| |]].
  - intros r s' (record & -> & H). exists record. split; [done|]. destruct H; [by left|right; lia].
  - pose proof (Z.div_pos timeout_ms poll_ms Ht Hp). lia.
  - cbn [env]. pose proof (Z.mul_succ_div_gt timeout_ms poll_ms Hp). nia.
Qed.

(** ** Concrete runs *)
Module ExampleServer.
#[local] Existing Instances PlainJson.plain_json PlainJs.plain_js.

(** A Redis that answers with a job that stays RUNNING, and a clock that only sleeping moves. *)
Definition running : pystr :=
  js_stringify (JDict [(u "job_id", JStr (u "j")); (u "user_id", JStr (u "me")); (u "status", JStr STATUS_RUNNING)]).

#[local] Instance world : Handler Z := λ c t,
  match c return res (ans c) * Z with
  | RGet _ => (Ok (Some running), t)
  | JDateNow => (Ok t, t)
  | TSleep usec => (Ok tt, t + Z.abs usec / 1000)
  | c => (Ok (Scripted.default_ans c), t)
  end.

#[local] Instance world_clock : ApiClock Z.
Proof.
  refine {| clock t := t |}.
  - intros e v e' H. injection H as <- <-. lia.
  - intros usec e a e' H. injection H as _ <-. apply Z.add_le_mono_l, Z.div_le_mono; lia.
  - intros c e r e' H. destruct c; injection H as _ <-; try lia. pose proof (Z.div_pos (Z.abs usec) 1000). lia.
Defined.

Definition start : st Z := St 1000 mem0 [].

Lemma waited : (waitForTerminal (u "j") 500 100 7 start).1 = Ok (Some (js_parse running)).
Proof. vm_compute. reflexivity. Qed.

Lemma waitForTerminal_ends_witness :
  (waitForTerminal (u "j") 500 100 7 start).1 = Ok (Some (js_parse running)) ∧
  ∃ record, Some (js_parse running) = Some record ∧
    (match record with Some j => is_terminal j | None => false end = true ∨
     1000 + 500 ≤ clock (env (waitForTerminal (u "j") 500 100 7 start).2)).
Proof.
  split; [exact waited|].
  exact (waitForTerminal_ends (u "j") 500 100 7 start ltac:(lia) ltac:(lia) ltac:(by vm_compute) _ waited).
Defined.

Definition me : Principal := {| user_id := u "me"; tier := Authenticated |}.

Definition released (e : event) : bool := match ev_cmd e with RZrem _ _ => true | _ => false end.

(** the quota slot of a job that is still running can be given back.  When the window of the synchronous
    route has passed, the route answers 408 and releases the slot although the job goes on. *)
Theorem sync_timeout_releases_running_slot :
  let out := execute_sync ExampleApi.cfg me ExampleApi.request (u "00-1-2-01") 400 start in
  match out.1 with Ok (Some r) => reply_status r | _ => 0 end = 408 ∧ existsb released (trace out.2) = true.
Proof. vm_compute. split; reflexivity. Qed.
End ExampleServer.
