(* ===== verification/Cancellation.v ===== *)
(** * Cancelling a job: the API and the worker together

    DELETE /v1/jobs/:id ([ApiServer.v]) sets the cancellation key that [_process] ([Worker.v]) looks at.
    The two meet in Redis, seen here through that key only ([CancelStore]). *)
From S2P Require Import Prelude PyStr Utf8 Errors ApiLimits Json JsonText Effects Constants Types Config Capture Executor Run Store Queue Worker Records ApiRequest ApiServer.
From stdpp Require Import options.

(** While the key lives: a transaction that sets it and has no error sets it, no command removes it, and
    [EXISTS] sees it. *)
Class CancelStore (E : Type) `{HE : Handler E} (job_id : pystr) := {
  cancel_set : E → Prop;
  multi_sets txs r v ttl e e' :
    handle (RMulti txs) e = (r, e') → commits (Ev (RMulti txs) r) = Some txs →
    TxSet (cancel_key job_id) v ttl ∈ txs → cancel_set e';
  cancel_stays c e r e' : handle c e = (r, e') → cancel_set e → cancel_set e';
  exists_sees e n e' : handle (RExists (cancel_key job_id)) e = (Ok n, e') → cancel_set e → n ≠ 0;
}.

(** Redis confirmed a transaction among these commands. *)
Definition committed (tr : list event) : Prop := Exists (λ e, is_Some (commits e)) tr.

(** What anybody does to Redis in between. *)
Definition env_step {E} `{HE : Handler E} (e e' : E) : Prop := ∃ c r, handle c e = (r, e').

Section Cancel.
Context {JS : JsRuntime} {PR : PyRuntime} {JR : JsonRuntime} {E : Type} {HE : Handler E}.
Context {X : SandboxExec E} (job_id : pystr) {CS : CancelStore E job_id}.
Context (cfg : WorkerConfig) (minio : bool).

Lemma cancel_set_later e e' : cancel_set e → rtc env_step e e' → cancel_set e'.
Proof. intros H. induction 1 as [|e1 e2 e3 (c & r & Hs) _ IH]; [done|]. apply IH. by apply (cancel_stays c e1 r). Qed.

(** A cancellation whose transaction had no error leaves the key set. *)
Lemma cancel_record_sets d s :
  is_terminal (JDict d) = false →
  wp (cancel_record job_id (JDict d)) (λ r s', ∀ reply, r = Ok reply →
    ∃ new, trace s' = new ++ trace s ∧ (committed new → cancel_set (env s'))) s.
Proof.
  intros Et. unfold cancel_record. rewrite Et. wp_step. wp_step. destruct r as [now|x]; [|done].
  wp_step. call_eq. intros answer e1 He. set (slot := RZrem (concurrency_key (record_user (JDict d))) job_id).
  assert (∀ e2 z, handle slot e1 = (z, e2) →
    committed [Ev slot z; Ev (RMulti (cancel_txs job_id d now)) answer; Ev TNowIso (Ok now)] → cancel_set e2) as Hset.
  { intros e2 z Hz Hc. unfold committed in Hc. rewrite !Exists_cons, Exists_nil in Hc.
    destruct Hc as [[? Hc]|[[txs Hc]|[[? Hc]|[]]]]; try done.
    apply (cancel_stays _ _ _ _ Hz). apply (multi_sets (cancel_txs job_id d now) answer (u "1") (SetEx CANCEL_TTL) _ _ He); [|by left].
    destruct answer as [[results|]|]; cbn in Hc |- *; [|done..]. by destruct (forallb _ _). }
  destruct answer as [answer|x]; [|done]. unfold releaseSlot. wp_step. wp_step. wp_step. call_eq. intros z e2 Hz.
  specialize (Hset _ _ Hz). destruct z as [z|x]; repeat wp_step; intros reply _; eexists [_; _; _]; (split; [done|]); exact Hset.
Qed.

Lemma delete_sets p s :
  returns (delete_job p job_id) (λ r s', reply_status r = 200 → job_id ≠ [] ∧
    ∃ new, trace s' = new ++ trace s ∧ (committed new → cancel_set (env s'))) s.
Proof.
  unfold delete_job. ret_step. unfold returns at 1. eapply wp_mono; [|apply owned_record_reads].
  intros r s1 (reads & Ht & Hr & Hrep & Hrec) o ->. destruct o as [record|reply].
  2: { ret_step. intros H200. specialize (Hrep _ eq_refl). rewrite H200 in Hrep. set_solver. }
  destruct (Hrec _ eq_refl) as (Hulid & d & -> & _ & _). destruct (is_terminal (JDict d)) eqn:Et.
  { unfold cancel_record. rewrite Et. by ret_step. }
  eapply wp_mono; [|by apply (cancel_record_sets d s1)]. intros r s2 H reply -> _. split; [by intros ->|].
  destruct (H reply eq_refl) as (new & Hn & Hset). exists (new ++ reads). rewrite Hn, Ht, app_assoc. split; [done|].
  intros [Hc|Hc]%Exists_app; [by apply Hset|exfalso].
  apply Exists_exists in Hc as (e & Hin & x & He). rewrite Forall_forall in Hr. specialize (Hr e Hin).
  destruct e as [c a]. by destruct c.
Qed.

(** The result was stored under the job's key. *)
Definition result_stored (r : ExecutionResult) (new : list event) : Prop :=
  ∃ a, Ev (RSet (result_key job_id) (result_text r) (SetEx RESULT_TTL_SECONDS)) (Ok a) ∈ new.

(** How a cancelled job is reported.  The retry limit is looked at first, then whether the request can
    be read, and only then the cancellation key. *)
Definition cancelled_result (m : QueueMessage) : ExecutionResult :=
  if max_retries cfg <? delivery_count m
  then failed_result job_id (SandboxError (u "max retries exceeded") (u "max_retries"))
  else match request_of m with
       | Ok _ => bare_result job_id STATUS_KILLED
       | Raise _ => failed_result job_id (SandboxError (u "malformed payload") (u "malformed_payload"))
       end.

(** No container was started, and a run that returns has stored the result. *)
Definition ends_without_run (result : ExecutionResult) (s : st E) (r : res unit) (s' : st E) : Prop :=
  ∃ new, trace s' = new ++ trace s ∧ Forall not_spawn new ∧ (r = Ok tt → result_stored result new).

Lemma finalize_then language result (k : M E unit) s :
  emits not_spawn k →
  wp (_ ← finalize cfg minio job_id language result; k) (ends_without_run result s) s.
Proof.
  intros Hk. wp_step. destruct (finalize_not_spawn cfg minio job_id language result s) as (n2 & H2 & Hn2).
  pose proof (finalize_reports cfg minio job_id language result s) as Hst.
  unfold returns, wp in Hst. unfold wp at 1. destruct (finalize _ _ _ _ _ s) as [[[]|x] s2]; cbn [fst snd] in *.
  - destruct (Hst tt eq_refl) as (n2' & _ & a & _ & H2' & Hset & _). rewrite H2 in H2'. apply app_inv_tail in H2' as <-.
    destruct (Hk s2) as (n3 & H3 & Hn3). exists (n3 ++ n2). rewrite H3, H2, app_assoc. split; [done|].
    split; [by apply Forall_app|]. intros _. exists a. apply elem_of_app. by right.
  - by exists n2.
Qed.

(** The worker, finding the key. *)
Lemma process_cancelled m s :
  msg_job_id m = Ok job_id → job_id ≠ [] → cancel_set (env s) →
  wp (_process cfg minio m) (ends_without_run (cancelled_result m) s) s.
Proof.
  intros Hj Hne Hc. destruct (as_dict (payload m)) as [d|x] eqn:Hd.
  2: { unfold _process. do 2 wp_step. rewrite Hj. do 2 wp_step. rewrite Hd. by exists []. }
  assert (payload m = JDict d) as Hp by (destruct (payload m); simplify_eq/=; done).
  unfold wp. rewrite (process_unfold cfg minio m d job_id s Hp Hj). cbv zeta. unfold cancelled_result.
  destruct (max_retries cfg <? delivery_count m).
  { apply finalize_then, abandon_not_spawn. }
  destruct (request_of m) as [request|x].
  - change (wp (cancelled ← is_cancelled job_id;
      if (cancelled : bool) then
        _ ← _finalize_cancelled cfg minio job_id (req_language request);
        _ ← release_slot (get_text (u "user_id") d []) job_id; ack (msg_id m)
      else run_and_ack cfg minio m (get_text (u "user_id") d []) job_id request)
      (ends_without_run (bare_result job_id STATUS_KILLED) s) s).
    wp_step. unfold is_cancelled. wp_step. call_eq. intros n e He.
    destruct n as [n|x]; [|eexists [_]; split_and!; [done|by apply Forall_singleton|done]].
    pose proof (exists_sees _ _ _ He Hc) as Hn. wp_step. rewrite (proj2 (Z.eqb_neq _ _)) by done. cbn [negb].
    eapply wp_mono; [|apply finalize_then, release_ack_not_spawn]. intros r s' (new & Ht & Hns & Hst).
    eexists (new ++ [_]). rewrite Ht, <- app_assoc. split; [done|]. split; [apply Forall_app; split; [done|by apply Forall_singleton]|].
    intros Hok. destruct (Hst Hok) as [a Ha]. exists a. apply elem_of_app. by left.
  - destruct (is_malformed x); [|by exists []]. rewrite bool_decide_eq_false_2 by done. cbn [negb when].
    apply finalize_then, abandon_not_spawn.
Qed.
End Cancel.

(** C6: a cancelled job is not run.  When the API has answered 200 to a cancellation whose transaction had
    no error, then, whatever anybody does to Redis in between while the cancellation key lives, a
    worker that takes the entry of the job never starts a container, and if it finishes, it has
    stored a terminal result of the job: KILLED, unless the entry is past the retry limit or its
    request cannot be read, which are looked at before the cancellation and are reported as FAILED. *)
Theorem cancelled_job_never_runs {JS : JsRuntime} {PR : PyRuntime} {JR : JsonRuntime} {E} {HE : Handler E}
    {X : SandboxExec E} job_id {CS : CancelStore E job_id} cfg minio p m s :
  msg_job_id m = Ok job_id →
  returns (delete_job p job_id) (λ r s1, reply_status r = 200 →
    ∃ new, trace s1 = new ++ trace s ∧
      (committed new → ∀ s2, rtc env_step (env s1) (env s2) →
        wp (_process cfg minio m) (λ o s3, ∃ new', trace s3 = new' ++ trace s2 ∧ Forall not_spawn new' ∧
          (o = Ok tt → result_stored job_id (cancelled_result job_id cfg m) new')) s2)) s.
Proof.
  intros Hj. eapply returns_mono; [|apply delete_sets]. intros r s1 H H200. destruct (H H200) as (Hne & new & Ht & Hset).
  exists new. split; [done|]. intros Hc s2 Hlater. apply (process_cancelled job_id cfg minio m); [done..|].
  eapply cancel_set_later; [|done]. by apply Hset.
Qed.

(** ** Concrete interleavings *)
Module ExampleCancel.
#[local] Existing Instances AsciiRuntime.ascii_runtime PlainJson.plain_json PlainJs.plain_js.

Definition job : pystr := u "01ARZ3NDEKTSV4RRFFQ69G5FAV".
Definition me : Principal := {| user_id := u "me"; tier := Authenticated |}.

Definition apply_tx (e : gmap pystr pystr) (t : tx) : gmap pystr pystr :=
  match t with TxSet k v _ => <[k := v]> e | TxXadd _ _ => e end.

(** The Redis of [Records.v] with transactions and [EXISTS]; [failed] are the errors of a transaction. *)
Definition redis (failed : list (option exc)) : Handler (gmap pystr pystr) := λ c e,
  match c return res (ans c) * gmap pystr pystr with
  | RMulti txs => (Ok (Some failed), if forallb no_error failed then fold_left apply_tx txs e else e)
  | RExists k => (Ok (if decide (is_Some (e !! k)) then 1 else 0), e)
  | c => ExampleRecords.world c e
  end.

Definition record (status : pystr) : pystr :=
  js_stringify (JDict [(u "job_id", JStr job); (u "user_id", JStr (u "me")); (u "status", JStr status)]).

Definition start (status : pystr) : st (gmap pystr pystr) := St {[ job_record_key job := record status ]} mem0 [].

Lemma set_stays txs k e : is_Some (e !! k) → is_Some (fold_left apply_tx txs e !! k).
Proof.
  revert e. induction txs as [|[|k' v ttl] txs IH]; intros e H; cbn [fold_left apply_tx]; [done|by apply IH|].
  apply IH. destruct (decide (k' = k)) as [->|Hne]; [by rewrite lookup_insert_eq|by rewrite lookup_insert_ne].
Qed.

(** The fields a reader of the record sees. *)
Definition seen (k : pystr) (e : gmap pystr pystr) : option json :=
  match e !! job_record_key job with
  | Some raw => match json_loads raw with Ok j => js_field k j | Raise _ => None end
  | None => None
  end.

Definition message : QueueMessage :=
  {| msg_id := u "1-0"; delivery_count := 1;
     payload := job_payload job (u "me") ExampleApi.request (u "00-1-2-01") (u "now") |}.

Section Good.
#[local] Instance world : Handler (gmap pystr pystr) := redis [None; None].
#[local] Instance exec : SandboxExec (gmap pystr pystr) := execute_impl ExampleHost.host.

#[local] Instance cancel_store : CancelStore (gmap pystr pystr) job.
Proof.
  refine {| cancel_set e := is_Some (e !! cancel_key job) |}.
  - intros txs r v ttl e e' H _ Hin. injection H as _ <-. clear -Hin. revert e Hin.
    induction txs as [|t txs IH]; intros e Hin; [by apply elem_of_nil in Hin|]. cbn [fold_left].
    apply elem_of_cons in Hin as [<-|Hin]; [|by apply IH].
    cbn [apply_tx]. apply set_stays. by rewrite lookup_insert_eq.
  - intros c e r e' H Hs. destruct c; injection H as _ <-; try done; [|by apply set_stays].
    destruct (decide (key = cancel_key job)) as [->|Hne]; [by rewrite lookup_insert_eq|by rewrite lookup_insert_ne].
  - intros e n e' H Hs. injection H as <- _. by rewrite decide_True.
Defined.

Definition cancelled : res reply * st (gmap pystr pystr) := delete_job me job (start STATUS_PENDING).

Lemma cancelled_reply : cancelled.1 = Ok (Reply 200 (JDict [(u "job_id", JStr job); (u "status", JStr STATUS_KILLED)])).
Proof. vm_compute. reflexivity. Qed.

Lemma cancelled_job_never_runs_witness :
  match cancelled.1 with Ok r => reply_status r | _ => 0 end = 200 ∧
  status (cancelled_result job ExampleWorker.cfg message) = STATUS_KILLED ∧
  wp (_process ExampleWorker.cfg true message) (λ o s3, ∃ new', trace s3 = new' ++ trace cancelled.2 ∧
    Forall not_spawn new' ∧ (o = Ok tt → result_stored job (cancelled_result job ExampleWorker.cfg message) new')) cancelled.2.
Proof.
  split; [vm_compute; reflexivity|]. split; [vm_compute; reflexivity|].
  destruct (cancelled_job_never_runs job ExampleWorker.cfg true me message
              (start STATUS_PENDING) ltac:(vm_compute; reflexivity) _ cancelled_reply eq_refl) as (new & Ht & H).
  apply H; [|apply rtc_refl].
  change (trace cancelled.2 = new ++ []) in Ht. rewrite app_nil_r in Ht. rewrite <- Ht.
  apply Exists_exists. eexists. split; [right; left; reflexivity|]. vm_compute. by eexists.
Defined.

(** a result can be lost to a cancellation.  The API reads the record of a running job; the worker then
    stores its result and completes the record; the API, which writes back what it had read, marks the
    record KILLED and drops the result from it, while the result key says COMPLETED. *)
Definition raced : st (gmap pystr pystr) :=
  let '(o, s1) := owned_record me job (start STATUS_RUNNING) in
  let '(_, s2) := store_terminal false [] job (bare_result job STATUS_COMPLETED) (u "w1") s1 in
  match o with
  | Ok (inl r) => (cancel_record job r s2).2
  | _ => s2
  end.

Theorem cancel_overwrites_completed :
  seen (u "status") (env raced) = Some (JStr STATUS_KILLED) ∧ seen (u "result") (env raced) = None ∧
  env raced !! result_key job = Some (result_text (bare_result job STATUS_COMPLETED)).
Proof. vm_compute. split_and!; reflexivity. Qed.
End Good.

(** a cancellation can be acknowledged without having happened.  The errors of the commands of the
    transaction are not looked at: the API answers 200 KILLED, and neither key was written. *)
Theorem failed_cancel_acknowledged :
  let out := delete_job (HE := redis [Some (ResponseError (u "OOM")); Some (ResponseError (u "OOM"))]) me job (start STATUS_RUNNING) in
  match out.1 with Ok r => reply_status r | _ => 0 end = 200 ∧ env out.2 = env (start STATUS_RUNNING).
Proof. vm_compute. split; reflexivity. Qed.
End ExampleCancel.
