(* ===== verification/ApiStream.v ===== *)
(** * Live streaming ([api/src/services/websocket.ts])

    A connection of [handleConnection] as a step system: every event runs one callback or one
    continuation from an [await] to the next, so the parts of [onStart], of [cleanup] and of the
    socket's events interleave in every order the event loop allows.  And the translation of the
    worker's messages to frames. *)
From S2P Require Import Prelude PyStr Utf8 Errors Json JsonText Effects Constants Types Store ApiRequest ApiServer.
From stdpp Require Import options.

(** ** Frames *)

(** [ServerFrame]; a field that the worker's message lacks is undefined and left out of the frame. *)
Inductive frame :=
| FAccepted (job_id : pystr)
| FStatus (status : option json)
| FStdout (data : option json)
| FStderr (data : option json)
| FExit (exit_code status wall_time_ms timed_out oom_killed : option json)
| FError (title detail : pystr).

(** The frame [onWorkerMessage] sends for a message it has parsed, and whether it is the last one. *)
Definition frame_of (msg : json) : option (frame * bool) :=
  let field k := js_field k msg in
  match field (u "kind") with
  | Some (JStr kind) =>
      if kind =s u "stdout" then Some (FStdout (field (u "data")), false)
      else if kind =s u "stderr" then Some (FStderr (field (u "data")), false)
      else if kind =s u "status" then Some (FStatus (field (u "status")), false)
      else if kind =s u "done" then
        Some (FExit (field (u "exit_code")) (field (u "status")) (field (u "wall_time_ms")) (field (u "timed_out"))
                (field (u "oom_killed")), true)
      else None
  | _ => None
  end.

(** ** The first frame

    What [onStart] says of it before its first [await]: an error frame and the end, or a request.
    [decode] stands for the type checks of the schema, [errors] for the text of its messages. *)
Section FirstFrame.
Context {JS : JsRuntime} (cfg : ApiConfig) (decode : option json → option RawRequest) (errors : option json → pystr).

Definition start_frame (raw : pystr) : frame + ApiRequest :=
  match js_parse raw with
  | None => inl (FError (u "Bad frame") (u "First frame must be valid JSON."))
  | Some JNull => inl (FError (u "Stream error") (u "Cannot read properties of null (reading 'type')"))
  | Some j =>
      match js_field (u "type") j with
      | Some (JStr t) =>
          if t =s u "start" then
            let request := js_field (u "request") j in
            match raw ← decode request; validateExecutionRequest cfg raw with
            | Some r => inr r
            | None => inl (FError (u "Validation Error") (errors request))
            end
          else inl (FError (u "Bad frame") (u "Expected a `start` frame."))
      | _ => inl (FError (u "Bad frame") (u "Expected a `start` frame."))
      end
  end.

End FirstFrame.

(** ** A connection *)

(** Where [onStart] waits; the job id is generated before the slot is asked for. *)
Inductive start_pc := SIdle | SRate | SSlot (job_id : pystr) | SSubscribe (job_id : pystr) | SEnqueue (job_id : pystr) | SDone.

(** Where [cleanup] waits. *)
Inductive clean_pc := CIdle | CReleasing (job_id : pystr) | CQuitting | CFinished.

Inductive timer_state := TimerUnset | TimerArmed | TimerOver.

Record Conn := {
  isAlive : bool;
  settled : bool;
  cleanedUp : bool;
  slotJobId : option pystr;
  (* the variable is not null: it holds an open connection to Redis *)
  subscriber : bool;
  (* the handler of the channel's messages is installed *)
  listening : bool;
  lifetimeTimer : timer_state;
  (* readyState is OPEN *)
  is_open : bool;
  (* what the connection adds to the gauge of active sockets *)
  gauge : Z;
  (* slots released and frames sent, newest first *)
  released : list pystr;
  frames : list frame;
  start_at : start_pc;
  clean_at : clean_pc;
  (* [finish] waits for the cleanup it has started *)
  closing : bool;
  (* where [onStart] was when [cleanup] began *)
  cleaned_during : start_pc;
}.

(** The head of [handleConnection] for a socket with a principal. *)
Definition connected : Conn :=
  {| isAlive := true; settled := false; cleanedUp := false; slotJobId := None; subscriber := false; listening := false;
     lifetimeTimer := TimerUnset; is_open := true; gauge := 1; released := []; frames := []; start_at := SIdle;
     clean_at := CIdle; closing := false; cleaned_during := SIdle |}.

(** Assignments *)

Definition set_alive (v : bool) (c : Conn) : Conn :=
  {| isAlive := v; settled := settled c; cleanedUp := cleanedUp c; slotJobId := slotJobId c; subscriber :=
     subscriber c; listening := listening c; lifetimeTimer := lifetimeTimer c; is_open := is_open c; gauge
     := gauge c; released := released c; frames := frames c; start_at := start_at c; clean_at := clean_at c;
     closing := closing c; cleaned_during := cleaned_during c |}.

Definition set_settled (v : bool) (c : Conn) : Conn :=
  {| isAlive := isAlive c; settled := v; cleanedUp := cleanedUp c; slotJobId := slotJobId c; subscriber :=
     subscriber c; listening := listening c; lifetimeTimer := lifetimeTimer c; is_open := is_open c; gauge
     := gauge c; released := released c; frames := frames c; start_at := start_at c; clean_at := clean_at c;
     closing := closing c; cleaned_during := cleaned_during c |}.

Definition set_slot (v : option pystr) (c : Conn) : Conn :=
  {| isAlive := isAlive c; settled := settled c; cleanedUp := cleanedUp c; slotJobId := v; subscriber :=
     subscriber c; listening := listening c; lifetimeTimer := lifetimeTimer c; is_open := is_open c; gauge
     := gauge c; released := released c; frames := frames c; start_at := start_at c; clean_at := clean_at c;
     closing := closing c; cleaned_during := cleaned_during c |}.

Definition set_subscriber (v : bool) (c : Conn) : Conn :=
  {| isAlive := isAlive c; settled := settled c; cleanedUp := cleanedUp c; slotJobId := slotJobId c;
     subscriber := v; listening := listening c; lifetimeTimer := lifetimeTimer c; is_open := is_open c;
     gauge := gauge c; released := released c; frames := frames c; start_at := start_at c; clean_at :=
     clean_at c; closing := closing c; cleaned_during := cleaned_during c |}.

Definition set_listening (v : bool) (c : Conn) : Conn :=
  {| isAlive := isAlive c; settled := settled c; cleanedUp := cleanedUp c; slotJobId := slotJobId c;
     subscriber := subscriber c; listening := v; lifetimeTimer := lifetimeTimer c; is_open := is_open c;
     gauge := gauge c; released := released c; frames := frames c; start_at := start_at c; clean_at :=
     clean_at c; closing := closing c; cleaned_during := cleaned_during c |}.

Definition set_timer (v : timer_state) (c : Conn) : Conn :=
  {| isAlive := isAlive c; settled := settled c; cleanedUp := cleanedUp c; slotJobId := slotJobId c;
     subscriber := subscriber c; listening := listening c; lifetimeTimer := v; is_open := is_open c; gauge
     := gauge c; released := released c; frames := frames c; start_at := start_at c; clean_at := clean_at c;
     closing := closing c; cleaned_during := cleaned_during c |}.

Definition set_open (v : bool) (c : Conn) : Conn :=
  {| isAlive := isAlive c; settled := settled c; cleanedUp := cleanedUp c; slotJobId := slotJobId c;
     subscriber := subscriber c; listening := listening c; lifetimeTimer := lifetimeTimer c; is_open := v;
     gauge := gauge c; released := released c; frames := frames c; start_at := start_at c; clean_at :=
     clean_at c; closing := closing c; cleaned_during := cleaned_during c |}.

Definition start_to (v : start_pc) (c : Conn) : Conn :=
  {| isAlive := isAlive c; settled := settled c; cleanedUp := cleanedUp c; slotJobId := slotJobId c;
     subscriber := subscriber c; listening := listening c; lifetimeTimer := lifetimeTimer c; is_open :=
     is_open c; gauge := gauge c; released := released c; frames := frames c; start_at := v; clean_at :=
     clean_at c; closing := closing c; cleaned_during := cleaned_during c |}.

(** [send], which leaves a closing socket alone. *)
Definition send (f : frame) (c : Conn) : Conn :=
  {| isAlive := isAlive c; settled := settled c; cleanedUp := cleanedUp c; slotJobId := slotJobId c;
     subscriber := subscriber c; listening := listening c; lifetimeTimer := lifetimeTimer c; is_open :=
     is_open c; gauge := gauge c; released := released c; frames := if is_open c then f :: frames c else
     frames c; start_at := start_at c; clean_at := clean_at c; closing := closing c; cleaned_during :=
     cleaned_during c |}.

(** [cleanup] after its last [await]: the gauge goes down, and [finish], if it waits, closes the socket. *)
Definition cleanup_end (c : Conn) : Conn :=
  {| isAlive := isAlive c; settled := settled c; cleanedUp := cleanedUp c; slotJobId := slotJobId c;
     subscriber := subscriber c; listening := listening c; lifetimeTimer := lifetimeTimer c; is_open :=
     is_open c && negb (closing c); gauge := gauge c - 1; released := released c; frames := frames c;
     start_at := start_at c; clean_at := CFinished; closing := false; cleaned_during := cleaned_during c |}.

Definition clean_to (pc : clean_pc) (c : Conn) : Conn :=
  {| isAlive := isAlive c; settled := settled c; cleanedUp := cleanedUp c; slotJobId := slotJobId c;
     subscriber := subscriber c; listening := listening c; lifetimeTimer := lifetimeTimer c; is_open :=
     is_open c; gauge := gauge c; released := released c; frames := frames c; start_at := start_at c;
     clean_at := pc; closing := closing c; cleaned_during := cleaned_during c |}.

(** [cleanup] from the timer on. *)
Definition cleanup_rest (c : Conn) : Conn :=
  let c := set_timer (match lifetimeTimer c with TimerArmed => TimerOver | t => t end) c in
  if subscriber c then clean_to CQuitting c else cleanup_end c.

(** The entry of [cleanup]; [by_finish] when [finish] waits for it. *)
Definition cleanup_begin (by_finish : bool) (c : Conn) : Conn :=
  {| isAlive := isAlive c; settled := settled c; cleanedUp := true; slotJobId := slotJobId c; subscriber :=
     subscriber c; listening := listening c; lifetimeTimer := lifetimeTimer c; is_open := is_open c; gauge
     := gauge c; released := released c; frames := frames c; start_at := start_at c; clean_at := clean_at c;
     closing := by_finish; cleaned_during := start_at c |}.

(** [cleanup] up to its first [await]. *)
Definition cleanup (by_finish : bool) (c : Conn) : Conn :=
  if cleanedUp c then c
  else
    match slotJobId c with
    | Some job_id => clean_to (CReleasing job_id) (cleanup_begin by_finish c)
    | None => cleanup_rest (cleanup_begin by_finish c)
    end.

(** The first [await] of [cleanup] is over: the slot is given back. *)
Definition slot_released (job_id : pystr) (c : Conn) : Conn :=
  cleanup_rest
    ({| isAlive := isAlive c; settled := settled c; cleanedUp := cleanedUp c; slotJobId := None; subscriber :=
       subscriber c; listening := listening c; lifetimeTimer := lifetimeTimer c; is_open := is_open c; gauge
       := gauge c; released := job_id :: released c; frames := frames c; start_at := start_at c; clean_at :=
       clean_at c; closing := closing c; cleaned_during := cleaned_during c |}).

(** [finish]: a cleanup that has already begun is not waited for. *)
Definition finish (c : Conn) : Conn :=
  if settled c then c
  else if cleanedUp c then set_open false (set_settled true c)
  else cleanup true (set_settled true c).

(** An error frame, then [finish]. *)
Definition send_error (title detail : pystr) (c : Conn) : Conn := finish (send (FError title detail) c).

(** ** Events *)

Inductive ws_event :=
(* the first frame: refused, or a request *)
| EMessage (verdict : frame + ApiRequest)
(* the rate limiter answers; the milliseconds to wait when it blocks *)
| ERate (blocked : option Z) (job_id : pystr)
| ESlot (granted : bool)
| ESubscribed
| EEnqueued
(* the operation [onStart] waits for fails *)
| EStartFailed (detail : pystr)
(* a message of the worker, with whether the buffer stays under the mark *)
| EWorker (message : pystr) (drained : bool)
| ETimer
| EReleased
| EQuit
(* the socket's events and the heartbeat *)
| EClose
| EError
| EPong
| EHeartbeat (pinged : bool).

Section Events.
Context {JS : JsRuntime} (cfg : ApiConfig) (p : Principal).

(** [onWorkerMessage]; a message that does not parse, is null or of another kind changes nothing. *)
Definition onWorkerMessage (message : pystr) (drained : bool) (c : Conn) : Conn :=
  match j ← js_parse message; frame_of j with
  | None => c
  | Some (f, true) => finish (send f c)
  | Some (f, false) =>
      if is_open c && drained then send f c
      else send_error (u "Backpressure") (u "Client is too slow to consume output; closing the stream.") (send f c)
  end.

(** [onStart] after [subscribe]: the timer first, then the handler, on a variable that may be null again. *)
Definition subscribed (job_id : pystr) (c : Conn) : Conn :=
  let c := set_timer TimerArmed c in
  if subscriber c then start_to (SEnqueue job_id) (set_listening true c)
  else start_to SDone (send_error (u "Stream error") (u "Cannot read properties of null (reading 'on')") c).

(** One turn of the heartbeat for this socket; [pinged] when the ping does not throw. *)
Definition heartbeat (pinged : bool) (c : Conn) : Conn :=
  if isAlive c then
    let c := set_alive false c in
    if pinged then c else set_open false c
  else set_open false c.

Definition ws_next (e : ws_event) (c : Conn) : option Conn :=
  match e, start_at c with
  | EMessage (inl (FError t d)), SIdle => Some (start_to SDone (send_error t d c))
  | EMessage (inr _), SIdle => Some (start_to SRate c)
  | ERate (Some ms) _, SRate =>
      Some (start_to SDone (send_error (u "Too Many Requests")
        (u "Rate limit exceeded. Retry after " ++ str_of_int (- (- ms / 1000)) ++ u "s.") c))
  | ERate None job_id, SRate => Some (start_to (SSlot job_id) c)
  | ESlot false, SSlot _ =>
      Some (start_to SDone (send_error (u "Concurrency Limit")
        (u "You may run at most " ++ str_of_int (concurrencyLimitForTier cfg (tier p)) ++ u " concurrent jobs.") c))
  | ESlot true, SSlot job_id => Some (start_to (SSubscribe job_id) (set_subscriber true (set_slot (Some job_id) c)))
  | ESubscribed, SSubscribe job_id => Some (subscribed job_id c)
  | EEnqueued, SEnqueue job_id => Some (start_to SDone (send (FAccepted job_id) c))
  | EStartFailed detail, (SRate | SSlot _ | SSubscribe _ | SEnqueue _) =>
      Some (start_to SDone (send_error (u "Stream error") detail c))
  | EWorker message drained, _ => if listening c then Some (onWorkerMessage message drained c) else None
  | ETimer, _ =>
      match lifetimeTimer c with
      | TimerArmed =>
          Some (send_error (u "Stream timeout") (u "Maximum stream lifetime reached.") (set_timer TimerOver c))
      | _ => None
      end
  | EReleased, _ => match clean_at c with CReleasing job_id => Some (slot_released job_id c) | _ => None end
  | EQuit, _ =>
      match clean_at c with
      | CQuitting => Some (cleanup_end (set_listening false (set_subscriber false c)))
      | _ => None
      end
  | EClose, _ => Some (cleanup false (set_open false c))
  | EError, _ => Some (finish c)
  | EPong, _ => Some (set_alive true c)
  | EHeartbeat pinged, _ => Some (heartbeat pinged c)
  | _, _ => None
  end.

Fixpoint ws_run (es : list ws_event) (c : Conn) : option Conn :=
  match es with
  | [] => Some c
  | e :: es => c' ← ws_next e c; ws_run es c'
  end.

Definition reachable (c : Conn) : Prop := ∃ es, ws_run es connected = Some c.

End Events.

(** ** Invariant *)

(** [onStart] has not got its slot yet. *)
Definition unslotted (pc : start_pc) : bool := match pc with SIdle | SRate | SSlot _ => true | _ => false end.

Definition unarmed (pc : start_pc) : bool := match pc with SSubscribe _ => true | pc => unslotted pc end.

(** The cleanup was over before [onStart] got its slot, and runs only once. *)
Definition too_early (c : Conn) : bool := cleanedUp c && unslotted (cleaned_during c).

Definition past_release (pc : clean_pc) : bool := match pc with CQuitting | CFinished => true | _ => false end.

Record stream_inv (c : Conn) : Prop := {
  inv_gauge : gauge c = match clean_at c with CFinished => 0 | _ => 1 end;
  inv_cleaned : cleanedUp c = match clean_at c with CIdle => false | _ => true end;
  inv_unslotted : unslotted (start_at c) = true →
    slotJobId c = None ∧ subscriber c = false ∧ (cleanedUp c = true → too_early c = true);
  inv_unarmed : unarmed (start_at c) = true → listening c = false ∧ lifetimeTimer c = TimerUnset;
  inv_subscribing job_id : start_at c = SSubscribe job_id → cleanedUp c = false → subscriber c = true;
  inv_early : too_early c = true → clean_at c = CFinished ∧ released c = [];
  inv_releasing job_id : clean_at c = CReleasing job_id → slotJobId c = Some job_id;
  inv_quitting : clean_at c = CQuitting → subscriber c = true;
  inv_slot : past_release (clean_at c) = true → too_early c = false → slotJobId c = None;
  inv_subscriber : clean_at c = CFinished → too_early c = false → subscriber c = false;
  inv_listening : listening c = true → subscriber c = true;
  inv_timer : listening c = true → cleanedUp c = false → lifetimeTimer c = TimerArmed;
  inv_settled : settled c = true → cleanedUp c = true;
  inv_open : is_open c = true → cleanedUp c = true → closing c = true ∧ clean_at c ≠ CFinished;
  inv_released : released c = [] ∨ (slotJobId c = None ∧ past_release (clean_at c) = true ∧ ∃ job_id, released c = [job_id]);
}.

(** The invariant of a state given by its fields, from the facts that hold of the fields before. *)
Ltac stream_fact :=
  match goal with
  | H : ?P → _ |- _ => specialize (H ltac:(first [reflexivity | assumption]))
  | H : ?P → ?Q, H' : ?P → ?Q |- _ => clear H'
  | H : _ ∧ _ |- _ => destruct H
  | H : ∃ _, _ |- _ => destruct H
  | H : _ ∨ _ |- _ => destruct H
  end.

Ltac stream_solve :=
  constructor; unfold too_early, unarmed in *; simpl in *; intros; simplify_eq/=;
  try match goal with H : ?op && negb _ = true |- _ => destruct op; simpl in H; [|done] end;
  repeat (stream_fact; simplify_eq/=); first [done | by auto | by eauto | by (split; eauto) | by (right; eauto) | idtac].

Lemma send_inv f c : stream_inv c → stream_inv (send f c).
Proof. destruct c; intros []; by constructor. Qed.

Lemma set_open_inv c : stream_inv c → stream_inv (set_open false c).
Proof. destruct c; intros []; by constructor. Qed.

Lemma set_alive_inv v c : stream_inv c → stream_inv (set_alive v c).
Proof. destruct c; intros []; by constructor. Qed.

Lemma start_done_inv c : stream_inv c → stream_inv (start_to SDone c).
Proof. destruct c; intros []; by constructor. Qed.

Lemma cleanup_inv by_finish c :
  stream_inv c → (is_open c = true → by_finish = true) → stream_inv (cleanup by_finish c).
Proof.
  intros Hc Hopen. unfold cleanup. destruct (cleanedUp c) eqn:Hu; [done|].
  destruct c as [al se cu sl su li ti op ga re fr st cl cg cd], Hc; simpl in *. subst.
  destruct cl; try done.
  unfold cleanup_rest, clean_to, cleanup_begin, set_timer, cleanup_end; simpl.
  destruct sl, su; stream_solve.
Qed.

Lemma finish_inv c : stream_inv c → stream_inv (finish c).
Proof.
  intros Hc. unfold finish. destruct (settled c); [done|].
  assert (stream_inv (set_settled true c) ∨ cleanedUp c = false) as Hset.
  { destruct (cleanedUp c) eqn:Hu; [left|by right]. destruct c, Hc; by constructor. }
  destruct (cleanedUp c) eqn:Hu.
  - destruct Hset; [by apply set_open_inv|done].
  - unfold cleanup. simpl. rewrite Hu.
    pose proof (cleanup_inv true c Hc (λ _, eq_refl)) as Hc'. unfold cleanup in Hc'. rewrite Hu in Hc'.
    destruct c as [al se cu sl su li ti op ga re fr st cl cg cd]; simpl in *.
    destruct sl; [destruct Hc'; by constructor|].
    unfold cleanup_rest in *; simpl in *. destruct su, Hc'; by constructor.
Qed.

Lemma send_error_inv t d c : stream_inv c → stream_inv (send_error t d c).
Proof. intros. by apply finish_inv, send_inv. Qed.

Lemma slot_released_inv job_id c : stream_inv c → clean_at c = CReleasing job_id → stream_inv (slot_released job_id c).
Proof.
  intros Hc Hat. destruct c as [al se cu sl su li ti op ga re fr st cl cg cd], Hc; simpl in *. subst.
  unfold slot_released, cleanup_rest, clean_to, set_timer, cleanup_end; simpl.
  destruct su; stream_solve.
Qed.

Lemma quit_inv c :
  stream_inv c → clean_at c = CQuitting → stream_inv (cleanup_end (set_listening false (set_subscriber false c))).
Proof.
  intros Hc Hat. destruct c as [al se cu sl su li ti op ga re fr st cl cg cd], Hc; simpl in *. subst.
  unfold cleanup_end, set_listening, set_subscriber; simpl. stream_solve.
Qed.

Lemma finish_cleanedUp c : stream_inv c → cleanedUp (finish c) = true.
Proof.
  intros Hc. unfold finish. destruct (settled c) eqn:Hs; [by apply (inv_settled c)|].
  destruct (cleanedUp c) eqn:Hu; [done|]. unfold cleanup; simpl; rewrite Hu.
  destruct (slotJobId c); [done|]. unfold cleanup_rest; simpl. by destruct (subscriber c).
Qed.

Lemma finish_start c : start_at (finish c) = start_at c.
Proof.
  unfold finish, cleanup, cleanup_rest; simpl.
  destruct (settled c), (cleanedUp c), (slotJobId c), (subscriber c); done.
Qed.

(** [finish] reads the timer only to clear it. *)
Lemma finish_timer_over c :
  lifetimeTimer c = TimerArmed → finish (set_timer TimerOver c) = set_timer TimerOver (finish c).
Proof.
  destruct c as [al se cu sl su li ti op ga re fr st cl cg cd]. simpl. intros ->.
  unfold finish, cleanup, cleanup_rest; simpl. by destruct se, cu, sl, su.
Qed.

Lemma timer_inv t d c : stream_inv c → lifetimeTimer c = TimerArmed → stream_inv (send_error t d (set_timer TimerOver c)).
Proof.
  intros Hc Ht. unfold send_error. change (send ?f (set_timer ?v c)) with (set_timer v (send f c)).
  rewrite finish_timer_over by done. apply send_inv with (f := FError t d) in Hc as Hs.
  pose proof (finish_inv _ Hs) as Hf. pose proof (finish_cleanedUp _ Hs) as Hu.
  assert (unarmed (start_at (finish (send (FError t d) c))) = false) as Ha.
  { rewrite finish_start. simpl. destruct (unarmed (start_at c)) eqn:Ha; [|done].
    apply (inv_unarmed c Hc) in Ha as [_ Hn]. congruence. }
  revert Hf Hu Ha. generalize (finish (send (FError t d) c)). intros c' Hf Hu Ha.
  destruct c', Hf; simpl in *. constructor; simpl; auto; congruence.
Qed.

Lemma subscribed_inv job_id c : stream_inv c → start_at c = SSubscribe job_id → stream_inv (subscribed job_id c).
Proof.
  intros Hc Hat. unfold subscribed. simpl. pose proof (inv_subscribing c Hc job_id Hat) as Hsub.
  destruct (subscriber c) eqn:Hs.
  - destruct c as [al se cu sl su li ti op ga re fr st cl cg cd], Hc; simpl in *. subst. by constructor.
  - assert (cleanedUp c = true) as Hu by (destruct (cleanedUp c); [done|by destruct (Hsub eq_refl)]).
    unfold send_error, finish. simpl. rewrite Hu.
    destruct c as [al se cu sl su li ti op ga re fr st cl cg cd], Hc; simpl in *. subst.
    destruct se; constructor; simpl; auto; congruence.
Qed.

Lemma onWorkerMessage_inv {JS : JsRuntime} m drained c : stream_inv c → stream_inv (onWorkerMessage m drained c).
Proof.
  intros Hc. unfold onWorkerMessage. destruct (js_parse m ≫= frame_of) as [[f []]|]; [..|done].
  - by apply finish_inv, send_inv.
  - case_match; [by apply send_inv|by apply send_error_inv, send_inv].
Qed.

Lemma start_unslotted_inv pc c :
  stream_inv c → unslotted (start_at c) = true → unslotted pc = true → stream_inv (start_to pc c).
Proof.
  intros [] Ha Hp. assert (unarmed (start_at c) = true) as Ha' by (by destruct (start_at c)).
  destruct c; simpl in *. constructor; simpl; auto. destruct pc; naive_solver.
Qed.

(** The slot and the connection are stored whether or not the connection has been cleaned up. *)
Lemma slot_granted_inv job_id c :
  stream_inv c → start_at c = SSlot job_id →
  stream_inv (start_to (SSubscribe job_id) (set_subscriber true (set_slot (Some job_id) c))).
Proof.
  intros Hc Hat. destruct c as [al se cu sl su li ti op ga re fr st cl cg cd], Hc; simpl in *. subst st.
  destruct (inv_unslotted0 eq_refl) as (-> & -> & Hearly). destruct (inv_unarmed0 eq_refl) as [-> ->].
  assert ((cl = CIdle ∨ cl = CFinished ∧ unslotted cd = true) ∧ re = []) as [Hcl ->].
  { unfold too_early in *; simpl in *. subst. destruct cl; [|destruct inv_early0 as [??]; auto..]; try done; auto.
    split; [auto|]. by destruct inv_released0 as [|(_ & ? & _)]. }
  unfold too_early in *; simpl in *. subst. destruct Hcl as [->|[-> Hcd]]; constructor; unfold too_early; simpl;
    rewrite ?Hcd; try done; auto.
Qed.

Section Reachable.
Context {JS : JsRuntime} {cfg : ApiConfig} {p : Principal}.

Lemma ws_next_inv e c c' : stream_inv c → ws_next cfg p e c = Some c' → stream_inv c'.
Proof.
  intros Hc. destruct e; simpl; unfold heartbeat; intros Hn; repeat case_match; simplify_eq;
    eauto using start_done_inv, send_error_inv, subscribed_inv, send_inv, onWorkerMessage_inv, timer_inv,
      slot_released_inv, quit_inv, cleanup_inv, set_open_inv, finish_inv, set_alive_inv, slot_granted_inv.
  all: apply start_unslotted_inv; [done| |done].
  all: by match goal with H : start_at _ = _ |- _ => rewrite H end.
Qed.

Lemma connected_inv : stream_inv connected.
Proof. by constructor; auto. Qed.

Lemma ws_run_inv es c c' : stream_inv c → ws_run cfg p es c = Some c' → stream_inv c'.
Proof.
  revert c. induction es as [|e es IH]; simpl; intros c Hc Hr; [by simplify_eq|].
  apply bind_Some in Hr as (c1 & H1 & Hr). eauto using ws_next_inv.
Qed.

Lemma reachable_inv c : reachable cfg p c → stream_inv c.
Proof. intros [es Hr]. eauto using ws_run_inv, connected_inv. Qed.

End Reachable.

(** ** Properties *)

(** C25: a connection counts in the gauge of active sockets until its cleanup is over, and exactly once.
    At most one slot is ever released, and after that none is held.  When the cleanup is over the
    socket is closed, and, unless the cleanup began before [onStart] had its slot, no slot, no Redis
    connection and no handler is left. *)
Theorem stream_cleanup {JS : JsRuntime} cfg p c :
  reachable cfg p c →
  gauge c = match clean_at c with CFinished => 0 | _ => 1 end ∧
  (released c = [] ∨ slotJobId c = None ∧ length (released c) = 1%nat) ∧
  (clean_at c = CFinished →
   is_open c = false ∧
   (unslotted (cleaned_during c) = false → slotJobId c = None ∧ subscriber c = false ∧ listening c = false)).
Proof.
  intros Hc%reachable_inv. split; [|split].
  - apply (inv_gauge c Hc).
  - destruct (inv_released c Hc) as [|(? & _ & ? & ->)]; auto.
  - intros Hf. assert (cleanedUp c = true) as Hu by (by rewrite (inv_cleaned c Hc), Hf). split.
    + destruct (is_open c) eqn:Ho; [|done]. by destruct (inv_open c Hc Ho Hu).
    + intros Hl. assert (too_early c = false) as He by (unfold too_early; by rewrite Hl, andb_false_r).
      pose proof (inv_subscriber c Hc Hf He) as Hs. split_and!; [|done|].
      * apply (inv_slot c Hc); [by rewrite Hf|done].
      * destruct (listening c) eqn:Hli; [|done]. apply (inv_listening c Hc) in Hli. congruence.
Qed.

(** The events the server brings about by itself. *)
Definition own_event (e : ws_event) : bool := match e with ETimer | EReleased | EQuit => true | _ => false end.

Section Ends.
Context {JS : JsRuntime} (cfg : ApiConfig) (p : Principal).

(** The server's own events bring the connection to a finished cleanup, in at most [n] steps. *)
Definition ends_within (n : nat) (c : Conn) : Prop :=
  ∃ es c', (length es ≤ n)%nat ∧ forallb own_event es = true ∧ ws_run cfg p es c = Some c' ∧ clean_at c' = CFinished.

Lemma ends_step n e c c' : own_event e = true → ws_next cfg p e c = Some c' → ends_within n c' → ends_within (S n) c.
Proof.
  intros He Hn (es & c'' & Hl & Ho & Hr & Hf). exists (e :: es), c''. simpl. rewrite Hn, He. split_and!; auto with lia.
Qed.

Lemma ends_mono n m c : (n ≤ m)%nat → ends_within n c → ends_within m c.
Proof. intros ? (es & c' & ? & H). exists es, c'. split; [lia|done]. Qed.

Lemma finished_ends c : clean_at c = CFinished → ends_within 0 c.
Proof. by exists [], c. Qed.

Lemma quitting_ends c : clean_at c = CQuitting → ends_within 1 c.
Proof. intros Hc. eapply (ends_step 0 EQuit _ _ eq_refl); [simpl; by rewrite Hc|by apply finished_ends]. Qed.

Lemma releasing_ends job_id c : clean_at c = CReleasing job_id → ends_within 2 c.
Proof.
  intros Hc. apply (ends_step 1 EReleased c (slot_released job_id c) eq_refl); [simpl; by rewrite Hc|].
  unfold slot_released, cleanup_rest; simpl. destruct (subscriber c).
  - by apply quitting_ends.
  - by apply (ends_mono 0); [lia|apply finished_ends].
Qed.

Lemma cleaning_ends c : clean_at c ≠ CIdle → ends_within 2 c.
Proof.
  destruct (clean_at c) as [|j| |] eqn:Hc; intros; [done|by eapply releasing_ends|..].
  - by apply (ends_mono 1); [lia|apply quitting_ends].
  - by apply (ends_mono 0); [lia|apply finished_ends].
Qed.

End Ends.

(** C26: a stream always comes to an end without help from the client or the worker: once the channel is
    subscribed, or as soon as a cleanup has begun, the lifetime timer, the release of the slot and
    the end of the Redis connection finish the cleanup, in at most three steps of the server. *)
Theorem stream_ends {JS : JsRuntime} cfg p c :
  reachable cfg p c → listening c = true ∨ cleanedUp c = true → ends_within cfg p 3 c.
Proof.
  intros Hc%reachable_inv Hs. destruct (cleanedUp c) eqn:Hu.
  - apply (ends_mono _ _ 2); [lia|]. apply cleaning_ends. intros Hi. rewrite (inv_cleaned c Hc), Hi in Hu. done.
  - destruct Hs as [Hs|]; [|done]. pose proof (inv_timer c Hc Hs Hu) as Ht.
    eapply (ends_step _ _ 2 ETimer _ _ eq_refl); [simpl; by rewrite Ht|]. apply cleaning_ends.
    set (d := send_error _ _ _). assert (stream_inv d) as Hd by (by apply timer_inv).
    assert (cleanedUp d = true) as Hdu.
    { unfold d, send_error. change (send ?f (set_timer ?v c)) with (set_timer v (send f c)).
      rewrite finish_timer_over by done. simpl. by apply finish_cleanedUp, send_inv. }
    intros Hi. rewrite (inv_cleaned d Hd), Hi in Hdu. done.
Qed.

(** ** Heartbeat *)

Section Heartbeat.
Context {JS : JsRuntime} (cfg : ApiConfig) (p : Principal).

(** [c'] is no more alive than [c], and no more open. *)
Definition fades (c c' : Conn) : Prop :=
  (isAlive c' = true → isAlive c = true) ∧ (is_open c' = true → is_open c = true).

Lemma fades_cleanup b c : fades c (cleanup b c).
Proof.
  unfold cleanup, cleanup_rest; simpl. destruct (cleanedUp c), (slotJobId c), (subscriber c); split; simpl; auto.
  all: by intros [? _]%andb_true_iff.
Qed.

Lemma fades_finish c : fades c (finish c).
Proof.
  unfold finish. destruct (settled c); [done|]. destruct (cleanedUp c); [by split|].
  destruct (fades_cleanup true (set_settled true c)). by split.
Qed.

Lemma fades_next e c c' : ws_next cfg p e c = Some c' → (is_open c' = true → is_open c = true) ∧ (e = EPong ∨ fades c c').
Proof.
  assert (fades c c' → (is_open c' = true → is_open c = true) ∧ (e = EPong ∨ fades c c')) as Hf.
  { intros Hf. split; [by destruct Hf|by right]. }
  destruct e; simpl; intros Hn; unfold send_error, onWorkerMessage, subscribed, heartbeat, slot_released, cleanup_rest in Hn;
    simpl in Hn; repeat case_match; simplify_eq; try (by split; auto); apply Hf; unfold send_error.
  all: try match goal with
    | |- context [finish ?x] => destruct (fades_finish x); by split
    | |- context [cleanup ?b ?x] => destruct (fades_cleanup b x) as [? Hopen]; split; [done|by intros ?%Hopen]
    | |- _ => split; simpl; [done|]; first [done | by intros [? _]%andb_true_iff]
    end.
Qed.

Lemma closed_stays es c c' : ws_run cfg p es c = Some c' → is_open c' = true → is_open c = true.
Proof.
  revert c. induction es as [|e es IH]; simpl; intros c Hr; [by simplify_eq|].
  apply bind_Some in Hr as (c1 & Hn & Hr). apply fades_next in Hn as [Ho _]. eauto.
Qed.

Lemma fades_run es c c' : EPong ∉ es → ws_run cfg p es c = Some c' → fades c c'.
Proof.
  revert c. induction es as [|e es IH]; simpl; intros c Hp Hr; [by simplify_eq|].
  apply bind_Some in Hr as (c1 & Hn & Hr). apply not_elem_of_cons in Hp as [He Hp].
  apply fades_next in Hn as [_ [->|[Ha Ho]]]; [done|]. destruct (IH c1 Hp Hr). split; auto.
Qed.

Lemma ws_run_app es1 es2 c c' :
  ws_run cfg p (es1 ++ es2) c = Some c' → ∃ c1, ws_run cfg p es1 c = Some c1 ∧ ws_run cfg p es2 c1 = Some c'.
Proof.
  revert c. induction es1 as [|e es1 IH]; simpl; intros c Hr; [eauto|].
  apply bind_Some in Hr as (c1 & Hn & Hr). rewrite Hn. simpl. eauto.
Qed.

End Heartbeat.

(** a connection that answers no ping does not survive two turns of the heartbeat: whatever else
    happens between them and after, a socket with no pong in between is closed, and it stays closed. *)
Theorem heartbeat_closes {JS : JsRuntime} cfg p es1 es2 b1 b2 c c' :
  EPong ∉ es1 → ws_run cfg p (EHeartbeat b1 :: es1 ++ EHeartbeat b2 :: es2) c = Some c' → is_open c' = false.
Proof.
  simpl. intros Hp (c2 & H1 & (c3 & Hn & H2)%bind_Some)%ws_run_app.
  apply fades_run in H1 as [Ha _]; [|done]. apply not_true_iff_false. intros Ho.
  apply (closed_stays _ _ _ _ _ H2) in Ho. simpl in Hn. simplify_eq.
  unfold heartbeat in Ho. destruct (isAlive c2) eqn:Halive; [|done].
  specialize (Ha eq_refl). unfold heartbeat in Ha. destruct (isAlive c) eqn:Hc, b1; simpl in Ha; congruence.
Qed.

(** ** A socket that closes early *)

(** What a connection holds after its cleanup it keeps. *)
Record holds (job_id : pystr) (c : Conn) : Prop := {
  h_finished : clean_at c = CFinished;
  h_cleaned : cleanedUp c = true;
  h_slot : slotJobId c = Some job_id;
  h_subscriber : subscriber c = true;
  h_released : released c = [];
  h_started : unslotted (start_at c) = false;
}.

Lemma holds_finish job_id c : holds job_id c → holds job_id (finish c).
Proof. intros []. unfold finish. destruct (settled c); [done|]. rewrite h_cleaned0. by constructor. Qed.

Lemma holds_send job_id f c : holds job_id c → holds job_id (send f c).
Proof. intros []. by constructor. Qed.

Lemma holds_done job_id c : holds job_id c → holds job_id (start_to SDone c).
Proof. intros []. by constructor. Qed.

Lemma holds_timer job_id t c : holds job_id c → holds job_id (set_timer t c).
Proof. intros []. by constructor. Qed.

Lemma holds_next {JS : JsRuntime} cfg p job_id e c c' :
  holds job_id c → ws_next cfg p e c = Some c' → holds job_id c'.
Proof.
  intros Hh. assert (∀ b, cleanup b (set_open false c) = set_open false c) as Hclean.
  { intros b. unfold cleanup. simpl. by rewrite (h_cleaned _ _ Hh). }
  pose proof Hh as [Hf _ _ Hsub _ Hst].
  destruct e; simpl; intros Hn; rewrite ?Hf, ?Hclean in Hn;
    unfold send_error, onWorkerMessage, subscribed, heartbeat in Hn; simpl in Hn; rewrite ?Hsub in Hn;
    repeat case_match; simplify_eq;
    eauto 8 using holds_finish, holds_send, holds_done, holds_timer; destruct Hh; by constructor.
Qed.

(** a socket that closes while [onStart] still waits for the rate limiter or the slot leaves a Redis
    connection and a slot behind for good: the cleanup is already over, [onStart] goes on and stores
    both, and no later event of this connection, the lifetime timer and an error included, gives
    either back. *)
Theorem early_close_leaks {JS : JsRuntime} cfg p job_id c c1 es c2 :
  reachable cfg p c → start_at c = SSlot job_id → cleanedUp c = true →
  ws_next cfg p (ESlot true) c = Some c1 → ws_run cfg p es c1 = Some c2 →
  slotJobId c2 = Some job_id ∧ subscriber c2 = true ∧ released c2 = [] ∧ clean_at c2 = CFinished.
Proof.
  intros Hc%reachable_inv Hat Hu Hn Hr.
  destruct (inv_unslotted c Hc) as (_ & _ & He); [by rewrite Hat|].
  destruct (inv_early c Hc (He Hu)) as [Hf Hrel].
  assert (holds job_id c1) as Hh. { simpl in Hn. rewrite Hat in Hn. simplify_eq. by constructor. }
  clear Hn. revert c1 Hh Hr. induction es as [|e es IH]; simpl; intros c1 Hh Hr.
  - simplify_eq. by destruct Hh.
  - apply bind_Some in Hr as (c' & Hn & Hr). eauto using holds_next.
Qed.

(** ** From the worker to the client *)

Section Forward.
Context {JS : JsRuntime} {JR : JsonRuntime} {JL : JsRuntimeLaws} {E : Type} {HE : Handler E}.

(** [m] publishes one text on the job's channel, and the handler does [f] with it. *)
Definition forwards (job_id : pystr) (m : M E unit) (f : Conn → Conn) : Prop :=
  ∀ s, ∃ text r, trace (m s).2 = Ev (RPublish (stream_channel job_id) text) r :: trace s ∧
    ∀ c, is_open c = true → onWorkerMessage text true c = f c.

Lemma publish_forwards job_id message f last :
  wf_json message = true → js_exact message = true → frame_of message = Some (f, last) →
  forwards job_id (_publish job_id message) (λ c, if last then finish (send f c) else send f c).
Proof using JL.
  intros Hw He Hf s. unfold _publish.
  exists (json_dumps message), (handle (RPublish (stream_channel job_id) (json_dumps message)) (env s)).1. split.
  - unfold mbind, M_bind, call. destruct (handle _ _) as [[]]; done.
  - intros c Ho. unfold onWorkerMessage. rewrite js_parse_dumps by done. simpl. rewrite Hf, Ho. by destruct last.
Qed.

End Forward.

(** An integer a double holds exactly prints within the digit limit. *)
Lemma wf_exact_int z : js_exact (JInt z) = true → wf_json (JInt z) = true.
Proof.
  intros Hz%Z.ltb_lt. apply Nat.leb_le. apply (small_int_mono _ (2 ^ 53)); [lia|]. apply small_int_iff. by vm_compute.
Qed.

(** The members of a message, down to its text. *)
Ltac message_members :=
  repeat apply Forall_cons_2; [..|apply Forall_nil_2]; (split; [apply u_scalar|]); simpl snd; try apply wf_str.

(** C27: the client sees what the worker reports.  Each of the publisher's three operations publishes one
    message on the channel the connection of the job is subscribed to, and on an open socket whose
    buffer is below the mark the handler turns it into the frame of the same kind with the same
    content: a chunk of output of either stream unchanged, a status, and, for the end of the job, the
    exit frame with the code, status, time and flags of the result, after which the stream is closed. *)
Theorem worker_stream_forwarded {JS : JsRuntime} {JR : JsonRuntime} {JL : JsRuntimeLaws} {E} {HE : Handler E} job_id :
  (∀ k data, scalar_str data →
     forwards job_id (pub_output job_id k data)
       (send (match k with Stdout => FStdout | Stderr => FStderr end (Some (JStr data))))) ∧
  (∀ st, scalar_str st → forwards job_id (pub_status job_id st) (send (FStatus (Some (JStr st))))) ∧
  (∀ r, scalar_str (status r) → js_exact (JInt (wall_time_ms r)) = true →
     js_exact (json_of_option (exit_code r)) = true →
     forwards job_id (pub_done job_id r)
       (λ c, finish (send (FExit (Some (json_of_option (exit_code r))) (Some (JStr (status r)))
          (Some (JInt (wall_time_ms r))) (Some (JBool (timed_out r))) (Some (JBool (oom_killed r)))) c))).
Proof.
  split_and!.
  - intros k data Hd. apply (publish_forwards _ _ _ false); [|done|by destruct k].
    apply wf_dict; [by_compute|]. message_members; [destruct k; apply u_scalar|done].
  - intros st Hd. apply (publish_forwards _ _ _ false); [|done|done].
    apply wf_dict; [by_compute|]. message_members; [apply u_scalar|done].
  - intros r Hs Hw He. apply (publish_forwards _ _ _ true); [| |done].
    + apply wf_dict; [by_compute|].
      assert (wf_json (json_of_option (exit_code r)) = true) by (destruct (exit_code r); [by apply wf_exact_int|done]).
      message_members; try done; [apply u_scalar|by apply wf_exact_int].
    + cbn [js_exact forallb snd] in *. rewrite He, Hw. done.
Qed.

(** ** Example *)

Module ExampleStream.
#[local] Existing Instances PlainJson.plain_json PlainJs.plain_js PlainJs.plain_js_laws ExampleServer.world.

Definition job : pystr := u "01ARZ3NDEKTSV4RRFFQ69G5FAV".
Definition me : Principal := {| user_id := u "me"; tier := Authenticated |}.

(** A stream that goes well, up to the exit frame. *)
Definition told : pystr :=
  json_dumps (JDict [(u "kind", JStr (u "done")); (u "exit_code", JInt 0); (u "status", JStr STATUS_COMPLETED);
                     (u "wall_time_ms", JInt 12); (u "timed_out", JBool false); (u "oom_killed", JBool false)]).

Definition opening : list ws_event :=
  [EMessage (inr ExampleApi.request); ERate None job; ESlot true; ESubscribed; EEnqueued].

Definition after (es : list ws_event) : Conn := default connected (ws_run ExampleApi.cfg me es connected).

Lemma good_stream :
  frames (after (opening ++ [EWorker told true; EReleased; EQuit])) =
    [FExit (Some (JInt 0)) (Some (JStr STATUS_COMPLETED)) (Some (JInt 12)) (Some (JBool false)) (Some (JBool false));
     FAccepted job] ∧
  released (after (opening ++ [EWorker told true; EReleased; EQuit])) = [job].
Proof. by vm_compute. Qed.

Lemma stream_cleanup_witness :
  clean_at (after (opening ++ [EWorker told true; EReleased; EQuit])) = CFinished ∧
  slotJobId (after (opening ++ [EWorker told true; EReleased; EQuit])) = None.
Proof.
  split; [by vm_compute|].
  refine (proj1 (proj2 (proj2 (proj2 (stream_cleanup ExampleApi.cfg me _ _)) _) _)); [|by vm_compute..].
  exists (opening ++ [EWorker told true; EReleased; EQuit]). by vm_compute.
Defined.

Lemma stream_ends_witness : listening (after opening) = true ∧ ends_within ExampleApi.cfg me 3 (after opening).
Proof.
  split; [by vm_compute|]. apply (stream_ends ExampleApi.cfg me).
  - exists opening. by vm_compute.
  - left. by vm_compute.
Defined.

(** The socket closes while the rate limiter is asked. *)
Definition early : list ws_event := [EMessage (inr ExampleApi.request); EClose; ERate None job].

Lemma early_close_leaks_witness :
  gauge (after early) = 0 ∧
  slotJobId (after (early ++ [ESlot true; ESubscribed; EEnqueued; ETimer; EError])) = Some job ∧
  subscriber (after (early ++ [ESlot true; ESubscribed; EEnqueued; ETimer; EError])) = true.
Proof.
  split; [by vm_compute|].
  destruct (early_close_leaks ExampleApi.cfg me job (after early) (after (early ++ [ESlot true]))
    [ESubscribed; EEnqueued; ETimer; EError] (after (early ++ [ESlot true; ESubscribed; EEnqueued; ETimer; EError])))
    as (Hs & Hsub & _); [exists early; by vm_compute|by vm_compute..|]. split; assumption.
Defined.

Lemma heartbeat_closes_witness :
  is_open (after (opening ++ EHeartbeat true :: [EPong; EHeartbeat true])) = true ∧
  is_open (after (opening ++ EHeartbeat true :: [EWorker (u "?") true; EHeartbeat true; EPong])) = false.
Proof.
  split; [by vm_compute|].
  apply (heartbeat_closes ExampleApi.cfg me [EWorker (u "?") true] [EPong] true true (after opening)).
  - by intros [?|?%elem_of_nil]%elem_of_cons.
  - by vm_compute.
Defined.

Lemma worker_stream_forwarded_witness :
  forwards (E := Z) job (pub_output job Stdout (u "hello")) (send (FStdout (Some (JStr (u "hello"))))).
Proof. apply (proj1 (worker_stream_forwarded job) Stdout). apply u_scalar. Defined.

End ExampleStream.
