(* ===== verification/ApiAuth.v ===== *)
(** * Authentication ([api/src/services/jwt.ts], [api/src/middleware/auth.ts], [config.ts])

    HS256 tokens over base64url, the table of API keys, and the principal of a request. *)
From S2P Require Import Prelude PyStr Paths Utf8 Errors Json JsonText Effects Types ApiRequest ApiServer.
From stdpp Require Import options.

(** ** The runtime

    Parameters: the digests of [node:crypto], and the base64url decoder, which reads back what the
    encoder below prints. *)
Class NodeRuntime := {
  hmac_sha256 : bytes → bytes → bytes;
  sha256_hex : bytes → pystr;
  base64url_decode : pystr → bytes;
}.

(** ** base64url *)

Definition b64_char (n : Z) : Z :=
  if n <? 26 then 65 + n else if n <? 52 then 71 + n else if n <? 62 then n - 4 else if n =? 62 then 45 else 95.

Fixpoint base64url (b : bytes) : pystr :=
  match b with
  | x :: y :: z :: b =>
      b64_char (x / 4) :: b64_char (x mod 4 * 16 + y / 16) :: b64_char (y mod 16 * 4 + z / 64) :: b64_char (z mod 64) ::
      base64url b
  | [x; y] => [b64_char (x / 4); b64_char (x mod 4 * 16 + y / 16); b64_char (y mod 16 * 4)]
  | [x] => [b64_char (x / 4); b64_char (x mod 4 * 16)]
  | [] => []
  end.

Class NodeRuntimeLaws `{!NodeRuntime} : Prop := {
  decode_base64url b : is_bytes b → base64url_decode (base64url b) = b;
  hmac_is_bytes data secret : is_bytes (hmac_sha256 data secret);
}.

(** [Buffer.from(text)]: UTF-8, with U+FFFD for what is no scalar value. *)
Definition buffer_from (s : pystr) : bytes := encode (map (λ c, if bool_decide (is_scalar c) then c else 0xFFFD) s).

(** ** Tokens *)

Section Jwt.
Context {NR : NodeRuntime} {JS : JsRuntime} {JR : JsonRuntime}.

Definition base64urlJson (j : json) : pystr := base64url (buffer_from (js_stringify j)).

Definition hmac (data secret : pystr) : bytes := hmac_sha256 (buffer_from data) (buffer_from secret).

(** The claims that are signed, for names that are no array indices (which an object orders first): the
    spread of the payload comes last. *)
Definition full_payload (payload : list (pystr * json)) (expiresInSec : option Z) (nowSec : Z) : list (pystr * json) :=
  dict_update
    ((u "iat", JInt nowSec) ::
     match expiresInSec with Some s => if s =? 0 then [] else [(u "exp", JInt (nowSec + s))] | None => [] end)
    payload.

Definition jwt_header : json := JDict [(u "alg", JStr (u "HS256")); (u "typ", JStr (u "JWT"))].

Definition period : Z := 46.

Definition signJwt (payload : list (pystr * json)) (secret : pystr) (expiresInSec : option Z) (now : Z) : pystr :=
  let header := base64urlJson jwt_header in
  let body := base64urlJson (JDict (full_payload payload expiresInSec (now / 1000))) in
  header ++ period :: body ++ period :: base64url (hmac (header ++ period :: body) secret).

(** Why a token is refused; a header or a payload that is null makes the property access throw. *)
Inductive verify_error :=
| MalformedToken
| InvalidHeader
| UnsupportedAlgorithm (alg : option json)
| SignatureMismatch
| InvalidPayload
| TokenExpired
| VerifyTypeError.

(** [JSON.parse(Buffer.from(part, 'base64url').toString('utf8'))] *)
Definition part_json (part : pystr) : option json := js_parse (decode_replace (base64url_decode part)).

(** [n >= f] for a double *)
Definition ge_float (n : Z) (f : pyfloat) : bool :=
  match f with
  | FNan => false
  | FInf negative => negative
  | FFin m e => if 0 <=? e then m * 2 ^ e <=? n else m <=? n * 2 ^ (- e)
  end.

Definition expired (payload : json) (now : Z) : bool :=
  match js_field (u "exp") payload with
  | Some (JInt exp) => exp <=? now / 1000
  | Some (JFloat exp) => ge_float (now / 1000) exp
  | _ => false
  end.

Definition verifyJwt (token secret : pystr) (now : Z) : verify_error + json :=
  match split_char period token with
  | [headerB64; bodyB64; signatureB64] =>
      match part_json headerB64 with
      | None => inl InvalidHeader
      | Some JNull => inl VerifyTypeError
      | Some header =>
          if negb (bool_decide (js_field (u "alg") header = Some (JStr (u "HS256")))) then
            inl (UnsupportedAlgorithm (js_field (u "alg") header))
          else if negb (bool_decide (hmac (headerB64 ++ period :: bodyB64) secret = base64url_decode signatureB64)) then
            inl SignatureMismatch
          else
            match part_json bodyB64 with
            | None => inl InvalidPayload
            | Some JNull => inl VerifyTypeError
            | Some payload => if expired payload now then inl TokenExpired else inr payload
            end
      end
  | _ => inl MalformedToken
  end.

(** ** Principals *)

Inductive auth_method := ByApiKey | ByJwt | ByNobody.

(** A principal, an [AuthError], or a principal whose [user_id] is a signed [sub] that is not a text:
    the code does not look at its type. *)
Inductive auth_result :=
| Authenticated_as (p : Principal) (method : auth_method)
| AuthError (status : Z) (title : pystr) (reason : option verify_error)
| Untyped_as (sub : json) (t : UserTier).

Record AuthConfig := { API_KEY_MAP : gmap pystr UserTier; JWT_SECRET : pystr; ALLOW_ANONYMOUS : bool }.

(** The value of a header: one text or several. *)
Inductive header_value := HOne (s : pystr) | HMany (l : list pystr).

Definition headerBag (headers : gmap pystr header_value) (name : pystr) : option pystr :=
  match headers !! map ascii_lower name with
  | Some (HOne s) => Some s
  | Some (HMany l) => head l
  | None => None
  end.

(** A text that is neither undefined nor empty. *)
Definition truthy (s : option pystr) : option pystr := match s with Some [] => None | s => s end.

Definition hashKey (key : pystr) : pystr := take 16 (sha256_hex (buffer_from key)).

(** [claims.sub]; on a text it is the method of that name. *)
Definition subject (claims : json) : option json :=
  match claims with JStr _ => Some (JDict []) | j => js_field (u "sub") j end.

Definition principal_of (claims : json) : auth_result :=
  match subject claims with
  | None => AuthError 403 (u "Invalid token") None
  | Some sub =>
      if js_falsy sub then AuthError 403 (u "Invalid token") None
      else
        let t := if bool_decide (js_field (u "tier") claims = Some (JStr (u "premium"))) then Premium else Authenticated in
        match sub with
        | JStr id => Authenticated_as {| user_id := id; tier := t |} ByJwt
        | _ => Untyped_as sub t
        end
  end.

Definition bearer_of (authorization queryToken : option pystr) : option pystr :=
  match authorization with
  | Some h => if startswith h (u "Bearer ") then Some (drop 7 h) else queryToken
  | None => queryToken
  end.

Definition authenticatePrincipal (cfg : AuthConfig) (get : pystr → option pystr) (queryToken : option pystr) (now : Z) :
    auth_result :=
  match truthy (get (u "x-api-key")) with
  | Some apiKey =>
      match API_KEY_MAP cfg !! apiKey with
      | None => AuthError 403 (u "Invalid API key") None
      | Some t => Authenticated_as {| user_id := u "key:" ++ hashKey apiKey; tier := t |} ByApiKey
      end
  | None =>
      match truthy (bearer_of (get (u "authorization")) queryToken) with
      | Some bearer =>
          match verifyJwt bearer (JWT_SECRET cfg) now with
          | inl reason => AuthError 403 (u "Invalid token") (Some reason)
          | inr claims => principal_of claims
          end
      | None =>
          if ALLOW_ANONYMOUS cfg then Authenticated_as {| user_id := u "anonymous"; tier := Anonymous |} ByNobody
          else AuthError 401 (u "Authentication required") None
      end
  end.

(** [authMiddleware]: the token of a query is not looked at. *)
Definition authMiddleware (cfg : AuthConfig) (headers : gmap pystr header_value) (now : Z) : auth_result :=
  authenticatePrincipal cfg (headerBag headers) None now.

(** [handleUpgrade] on the path and the [token] of the URL: the socket is destroyed, without or with an
    answer, or becomes a connection of the principal. *)
Inductive upgrade := Destroyed | Refused (status : Z) | Upgraded (p : Principal) | Upgraded_untyped (sub : json) (t : UserTier).

Definition handleUpgrade (cfg : AuthConfig) (pathname : pystr) (headers : gmap pystr header_value) (token : option pystr)
    (now : Z) : upgrade :=
  if negb (pathname =s u "/v1/execute/stream") then Destroyed
  else
    match authenticatePrincipal cfg (headerBag headers) token now with
    | Authenticated_as p _ => Upgraded p
    | AuthError status _ _ => Refused status
    | Untyped_as sub t => Upgraded_untyped sub t
    end.

End Jwt.

(** ** The table of keys ([loadConfig]) *)

Definition js_space (c : Z) : bool :=
  in_range 9 13 c || (c =? 32) || (c =? 0xA0) || (c =? 0x1680) || in_range 0x2000 0x200A c || in_range 0x2028 0x2029 c ||
  (c =? 0x202F) || (c =? 0x205F) || (c =? 0x3000) || (c =? 0xFEFF).

Definition js_trim (s : pystr) : pystr := rev (drop_while js_space (rev (drop_while js_space s))).

Definition csvToArray (value : pystr) : list pystr :=
  filter (λ s, s ≠ []) (map js_trim (split_char 44 value)).

Definition add_key (m : gmap pystr UserTier) (entry : pystr) : gmap pystr UserTier :=
  match split_char 58 entry with
  | [] | [] :: _ => m
  | key :: rest => <[key := if bool_decide (head rest = Some (u "premium")) then Premium else Authenticated]> m
  end.

Definition api_key_map (API_KEYS : pystr) : gmap pystr UserTier := fold_left add_key (csvToArray API_KEYS) ∅.

(** ** base64url reads back *)

Lemma b64_ind (P : bytes → Prop) :
  P [] → (∀ x, P [x]) → (∀ x y, P [x; y]) → (∀ x y z b, P b → P (x :: y :: z :: b)) → ∀ b, P b.
Proof.
  intros H0 H1 H2 H3. fix IH 1. intros [|x [|y [|z b]]]; [done|done|done|]. apply H3, IH.
Qed.

(** [n] is a digit of base 64. *)
Definition sextet (n : Z) : Prop := 0 ≤ n < 64.

Lemma byte_sextets x y : 0 ≤ x < 256 → 0 ≤ y < 256 →
  sextet (x / 4) ∧ sextet (x mod 4 * 16) ∧ sextet (x mod 4 * 16 + y / 16) ∧ sextet (x mod 16 * 4) ∧
  sextet (x mod 16 * 4 + y / 64) ∧ sextet (x mod 64).
Proof. unfold sextet. intros. split_and!; try lia; Z.to_euclidean_division_equations; lia. Qed.

Lemma period_free b : is_bytes b → period ∉ base64url b.
Proof.
  assert (∀ n, sextet n → period ≠ b64_char n) as Hc.
  { intros n Hn. unfold period, b64_char, sextet in *. repeat case_match; py_simpl; lia. }
  induction b as [|x|x y|x y z b IH] using b64_ind; intros Hb; cbn [base64url];
    rewrite ?not_elem_of_cons; unfold is_bytes in *; rewrite ?Forall_cons in Hb; destruct_and?.
  - apply not_elem_of_nil.
  - destruct (byte_sextets x x) as (?&?&_); auto using not_elem_of_nil.
  - destruct (byte_sextets x y) as (?&?&?&_), (byte_sextets y y) as (_&_&_&?&_); auto using not_elem_of_nil.
  - destruct (byte_sextets x y) as (?&?&?&_), (byte_sextets y z) as (_&_&_&?&?&_), (byte_sextets z z) as (_&_&_&_&_&?);
      auto 8.
Qed.

(** A decoder as the one of Node: it skips the characters that are no digits. *)
Module PlainNode.

Definition b64_value (c : Z) : option Z :=
  if in_range 65 90 c then Some (c - 65)
  else if in_range 97 122 c then Some (c - 71)
  else if in_range 48 57 c then Some (c + 4)
  else if (c =? 45) || (c =? 43) then Some 62
  else if (c =? 95) || (c =? 47) then Some 63
  else None.

Fixpoint sextets (l : list Z) : bytes :=
  match l with
  | a :: b :: c :: d :: l => a * 4 + b / 16 :: b mod 16 * 16 + c / 4 :: c mod 4 * 64 + d :: sextets l
  | [a; b; c] => [a * 4 + b / 16; b mod 16 * 16 + c / 4]
  | [a; b] => [a * 4 + b / 16]
  | _ => []
  end.

Definition decode (s : pystr) : bytes := sextets (omap b64_value s).

(** The digests are not needed for the laws: a sum stands for them. *)
#[export] Instance plain_node : NodeRuntime := {
  hmac_sha256 data secret := [foldr Z.add 0 (data ++ secret) mod 256];
  sha256_hex data := str_of_int (foldr Z.add 0 data);
  base64url_decode := decode;
}.

Lemma b64_value_char n : sextet n → b64_value (b64_char n) = Some n.
Proof.
  intros Hn. unfold sextet, b64_value, b64_char, in_range in *.
  repeat case_match; rewrite ?andb_true_iff, ?andb_false_iff, ?orb_true_iff, ?orb_false_iff in *; py_simpl; try lia; f_equal; lia.
Qed.

#[export] Instance plain_node_laws : NodeRuntimeLaws.
Proof.
  split; [|intros; apply Forall_singleton; by apply Z.mod_pos_bound].
  intros b. change (base64url_decode (base64url b)) with (sextets (omap b64_value (base64url b))).
  induction b as [|x|x y|x y z b IH] using b64_ind; intros Hb; cbn [base64url];
    unfold is_bytes in *; rewrite ?Forall_cons in Hb; destruct_and?.
  - done.
  - destruct (byte_sextets x x) as (?&?&_); [done..|]. cbn. rewrite !b64_value_char by done. cbn. f_equal.
    Z.to_euclidean_division_equations; lia.
  - destruct (byte_sextets x y) as (?&?&?&_), (byte_sextets y y) as (_&_&_&?&_); [done..|]. cbn.
    rewrite !b64_value_char by done. cbn. repeat f_equal; Z.to_euclidean_division_equations; lia.
  - destruct (byte_sextets x y) as (?&?&?&_), (byte_sextets y z) as (_&_&_&?&?&_), (byte_sextets z z) as (_&_&_&_&_&?);
      [done..|]. cbn. rewrite !b64_value_char by done. cbn. rewrite <- IH at 2 by done.
    repeat f_equal; Z.to_euclidean_division_equations; lia.
Qed.
End PlainNode.

(** ** What is printed is text *)

Lemma buffer_from_scalar s : scalar_str s → buffer_from s = encode s.
Proof.
  intros Hs. unfold buffer_from. f_equal. induction Hs as [|c s Hc _ IH]; [done|]. simpl. rewrite IH.
  by rewrite bool_decide_eq_true_2.
Qed.

Lemma ascii_scalar c : 0 ≤ c < 128 → is_scalar c.
Proof. unfold is_scalar. lia. Qed.

Lemma escape_js_scalar c : is_scalar c → scalar_str (escape_js c).
Proof.
  assert (∀ n, 0 ≤ n < 16 → is_scalar (hex_digit n)) as Hx.
  { intros n Hn. apply ascii_scalar. unfold hex_digit. case_match; lia. }
  intros Hc. unfold escape_js. assert (in_range 0xD800 0xDFFF c = false) as -> by (apply in_range_false; unfold is_scalar in *; lia).
  unfold escape_raw. destruct (127 <=? c) eqn:E1; py_simpl; [by apply Forall_singleton|].
  unfold escape_char. do 7 (destruct (c =? _); [by_compute|]).
  destruct (_ && _); [by apply Forall_singleton|]. destruct (c <? 0x10000) eqn:E3; py_simpl; [|lia].
  unfold is_scalar in Hc. unfold u_escape, scalar_str. rewrite !Forall_cons.
  split_and!; try (apply ascii_scalar; lia); try apply Forall_nil_2; apply Hx; first [by apply Z.mod_pos_bound|lia|idtac].
  all: Z.to_euclidean_division_equations; lia.
Qed.

Lemma str_of_int_scalar z : scalar_str (str_of_int z).
Proof.
  assert (∀ n, 0 ≤ n → scalar_str (digits n)) as Hd.
  { intros n Hn. eapply Forall_impl; [by apply digits_digit|]. intros c Hc. unfold is_digit in Hc.
    rewrite andb_true_iff, !Z.leb_le in Hc. apply ascii_scalar. lia. }
  unfold str_of_int. destruct (z <? 0) eqn:E; py_simpl; [apply Forall_cons; split; [apply ascii_scalar; lia|]|]; apply Hd; lia.
Qed.

Lemma render_str_scalar s : scalar_str s → scalar_str (render_str tight s).
Proof.
  intros H. apply Forall_cons. split; [by apply ascii_scalar|]. apply Forall_app. split; [|by_compute].
  induction H as [|c s Hc _ IH]; [constructor|]. cbn [map concat]. apply Forall_app.
  split; [by apply escape_js_scalar|done].
Qed.

Lemma render_scalar {JR : JsonRuntime} j : ∀ depth, wf_json j = true → scalar_str (render tight depth j).
Proof.
  induction j as [|b|z|f|s|l Hl|d Hd] using json_ind; intros depth Hj; cbn [render].
  - by_compute.
  - destruct b; by_compute.
  - apply str_of_int_scalar.
  - done.
  - cbn [wf_json] in Hj. by apply bool_decide_eq_true, render_str_scalar in Hj.
  - destruct l as [|x l]; [by_compute|]. cbn [ws_open ws_sep ws_close tight app].
    apply Forall_cons. split; [by apply ascii_scalar|]. apply Forall_app. split; [|by_compute].
    apply join_Forall; [by_compute|]. cbn [wf_json] in Hj. apply Forall_map.
    rewrite forallb_forall in Hj. rewrite Forall_forall in *. intros y Hy.
    apply Hl; [done|]. by apply Hj, list_elem_of_In.
  - destruct d as [|x d]; [by_compute|]. cbn [ws_open ws_sep ws_close ws_colon tight app].
    apply Forall_cons. split; [by apply ascii_scalar|]. apply Forall_app. split; [|by_compute].
    apply join_Forall; [by_compute|]. apply wf_dict_inv in Hj as [_ Hj]. apply Forall_map.
    rewrite Forall_forall in *. intros kv Hkv. destruct (Hj kv Hkv) as [Hk Hv].
    apply Forall_app. split; [by apply render_str_scalar|]. apply Forall_cons. split; [by apply ascii_scalar|].
    by apply Hd.
Qed.

(** ** Signing and verifying *)

Lemma join_split_char_aux sep cur s :
  split_char_aux sep cur s ≠ [] ∧ join [sep] (split_char_aux sep cur s) = rev cur ++ s.
Proof.
  revert cur. induction s as [|c s IH]; intros cur; simpl; [by rewrite app_nil_r|].
  destruct (Z.eqb_spec c sep) as [->|]; [|destruct (IH (c :: cur)) as [? ->]; simpl; by rewrite <- app_assoc].
  split; [done|]. destruct (IH []) as [Hne Hj]. simpl in Hj. destruct (split_char_aux sep [] s); [done|]. by rewrite <- Hj.
Qed.

Lemma join_split_char sep s : join [sep] (split_char sep s) = s.
Proof. apply (join_split_char_aux sep [] s). Qed.

(** A token is accepted only with the signature of its first two parts. *)
Lemma verify_accepts {NR : NodeRuntime} {JS : JsRuntime} token secret now claims :
  verifyJwt token secret now = inr claims →
  ∃ h b s header, token = h ++ period :: b ++ period :: s ∧ (period ∉ h) ∧ (period ∉ b) ∧
    base64url_decode s = hmac (h ++ period :: b) secret ∧
    part_json h = Some header ∧ js_field (u "alg") header = Some (JStr (u "HS256")) ∧
    part_json b = Some claims ∧ expired claims now = false.
Proof.
  unfold verifyJwt. destruct (split_char period token) as [|h [|b [|s []]]] eqn:Hs; try done.
  destruct (part_json h) as [header|] eqn:Hh; [|done].
  pose proof (join_split_char period token) as Hj. rewrite Hs in Hj. simpl in Hj.
  assert ((period ∉ h) ∧ (period ∉ b)) as [Hhf Hbf].
  { split; apply (split_char_elem period token); rewrite Hs; set_solver. }
  intros Hv. exists h, b, s, header.
  destruct header; try done; repeat case_match; simplify_eq;
    repeat match goal with H : negb (bool_decide _) = false |- _ => apply negb_false_iff, bool_decide_eq_true in H end; done.
Qed.

Lemma startswith_app p s : startswith (p ++ s) p = true.
Proof. apply bool_decide_eq_true_2. by eexists. Qed.

Lemma principal_of_subject claims p method :
  principal_of claims = Authenticated_as p method →
  method = ByJwt ∧ js_field (u "sub") claims = Some (JStr (user_id p)) ∧ user_id p ≠ [] ∧ tier p ≠ Anonymous ∧
  (tier p = Premium ↔ js_field (u "tier") claims = Some (JStr (u "premium"))).
Proof.
  unfold principal_of. destruct (subject claims) as [sub|] eqn:Hs; [|done].
  destruct (js_falsy sub) eqn:Hf; [done|]. destruct sub as [| | | |id| |]; try done.
  assert (js_field (u "sub") claims = Some (JStr id)) by (by destruct claims).
  intros [= <- <-]. cbn. case_bool_decide; split_and!; try done; by intros ->.
Qed.

Section Tokens.
Context {NR : NodeRuntime} {NL : NodeRuntimeLaws} {JS : JsRuntime} {JR : JsonRuntime} {JL : JsRuntimeLaws}.

Lemma json_bytes j : wf_json j = true → is_bytes (buffer_from (js_stringify j)).
Proof.
  intros Hj. pose proof (render_scalar j 0 Hj) as Hs. unfold js_stringify. rewrite buffer_from_scalar by done.
  by apply encode_bytes.
Qed.

(** A part of a token is read back. *)
Lemma part_json_printed j : wf_json j = true → js_exact j = true → part_json (base64urlJson j) = Some j.
Proof using NL JL.
  intros Hw He. unfold part_json, base64urlJson. rewrite decode_base64url by by apply json_bytes.
  pose proof (render_scalar j 0 Hw) as Hs. unfold js_stringify. rewrite buffer_from_scalar by done.
  unfold decode_replace. rewrite decode_encode by done. by apply js_parse_stringify.
Qed.

Lemma split_token h b s :
  period ∉ h → period ∉ b → period ∉ s → split_char period (h ++ period :: b ++ period :: s) = [h; b; s].
Proof. intros Hh Hb Hs. rewrite !split_char_app, !split_char_free by done. done. Qed.

Lemma jwt_header_wf : wf_json jwt_header = true ∧ js_exact jwt_header = true.
Proof. split; by vm_compute. Qed.

Lemma verify_signed payload exp now secret secret' now' :
  let claims := JDict (full_payload payload exp (now / 1000)) in
  let data := base64urlJson jwt_header ++ period :: base64urlJson claims in
  wf_json claims = true → js_exact claims = true →
  verifyJwt (signJwt payload secret exp now) secret' now' =
    if bool_decide (hmac data secret' = hmac data secret)
    then if expired claims now' then inl TokenExpired else inr claims
    else inl SignatureMismatch.
Proof using NL JL.
  intros claims data Hw He. destruct jwt_header_wf as [Hhw Hhe]. unfold verifyJwt, signJwt. cbv zeta.
  fold claims. rewrite split_token by (apply period_free; first [by apply json_bytes | apply hmac_is_bytes]).
  rewrite part_json_printed by done. cbn [jwt_header].
  rewrite bool_decide_eq_true_2 by by vm_compute. cbn [negb].
  rewrite decode_base64url by apply hmac_is_bytes. fold jwt_header. fold data.
  case_bool_decide; cbn [negb]; [|done]. rewrite part_json_printed by done. done.
Qed.

(** The claims of the payload, and the expiry, are among those that are signed. *)
Lemma full_payload_get payload exp nowSec k v :
  NoDup (map fst payload) → (k, v) ∈ payload → dict_get k (full_payload payload exp nowSec) = Some v.
Proof. apply dict_update_get_in. Qed.

Lemma full_payload_expired payload s now now' :
  s ≠ 0 → u "exp" ∉ map fst payload →
  expired (JDict (full_payload payload (Some s) (now / 1000))) now' = (now / 1000 + s <=? now' / 1000).
Proof.
  intros Hs Hk. unfold expired, js_field, full_payload. rewrite dict_update_get_out by done.
  destruct (Z.eqb_spec s 0); [done|]. done.
Qed.

End Tokens.

(** ** Properties *)

(** C24: a token this server has signed for a user is accepted by it, and only while it lives.  With the
    token as bearer and no API key, the request is that of the user named by [sub], with the premium
    tier exactly when the payload asks for it, until the clock reaches the second of signing plus
    the lifetime; from then on it is refused with 403. *)
Theorem issued_token_authenticates
    {NR : NodeRuntime} {NL : NodeRuntimeLaws} {JS : JsRuntime} {JR : JsonRuntime} {JL : JsRuntimeLaws}
    cfg get queryToken payload id lifetime now now' :
  let claims := JDict (full_payload payload (Some lifetime) (now / 1000)) in
  wf_json claims = true → js_exact claims = true → NoDup (map fst payload) →
  (u "sub", JStr id) ∈ payload → id ≠ [] → u "exp" ∉ map fst payload → lifetime ≠ 0 →
  truthy (get (u "x-api-key")) = None →
  get (u "authorization") = Some (u "Bearer " ++ signJwt payload (JWT_SECRET cfg) (Some lifetime) now) →
  authenticatePrincipal cfg get queryToken now' =
    if now / 1000 + lifetime <=? now' / 1000 then AuthError 403 (u "Invalid token") (Some TokenExpired)
    else Authenticated_as
      {| user_id := id;
         tier := if bool_decide (js_field (u "tier") claims = Some (JStr (u "premium"))) then Premium else Authenticated |}
      ByJwt.
Proof.
  intros claims Hw He Hnd Hsub Hid Hexp Hl Hkey Hauth. unfold authenticatePrincipal. rewrite Hkey, Hauth.
  unfold bearer_of. rewrite startswith_app.
  replace (drop 7 (u "Bearer " ++ _)) with (signJwt payload (JWT_SECRET cfg) (Some lifetime) now) by done.
  assert (truthy (Some (signJwt payload (JWT_SECRET cfg) (Some lifetime) now)) =
          Some (signJwt payload (JWT_SECRET cfg) (Some lifetime) now)) as ->.
  { unfold signJwt. by destruct (base64urlJson jwt_header). }
  rewrite verify_signed by done. rewrite (bool_decide_eq_true_2 (hmac _ _ = hmac _ _)) by done. rewrite full_payload_expired by done.
  destruct (_ <=? _); [done|]. unfold principal_of. cbn [subject js_field].
  rewrite (full_payload_get _ _ _ _ _ Hnd Hsub). cbn [js_falsy]. by rewrite (bool_decide_eq_false_2 (id = [])).
Qed.

(** C23: nobody is let in without a credential of the kind the answer names.  A principal by API key is one
    of a key of the table, with the tier the table gives it and the key's fingerprint as its name; a
    principal by token has no API key, and its name and tier are those of the claims of a three-part
    token with algorithm HS256 whose signature is the keyed digest of the other two parts and which
    has not expired; the anonymous principal needs the configuration to allow it and neither
    credential.  In particular a wrong key or token never falls back to a weaker credential. *)
Theorem authenticate_sound {NR : NodeRuntime} {JS : JsRuntime} cfg get queryToken now p method :
  authenticatePrincipal cfg get queryToken now = Authenticated_as p method →
  match method with
  | ByApiKey =>
      ∃ key, get (u "x-api-key") = Some key ∧ API_KEY_MAP cfg !! key = Some (tier p) ∧
        user_id p = u "key:" ++ hashKey key
  | ByJwt =>
      truthy (get (u "x-api-key")) = None ∧
      ∃ h b s header claims,
        bearer_of (get (u "authorization")) queryToken = Some (h ++ period :: b ++ period :: s) ∧
        base64url_decode s = hmac (h ++ period :: b) (JWT_SECRET cfg) ∧
        part_json h = Some header ∧ js_field (u "alg") header = Some (JStr (u "HS256")) ∧
        part_json b = Some claims ∧ expired claims now = false ∧
        js_field (u "sub") claims = Some (JStr (user_id p)) ∧ user_id p ≠ [] ∧ tier p ≠ Anonymous ∧
        (tier p = Premium ↔ js_field (u "tier") claims = Some (JStr (u "premium")))
  | ByNobody =>
      ALLOW_ANONYMOUS cfg = true ∧ truthy (get (u "x-api-key")) = None ∧
      truthy (bearer_of (get (u "authorization")) queryToken) = None ∧
      p = {| user_id := u "anonymous"; tier := Anonymous |}
  end.
Proof.
  unfold authenticatePrincipal. destruct (truthy (get (u "x-api-key"))) as [key|] eqn:Hkey.
  - assert (get (u "x-api-key") = Some key) as Hget.
    { destruct (get (u "x-api-key")) as [[|]|]; simplify_eq/=; done. }
    destruct (API_KEY_MAP cfg !! key) eqn:Hm; [|done]. intros [= <- <-]. by exists key.
  - destruct (truthy (bearer_of _ _)) as [bearer|] eqn:Hb.
    + assert (bearer_of (get (u "authorization")) queryToken = Some bearer) as Hget.
      { destruct (bearer_of _ _) as [[|]|]; simplify_eq/=; done. }
      destruct (verifyJwt _ _ _) as [|claims] eqn:Hv; [done|].
      apply verify_accepts in Hv as (h & b & s & header & -> & _ & _ & Hsig & Hh & Halg & Hc & Hexp).
      intros (Hm & Hsub & Hid & Hanon & Htier)%principal_of_subject. subst method. split; [done|].
      by exists h, b, s, header, claims.
    + destruct (ALLOW_ANONYMOUS cfg) eqn:Ha; [|done]. intros [= <- <-]. done.
Qed.

(** ** Example *)

Module ExampleAuth.
#[local] Existing Instances PlainJson.plain_json PlainJs.plain_js PlainJs.plain_js_laws PlainNode.plain_node
  PlainNode.plain_node_laws.

Definition cfg : AuthConfig :=
  {| API_KEY_MAP := api_key_map (u " k1:premium, k2 ,:premium,k3:admin:premium"); JWT_SECRET := u "a secret";
     ALLOW_ANONYMOUS := false |}.

Lemma keys :
  map (λ k, API_KEY_MAP cfg !! u k) ["k1"; "k2"; "k3"; "premium"; ""] =
    [Some Premium; Some Authenticated; Some Authenticated; None; None].
Proof. by vm_compute. Qed.

Definition payload : list (pystr * json) := [(u "sub", JStr (u "me")); (u "tier", JStr (u "premium"))].

Definition get (name : pystr) : option pystr :=
  if name =s u "authorization" then Some (u "Bearer " ++ signJwt payload (u "a secret") (Some 60) 1000000) else None.

Lemma issued_token_authenticates_witness :
  authenticatePrincipal cfg get None 1059999 = Authenticated_as {| user_id := u "me"; tier := Premium |} ByJwt.
Proof.
  refine (issued_token_authenticates cfg get None payload (u "me") 60 1000000 1059999 _ _ _ _ _ _ _ _ _).
  - by vm_compute.
  - by vm_compute.
  - by_compute.
  - by left.
  - done.
  - by_compute.
  - done.
  - done.
  - done.
Defined.

Lemma authenticate_sound_witness :
  authenticatePrincipal cfg get None 1059999 = Authenticated_as {| user_id := u "me"; tier := Premium |} ByJwt ∧
  truthy (get (u "x-api-key")) = None.
Proof.
  assert (authenticatePrincipal cfg get None 1059999 = Authenticated_as {| user_id := u "me"; tier := Premium |} ByJwt)
    as H by (by vm_compute).
  split; [exact H|]. exact (proj1 (authenticate_sound cfg get None 1059999 _ _ H)).
Defined.

End ExampleAuth.
